(* ===== verification/_CoqProject ===== *)
-Q . S2P
Prelude.v
Memory.v
Pod.v
Abi.v
Types.v
AbiOther.v
DirentWriter.v
Filesystem.v
Replier.v
Handlers.v
HandlerSafety.v
Callbacks.v
Request.v
Compound.v
Tracing.v
Refusals.v
Negotiation.v
UringEntry.v
UringWorker.v
Simulation.v
InodeTable.v
Passthrough.v
PassthroughSafety.v
DirectoryListing.v
DaemonTrace.v
Backing.v
MirrorSpec.v
Mirror.v
PathWalk.v
Visible.v
Attributes.v
Mount.v
Session.v
SessionSpec.v
Lifecycle.v
MirrorSession.v
SessionFds.v
Program.v
SharedTable.v
Threads.v
ThreadedDaemon.v
ThreadedEquiv.v
Ownership.v
Interleaving.v
KernelProtocol.v
OwnedFd.v
Process.v
