(* ===== verification/Prelude.v ===== *)
(** * libfex: a verification development

    libfex is a C++ library for writing FUSE-x filesystem daemons, with a
    passthrough daemon as its example. This development models the library and
    the daemon and proves what makes them correct.

    ** The program

    A daemon implements [fex::Filesystem] (include/fex/filesystem.hpp). A
    [Session] (src/session.cpp) opens /dev/fuse, mounts the filesystem in two
    phases (src/mount.cpp) and runs one io_uring worker per queue
    (src/uring_worker.cpp). The kernel puts a request into an entry of a ring;
    the worker assembles it, [dispatch] (src/handlers.cpp) decodes it, calls one
    virtual method, and lays out the reply (src/session_impl.hpp, src/reply.cpp)
    in the same entry, which the worker commits. The passthrough daemon
    (examples/passthrough.cpp) answers the methods with system calls on a
    backing directory. The wire formats are those of include/fex/fuse_uapi.h.

    ** Files, and the code they model

    - Prelude, Memory, Pod: outcomes (a result or an access outside an object),
      [std::expected], byte spans with checked loads and stores, and C structs
      with their layout, encoding and decoding.
    - Abi: the structs, opcodes and constants of fuse_uapi.h that the library
      uses. AbiOther: the rest of that header. Types: types.hpp and
      [SessionOptions].
    - DirentWriter: reply.cpp. Filesystem: the virtual methods over a daemon's
      state, their default bodies, and [LawfulFs], what the dispatcher relies on.
      Replier: session_impl.hpp. Handlers: every handler of handlers.cpp,
      compound requests and the switch.
    - HandlerSafety, Request, Compound, Refusals, Negotiation: results on
      [dispatch]. Callbacks: a property that every callback keeps is kept by
      every request. Simulation: daemons that answer callbacks alike answer
      requests alike, down to the bytes in the rings. Tracing: [handle_compound] with
      the line it prints under FEX_DEBUG.
    - UringEntry: a ring entry and [handle_one]. UringWorker: [start], the
      completion loop [run] and [teardown].
    - InodeTable: the daemon's inode table. Passthrough: every callback of
      [PassthroughFs]. PassthroughSafety, DirectoryListing: results on them.
      DaemonTrace: the lines they print under FEX_DEBUG, and the usage text.
    - Backing: system calls on files instead of descriptors, and what the manual
      pages say of descriptors ([Descriptors]). MirrorSpec: the specification of
      the passthrough daemon, a daemon that holds the files themselves. Mirror:
      the passthrough daemon refines it. PathWalk: what paths lead to. Visible,
      Attributes: that changes made through the mount are seen through it.
    - Mount, Session: UniqueFd, the mount phases, [Session::run] with its
      destructors, and [stop]. SessionSpec, SessionFds: results on traces.
      Lifecycle: [Session::run], the workers and the kernel side by side, from
      the launch of the workers to the return. MirrorSession: such a session over
      the passthrough daemon refines one over its specification.
      OwnedFd: programs over variables of the two owning classes, UniqueFd and
      the example's Fd.
    - Program: the command line of the example and its start in the background.
      Process: the same [main] with the process it runs in: descriptors,
      destructors, stdio, signal handlers and the session's lifetime.
    - SharedTable: the inode table as a map of [shared_ptr<Inode>] with their
      counts. Threads: the locks, the state the workers share, atomic actions
      on it and programs of such actions. ThreadedDaemon: every callback of
      [PassthroughFs] as such a program, prefixed [mt_]. ThreadedEquiv,
      Ownership, Interleaving, KernelProtocol: results on them.

    Definitions have the names of the code where they can; callbacks of the
    daemon are prefixed [pt_], methods of the session [session_]. Members of a
    class are fields of a record; methods take and return it. An integer of the
    code is a [Z]; where a value is stored, cast or may wrap, the width is
    written ([cast], [wrapu]).

    ** What the theorems show

    - Memory safety: for every request in order, dispatch and [handle_one]
      return without touching memory outside the body and the reply buffer
      (HandlerSafety, UringEntry, DirentWriter); the exceptions are stated as
      theorems (REMOVEXATTR with a bad extension length, a payload size beyond
      the payload area).
    - Functional correctness: on the bytes of any well-formed request, the
      dispatcher makes exactly the callback the protocol asks for and leaves
      exactly its answer ([dispatch_refines]); compound requests behave as a
      reference semantics with dependencies between subrequests
      ([compound_refines]); the same through a ring entry
      ([ring_request_served]). Malformed requests are refused without a
      callback (Refusals). INIT and statx data are as negotiated (Negotiation).
    - The worker: along any completions every slot and the stop poll is in
      exactly one place, however few entries a submit takes; if no submit falls
      short the stop poll is armed and ends the loop; a request is answered in its
      slot and the answer committed under its id ([slot_request_served]); and
      teardown gives back what start took.
    - The daemon: the table's lookup counts are the kernel's; every request
      leaves alive exactly the descriptors and streams of its tables; a
      directory read in pages is seen once and in order; handles and stale
      nodes behave as documented.
    - The daemon as a mirror: through the dispatcher, the rings and the workers of
      a session, which serve requests one at a time in any order, it cannot be told
      apart from a daemon that holds the files themselves
      ([session_mirrors_backing]), so no descriptor is ever used for another
      file than the one it was opened for; and a path walked from the root
      arrives at the file it leads to in the backing directory
      ([path_reaches_file]). What a client creates, renames, links or removes it
      finds so, what it writes it reads back in full, and attributes it sets it sees
      ([changes_are_visible], [write_read_roundtrip], [setstatx_visible]). A file
      with inode number 1 is taken for the root. The owner of a file that is not
      open, and extended attributes, are set on a link in /proc instead of the
      file ([link_requests_miss_file]).
    - Threads: any number of workers run callbacks, in any interleaving of their
      atomic actions. There is no data race and no pointer to a destroyed inode
      ([threads_race_free]), nothing leaks or is closed twice
      ([threads_own_descriptors]), there is no deadlock and every request can be
      answered ([requests_complete]), and the shared table behaves as the
      sequential one ([table_linearizes]). With a kernel that sends requests in
      the order it should, counts are the kernel's and system calls work on open
      descriptors (KernelProtocol; two executions show what goes wrong without
      that order). Run alone, a program does what the callback does as a function
      ([threaded_callback_equiv]).
    - The session: effects come in the order the kernel needs whatever fails and
      whenever [stop] is called; no mount is left unless umount2 refuses; every
      descriptor is closed once. A [stop] before the eventfd exists is lost. With
      the workers and the kernel at its side it comes to rest, whatever comes from
      outside: once mounted, requests are served, and a stop or an unmount makes
      [run] return, with the error of a worker that failed; before that, CMD_CREATE
      is answered unless the worker it waits for fails or is stopped
      ([session_settles]). A worker that fails ends alone: its queue is not served
      any more, and [run] goes on waiting for the others
      ([worker_error_unreported]). A [stop] or a failure while CMD_CREATE waits can
      leave [run] there for ever ([mount_wait_hangs]). The two models of [run], by
      effects and by threads, take the same branches to the same result
      ([run_agrees]).
    - The program: the command line is parsed to what it says, and a background
      start reports success exactly when the mount became visible. Its process
      closes what it opened but for directory streams still open at the end,
      serves with stdio redirected and the backing directory untouched, and calls
      [stop] on a signal; a signal in the last moments of [main] finds the handler's
      pointer dangling.
    - The rest of the wire interface: no struct has hidden padding, older forms
      of a message decode to the same values, flags are distinct, and the
      library's public constants are those of the wire (AbiOther).

    ** The outside

    The kernel, liburing and the C library are parameters. A daemon's callbacks
    are an arbitrary [Filesystem S]; the passthrough daemon's system calls are a
    function [sys] on an arbitrary state; the session's calls have arbitrary
    results. What is assumed of them is stated in classes and hypotheses
    ([LawfulFs], [SysLaws], [DirStream], [Descriptors], [Inodes], [Names],
    [Symlinks], [Contents], [Attrs], [Links], [event_ok], [request_ok]), each with
    an instance in the witnesses.

    ** Bounds

    Recursion that is not structural carries fuel. [dispatch] is two levels
    deep: a compound refuses compounds ([dispatch_depth_enough]). A compound's
    loop has as much fuel as the body has bytes, and consumes at least 44 per
    round. The directory loop has as much as the buffer has bytes, and an entry
    takes at least 24. A client that writes or reads all of [n] bytes needs at most
    [n] rounds. Running out would be a fault or an error of the model;
    the theorems show the result is reached. Payload areas are taken below
    2^32 - 16 bytes where the reply's 32-bit length field must hold the length.
    The steps of a session's threads are bounded by [left_to_do].

    ** What is not modelled

    Alignment of the structs cast over byte buffers; interleaving inside the
    dispatcher and the workers (they share nothing but the daemon, the session's
    flags and the stop eventfd; in Lifecycle an iteration of a worker is one
    step); submits in Lifecycle that take fewer entries than given (UringWorker
    has them); a full descriptor table, and a close that fails, in Mirror; a backing
    filesystem that other processes change between two calls is an arbitrary [sys],
    but the calls of a thread are atomic; exceptions ([std::bad_alloc]); the messages on errors, and
    the errno that printing may change; the umbrella header and abi.h, which only
    include; declarations, whose definitions are modelled. *)

From Stdlib Require Export ZArith Lia ZifyBool.
From Stdlib Require Strings.Byte.
From stdpp Require Export base tactics list numbers option.
From coqutil Require Export Byte.

#[global] Open Scope Z_scope.
#[global] Set Default Goal Selector "!".

(** ** Outcomes: a C++ computation that either finishes or performs an access
    outside the object it was given. *)

Inductive fault : Set :=
| OobRead       (* a load outside the bytes of a span *)
| OobWrite      (* a store outside the bytes of a span *)
| DepthExceeded (* the model's recursion bound, never reached *).

Inductive outcome (A : Type) : Type :=
| Done (a : A)
| Fault (f : fault).
Arguments Done {A} a.
Arguments Fault {A} f.

Definition obind {A B} (m : outcome A) (k : A -> outcome B) : outcome B :=
  match m with
  | Done a => k a
  | Fault f => Fault f
  end.

Declare Scope outcome_scope.
Delimit Scope outcome_scope with outcome.
Notation "'let*' x ':=' e 'in' k" := (obind e (fun x => k))
  (at level 10, x pattern, e at level 200, k at level 200)
  : outcome_scope.
#[global] Open Scope outcome_scope.

(** [std::expected<T, std::errc>]: a value or an errno. *)
Inductive expected (A : Type) : Type :=
| Value (a : A)
| Unexpected (e : Z).
Arguments Value {A} a.
Arguments Unexpected {A} e.

(** Lengths as [size_t]. *)
Definition zlen {A} (l : list A) : Z := Z.of_nat (length l).
Arguments zlen : simpl never.

(** Reduction of a mathematical integer to an unsigned type of [w] bits. *)
Definition wrapu (w z : Z) : Z := z mod 2 ^ w.
Arguments wrapu : simpl never.

#[export] Instance byte_eq_dec : EqDecision Byte.byte := Byte.byte_eq_dec.

(** ** Automation *)

Create HintDb fex.
Create Rewrite HintDb zlen.

Lemma obind_Done {A B} (a : A) (k : A -> outcome B) : obind (Done a) k = k a.
Proof. reflexivity. Qed.

Lemma obind_assoc {A B C} (m : outcome A) (k : A -> outcome B) (l : B -> outcome C) :
  obind (obind m k) l = obind m (fun a => obind (k a) l).
Proof. by destruct m. Qed.

Lemma obind_Done_inv {A B} (m : outcome A) (k : A -> outcome B) b :
  obind m k = Done b -> exists a, m = Done a /\ k a = Done b.
Proof. destruct m; [eauto | discriminate]. Qed.

Lemma wrapu_small w z : 0 <= z < 2 ^ w -> wrapu w z = z.
Proof. intros. by apply Z.mod_small. Qed.

Lemma wrapu_range w z : 0 <= w -> 0 <= wrapu w z < 2 ^ w.
Proof. intros. apply Z.mod_pos_bound. lia. Qed.

Lemma zlen_nonneg {A} (l : list A) : 0 <= zlen l.
Proof. unfold zlen. lia. Qed.

Lemma zlen_nil {A} : zlen (@nil A) = 0.
Proof. reflexivity. Qed.

Lemma zlen_cons {A} (x : A) l : zlen (x :: l) = 1 + zlen l.
Proof. unfold zlen. simpl. lia. Qed.

Lemma zlen_app {A} (l k : list A) : zlen (l ++ k) = zlen l + zlen k.
Proof. unfold zlen. rewrite length_app. lia. Qed.

Lemma zlen_take {A} (n : Z) (l : list A) :
  zlen (take (Z.to_nat n) l) = Z.min (Z.max 0 n) (zlen l).
Proof. unfold zlen. rewrite length_take. lia. Qed.

Lemma zlen_drop {A} (n : Z) (l : list A) :
  zlen (drop (Z.to_nat n) l) = Z.max 0 (zlen l - Z.max 0 n).
Proof. unfold zlen. rewrite length_drop. lia. Qed.

Lemma zlen_replicate {A} (n : Z) (x : A) : zlen (replicate (Z.to_nat n) x) = Z.max 0 n.
Proof. unfold zlen. rewrite length_replicate. lia. Qed.

#[export] Hint Rewrite @zlen_nil @zlen_cons @zlen_app @zlen_take @zlen_drop
  @zlen_replicate : zlen.

(** [zl] normalises lengths and calls [lia]; every length is known nonnegative. *)
Ltac pose_zlen :=
  repeat match goal with
  | |- context [zlen ?l] =>
      lazymatch goal with
      | _ : 0 <= zlen l |- _ => fail
      | _ => pose proof (zlen_nonneg l)
      end
  | H : context [zlen ?l] |- _ =>
      lazymatch goal with
      | _ : 0 <= zlen l |- _ => fail
      | _ => pose proof (zlen_nonneg l)
      end
  end.
Ltac zl := autorewrite with zlen in *; pose_zlen; lia.

(** The side conditions of conditional length rewrites: the goal alone is
    normalised, so the rewriting terminates. *)
Ltac zlen_side := first [pose_zlen; lia | autorewrite with zlen; pose_zlen; lia].

(** Splits one [if] of the goal on its boolean test. *)
Ltac case_if :=
  match goal with
  | |- context [if ?b then _ else _] =>
      lazymatch b with
      | context [if _ then _ else _] => fail
      | _ => let E := fresh "E" in destruct b eqn:E
      end
  end.

Ltac case_if_in H :=
  match type of H with
  | context [if ?b then _ else _] =>
      lazymatch b with
      | context [if _ then _ else _] => fail
      | _ => let E := fresh "E" in destruct b eqn:E
      end
  end.

(** ** Lists as multisets *)

(** Removes one occurrence. *)
Fixpoint take_out {A} `{EqDecision A} (x : A) (l : list A) : option (list A) :=
  match l with
  | [] => None
  | y :: l' => if decide (x = y) then Some l' else cons y <$> take_out x l'
  end.

Lemma take_out_perm {A} `{EqDecision A} (x : A) l l' : l ≡ₚ x :: l' -> exists l1, take_out x l = Some l1 /\ l1 ≡ₚ l'.
Proof.
  intros Hl. assert (Hin : x ∈ l) by (rewrite Hl; left).
  assert (H : exists l1, take_out x l = Some l1 /\ l ≡ₚ x :: l1).
  { clear Hl. induction l as [|y l IH]; [by apply not_elem_of_nil in Hin|]. simpl.
    case_decide as Hx; [subst; by exists l|]. apply elem_of_cons in Hin as [?|Hin]; [done|].
    destruct (IH Hin) as (l1 & -> & Hp). exists (y :: l1). split; [done|].
    rewrite Hp. apply Permutation_swap. }
  destruct H as (l1 & Ht & Hp). exists l1. split; [done|].
  apply (Permutation_cons_inv (a := x)). by rewrite <- Hp.
Qed.
