(* ===== verification/Memory.v ===== *)
(** * Byte spans: loads, stores and [strnlen]

    A pointer-and-length pair of the source ([body, body_len], [r.out, r.cap])
    is the list of the bytes it covers. An access outside them is a [Fault]. *)

From S2P Require Import Prelude.
From coqutil Require Export Word.LittleEndianList.

Abbreviation bytes := (list byte).

(** ** Definitions *)

Definition in_bounds (m : bytes) (off n : Z) : bool :=
  (0 <=? off) && (0 <=? n) && (off + n <=? zlen m).

(** The bytes of the [n]-byte object at offset [off]. *)
Definition sub_bytes (m : bytes) (off n : Z) : bytes :=
  take (Z.to_nat n) (drop (Z.to_nat off) m).

Definition slice (m : bytes) (off n : Z) : outcome bytes :=
  if in_bounds m off n then Done (sub_bytes m off n) else Fault OobRead.

(** [memcpy(m + off, src, size)]. *)
Definition splice (m : bytes) (off : Z) (src : bytes) : bytes :=
  take (Z.to_nat off) m ++ src ++ drop (Z.to_nat (off + zlen src)) m.

Definition store (m : bytes) (off : Z) (src : bytes) : outcome bytes :=
  if in_bounds m off (zlen src) then Done (splice m off src) else Fault OobWrite.

Definition zero_bytes (n : Z) : bytes := replicate (Z.to_nat n) Byte.x00.

Definition is_nul (b : byte) : bool := Byte.eqb b Byte.x00.

(** [strnlen(3)]: the scan reads byte after byte and stops at a NUL or after
    [maxlen] bytes. *)
Fixpoint nul_scan (l : bytes) (maxlen : Z) : outcome Z :=
  if maxlen <=? 0 then Done 0 else
  match l with
  | [] => Fault OobRead
  | b :: l' =>
      if is_nul b then Done 0
      else let* n := nul_scan l' (maxlen - 1) in Done (1 + n)
  end.

Definition strnlen (m : bytes) (off maxlen : Z) : outcome Z :=
  if in_bounds m off 0 then nul_scan (drop (Z.to_nat off) m) maxlen
  else Fault OobRead.

(** A byte string without a NUL: what a C string of the kernel can hold. *)
Definition no_nul (s : bytes) : Prop := Forall (fun b => is_nul b = false) s.

(** ** Lemmas on spans *)

Lemma in_bounds_true m off n :
  in_bounds m off n = true <-> 0 <= off /\ 0 <= n /\ off + n <= zlen m.
Proof. unfold in_bounds. lia. Qed.

Lemma zlen_sub_bytes m off n :
  0 <= off -> 0 <= n -> off + n <= zlen m -> zlen (sub_bytes m off n) = n.
Proof. intros. unfold sub_bytes. zl. Qed.

Lemma slice_Done m off n :
  0 <= off -> 0 <= n -> off + n <= zlen m -> slice m off n = Done (sub_bytes m off n).
Proof. intros. unfold slice. by rewrite (proj2 (in_bounds_true m off n)). Qed.

Lemma slice_Fault m off n : 0 <= n -> zlen m < off + n -> slice m off n = Fault OobRead.
Proof. intros. unfold slice. case_if; [|done]. apply in_bounds_true in E. lia. Qed.

Lemma slice_Done_inv m off n b :
  slice m off n = Done b ->
  b = sub_bytes m off n /\ 0 <= off /\ 0 <= n /\ off + n <= zlen m /\ zlen b = n.
Proof.
  unfold slice. case_if; [|discriminate]. intros [= <-].
  apply in_bounds_true in E as (?&?&?). by rewrite zlen_sub_bytes.
Qed.

Lemma store_Done m off src :
  0 <= off -> off + zlen src <= zlen m -> store m off src = Done (splice m off src).
Proof.
  intros. unfold store. rewrite (proj2 (in_bounds_true m off _)); [done|].
  pose_zlen. lia.
Qed.

Lemma zlen_splice m off src :
  0 <= off -> off + zlen src <= zlen m -> zlen (splice m off src) = zlen m.
Proof. intros. unfold splice. zl. Qed.

Lemma zlen_zero_bytes n : 0 <= n -> zlen (zero_bytes n) = n.
Proof. intros. unfold zero_bytes. zl. Qed.

Lemma take_zlen_app (l k : bytes) n : n = zlen l -> take (Z.to_nat n) (l ++ k) = l.
Proof. intros ->. unfold zlen. rewrite Nat2Z.id. by rewrite take_app_length. Qed.

Lemma drop_zlen_app (l k : bytes) n : n = zlen l -> drop (Z.to_nat n) (l ++ k) = k.
Proof. intros ->. unfold zlen. rewrite Nat2Z.id. by rewrite drop_app_length. Qed.

(** The middle of a concatenation. *)
Lemma sub_bytes_mid (a b c : bytes) off n :
  off = zlen a -> n = zlen b -> sub_bytes (a ++ b ++ c) off n = b.
Proof. intros. unfold sub_bytes. by rewrite drop_zlen_app, take_zlen_app. Qed.

Lemma sub_bytes_all m n : n = zlen m -> sub_bytes m 0 n = m.
Proof.
  intros ->. unfold sub_bytes, zlen. rewrite Nat2Z.id. simpl.
  by rewrite take_ge.
Qed.

Lemma slice_mid (a b c : bytes) off n :
  off = zlen a -> n = zlen b -> slice (a ++ b ++ c) off n = Done b.
Proof.
  intros Ho Hn. rewrite slice_Done; [|zl..]. by rewrite sub_bytes_mid.
Qed.

Lemma slice_last (a b : bytes) off n :
  off = zlen a -> n = zlen b -> slice (a ++ b) off n = Done b.
Proof. intros. rewrite <- (app_nil_r b) at 1. by apply slice_mid. Qed.

#[export] Hint Rewrite zlen_sub_bytes zlen_splice zlen_zero_bytes using zlen_side : zlen.

(** A buffer seen as the part before an object, the object and the rest. *)
Lemma split_mid (m : bytes) off n :
  0 <= off -> 0 <= n -> off + n <= zlen m ->
  exists a b c, m = a ++ b ++ c /\ zlen a = off /\ zlen b = n.
Proof.
  intros. exists (take (Z.to_nat off) m), (sub_bytes m off n), (drop (Z.to_nat (off + n)) m).
  split; [|zl]. unfold sub_bytes.
  replace (Z.to_nat (off + n)) with (Z.to_nat off + Z.to_nat n)%nat by lia.
  by rewrite <- drop_drop, take_drop, take_drop.
Qed.

Lemma splice_mid (a b c src : bytes) off :
  off = zlen a -> zlen src = zlen b -> splice (a ++ b ++ c) off src = a ++ src ++ c.
Proof.
  intros -> Hs. unfold splice. rewrite take_zlen_app by done.
  rewrite (app_assoc a b c), drop_zlen_app by zl. done.
Qed.

Lemma splice_last (a b src : bytes) off :
  off = zlen a -> zlen src = zlen b -> splice (a ++ b) off src = a ++ src.
Proof.
  intros. rewrite <- (app_nil_r b), splice_mid by zl. by rewrite app_nil_r.
Qed.

(** Adjacent stores are one. *)
Lemma splice_splice_adjacent m off a b :
  0 <= off -> off + zlen a + zlen b <= zlen m ->
  splice (splice m off a) (off + zlen a) b = splice m off (a ++ b).
Proof.
  intros. destruct (split_mid m off (zlen a + zlen b)) as (p & q & s & -> & Hp & Hq); [zl..|].
  destruct (split_mid q 0 (zlen a)) as (q0 & qa & qb & -> & Hq0 & Hqa); [zl..|].
  destruct q0; [|zl]. cbn [app] in *. autorewrite with zlen in *.
  rewrite <- app_assoc. rewrite (splice_mid p qa), (app_assoc p a) by lia.
  rewrite (splice_mid (p ++ a) qb) by zl.
  rewrite <- !app_assoc, (app_assoc qa qb). rewrite (splice_mid p (qa ++ qb)) by zl.
  by rewrite <- !app_assoc.
Qed.

Lemma take_splice m off src :
  0 <= off -> off + zlen src <= zlen m ->
  take (Z.to_nat (off + zlen src)) (splice m off src) = take (Z.to_nat off) m ++ src.
Proof.
  intros. unfold splice. rewrite app_assoc. apply take_zlen_app. zl.
Qed.

Lemma drop_splice m off src :
  0 <= off -> off + zlen src <= zlen m ->
  drop (Z.to_nat (off + zlen src)) (splice m off src) = drop (Z.to_nat (off + zlen src)) m.
Proof.
  intros. unfold splice. rewrite app_assoc. apply drop_zlen_app. zl.
Qed.

(** Reading back what was stored. *)
Lemma slice_splice m off src n :
  0 <= off -> off + zlen src <= zlen m -> n = zlen src ->
  slice (splice m off src) off n = Done src.
Proof. intros. unfold splice. apply slice_mid; [zl|done]. Qed.

(** ** Lemmas on [strnlen] *)

Lemma nul_scan_bounds l maxlen :
  maxlen <= zlen l ->
  exists n, nul_scan l maxlen = Done n /\ 0 <= n <= Z.max 0 maxlen.
Proof.
  revert maxlen. induction l as [|b l IH]; intros maxlen Hm; simpl.
  - rewrite zlen_nil in Hm. case_if; [exists 0; split; [done|lia] | lia].
  - rewrite zlen_cons in Hm. case_if; [exists 0; split; [done|lia]|].
    case_if; [exists 0; split; [done|lia]|].
    destruct (IH (maxlen - 1)) as (n & -> & ?); [lia|].
    exists (1 + n). split; [done|lia].
Qed.

Lemma strnlen_bounds m off maxlen :
  0 <= off -> 0 <= maxlen -> off + maxlen <= zlen m ->
  exists n, strnlen m off maxlen = Done n /\ 0 <= n <= maxlen.
Proof.
  intros. unfold strnlen. rewrite (proj2 (in_bounds_true m off 0)); [|lia].
  destruct (nul_scan_bounds (drop (Z.to_nat off) m) maxlen) as (n & -> & ?); [zl|].
  exists n. split; [done|lia].
Qed.

Lemma nul_scan_string s rest maxlen :
  no_nul s -> zlen s < maxlen ->
  nul_scan (s ++ Byte.x00 :: rest) maxlen = Done (zlen s).
Proof.
  revert maxlen. induction s as [|b s IH]; intros maxlen Hs Hm; simpl.
  - rewrite zlen_nil in Hm. case_if; [lia | done].
  - rewrite zlen_cons in *. inversion_clear Hs as [|? ? Hb Hs'].
    pose proof (zlen_nonneg s). case_if; [lia|]. rewrite Hb.
    rewrite IH; [done..|lia].
Qed.

(** [strnlen] finds exactly the C string that lies at the offset. *)
Lemma strnlen_string pre s rest off maxlen :
  no_nul s -> off = zlen pre -> zlen s < maxlen ->
  strnlen (pre ++ s ++ Byte.x00 :: rest) off maxlen = Done (zlen s).
Proof.
  intros Hs -> Hm. unfold strnlen. rewrite (proj2 (in_bounds_true _ _ 0)); [|zl].
  rewrite drop_zlen_app; [|done]. by apply nul_scan_string.
Qed.

(** A span without NUL is scanned to its limit. *)
Lemma nul_scan_no_nul s maxlen :
  no_nul s -> 0 <= maxlen <= zlen s -> nul_scan s maxlen = Done maxlen.
Proof.
  revert maxlen. induction s as [|b s IH]; intros maxlen Hs Hm; simpl.
  - unfold zlen in Hm. simpl in Hm. case_if; [f_equal; lia | lia].
  - rewrite zlen_cons in Hm. inversion_clear Hs as [|? ? Hb Hs'].
    case_if; [f_equal; lia|]. rewrite Hb, IH; [|done|lia]. simpl. f_equal. lia.
Qed.

Lemma strnlen_no_nul pre s off :
  no_nul s -> off = zlen pre -> strnlen (pre ++ s) off (zlen s) = Done (zlen s).
Proof.
  intros Hs ->. unfold strnlen. rewrite (proj2 (in_bounds_true _ _ 0)); [|zl].
  rewrite drop_zlen_app; [|done]. apply nul_scan_no_nul; [done|zl].
Qed.

