(* ===== verification/Pod.v ===== *)
(** * Plain-old-data structs of the wire

    The kernel interface (include/fex/fuse_uapi.h) is a set of C structs of
    fixed-width scalars. A struct is described by the list of its scalar types
    in declaration order; [sizeof], loads and the object representation follow
    from that list. The class [Pod] ties a Rocq record to its list. *)

From S2P Require Import Prelude Memory.

(** ** Scalars *)

Inductive cty : Set := U8 | U16 | U32 | U64 | I32 | I64.

Definition width (t : cty) : nat :=
  match t with
  | U8 => 1
  | U16 => 2
  | U32 | I32 => 4
  | U64 | I64 => 8
  end.

Definition bits (t : cty) : Z := 8 * Z.of_nat (width t).

Definition is_signed (t : cty) : bool :=
  match t with
  | I32 | I64 => true
  | _ => false
  end.

(** The values of the type. *)
Definition fits (t : cty) (z : Z) : Prop :=
  if is_signed t then - 2 ^ (bits t - 1) <= z < 2 ^ (bits t - 1)
  else 0 <= z < 2 ^ bits t.

Arguments fits : simpl never.

(** Two's complement: the value of a [bits t]-bit pattern. *)
Definition of_pattern (t : cty) (z : Z) : Z :=
  if is_signed t && (2 ^ (bits t - 1) <=? z) then z - 2 ^ bits t else z.

(** Conversion of an integer to the type ([static_cast] on this ABI). *)
Definition cast (t : cty) (z : Z) : Z := of_pattern t (wrapu (bits t) z).
Arguments cast : simpl never.

(** Object representation, little endian. *)
Definition enc_scalar (t : cty) (z : Z) : bytes := le_split (width t) z.
Definition dec_scalar (t : cty) (b : bytes) : Z := of_pattern t (le_combine b).

(** ** Structs as lists of scalars *)

Fixpoint enc_fields (ts : list cty) (vs : list Z) : bytes :=
  match ts with
  | [] => []
  | t :: ts' => enc_scalar t (hd 0 vs) ++ enc_fields ts' (tl vs)
  end.

Fixpoint dec_fields (ts : list cty) (b : bytes) : list Z :=
  match ts with
  | [] => []
  | t :: ts' => dec_scalar t (take (width t) b) :: dec_fields ts' (drop (width t) b)
  end.

Definition layout_size (ts : list cty) : nat := list_sum (map width ts).

(** The size and alignment rules of the C ABI (each scalar aligned to its own
    size, the struct padded to its largest alignment). *)
Definition round_up (n a : Z) : Z := (n + a - 1) / a * a.

Fixpoint c_end (off : Z) (ts : list cty) : Z :=
  match ts with
  | [] => off
  | t :: ts' => c_end (round_up off (Z.of_nat (width t)) + Z.of_nat (width t)) ts'
  end.

Definition c_sizeof (ts : list cty) : Z :=
  round_up (c_end 0 ts) (foldr Z.max 1 (map (fun t => Z.of_nat (width t)) ts)).

(** ** The class of wire structs *)

Class Pod (T : Type) := {
  layout : list cty;
  to_fields : T -> list Z;
  of_fields : list Z -> T;
  of_to_fields : forall x, of_fields (to_fields x) = x;
  to_of_fields : forall l, length l = length layout -> to_fields (of_fields l) = l;
}.
Arguments layout T {_}.

Section Codec.
Context {T : Type} `{Pod T}.

Definition encode (x : T) : bytes := enc_fields (layout T) (to_fields x).
Definition decode (b : bytes) : T := of_fields (dec_fields (layout T) b).

(** Every field holds a value of its type. *)
Definition in_range (x : T) : Prop := Forall2 fits (layout T) (to_fields x).

(** [T{}]: value initialisation zeroes every field. *)
Definition value_init : T := of_fields (replicate (length (layout T)) 0).
End Codec.

#[global] Arguments encode : simpl never.
#[global] Arguments decode : simpl never.

Definition sizeof (T : Type) `{Pod T} : Z := Z.of_nat (layout_size (layout T)).

#[global] Arguments sizeof : simpl never.

(** [*reinterpret_cast<const T*>(m + off)], or [memcpy(&x, m + off, sizeof x)]. *)
Definition load (T : Type) `{Pod T} (m : bytes) (off : Z) : outcome T :=
  let* b := slice m off (sizeof T) in Done (decode b).

(** ** Lemmas on scalars *)

Lemma fits_U8 z : fits U8 z <-> 0 <= z < 2 ^ 8.
Proof. reflexivity. Qed.

Lemma fits_U16 z : fits U16 z <-> 0 <= z < 2 ^ 16.
Proof. reflexivity. Qed.

Lemma fits_U32 z : fits U32 z <-> 0 <= z < 2 ^ 32.
Proof. reflexivity. Qed.

Lemma fits_U64 z : fits U64 z <-> 0 <= z < 2 ^ 64.
Proof. reflexivity. Qed.

Lemma fits_I32 z : fits I32 z <-> - 2 ^ 31 <= z < 2 ^ 31.
Proof. reflexivity. Qed.

Lemma fits_I64 z : fits I64 z <-> - 2 ^ 63 <= z < 2 ^ 63.
Proof. reflexivity. Qed.

Create Rewrite HintDb fits.
#[export] Hint Rewrite fits_U8 fits_U16 fits_U32 fits_U64 fits_I32 fits_I64 : fits.

(** Arithmetic with the ranges of the scalar types written out. *)
Ltac fits_lia := autorewrite with fits in *; lia.

Lemma bits_pos t : 0 < bits t.
Proof. destruct t; reflexivity. Qed.

Lemma pow_bits_split t : 2 ^ bits t = 2 * 2 ^ (bits t - 1).
Proof.
  pose proof (bits_pos t). rewrite <- Z.pow_succ_r; [f_equal; lia | lia].
Qed.

Lemma length_enc_scalar t z : length (enc_scalar t z) = width t.
Proof. apply length_le_split. Qed.

Lemma of_pattern_fits t z : 0 <= z < 2 ^ bits t -> fits t (of_pattern t z).
Proof.
  intros Hz. unfold fits, of_pattern. pose proof (pow_bits_split t).
  destruct (is_signed t); simpl; [|done]. case_if; lia.
Qed.

Lemma of_pattern_wrap t z : fits t z -> of_pattern t (z mod 2 ^ bits t) = z.
Proof.
  unfold fits, of_pattern. pose proof (pow_bits_split t).
  assert (0 < 2 ^ (bits t - 1)) by (pose proof (bits_pos t); apply Z.pow_pos_nonneg; lia).
  destruct (is_signed t); simpl; intros Hz; [|by apply Z.mod_small].
  destruct (Z.lt_ge_cases z 0).
  - replace (z mod 2 ^ bits t) with (z + 2 ^ bits t); [case_if; lia|].
    apply Z.mod_unique with (-1); lia.
  - rewrite Z.mod_small by lia. case_if; lia.
Qed.

Lemma cast_fits t z : fits t (cast t z).
Proof.
  apply of_pattern_fits. unfold wrapu. apply Z.mod_pos_bound.
  pose proof (bits_pos t). apply Z.pow_pos_nonneg; lia.
Qed.

Lemma cast_id t z : fits t z -> cast t z = z.
Proof. apply of_pattern_wrap. Qed.

Lemma cast_U32_le z : 0 <= z -> 0 <= cast U32 z <= z.
Proof.
  intros Hz. change (cast U32 z) with (z mod 2 ^ 32).
  pose proof (Z.mod_pos_bound z (2 ^ 32)). pose proof (Z.mod_le z (2 ^ 32)). lia.
Qed.

(** What a store of [z] followed by a load of the same type gives. *)
Lemma dec_enc_scalar_cast t z : dec_scalar t (enc_scalar t z) = cast t z.
Proof.
  unfold dec_scalar, enc_scalar, cast, wrapu. rewrite le_combine_split.
  f_equal. f_equal. f_equal. unfold bits. lia.
Qed.

Lemma dec_enc_scalar t z : fits t z -> dec_scalar t (enc_scalar t z) = z.
Proof. intros. rewrite dec_enc_scalar_cast. by apply cast_id. Qed.

Lemma dec_scalar_fits t b : length b = width t -> fits t (dec_scalar t b).
Proof.
  intros Hb. apply of_pattern_fits. pose proof (le_combine_bound b) as Hl.
  rewrite Hb in Hl. exact Hl.
Qed.

(** ** Lemmas on structs *)

Lemma length_enc_fields ts vs : length (enc_fields ts vs) = layout_size ts.
Proof.
  unfold layout_size. revert vs. induction ts as [|t ts IH]; intros vs; [done|].
  simpl. rewrite length_app, length_enc_scalar, IH. done.
Qed.

Lemma length_dec_fields ts b : length (dec_fields ts b) = length ts.
Proof. revert b. induction ts; intros b; simpl; [done|]. by rewrite IHts. Qed.

Lemma dec_enc_fields ts vs k :
  Forall2 fits ts vs -> dec_fields ts (enc_fields ts vs ++ k) = vs.
Proof.
  induction 1 as [|t v ts vs Hv Hvs IH]; [done|]. simpl.
  rewrite <- app_assoc, take_app_length', drop_app_length';
    [|by rewrite length_enc_scalar..].
  by rewrite dec_enc_scalar, IH.
Qed.

Lemma dec_fields_fits ts b :
  length b = layout_size ts -> Forall2 fits ts (dec_fields ts b).
Proof.
  unfold layout_size. revert b. induction ts as [|t ts IH]; intros b Hb; simpl; [constructor|].
  simpl in Hb. constructor.
  - apply dec_scalar_fits. rewrite length_take. lia.
  - apply IH. rewrite length_drop. lia.
Qed.

Lemma enc_dec_scalar t b : length b = width t -> enc_scalar t (dec_scalar t b) = b.
Proof.
  intros Hb. unfold enc_scalar, dec_scalar, of_pattern, bits.
  assert (Hs : le_split (width t) (le_combine b) = b) by (rewrite <- Hb; apply split_le_combine).
  case_if; [|done]. rewrite <- Hs at 2. rewrite le_split_mod, (le_split_mod (le_combine b)).
  f_equal. rewrite (Z.mul_comm 8).
  rewrite <- (Z.mod_add (le_combine b - _) 1) by (apply Z.pow_nonzero; lia).
  f_equal. lia.
Qed.

Lemma enc_dec_fields ts b : length b = layout_size ts -> enc_fields ts (dec_fields ts b) = b.
Proof.
  unfold layout_size. revert b. induction ts as [|t ts IH]; intros b Hb; simpl in *.
  - by destruct b.
  - rewrite enc_dec_scalar, IH; [apply take_drop | rewrite length_drop; lia |].
    rewrite length_take. lia.
Qed.

Section CodecLaws.
Context {T : Type} `{Pod T}.

Lemma zlen_encode (x : T) : zlen (encode x) = sizeof T.
Proof. unfold zlen, encode, sizeof. by rewrite length_enc_fields. Qed.

Lemma decode_encode (x : T) : in_range x -> decode (encode x) = x.
Proof.
  intros Hx. unfold decode, encode.
  rewrite <- (app_nil_r (enc_fields _ _)), dec_enc_fields by done. apply of_to_fields.
Qed.

Lemma decode_in_range (b : bytes) : zlen b = sizeof T -> in_range (decode (T:=T) b).
Proof.
  intros Hb. unfold in_range, decode. rewrite to_of_fields by apply length_dec_fields.
  apply dec_fields_fits. unfold zlen, sizeof in Hb. lia.
Qed.

Lemma encode_decode (b : bytes) : zlen b = sizeof T -> encode (decode (T:=T) b) = b.
Proof.
  intros Hb. unfold encode, decode. rewrite to_of_fields by apply length_dec_fields.
  apply enc_dec_fields. unfold zlen, sizeof in Hb. lia.
Qed.

Lemma sizeof_nonneg : 0 <= sizeof T.
Proof. unfold sizeof. lia. Qed.

Lemma load_Done m off :
  0 <= off -> off + sizeof T <= zlen m ->
  load T m off = Done (decode (sub_bytes m off (sizeof T))).
Proof.
  intros. unfold load. rewrite slice_Done; [done..|apply sizeof_nonneg|done].
Qed.

Lemma load_Done_inv m off x :
  load T m off = Done x ->
  in_range x /\ 0 <= off /\ off + sizeof T <= zlen m /\
  x = decode (sub_bytes m off (sizeof T)).
Proof.
  unfold load. intros (b & Hb & [= <-])%obind_Done_inv.
  apply slice_Done_inv in Hb as (-> & ? & ? & ? & ?).
  split_and!; [by apply decode_in_range | done..].
Qed.

(** Loading what was laid out at the offset gives the struct back. *)
Lemma load_encode (a : bytes) (x : T) (c : bytes) off :
  in_range x -> off = zlen a -> load T (a ++ encode x ++ c) off = Done x.
Proof.
  intros Hx Ho. unfold load. rewrite slice_mid; [|done|by rewrite zlen_encode].
  simpl. by rewrite decode_encode.
Qed.
End CodecLaws.

(** Proof of the two class laws: the field list of a record is a cons of each
    field, possibly ended by an array. *)
Ltac pod_laws :=
  match goal with
  | |- forall x, _ = x =>
      intros [];
      repeat match goal with
      | f : ?T |- _ => let _ := constr:(ltac:(typeclasses eauto) : Pod T) in destruct f
      end; reflexivity
  | |- forall l, _ -> _ =>
      intros l Hl; simpl in Hl;
      repeat (destruct l as [|? l]; [discriminate Hl | simpl in Hl; apply Nat.succ_inj in Hl]);
      try (destruct l; [|discriminate Hl]); reflexivity
  end.

(** Replaces every [sizeof] by its value. *)
Ltac norm_sizes :=
  repeat match goal with
  | |- context [@sizeof ?T ?P] =>
      let v := eval vm_compute in (@sizeof T P) in change (@sizeof T P) with v in *
  | H : context [@sizeof ?T ?P] |- _ =>
      let v := eval vm_compute in (@sizeof T P) in change (@sizeof T P) with v in *
  end.
Ltac slia := norm_sizes; lia.
Ltac zls := autorewrite with zlen in *; pose_zlen; slia.

(** Splits [in_range] of a record into one [fits] goal per scalar. *)
Ltac split_in_range :=
  unfold in_range; simpl;
  repeat (apply Forall2_cons_2; [eauto using cast_fits |]); try apply Forall2_nil_2.

#[export] Hint Rewrite @zlen_encode : zlen.
