(* ===== verification/Abi.v ===== *)
(** * The fusex wire interface (include/fex/fuse_uapi.h)

    The structs, opcodes and constants the library reads and writes. Each
    struct is a record with one [Z] per scalar (reserved ones included) and an
    instance of [Pod] giving its scalar types in order. *)

From S2P Require Import Prelude Memory Pod.

(** ** Protocol constants *)

Definition FUSE_KERNEL_VERSION : Z := 7.
Definition FUSE_KERNEL_MINOR_VERSION : Z := 46.

Definition FOPEN_CACHE_DIR : Z := Z.shiftl 1 3.

Definition FUSE_WRITEBACK_CACHE : Z := Z.shiftl 1 16.
Definition FUSE_PARALLEL_DIROPS : Z := Z.shiftl 1 18.
Definition FUSE_MAX_PAGES : Z := Z.shiftl 1 22.
Definition FUSE_INIT_EXT : Z := Z.shiftl 1 30.
Definition FUSE_OVER_IO_URING : Z := Z.shiftl 1 41.

Definition FUSE_ENTRYX_NEGATIVE : Z := Z.shiftl 1 0.
Definition FUSE_MKOBJX_TMPFILE : Z := Z.shiftl 1 0.

Definition FUSE_COMPOUND_NO_DEP : Z := 255.
Definition FUSE_URING_IN_OUT_HEADER_SZ : Z := 128.
Definition FUSE_URING_OP_IN_OUT_SZ : Z := 128.

Inductive fuse_uring_cmd : Set :=
| FUSE_IO_URING_CMD_INVALID
| FUSE_IO_URING_CMD_REGISTER
| FUSE_IO_URING_CMD_COMMIT_AND_FETCH
| FUSE_IO_URING_CMD_NOTIFY.

Definition uring_cmd_value (c : fuse_uring_cmd) : Z :=
  match c with
  | FUSE_IO_URING_CMD_INVALID => 0
  | FUSE_IO_URING_CMD_REGISTER => 1
  | FUSE_IO_URING_CMD_COMMIT_AND_FETCH => 2
  | FUSE_IO_URING_CMD_NOTIFY => 3
  end.

(** Records of variable length are aligned to 64 bits. *)
Definition FUSE_REC_ALIGN (x : Z) : Z := Z.land (x + 8 - 1) (Z.lnot (8 - 1)).

(** ** Opcodes *)

Inductive fuse_opcode : Set :=
| FUSE_LOOKUP
| FUSE_FORGET
| FUSE_GETATTR
| FUSE_SETATTR
| FUSE_READLINK
| FUSE_SYMLINK
| FUSE_MKNOD
| FUSE_MKDIR
| FUSE_UNLINK
| FUSE_RMDIR
| FUSE_RENAME
| FUSE_LINK
| FUSE_OPEN
| FUSE_READ
| FUSE_WRITE
| FUSE_STATFS
| FUSE_RELEASE
| FUSE_FSYNC
| FUSE_SETXATTR
| FUSE_GETXATTR
| FUSE_LISTXATTR
| FUSE_REMOVEXATTR
| FUSE_FLUSH
| FUSE_INIT
| FUSE_OPENDIR
| FUSE_READDIR
| FUSE_RELEASEDIR
| FUSE_FSYNCDIR
| FUSE_GETLK
| FUSE_SETLK
| FUSE_SETLKW
| FUSE_ACCESS
| FUSE_CREATE
| FUSE_INTERRUPT
| FUSE_BMAP
| FUSE_DESTROY
| FUSE_IOCTL
| FUSE_POLL
| FUSE_NOTIFY_REPLY
| FUSE_BATCH_FORGET
| FUSE_FALLOCATE
| FUSE_READDIRPLUS
| FUSE_RENAME2
| FUSE_LSEEK
| FUSE_COPY_FILE_RANGE
| FUSE_SETUPMAPPING
| FUSE_REMOVEMAPPING
| FUSE_SYNCFS
| FUSE_TMPFILE
| FUSE_STATX
| FUSE_COPY_FILE_RANGE_64
| FUSE_LOOKUP_ROOT
| FUSE_LOOKUPX
| FUSE_MKOBJX
| FUSE_SETSTATX
| FUSE_COMPOUND
| CUSE_INIT
| CUSE_INIT_BSWAP_RESERVED
| FUSE_INIT_BSWAP_RESERVED.

Definition opcode_value (o : fuse_opcode) : Z :=
  match o with
  | FUSE_LOOKUP => 1
  | FUSE_FORGET => 2
  | FUSE_GETATTR => 3
  | FUSE_SETATTR => 4
  | FUSE_READLINK => 5
  | FUSE_SYMLINK => 6
  | FUSE_MKNOD => 8
  | FUSE_MKDIR => 9
  | FUSE_UNLINK => 10
  | FUSE_RMDIR => 11
  | FUSE_RENAME => 12
  | FUSE_LINK => 13
  | FUSE_OPEN => 14
  | FUSE_READ => 15
  | FUSE_WRITE => 16
  | FUSE_STATFS => 17
  | FUSE_RELEASE => 18
  | FUSE_FSYNC => 20
  | FUSE_SETXATTR => 21
  | FUSE_GETXATTR => 22
  | FUSE_LISTXATTR => 23
  | FUSE_REMOVEXATTR => 24
  | FUSE_FLUSH => 25
  | FUSE_INIT => 26
  | FUSE_OPENDIR => 27
  | FUSE_READDIR => 28
  | FUSE_RELEASEDIR => 29
  | FUSE_FSYNCDIR => 30
  | FUSE_GETLK => 31
  | FUSE_SETLK => 32
  | FUSE_SETLKW => 33
  | FUSE_ACCESS => 34
  | FUSE_CREATE => 35
  | FUSE_INTERRUPT => 36
  | FUSE_BMAP => 37
  | FUSE_DESTROY => 38
  | FUSE_IOCTL => 39
  | FUSE_POLL => 40
  | FUSE_NOTIFY_REPLY => 41
  | FUSE_BATCH_FORGET => 42
  | FUSE_FALLOCATE => 43
  | FUSE_READDIRPLUS => 44
  | FUSE_RENAME2 => 45
  | FUSE_LSEEK => 46
  | FUSE_COPY_FILE_RANGE => 47
  | FUSE_SETUPMAPPING => 48
  | FUSE_REMOVEMAPPING => 49
  | FUSE_SYNCFS => 50
  | FUSE_TMPFILE => 51
  | FUSE_STATX => 52
  | FUSE_COPY_FILE_RANGE_64 => 53
  | FUSE_LOOKUP_ROOT => 54
  | FUSE_LOOKUPX => 55
  | FUSE_MKOBJX => 56
  | FUSE_SETSTATX => 58
  | FUSE_COMPOUND => 60
  | CUSE_INIT => 4096
  | CUSE_INIT_BSWAP_RESERVED => 1048576
  | FUSE_INIT_BSWAP_RESERVED => 436207616
  end.

(** ** Structs *)

Record fuse_sx_time := {
  sx_time_tv_sec : Z; sx_time_tv_nsec : Z; sx_time_reserved : Z
}.
#[export, refine] Instance fuse_sx_time_pod : Pod fuse_sx_time := {
  layout := [I64; U32; I32];
  to_fields x := [sx_time_tv_sec x; sx_time_tv_nsec x; sx_time_reserved x];
  of_fields l := {|
    sx_time_tv_sec := nth 0 l 0; sx_time_tv_nsec := nth 1 l 0;
    sx_time_reserved := nth 2 l 0 |};
}.
Proof. all: pod_laws. Defined.

Record fuse_statx := {
  statx_mask : Z; statx_blksize : Z; statx_attributes : Z; statx_nlink : Z;
  statx_uid : Z; statx_gid : Z; statx_mode : Z; statx_spare0 : Z; statx_ino : Z;
  statx_size : Z; statx_blocks : Z; statx_attributes_mask : Z;
  statx_atime : fuse_sx_time; statx_btime : fuse_sx_time; statx_ctime : fuse_sx_time;
  statx_mtime : fuse_sx_time; statx_rdev_major : Z; statx_rdev_minor : Z;
  statx_dev_major : Z; statx_dev_minor : Z; statx_spare2 : list Z
}.
#[export, refine] Instance fuse_statx_pod : Pod fuse_statx := {
  layout := [U32; U32; U64; U32; U32; U32; U16; U16; U64; U64; U64; U64] ++
    layout fuse_sx_time ++ layout fuse_sx_time ++ layout fuse_sx_time ++
    layout fuse_sx_time ++ [U32; U32; U32; U32] ++ replicate 14 U64;
  to_fields x := [statx_mask x; statx_blksize x; statx_attributes x; statx_nlink x; statx_uid x;
    statx_gid x; statx_mode x; statx_spare0 x; statx_ino x; statx_size x;
    statx_blocks x; statx_attributes_mask x] ++ to_fields (statx_atime x) ++
    to_fields (statx_btime x) ++ to_fields (statx_ctime x) ++
    to_fields (statx_mtime x) ++ [statx_rdev_major x; statx_rdev_minor x;
    statx_dev_major x; statx_dev_minor x] ++ statx_spare2 x;
  of_fields l := {|
    statx_mask := nth 0 l 0; statx_blksize := nth 1 l 0; statx_attributes := nth 2 l 0;
    statx_nlink := nth 3 l 0; statx_uid := nth 4 l 0; statx_gid := nth 5 l 0;
    statx_mode := nth 6 l 0; statx_spare0 := nth 7 l 0; statx_ino := nth 8 l 0;
    statx_size := nth 9 l 0; statx_blocks := nth 10 l 0;
    statx_attributes_mask := nth 11 l 0; statx_atime := of_fields (take 3 (drop 12 l));
    statx_btime := of_fields (take 3 (drop 15 l));
    statx_ctime := of_fields (take 3 (drop 18 l));
    statx_mtime := of_fields (take 3 (drop 21 l)); statx_rdev_major := nth 24 l 0;
    statx_rdev_minor := nth 25 l 0; statx_dev_major := nth 26 l 0;
    statx_dev_minor := nth 27 l 0; statx_spare2 := drop 28 l |};
}.
Proof. all: pod_laws. Defined.

Record fuse_kstatfs := {
  kstatfs_blocks : Z; kstatfs_bfree : Z; kstatfs_bavail : Z; kstatfs_files : Z;
  kstatfs_ffree : Z; kstatfs_bsize : Z; kstatfs_namelen : Z; kstatfs_frsize : Z;
  kstatfs_padding : Z; kstatfs_spare : list Z
}.
#[export, refine] Instance fuse_kstatfs_pod : Pod fuse_kstatfs := {
  layout := [U64; U64; U64; U64; U64; U32; U32; U32; U32] ++ replicate 6 U32;
  to_fields x := [kstatfs_blocks x; kstatfs_bfree x; kstatfs_bavail x; kstatfs_files x;
    kstatfs_ffree x; kstatfs_bsize x; kstatfs_namelen x; kstatfs_frsize x;
    kstatfs_padding x] ++ kstatfs_spare x;
  of_fields l := {|
    kstatfs_blocks := nth 0 l 0; kstatfs_bfree := nth 1 l 0;
    kstatfs_bavail := nth 2 l 0; kstatfs_files := nth 3 l 0; kstatfs_ffree := nth 4 l 0;
    kstatfs_bsize := nth 5 l 0; kstatfs_namelen := nth 6 l 0;
    kstatfs_frsize := nth 7 l 0; kstatfs_padding := nth 8 l 0; kstatfs_spare := drop 9 l |};
}.
Proof. all: pod_laws. Defined.

Record fuse_entryx_out := {
  entryx_out_nodeid : Z; entryx_out_entry_valid : Z; entryx_out_entry_valid_nsec : Z;
  entryx_out_flags : Z; entryx_out_spare : Z
}.
#[export, refine] Instance fuse_entryx_out_pod : Pod fuse_entryx_out := {
  layout := [U64; U64; U32; U32; U64];
  to_fields x := [entryx_out_nodeid x; entryx_out_entry_valid x; entryx_out_entry_valid_nsec x;
    entryx_out_flags x; entryx_out_spare x];
  of_fields l := {|
    entryx_out_nodeid := nth 0 l 0; entryx_out_entry_valid := nth 1 l 0;
    entryx_out_entry_valid_nsec := nth 2 l 0; entryx_out_flags := nth 3 l 0;
    entryx_out_spare := nth 4 l 0 |};
}.
Proof. all: pod_laws. Defined.

Record fuse_forget_in := {
  forget_in_nlookup : Z
}.
#[export, refine] Instance fuse_forget_in_pod : Pod fuse_forget_in := {
  layout := [U64];
  to_fields x := [forget_in_nlookup x];
  of_fields l := {|
    forget_in_nlookup := nth 0 l 0 |};
}.
Proof. all: pod_laws. Defined.

Record fuse_forget_one := {
  forget_one_nodeid : Z; forget_one_nlookup : Z
}.
#[export, refine] Instance fuse_forget_one_pod : Pod fuse_forget_one := {
  layout := [U64; U64];
  to_fields x := [forget_one_nodeid x; forget_one_nlookup x];
  of_fields l := {|
    forget_one_nodeid := nth 0 l 0; forget_one_nlookup := nth 1 l 0 |};
}.
Proof. all: pod_laws. Defined.

Record fuse_batch_forget_in := {
  batch_forget_in_count : Z; batch_forget_in_dummy : Z
}.
#[export, refine] Instance fuse_batch_forget_in_pod : Pod fuse_batch_forget_in := {
  layout := [U32; U32];
  to_fields x := [batch_forget_in_count x; batch_forget_in_dummy x];
  of_fields l := {|
    batch_forget_in_count := nth 0 l 0; batch_forget_in_dummy := nth 1 l 0 |};
}.
Proof. all: pod_laws. Defined.

Record fuse_statx_in := {
  statx_in_getattr_flags : Z; statx_in_reserved : Z; statx_in_fh : Z;
  statx_in_sx_flags : Z; statx_in_sx_mask : Z
}.
#[export, refine] Instance fuse_statx_in_pod : Pod fuse_statx_in := {
  layout := [U32; U32; U64; U32; U32];
  to_fields x := [statx_in_getattr_flags x; statx_in_reserved x; statx_in_fh x; statx_in_sx_flags x;
    statx_in_sx_mask x];
  of_fields l := {|
    statx_in_getattr_flags := nth 0 l 0; statx_in_reserved := nth 1 l 0;
    statx_in_fh := nth 2 l 0; statx_in_sx_flags := nth 3 l 0;
    statx_in_sx_mask := nth 4 l 0 |};
}.
Proof. all: pod_laws. Defined.

Record fuse_statx_out := {
  statx_out_attr_valid : Z; statx_out_attr_valid_nsec : Z; statx_out_flags : Z;
  statx_out_spare0 : Z; statx_out_spare1 : Z; statx_out_stat : fuse_statx
}.
#[export, refine] Instance fuse_statx_out_pod : Pod fuse_statx_out := {
  layout := [U64; U32; U32; U64; U64] ++ layout fuse_statx;
  to_fields x := [statx_out_attr_valid x; statx_out_attr_valid_nsec x; statx_out_flags x;
    statx_out_spare0 x; statx_out_spare1 x] ++ to_fields (statx_out_stat x);
  of_fields l := {|
    statx_out_attr_valid := nth 0 l 0; statx_out_attr_valid_nsec := nth 1 l 0;
    statx_out_flags := nth 2 l 0; statx_out_spare0 := nth 3 l 0;
    statx_out_spare1 := nth 4 l 0; statx_out_stat := of_fields (drop 5 l) |};
}.
Proof. all: pod_laws. Defined.

Record fuse_mkobjx_in := {
  mkobjx_in_namesize : Z; mkobjx_in_flags : Z; mkobjx_in_spare0 : Z;
  mkobjx_in_spare1 : Z; mkobjx_in_spare2 : Z; mkobjx_in_spare3 : Z;
  mkobjx_in_spare4 : Z; mkobjx_in_spare5 : Z; mkobjx_in_spare6 : Z;
  mkobjx_in_stat : fuse_statx
}.
#[export, refine] Instance fuse_mkobjx_in_pod : Pod fuse_mkobjx_in := {
  layout := [U32; U32; U64; U64; U64; U64; U64; U64; U64] ++ layout fuse_statx;
  to_fields x := [mkobjx_in_namesize x; mkobjx_in_flags x; mkobjx_in_spare0 x; mkobjx_in_spare1 x;
    mkobjx_in_spare2 x; mkobjx_in_spare3 x; mkobjx_in_spare4 x; mkobjx_in_spare5 x;
    mkobjx_in_spare6 x] ++ to_fields (mkobjx_in_stat x);
  of_fields l := {|
    mkobjx_in_namesize := nth 0 l 0; mkobjx_in_flags := nth 1 l 0;
    mkobjx_in_spare0 := nth 2 l 0; mkobjx_in_spare1 := nth 3 l 0;
    mkobjx_in_spare2 := nth 4 l 0; mkobjx_in_spare3 := nth 5 l 0;
    mkobjx_in_spare4 := nth 6 l 0; mkobjx_in_spare5 := nth 7 l 0;
    mkobjx_in_spare6 := nth 8 l 0; mkobjx_in_stat := of_fields (drop 9 l) |};
}.
Proof. all: pod_laws. Defined.

Record fuse_rename2_in := {
  rename2_in_newdir : Z; rename2_in_flags : Z; rename2_in_padding : Z
}.
#[export, refine] Instance fuse_rename2_in_pod : Pod fuse_rename2_in := {
  layout := [U64; U32; U32];
  to_fields x := [rename2_in_newdir x; rename2_in_flags x; rename2_in_padding x];
  of_fields l := {|
    rename2_in_newdir := nth 0 l 0; rename2_in_flags := nth 1 l 0;
    rename2_in_padding := nth 2 l 0 |};
}.
Proof. all: pod_laws. Defined.

Record fuse_link_in := {
  link_in_oldnodeid : Z
}.
#[export, refine] Instance fuse_link_in_pod : Pod fuse_link_in := {
  layout := [U64];
  to_fields x := [link_in_oldnodeid x];
  of_fields l := {|
    link_in_oldnodeid := nth 0 l 0 |};
}.
Proof. all: pod_laws. Defined.

Record fuse_setstatx_in := {
  setstatx_in_fh : Z; setstatx_in_flags : Z; setstatx_in_reserved : Z;
  setstatx_in_stat : fuse_statx
}.
#[export, refine] Instance fuse_setstatx_in_pod : Pod fuse_setstatx_in := {
  layout := [U64; U32; U32] ++ layout fuse_statx;
  to_fields x := [setstatx_in_fh x; setstatx_in_flags x; setstatx_in_reserved x] ++
    to_fields (setstatx_in_stat x);
  of_fields l := {|
    setstatx_in_fh := nth 0 l 0; setstatx_in_flags := nth 1 l 0;
    setstatx_in_reserved := nth 2 l 0; setstatx_in_stat := of_fields (drop 3 l) |};
}.
Proof. all: pod_laws. Defined.

Record fuse_open_in := {
  open_in_flags : Z; open_in_open_flags : Z
}.
#[export, refine] Instance fuse_open_in_pod : Pod fuse_open_in := {
  layout := [U32; U32];
  to_fields x := [open_in_flags x; open_in_open_flags x];
  of_fields l := {|
    open_in_flags := nth 0 l 0; open_in_open_flags := nth 1 l 0 |};
}.
Proof. all: pod_laws. Defined.

Record fuse_open_out := {
  open_out_fh : Z; open_out_open_flags : Z; open_out_backing_id : Z
}.
#[export, refine] Instance fuse_open_out_pod : Pod fuse_open_out := {
  layout := [U64; U32; I32];
  to_fields x := [open_out_fh x; open_out_open_flags x; open_out_backing_id x];
  of_fields l := {|
    open_out_fh := nth 0 l 0; open_out_open_flags := nth 1 l 0;
    open_out_backing_id := nth 2 l 0 |};
}.
Proof. all: pod_laws. Defined.

Record fuse_release_in := {
  release_in_fh : Z; release_in_flags : Z; release_in_release_flags : Z;
  release_in_lock_owner : Z
}.
#[export, refine] Instance fuse_release_in_pod : Pod fuse_release_in := {
  layout := [U64; U32; U32; U64];
  to_fields x := [release_in_fh x; release_in_flags x; release_in_release_flags x;
    release_in_lock_owner x];
  of_fields l := {|
    release_in_fh := nth 0 l 0; release_in_flags := nth 1 l 0;
    release_in_release_flags := nth 2 l 0; release_in_lock_owner := nth 3 l 0 |};
}.
Proof. all: pod_laws. Defined.

Record fuse_read_in := {
  read_in_fh : Z; read_in_offset : Z; read_in_size : Z; read_in_read_flags : Z;
  read_in_lock_owner : Z; read_in_flags : Z; read_in_padding : Z
}.
#[export, refine] Instance fuse_read_in_pod : Pod fuse_read_in := {
  layout := [U64; U64; U32; U32; U64; U32; U32];
  to_fields x := [read_in_fh x; read_in_offset x; read_in_size x; read_in_read_flags x;
    read_in_lock_owner x; read_in_flags x; read_in_padding x];
  of_fields l := {|
    read_in_fh := nth 0 l 0; read_in_offset := nth 1 l 0; read_in_size := nth 2 l 0;
    read_in_read_flags := nth 3 l 0; read_in_lock_owner := nth 4 l 0;
    read_in_flags := nth 5 l 0; read_in_padding := nth 6 l 0 |};
}.
Proof. all: pod_laws. Defined.

Record fuse_write_in := {
  write_in_fh : Z; write_in_offset : Z; write_in_size : Z; write_in_write_flags : Z;
  write_in_lock_owner : Z; write_in_flags : Z; write_in_padding : Z
}.
#[export, refine] Instance fuse_write_in_pod : Pod fuse_write_in := {
  layout := [U64; U64; U32; U32; U64; U32; U32];
  to_fields x := [write_in_fh x; write_in_offset x; write_in_size x; write_in_write_flags x;
    write_in_lock_owner x; write_in_flags x; write_in_padding x];
  of_fields l := {|
    write_in_fh := nth 0 l 0; write_in_offset := nth 1 l 0; write_in_size := nth 2 l 0;
    write_in_write_flags := nth 3 l 0; write_in_lock_owner := nth 4 l 0;
    write_in_flags := nth 5 l 0; write_in_padding := nth 6 l 0 |};
}.
Proof. all: pod_laws. Defined.

Record fuse_write_out := {
  write_out_size : Z; write_out_padding : Z
}.
#[export, refine] Instance fuse_write_out_pod : Pod fuse_write_out := {
  layout := [U32; U32];
  to_fields x := [write_out_size x; write_out_padding x];
  of_fields l := {|
    write_out_size := nth 0 l 0; write_out_padding := nth 1 l 0 |};
}.
Proof. all: pod_laws. Defined.

Record fuse_statfs_out := {
  statfs_out_st : fuse_kstatfs
}.
#[export, refine] Instance fuse_statfs_out_pod : Pod fuse_statfs_out := {
  layout := layout fuse_kstatfs;
  to_fields x := to_fields (statfs_out_st x);
  of_fields l := {|
    statfs_out_st := of_fields (drop 0 l) |};
}.
Proof. all: pod_laws. Defined.

Record fuse_setxattr_in := {
  setxattr_in_size : Z; setxattr_in_flags : Z; setxattr_in_setxattr_flags : Z;
  setxattr_in_padding : Z
}.
#[export, refine] Instance fuse_setxattr_in_pod : Pod fuse_setxattr_in := {
  layout := [U32; U32; U32; U32];
  to_fields x := [setxattr_in_size x; setxattr_in_flags x; setxattr_in_setxattr_flags x;
    setxattr_in_padding x];
  of_fields l := {|
    setxattr_in_size := nth 0 l 0; setxattr_in_flags := nth 1 l 0;
    setxattr_in_setxattr_flags := nth 2 l 0; setxattr_in_padding := nth 3 l 0 |};
}.
Proof. all: pod_laws. Defined.

Record fuse_getxattr_in := {
  getxattr_in_size : Z; getxattr_in_padding : Z
}.
#[export, refine] Instance fuse_getxattr_in_pod : Pod fuse_getxattr_in := {
  layout := [U32; U32];
  to_fields x := [getxattr_in_size x; getxattr_in_padding x];
  of_fields l := {|
    getxattr_in_size := nth 0 l 0; getxattr_in_padding := nth 1 l 0 |};
}.
Proof. all: pod_laws. Defined.

Record fuse_getxattr_out := {
  getxattr_out_size : Z; getxattr_out_padding : Z
}.
#[export, refine] Instance fuse_getxattr_out_pod : Pod fuse_getxattr_out := {
  layout := [U32; U32];
  to_fields x := [getxattr_out_size x; getxattr_out_padding x];
  of_fields l := {|
    getxattr_out_size := nth 0 l 0; getxattr_out_padding := nth 1 l 0 |};
}.
Proof. all: pod_laws. Defined.

Record fuse_init_in := {
  init_in_major : Z; init_in_minor : Z; init_in_max_readahead : Z; init_in_flags : Z;
  init_in_flags2 : Z; init_in_unused : list Z
}.
#[export, refine] Instance fuse_init_in_pod : Pod fuse_init_in := {
  layout := [U32; U32; U32; U32; U32] ++ replicate 11 U32;
  to_fields x := [init_in_major x; init_in_minor x; init_in_max_readahead x; init_in_flags x;
    init_in_flags2 x] ++ init_in_unused x;
  of_fields l := {|
    init_in_major := nth 0 l 0; init_in_minor := nth 1 l 0;
    init_in_max_readahead := nth 2 l 0; init_in_flags := nth 3 l 0;
    init_in_flags2 := nth 4 l 0; init_in_unused := drop 5 l |};
}.
Proof. all: pod_laws. Defined.

Record fuse_init_out := {
  init_out_major : Z; init_out_minor : Z; init_out_max_readahead : Z;
  init_out_flags : Z; init_out_max_background : Z; init_out_congestion_threshold : Z;
  init_out_max_write : Z; init_out_time_gran : Z; init_out_max_pages : Z;
  init_out_map_alignment : Z; init_out_flags2 : Z; init_out_max_stack_depth : Z;
  init_out_request_timeout : Z; init_out_unused : list Z
}.
#[export, refine] Instance fuse_init_out_pod : Pod fuse_init_out := {
  layout := [U32; U32; U32; U32; U16; U16; U32; U32; U16; U16; U32; U32; U16] ++
    replicate 11 U16;
  to_fields x := [init_out_major x; init_out_minor x; init_out_max_readahead x; init_out_flags x;
    init_out_max_background x; init_out_congestion_threshold x; init_out_max_write x;
    init_out_time_gran x; init_out_max_pages x; init_out_map_alignment x;
    init_out_flags2 x; init_out_max_stack_depth x; init_out_request_timeout x] ++
    init_out_unused x;
  of_fields l := {|
    init_out_major := nth 0 l 0; init_out_minor := nth 1 l 0;
    init_out_max_readahead := nth 2 l 0; init_out_flags := nth 3 l 0;
    init_out_max_background := nth 4 l 0; init_out_congestion_threshold := nth 5 l 0;
    init_out_max_write := nth 6 l 0; init_out_time_gran := nth 7 l 0;
    init_out_max_pages := nth 8 l 0; init_out_map_alignment := nth 9 l 0;
    init_out_flags2 := nth 10 l 0; init_out_max_stack_depth := nth 11 l 0;
    init_out_request_timeout := nth 12 l 0; init_out_unused := drop 13 l |};
}.
Proof. all: pod_laws. Defined.

Record fuse_fallocate_in := {
  fallocate_in_fh : Z; fallocate_in_offset : Z; fallocate_in_length : Z;
  fallocate_in_mode : Z; fallocate_in_padding : Z
}.
#[export, refine] Instance fuse_fallocate_in_pod : Pod fuse_fallocate_in := {
  layout := [U64; U64; U64; U32; U32];
  to_fields x := [fallocate_in_fh x; fallocate_in_offset x; fallocate_in_length x;
    fallocate_in_mode x; fallocate_in_padding x];
  of_fields l := {|
    fallocate_in_fh := nth 0 l 0; fallocate_in_offset := nth 1 l 0;
    fallocate_in_length := nth 2 l 0; fallocate_in_mode := nth 3 l 0;
    fallocate_in_padding := nth 4 l 0 |};
}.
Proof. all: pod_laws. Defined.

Record fuse_in_header := {
  in_header_len : Z; in_header_opcode : Z; in_header_unique : Z; in_header_nodeid : Z;
  in_header_uid : Z; in_header_gid : Z; in_header_pid : Z; in_header_total_extlen : Z;
  in_header_padding : Z
}.
#[export, refine] Instance fuse_in_header_pod : Pod fuse_in_header := {
  layout := [U32; U32; U64; U64; U32; U32; U32; U16; U16];
  to_fields x := [in_header_len x; in_header_opcode x; in_header_unique x; in_header_nodeid x;
    in_header_uid x; in_header_gid x; in_header_pid x; in_header_total_extlen x;
    in_header_padding x];
  of_fields l := {|
    in_header_len := nth 0 l 0; in_header_opcode := nth 1 l 0;
    in_header_unique := nth 2 l 0; in_header_nodeid := nth 3 l 0;
    in_header_uid := nth 4 l 0; in_header_gid := nth 5 l 0; in_header_pid := nth 6 l 0;
    in_header_total_extlen := nth 7 l 0; in_header_padding := nth 8 l 0 |};
}.
Proof. all: pod_laws. Defined.

Record fuse_out_header := {
  out_header_len : Z; out_header_error : Z; out_header_unique : Z
}.
#[export, refine] Instance fuse_out_header_pod : Pod fuse_out_header := {
  layout := [U32; I32; U64];
  to_fields x := [out_header_len x; out_header_error x; out_header_unique x];
  of_fields l := {|
    out_header_len := nth 0 l 0; out_header_error := nth 1 l 0;
    out_header_unique := nth 2 l 0 |};
}.
Proof. all: pod_laws. Defined.

Record fuse_dirent := {
  dirent_ino : Z; dirent_off : Z; dirent_namelen : Z; dirent_type : Z
}.
#[export, refine] Instance fuse_dirent_pod : Pod fuse_dirent := {
  layout := [U64; U64; U32; U32];
  to_fields x := [dirent_ino x; dirent_off x; dirent_namelen x; dirent_type x];
  of_fields l := {|
    dirent_ino := nth 0 l 0; dirent_off := nth 1 l 0; dirent_namelen := nth 2 l 0;
    dirent_type := nth 3 l 0 |};
}.
Proof. all: pod_laws. Defined.

Record fuse_compound_in := {
  compound_in_reserved : list Z
}.
#[export, refine] Instance fuse_compound_in_pod : Pod fuse_compound_in := {
  layout := replicate 2 U64;
  to_fields x := compound_in_reserved x;
  of_fields l := {|
    compound_in_reserved := drop 0 l |};
}.
Proof. all: pod_laws. Defined.

Record fuse_compound_out := {
  compound_out_reserved : list Z
}.
#[export, refine] Instance fuse_compound_out_pod : Pod fuse_compound_out := {
  layout := replicate 2 U64;
  to_fields x := compound_out_reserved x;
  of_fields l := {|
    compound_out_reserved := drop 0 l |};
}.
Proof. all: pod_laws. Defined.

Record fuse_compound_req_in := {
  compound_req_in_dep_index : Z; compound_req_in_reserved : list Z
}.
#[export, refine] Instance fuse_compound_req_in_pod : Pod fuse_compound_req_in := {
  layout := [U8] ++ replicate 3 U8;
  to_fields x := [compound_req_in_dep_index x] ++ compound_req_in_reserved x;
  of_fields l := {|
    compound_req_in_dep_index := nth 0 l 0; compound_req_in_reserved := drop 1 l |};
}.
Proof. all: pod_laws. Defined.

Record fuse_uring_ent_in_out := {
  uring_ent_in_out_flags : Z; uring_ent_in_out_commit_id : Z;
  uring_ent_in_out_payload_sz : Z; uring_ent_in_out_padding : Z;
  uring_ent_in_out_reserved : Z
}.
#[export, refine] Instance fuse_uring_ent_in_out_pod : Pod fuse_uring_ent_in_out := {
  layout := [U64; U64; U32; U32; U64];
  to_fields x := [uring_ent_in_out_flags x; uring_ent_in_out_commit_id x;
    uring_ent_in_out_payload_sz x; uring_ent_in_out_padding x;
    uring_ent_in_out_reserved x];
  of_fields l := {|
    uring_ent_in_out_flags := nth 0 l 0; uring_ent_in_out_commit_id := nth 1 l 0;
    uring_ent_in_out_payload_sz := nth 2 l 0; uring_ent_in_out_padding := nth 3 l 0;
    uring_ent_in_out_reserved := nth 4 l 0 |};
}.
Proof. all: pod_laws. Defined.

Record fuse_uring_cmd_req := {
  uring_cmd_req_flags : Z; uring_cmd_req_commit_id : Z; uring_cmd_req_qid : Z;
  uring_cmd_req_padding : list Z
}.
#[export, refine] Instance fuse_uring_cmd_req_pod : Pod fuse_uring_cmd_req := {
  layout := [U64; U64; U16] ++ replicate 6 U8;
  to_fields x := [uring_cmd_req_flags x; uring_cmd_req_commit_id x; uring_cmd_req_qid x] ++
    uring_cmd_req_padding x;
  of_fields l := {|
    uring_cmd_req_flags := nth 0 l 0; uring_cmd_req_commit_id := nth 1 l 0;
    uring_cmd_req_qid := nth 2 l 0; uring_cmd_req_padding := drop 3 l |};
}.
Proof. all: pod_laws. Defined.

(** [FUSE_DIRENT_SIZE(d)]: how far the reader of a directory buffer advances.
    [FUSE_NAME_OFFSET], the offset of the flexible array, is the size of the
    fixed part. *)
Definition FUSE_DIRENT_SIZE (d : fuse_dirent) : Z :=
  FUSE_REC_ALIGN (sizeof fuse_dirent + dirent_namelen d).

(** [struct fuse_uring_req_header] is two 128-byte areas and the entry
    header: the offsets of its three members and its size. *)
Definition req_header_in_out : Z := 0.
Definition req_header_op_in : Z := FUSE_URING_IN_OUT_HEADER_SZ.
Definition req_header_ent : Z := FUSE_URING_IN_OUT_HEADER_SZ + FUSE_URING_OP_IN_OUT_SZ.
Definition sizeof_req_header : Z := req_header_ent + sizeof fuse_uring_ent_in_out.

(** Every layout of this file. *)
Definition all_layouts : list (list cty) :=
  [ layout fuse_sx_time; layout fuse_statx; layout fuse_kstatfs;
    layout fuse_entryx_out; layout fuse_forget_in; layout fuse_forget_one;
    layout fuse_batch_forget_in; layout fuse_statx_in; layout fuse_statx_out;
    layout fuse_mkobjx_in; layout fuse_rename2_in; layout fuse_link_in;
    layout fuse_setstatx_in; layout fuse_open_in; layout fuse_open_out;
    layout fuse_release_in; layout fuse_read_in; layout fuse_write_in;
    layout fuse_write_out; layout fuse_statfs_out; layout fuse_setxattr_in;
    layout fuse_getxattr_in; layout fuse_getxattr_out; layout fuse_init_in;
    layout fuse_init_out; layout fuse_fallocate_in; layout fuse_in_header;
    layout fuse_out_header; layout fuse_dirent; layout fuse_compound_in;
    layout fuse_compound_out; layout fuse_compound_req_in;
    layout fuse_uring_ent_in_out; layout fuse_uring_cmd_req ].

(** ** Theorems *)

(** The scalars of every struct are laid out without padding, so the packed
    offsets and sizes of the model are the ones of the C ABI. *)
Theorem layouts_have_no_padding :
  Forall (fun ts => c_sizeof ts = Z.of_nat (layout_size ts)) all_layouts.
Proof. repeat constructor. Qed.

#[export] Instance fuse_opcode_eq_dec : EqDecision fuse_opcode.
Proof. solve_decision. Defined.

Lemma opcode_value_inj o1 o2 : opcode_value o1 = opcode_value o2 -> o1 = o2.
Proof. destruct o1, o2; intros H; try reflexivity; discriminate H. Qed.

Lemma FUSE_REC_ALIGN_spec x : FUSE_REC_ALIGN x = (x + 7) / 8 * 8.
Proof.
  unfold FUSE_REC_ALIGN. replace (x + 8 - 1) with (x + 7) by lia.
  change (Z.lnot (8 - 1)) with (Z.lnot (Z.ones 3)). rewrite <- Z.ldiff_land, Z.ldiff_ones_r by lia.
  rewrite Z.shiftl_mul_pow2, Z.shiftr_div_pow2 by lia. reflexivity.
Qed.

Lemma FUSE_REC_ALIGN_bounds x : x <= FUSE_REC_ALIGN x < x + 8.
Proof. rewrite FUSE_REC_ALIGN_spec. Z.to_euclidean_division_equations. lia. Qed.
