(* ===== verification/Types.v ===== *)
(** * Public value types (include/fex/types.hpp, include/fex/session.hpp)

    [NodeId], [FileHandle] and [Errc] are scoped enums over fixed-width
    integers; a [string_view] or a span of bytes is the list of its bytes. *)

From S2P Require Import Prelude Memory Pod.

(** ** Strong typedefs *)

Definition NodeId : Type := Z.
Definition NodeId_invalid : NodeId := 0.
Definition NodeId_root : NodeId := 1.

Definition FileHandle : Type := Z.

(** ** statx *)

Module statx_bits.
Definition type : Z := 0x1.
Definition mode : Z := 0x2.
Definition nlink : Z := 0x4.
Definition uid : Z := 0x8.
Definition gid : Z := 0x10.
Definition atime : Z := 0x20.
Definition mtime : Z := 0x40.
Definition ctime : Z := 0x80.
Definition ino : Z := 0x100.
Definition size : Z := 0x200.
Definition blocks : Z := 0x400.
Definition basic : Z := 0x7ff.
Definition btime : Z := 0x800.
End statx_bits.

Record Timespec := { ts_sec : Z; ts_nsec : Z }.

Definition Timespec_valid (t : Timespec) : bool := ts_nsec t <? 1000000000.

Definition Timespec_zero : Timespec := {| ts_sec := 0; ts_nsec := 0 |}.

Record StatxOut := {
  so_mask : Z;
  so_blksize : Z;
  so_attributes : Z;
  so_nlink : Z;
  so_uid : Z;
  so_gid : Z;
  so_mode : Z;
  so_ino : Z;
  so_size : Z;
  so_blocks : Z;
  so_attributes_mask : Z;
  so_atime : Timespec;
  so_btime : Timespec;
  so_ctime : Timespec;
  so_mtime : Timespec;
  so_rdev_major : Z;
  so_rdev_minor : Z;
  so_dev_major : Z;
  so_dev_minor : Z;
}.

Record SetStatxIn := {
  si_mask : Z;
  si_mode : Z;
  si_uid : Z;
  si_gid : Z;
  si_size : Z;
  si_atime : Timespec;
  si_ctime : Timespec;
  si_mtime : Timespec;
}.

Record StatfsOut := {
  sf_blocks : Z;
  sf_bfree : Z;
  sf_bavail : Z;
  sf_files : Z;
  sf_ffree : Z;
  sf_bsize : Z;
  sf_namelen : Z;
  sf_frsize : Z;
}.

(** ** Per-opcode payloads *)

(** [entry_valid] is a signed 64-bit count of nanoseconds. *)
Record EntryOut := {
  eo_nodeid : NodeId;
  eo_entry_valid : Z;
  eo_negative : bool;
}.

Record Context := {
  ctx_uid : Z;
  ctx_gid : Z;
  ctx_pid : Z;
  ctx_nodeid : NodeId;
  ctx_unique : Z;
}.

Record MkobjxIn := {
  mi_stat : StatxOut;
  mi_flags : Z;
  mi_name : bytes;
  mi_link_target : bytes;
}.

Definition kMkobjxTmpfile : Z := Z.shiftl 1 0.

Module open_flags.
Definition direct_io : Z := Z.shiftl 1 0.
Definition keep_cache : Z := Z.shiftl 1 1.
Definition nonseekable : Z := Z.shiftl 1 2.
Definition cache_dir : Z := Z.shiftl 1 3.
End open_flags.

Record OpenOut := { oo_fh : FileHandle; oo_open_flags : Z }.

Record InitInfo := {
  ii_kernel_major : Z;
  ii_kernel_minor : Z;
  ii_kernel_flags : Z;
  ii_max_readahead : Z;
  ii_flags : Z;
  ii_max_write : Z;
  ii_max_pages : Z;
  ii_time_gran : Z;
}.

(** [InitInfo info;] with its default member initialisers. *)
Definition InitInfo_default : InitInfo := {|
  ii_kernel_major := 0; ii_kernel_minor := 0; ii_kernel_flags := 0;
  ii_max_readahead := 0; ii_flags := 0;
  ii_max_write := Z.shiftl 1 20; ii_max_pages := 256; ii_time_gran := 1 |}.

(** ** Error codes: the Linux values of the [std::errc] enumerators used. *)

Definition Errc : Type := Z.
Definition EIO : Errc := 5.
Definition EBADF : Errc := 9.
Definition EINVAL : Errc := 22.  (* invalid_argument *)
Definition ENOSYS : Errc := 38.  (* function_not_supported *)
Definition EOPNOTSUPP : Errc := 95. (* operation_not_supported *)
Definition ESTALE : Errc := 116.

Definition errc_from_errno (err : Z) : Errc := err.

(** ** Session options *)

Record SessionOptions := {
  opt_mountpoint : bytes;
  opt_fsname : bytes;
  opt_source : bytes;
  opt_read_only : bool;
  opt_allow_other : bool;
  opt_dev_fd : Z;
  opt_uring_queues : Z;
  opt_uring_queue_depth : Z;
  opt_uring_payload_bytes : Z;
}.

(** The widths of the members: what a value of the C++ type can hold. *)

Definition Timespec_ok (t : Timespec) : Prop := fits I64 (ts_sec t) /\ fits U32 (ts_nsec t).

Definition StatxOut_ok (s : StatxOut) : Prop :=
  fits U32 (so_mask s) /\ fits U32 (so_blksize s) /\ fits U64 (so_attributes s) /\
  fits U32 (so_nlink s) /\ fits U32 (so_uid s) /\ fits U32 (so_gid s) /\
  fits U16 (so_mode s) /\ fits U64 (so_ino s) /\ fits U64 (so_size s) /\
  fits U64 (so_blocks s) /\ fits U64 (so_attributes_mask s) /\
  Timespec_ok (so_atime s) /\ Timespec_ok (so_btime s) /\
  Timespec_ok (so_ctime s) /\ Timespec_ok (so_mtime s) /\
  fits U32 (so_rdev_major s) /\ fits U32 (so_rdev_minor s) /\
  fits U32 (so_dev_major s) /\ fits U32 (so_dev_minor s).
