(* ===== verification/AbiOther.v ===== *)
(** * The rest of the wire interface (include/fex/fuse_uapi.h)

    The structs of opcodes the library does not speak, the flag words, the
    notification codes and the sizes older peers use. A struct is the list of its
    members with their scalars, from which offsets and sizes follow by the rules
    of the C ABI; a flexible array at its end has no size. The theorems say that
    no struct has hidden padding, that an older, shorter form of a message
    decodes to the same values, that no two flags of a word share a bit, and that the
    library's public constants are those of the wire. *)

From S2P Require Import Prelude Memory Pod Abi Types.
From Stdlib Require Import String.
#[local] Open Scope string_scope.
#[local] Open Scope Z_scope.

(** ** Structs by their members *)

Definition fields : Type := list (string * list cty).

Definition scalars (s : fields) : list cty := List.concat (map snd s).

(** [sizeof] and [offsetof]. *)
Definition struct_size (s : fields) : Z := c_sizeof (scalars s).

Fixpoint offsetof (s : fields) (member : string) : option Z :=
  match s with
  | [] => None
  | (f, ts) :: s' =>
      if String.eqb f member then Some 0 else
      match offsetof s' member with
      | Some off => Some (Z.of_nat (layout_size ts) + off)
      | None => None
      end
  end.

Definition fuse_attr : fields :=
  [("ino", [U64]); ("size", [U64]); ("blocks", [U64]); ("atime", [U64]); ("mtime", [U64]);
   ("ctime", [U64]); ("atimensec", [U32]); ("mtimensec", [U32]); ("ctimensec", [U32]); ("mode",
   [U32]); ("nlink", [U32]); ("uid", [U32]); ("gid", [U32]); ("rdev", [U32]); ("blksize",
   [U32]); ("flags", [U32])].

Definition fuse_file_lock : fields :=
  [("start", [U64]); ("end", [U64]); ("type", [U32]); ("pid", [U32])].

Definition fuse_entry_out : fields :=
  [("nodeid", [U64]); ("generation", [U64]); ("entry_valid", [U64]); ("attr_valid", [U64]);
   ("entry_valid_nsec", [U32]); ("attr_valid_nsec", [U32]); ("attr", scalars fuse_attr)].

Definition fuse_getattr_in : fields :=
  [("getattr_flags", [U32]); ("dummy", [U32]); ("fh", [U64])].

Definition fuse_attr_out : fields :=
  [("attr_valid", [U64]); ("attr_valid_nsec", [U32]); ("dummy", [U32]); ("attr", scalars
   fuse_attr)].

Definition fuse_mknod_in : fields :=
  [("mode", [U32]); ("rdev", [U32]); ("umask", [U32]); ("padding", [U32])].

Definition fuse_mkdir_in : fields :=
  [("mode", [U32]); ("umask", [U32])].

Definition fuse_rename_in : fields :=
  [("newdir", [U64])].

Definition fuse_setattr_in : fields :=
  [("valid", [U32]); ("padding", [U32]); ("fh", [U64]); ("size", [U64]); ("lock_owner",
   [U64]); ("atime", [U64]); ("mtime", [U64]); ("ctime", [U64]); ("atimensec", [U32]);
   ("mtimensec", [U32]); ("ctimensec", [U32]); ("mode", [U32]); ("unused4", [U32]); ("uid",
   [U32]); ("gid", [U32]); ("unused5", [U32])].

Definition fuse_create_in : fields :=
  [("flags", [U32]); ("mode", [U32]); ("umask", [U32]); ("open_flags", [U32])].

Definition fuse_flush_in : fields :=
  [("fh", [U64]); ("unused", [U32]); ("padding", [U32]); ("lock_owner", [U64])].

Definition fuse_fsync_in : fields :=
  [("fh", [U64]); ("fsync_flags", [U32]); ("padding", [U32])].

Definition fuse_lk_in : fields :=
  [("fh", [U64]); ("owner", [U64]); ("lk", scalars fuse_file_lock); ("lk_flags", [U32]);
   ("padding", [U32])].

Definition fuse_lk_out : fields :=
  [("lk", scalars fuse_file_lock)].

Definition fuse_access_in : fields :=
  [("mask", [U32]); ("padding", [U32])].

Definition cuse_init_in : fields :=
  [("major", [U32]); ("minor", [U32]); ("unused", [U32]); ("flags", [U32])].

Definition cuse_init_out : fields :=
  [("major", [U32]); ("minor", [U32]); ("unused", [U32]); ("flags", [U32]); ("max_read",
   [U32]); ("max_write", [U32]); ("dev_major", [U32]); ("dev_minor", [U32]); ("spare",
   replicate 10 U32)].

Definition fuse_interrupt_in : fields :=
  [("unique", [U64])].

Definition fuse_bmap_in : fields :=
  [("block", [U64]); ("blocksize", [U32]); ("padding", [U32])].

Definition fuse_bmap_out : fields :=
  [("block", [U64])].

Definition fuse_ioctl_in : fields :=
  [("fh", [U64]); ("flags", [U32]); ("cmd", [U32]); ("arg", [U64]); ("in_size", [U32]);
   ("out_size", [U32])].

Definition fuse_ioctl_iovec : fields :=
  [("base", [U64]); ("len", [U64])].

Definition fuse_ioctl_out : fields :=
  [("result", [I32]); ("flags", [U32]); ("in_iovs", [U32]); ("out_iovs", [U32])].

Definition fuse_poll_in : fields :=
  [("fh", [U64]); ("kh", [U64]); ("flags", [U32]); ("events", [U32])].

Definition fuse_poll_out : fields :=
  [("revents", [U32]); ("padding", [U32])].

Definition fuse_notify_poll_wakeup_out : fields :=
  [("kh", [U64])].

Definition fuse_direntplus : fields :=
  [("entry_out", scalars fuse_entry_out); ("dirent", layout fuse_dirent)].

Definition fuse_notify_inval_inode_out : fields :=
  [("ino", [U64]); ("off", [I64]); ("len", [I64])].

Definition fuse_notify_inval_entry_out : fields :=
  [("parent", [U64]); ("namelen", [U32]); ("flags", [U32])].

Definition fuse_notify_delete_out : fields :=
  [("parent", [U64]); ("child", [U64]); ("namelen", [U32]); ("padding", [U32])].

Definition fuse_notify_store_out : fields :=
  [("nodeid", [U64]); ("offset", [U64]); ("size", [U32]); ("padding", [U32])].

Definition fuse_notify_retrieve_out : fields :=
  [("notify_unique", [U64]); ("nodeid", [U64]); ("offset", [U64]); ("size", [U32]);
   ("padding", [U32])].

Definition fuse_notify_retrieve_in : fields :=
  [("dummy1", [U64]); ("offset", [U64]); ("size", [U32]); ("dummy2", [U32]); ("dummy3",
   [U64]); ("dummy4", [U64])].

Definition fuse_notify_prune_out : fields :=
  [("count", [U32]); ("padding", [U32]); ("spare", [U64])].

Definition fuse_backing_map : fields :=
  [("fd", [I32]); ("flags", [U32]); ("padding", [U64])].

Definition fuse_lseek_in : fields :=
  [("fh", [U64]); ("offset", [U64]); ("whence", [U32]); ("padding", [U32])].

Definition fuse_lseek_out : fields :=
  [("offset", [U64])].

Definition fuse_copy_file_range_in : fields :=
  [("fh_in", [U64]); ("off_in", [U64]); ("nodeid_out", [U64]); ("fh_out", [U64]); ("off_out",
   [U64]); ("len", [U64]); ("flags", [U64])].

Definition fuse_copy_file_range_out : fields :=
  [("bytes_copied", [U64])].

Definition fuse_setupmapping_in : fields :=
  [("fh", [U64]); ("foffset", [U64]); ("len", [U64]); ("flags", [U64]); ("moffset", [U64])].

Definition fuse_removemapping_in : fields :=
  [("count", [U32])].

Definition fuse_removemapping_one : fields :=
  [("moffset", [U64]); ("len", [U64])].

Definition fuse_syncfs_in : fields :=
  [("padding", [U64])].

Definition fuse_secctx : fields :=
  [("size", [U32]); ("padding", [U32])].

Definition fuse_secctx_header : fields :=
  [("size", [U32]); ("nr_secctx", [U32])].

Definition fuse_ext_header : fields :=
  [("size", [U32]); ("type", [U32])].

Definition fuse_supp_groups : fields :=
  [("nr_groups", [U32])].

(** Every struct of this file. *)
Definition other_structs : list fields :=
  [fuse_attr; fuse_file_lock; fuse_entry_out; fuse_getattr_in; fuse_attr_out; fuse_mknod_in;
   fuse_mkdir_in; fuse_rename_in; fuse_setattr_in; fuse_create_in; fuse_flush_in;
   fuse_fsync_in; fuse_lk_in; fuse_lk_out; fuse_access_in; cuse_init_in; cuse_init_out;
   fuse_interrupt_in; fuse_bmap_in; fuse_bmap_out; fuse_ioctl_in; fuse_ioctl_iovec;
   fuse_ioctl_out; fuse_poll_in; fuse_poll_out; fuse_notify_poll_wakeup_out; fuse_direntplus;
   fuse_notify_inval_inode_out; fuse_notify_inval_entry_out; fuse_notify_delete_out;
   fuse_notify_store_out; fuse_notify_retrieve_out; fuse_notify_retrieve_in;
   fuse_notify_prune_out; fuse_backing_map; fuse_lseek_in; fuse_lseek_out;
   fuse_copy_file_range_in; fuse_copy_file_range_out; fuse_setupmapping_in;
   fuse_removemapping_in; fuse_removemapping_one; fuse_syncfs_in; fuse_secctx;
   fuse_secctx_header; fuse_ext_header; fuse_supp_groups].

(** ** Flag words *)

(** The flag words of SETATTR and open, and the capabilities of INIT, by name. *)
Definition fattr_flags : list (string * Z) :=
  [ ("FATTR_MODE", Z.shiftl 1 0);
    ("FATTR_UID", Z.shiftl 1 1);
    ("FATTR_GID", Z.shiftl 1 2);
    ("FATTR_SIZE", Z.shiftl 1 3);
    ("FATTR_ATIME", Z.shiftl 1 4);
    ("FATTR_MTIME", Z.shiftl 1 5);
    ("FATTR_FH", Z.shiftl 1 6);
    ("FATTR_ATIME_NOW", Z.shiftl 1 7);
    ("FATTR_MTIME_NOW", Z.shiftl 1 8);
    ("FATTR_LOCKOWNER", Z.shiftl 1 9);
    ("FATTR_CTIME", Z.shiftl 1 10);
    ("FATTR_KILL_SUIDGID", Z.shiftl 1 11) ].

Definition fopen_flags : list (string * Z) :=
  [ ("FOPEN_DIRECT_IO", Z.shiftl 1 0);
    ("FOPEN_KEEP_CACHE", Z.shiftl 1 1);
    ("FOPEN_NONSEEKABLE", Z.shiftl 1 2);
    ("FOPEN_CACHE_DIR", Z.shiftl 1 3);
    ("FOPEN_STREAM", Z.shiftl 1 4);
    ("FOPEN_NOFLUSH", Z.shiftl 1 5);
    ("FOPEN_PARALLEL_DIRECT_WRITES", Z.shiftl 1 6);
    ("FOPEN_PASSTHROUGH", Z.shiftl 1 7) ].

Definition init_flags : list (string * Z) :=
  [ ("FUSE_ASYNC_READ", Z.shiftl 1 0);
    ("FUSE_POSIX_LOCKS", Z.shiftl 1 1);
    ("FUSE_FILE_OPS", Z.shiftl 1 2);
    ("FUSE_ATOMIC_O_TRUNC", Z.shiftl 1 3);
    ("FUSE_EXPORT_SUPPORT", Z.shiftl 1 4);
    ("FUSE_BIG_WRITES", Z.shiftl 1 5);
    ("FUSE_DONT_MASK", Z.shiftl 1 6);
    ("FUSE_SPLICE_WRITE", Z.shiftl 1 7);
    ("FUSE_SPLICE_MOVE", Z.shiftl 1 8);
    ("FUSE_SPLICE_READ", Z.shiftl 1 9);
    ("FUSE_FLOCK_LOCKS", Z.shiftl 1 10);
    ("FUSE_HAS_IOCTL_DIR", Z.shiftl 1 11);
    ("FUSE_AUTO_INVAL_DATA", Z.shiftl 1 12);
    ("FUSE_DO_READDIRPLUS", Z.shiftl 1 13);
    ("FUSE_READDIRPLUS_AUTO", Z.shiftl 1 14);
    ("FUSE_ASYNC_DIO", Z.shiftl 1 15);
    ("FUSE_WRITEBACK_CACHE", Z.shiftl 1 16);
    ("FUSE_NO_OPEN_SUPPORT", Z.shiftl 1 17);
    ("FUSE_PARALLEL_DIROPS", Z.shiftl 1 18);
    ("FUSE_HANDLE_KILLPRIV", Z.shiftl 1 19);
    ("FUSE_POSIX_ACL", Z.shiftl 1 20);
    ("FUSE_ABORT_ERROR", Z.shiftl 1 21);
    ("FUSE_MAX_PAGES", Z.shiftl 1 22);
    ("FUSE_CACHE_SYMLINKS", Z.shiftl 1 23);
    ("FUSE_NO_OPENDIR_SUPPORT", Z.shiftl 1 24);
    ("FUSE_EXPLICIT_INVAL_DATA", Z.shiftl 1 25);
    ("FUSE_MAP_ALIGNMENT", Z.shiftl 1 26);
    ("FUSE_SUBMOUNTS", Z.shiftl 1 27);
    ("FUSE_HANDLE_KILLPRIV_V2", Z.shiftl 1 28);
    ("FUSE_SETXATTR_EXT", Z.shiftl 1 29);
    ("FUSE_INIT_EXT", Z.shiftl 1 30);
    ("FUSE_SECURITY_CTX", Z.shiftl 1 32);
    ("FUSE_HAS_INODE_DAX", Z.shiftl 1 33);
    ("FUSE_CREATE_SUPP_GROUP", Z.shiftl 1 34);
    ("FUSE_HAS_EXPIRE_ONLY", Z.shiftl 1 35);
    ("FUSE_DIRECT_IO_ALLOW_MMAP", Z.shiftl 1 36);
    ("FUSE_PASSTHROUGH", Z.shiftl 1 37);
    ("FUSE_NO_EXPORT_SUPPORT", Z.shiftl 1 38);
    ("FUSE_HAS_RESEND", Z.shiftl 1 39);
    ("FUSE_ALLOW_IDMAP", Z.shiftl 1 40);
    ("FUSE_OVER_IO_URING", Z.shiftl 1 41);
    ("FUSE_REQUEST_TIMEOUT", Z.shiftl 1 42);
    ("FUSE_OVER_IO_URING_NOTIFY", Z.shiftl 1 43) ].

(** An [int] with its sign bit set, and an older name. *)
Definition FUSE_INIT_RESERVED : Z := cast I32 (Z.shiftl 1 31).
Definition FUSE_DIRECT_IO_RELAX : Z := Z.shiftl 1 36.

Fixpoint flag (table : list (string * Z)) (name : string) : option Z :=
  match table with
  | [] => None
  | (n, v) :: table' => if String.eqb n name then Some v else flag table' name
  end.

(** CUSE, RELEASE, GETATTR, locks, WRITE, READ. *)
Definition CUSE_UNRESTRICTED_IOCTL : Z := Z.shiftl 1 0.
Definition FUSE_RELEASE_FLUSH : Z := Z.shiftl 1 0.
Definition FUSE_RELEASE_FLOCK_UNLOCK : Z := Z.shiftl 1 1.
Definition FUSE_GETATTR_FH : Z := Z.shiftl 1 0.
Definition FUSE_LK_FLOCK : Z := Z.shiftl 1 0.
Definition FUSE_WRITE_CACHE : Z := Z.shiftl 1 0.
Definition FUSE_WRITE_LOCKOWNER : Z := Z.shiftl 1 1.
Definition FUSE_WRITE_KILL_SUIDGID : Z := Z.shiftl 1 2.
Definition FUSE_READ_LOCKOWNER : Z := Z.shiftl 1 1.

Definition FUSE_WRITE_KILL_PRIV : Z := FUSE_WRITE_KILL_SUIDGID.

(** IOCTL, POLL, FSYNC, attributes, OPEN, SETXATTR, invalidation. *)
Definition FUSE_IOCTL_COMPAT : Z := Z.shiftl 1 0.
Definition FUSE_IOCTL_UNRESTRICTED : Z := Z.shiftl 1 1.
Definition FUSE_IOCTL_RETRY : Z := Z.shiftl 1 2.
Definition FUSE_IOCTL_32BIT : Z := Z.shiftl 1 3.
Definition FUSE_IOCTL_DIR : Z := Z.shiftl 1 4.
Definition FUSE_IOCTL_COMPAT_X32 : Z := Z.shiftl 1 5.
Definition FUSE_POLL_SCHEDULE_NOTIFY : Z := Z.shiftl 1 0.
Definition FUSE_FSYNC_FDATASYNC : Z := Z.shiftl 1 0.
Definition FUSE_ATTR_SUBMOUNT : Z := Z.shiftl 1 0.
Definition FUSE_ATTR_DAX : Z := Z.shiftl 1 1.
Definition FUSE_OPEN_KILL_SUIDGID : Z := Z.shiftl 1 0.
Definition FUSE_SETXATTR_ACL_KILL_SGID : Z := Z.shiftl 1 0.
Definition FUSE_EXPIRE_ONLY : Z := Z.shiftl 1 0.

Definition FUSE_IOCTL_MAX_IOV : Z := 256.

(** Requests sent again, and SETUPMAPPING. *)
Definition FUSE_UNIQUE_RESEND : Z := Z.shiftl 1 63.

Definition FUSE_SETUPMAPPING_FLAG_WRITE : Z := Z.shiftl 1 0.
Definition FUSE_SETUPMAPPING_FLAG_READ : Z := Z.shiftl 1 1.

(** ** Codes and sizes *)

Inductive fuse_ext_type : Set := FUSE_MAX_NR_SECCTX | FUSE_EXT_GROUPS.

Definition ext_type_value (x : fuse_ext_type) : Z :=
  match x with FUSE_MAX_NR_SECCTX => 31 | FUSE_EXT_GROUPS => 32 end.

Inductive fuse_notify_code : Set :=
| FUSE_NOTIFY_POLL
| FUSE_NOTIFY_INVAL_INODE
| FUSE_NOTIFY_INVAL_ENTRY
| FUSE_NOTIFY_STORE
| FUSE_NOTIFY_RETRIEVE
| FUSE_NOTIFY_DELETE
| FUSE_NOTIFY_RESEND
| FUSE_NOTIFY_INC_EPOCH
| FUSE_NOTIFY_PRUNE.

Definition notify_value (x : fuse_notify_code) : Z :=
  match x with
  | FUSE_NOTIFY_POLL => 1
  | FUSE_NOTIFY_INVAL_INODE => 2
  | FUSE_NOTIFY_INVAL_ENTRY => 3
  | FUSE_NOTIFY_STORE => 4
  | FUSE_NOTIFY_RETRIEVE => 5
  | FUSE_NOTIFY_DELETE => 6
  | FUSE_NOTIFY_RESEND => 7
  | FUSE_NOTIFY_INC_EPOCH => 8
  | FUSE_NOTIFY_PRUNE => 9
  end.

Definition FUSE_ROOT_ID : Z := 1.
Definition FUSE_MIN_READ_BUFFER : Z := 8192.
Definition CUSE_INIT_INFO_MAX : Z := 4096.
Definition FUSE_INVALID_UIDGID : Z := cast U32 (-1).

Definition FUSE_COMPAT_ENTRY_OUT_SIZE : Z := 120.
Definition FUSE_COMPAT_ATTR_OUT_SIZE : Z := 96.
Definition FUSE_COMPAT_MKNOD_IN_SIZE : Z := 8.
Definition FUSE_COMPAT_WRITE_IN_SIZE : Z := 24.
Definition FUSE_COMPAT_STATFS_SIZE : Z := 48.
Definition FUSE_COMPAT_SETXATTR_IN_SIZE : Z := 8.
Definition FUSE_COMPAT_INIT_OUT_SIZE : Z := 8.
Definition FUSE_COMPAT_22_INIT_OUT_SIZE : Z := 24.

(** Directory entries with their attributes; [name] follows the struct. *)
Definition FUSE_NAME_OFFSET_DIRENTPLUS : Z :=
  default 0 (offsetof fuse_direntplus "dirent") + sizeof fuse_dirent.

Definition FUSE_DIRENTPLUS_SIZE (namelen : Z) : Z :=
  FUSE_REC_ALIGN (FUSE_NAME_OFFSET_DIRENTPLUS + namelen).

Definition FUSE_REMOVEMAPPING_MAX_ENTRY (page_size : Z) : Z :=
  page_size / struct_size fuse_removemapping_one.

(** Numbers of ioctls: direction, size of the argument, driver, command. *)
Definition ioc (dir type nr size : Z) : Z :=
  Z.lor (Z.lor (Z.shiftl dir 30) (Z.shiftl size 16)) (Z.lor (Z.shiftl type 8) nr).

Definition FUSE_DEV_IOC_MAGIC : Z := 229.
Definition FUSE_DEV_IOC_CLONE : Z := ioc 2 FUSE_DEV_IOC_MAGIC 0 4.
Definition FUSE_DEV_IOC_BACKING_OPEN : Z := ioc 1 FUSE_DEV_IOC_MAGIC 1 (struct_size fuse_backing_map).
Definition FUSE_DEV_IOC_BACKING_CLOSE : Z := ioc 1 FUSE_DEV_IOC_MAGIC 2 4.
Definition FUSE_DEV_IOC_SYNC_INIT : Z := ioc 0 FUSE_DEV_IOC_MAGIC 3 0.

(** ** Lemmas *)

(** The first fields of a message do not depend on the others. *)
Lemma dec_fields_prefix k ts b :
  dec_fields (take k ts) (take (layout_size (take k ts)) b) = take k (dec_fields ts b).
Proof.
  revert k b. induction ts as [|t ts IH]; intros [|k] b; try done. cbn [take dec_fields].
  unfold layout_size. cbn [map list_sum fold_right]. fold (list_sum (map width (take k ts))).
  fold (layout_size (take k ts)). rewrite take_take, Nat.min_l by lia. f_equal.
  rewrite skipn_firstn_comm. replace (width t + _ - width t)%nat with (layout_size (take k ts)) by lia.
  apply IH.
Qed.

(** The structs with an older form, its size, and the fields it has. *)
Definition compat_forms : list (list cty * Z * nat) :=
  [(scalars fuse_entry_out, FUSE_COMPAT_ENTRY_OUT_SIZE, 20%nat);
   (scalars fuse_attr_out, FUSE_COMPAT_ATTR_OUT_SIZE, 17%nat);
   (scalars fuse_mknod_in, FUSE_COMPAT_MKNOD_IN_SIZE, 2%nat);
   (layout fuse_write_in, FUSE_COMPAT_WRITE_IN_SIZE, 4%nat);
   (layout fuse_statfs_out, FUSE_COMPAT_STATFS_SIZE, 7%nat);
   (layout fuse_setxattr_in, FUSE_COMPAT_SETXATTR_IN_SIZE, 2%nat);
   (layout fuse_init_out, FUSE_COMPAT_INIT_OUT_SIZE, 2%nat);
   (layout fuse_init_out, FUSE_COMPAT_22_INIT_OUT_SIZE, 7%nat)].

Definition one_bit (f : Z) : bool := (0 <? f) && (Z.land f (f - 1) =? 0).

(** ** Theorems *)

(** No struct has hidden padding, so sizes and offsets are sums of widths. *)
Theorem other_structs_packed :
  Forall (fun s => struct_size s = Z.of_nat (layout_size (scalars s))) other_structs.
Proof. repeat constructor. Qed.

(** Older peers. The size the interface documents for the older form of a
    struct is the size of a prefix of its fields, and never all of it; a message
    cut to that size decodes to the same values in those fields. *)
Theorem compat_form_decodes ts n k b :
  (ts, n, k) ∈ compat_forms ->
  n = Z.of_nat (layout_size (take k ts)) /\ n < c_sizeof ts /\
  dec_fields (take k ts) (take (Z.to_nat n) b) = take k (dec_fields ts b).
Proof.
  intros Hin. assert (Hn : n = Z.of_nat (layout_size (take k ts)) /\ n < c_sizeof ts).
  { revert Hin. unfold compat_forms. rewrite !elem_of_cons, elem_of_nil.
    intros [H|[H|[H|[H|[H|[H|[H|[H|[]]]]]]]]]; injection H as -> -> ->; vm_compute; done. }
  destruct Hn as [-> Hlt]. split; [done|]. split; [done|]. rewrite Nat2Z.id. apply dec_fields_prefix.
Qed.

Lemma compat_form_decodes_witness :
  FUSE_COMPAT_WRITE_IN_SIZE = Z.of_nat (layout_size (take 4 (layout fuse_write_in))).
Proof.
  apply (compat_form_decodes (layout fuse_write_in) FUSE_COMPAT_WRITE_IN_SIZE 4 []).
  unfold compat_forms. do 3 right. left.
Defined.

(** No two flags of a word share a bit, the flags the library uses are among the
    capabilities of INIT, and io_uring is bit 9 of [flags2]. *)
Theorem flags_apart :
  Forall (fun t => forallb one_bit (map snd t) = true /\ NoDup (map snd t))
    [fattr_flags; fopen_flags; init_flags] /\
  flag init_flags "FUSE_WRITEBACK_CACHE" = Some FUSE_WRITEBACK_CACHE /\
  flag init_flags "FUSE_PARALLEL_DIROPS" = Some FUSE_PARALLEL_DIROPS /\
  flag init_flags "FUSE_MAX_PAGES" = Some FUSE_MAX_PAGES /\
  flag init_flags "FUSE_INIT_EXT" = Some FUSE_INIT_EXT /\
  flag init_flags "FUSE_OVER_IO_URING" = Some FUSE_OVER_IO_URING /\
  Z.shiftr FUSE_OVER_IO_URING 32 = Z.shiftl 1 9.
Proof.
  split_and!; try reflexivity.
  repeat constructor; apply (bool_decide_unpack _); vm_compute; exact I.
Qed.

(** The flags a daemon returns from open and opendir are those of the wire, to
    which the reply copies them; so are the root and the flag of mkobjx. *)
Theorem public_flags_are_wire_flags :
  flag fopen_flags "FOPEN_DIRECT_IO" = Some open_flags.direct_io /\
  flag fopen_flags "FOPEN_KEEP_CACHE" = Some open_flags.keep_cache /\
  flag fopen_flags "FOPEN_NONSEEKABLE" = Some open_flags.nonseekable /\
  flag fopen_flags "FOPEN_CACHE_DIR" = Some open_flags.cache_dir /\
  open_flags.cache_dir = FOPEN_CACHE_DIR /\
  kMkobjxTmpfile = FUSE_MKOBJX_TMPFILE /\ NodeId_root = FUSE_ROOT_ID.
Proof. done. Qed.

(** The ioctls on the device do not collide. *)
Theorem device_ioctls_apart :
  NoDup [FUSE_DEV_IOC_CLONE; FUSE_DEV_IOC_BACKING_OPEN; FUSE_DEV_IOC_BACKING_CLOSE;
         FUSE_DEV_IOC_SYNC_INIT].
Proof. apply (bool_decide_unpack _). vm_compute. exact I. Qed.

(** A directory entry with attributes is rounded up to 64 bits. *)
Theorem direntplus_size namelen :
  FUSE_NAME_OFFSET_DIRENTPLUS = 152 /\
  152 + namelen <= FUSE_DIRENTPLUS_SIZE namelen < 152 + namelen + 8.
Proof.
  assert (Ho : FUSE_NAME_OFFSET_DIRENTPLUS = 152) by done. split; [done|].
  unfold FUSE_DIRENTPLUS_SIZE. rewrite Ho. apply FUSE_REC_ALIGN_bounds.
Qed.
