(* ===== verification/DirentWriter.v ===== *)
(** * Directory entries (include/fex/reply.hpp, src/reply.cpp)

    [DirentWriter::add] packs one entry into the buffer [readdir] fills. The
    specification is the reader's side: the bytes written so far are the
    concatenation of the entries accepted, each padded to 8 bytes, and a reader
    that advances by [FUSE_DIRENT_SIZE] gets exactly these entries back. *)

From S2P Require Import Prelude Memory Pod Abi.

(** ** The writer *)

Record DirentWriter := { dw_buf : bytes; dw_pos : Z }.

Definition DirentWriter_make (buf : bytes) : DirentWriter := {| dw_buf := buf; dw_pos := 0 |}.

Definition bytes_written (w : DirentWriter) : Z := dw_pos w.

Definition dw_empty (w : DirentWriter) : bool := dw_pos w =? 0.

(** The arguments of [add]. *)
Record dir_entry := { de_name : bytes; de_ino : Z; de_off : Z; de_type : Z }.

Definition dirent_raw (e : dir_entry) : Z := sizeof fuse_dirent + zlen (de_name e).

(** [(raw + 7u) & ~std::size_t{7u}]. *)
Definition dirent_padded (e : dir_entry) : Z := Z.land (dirent_raw e + 7) (Z.lnot 7).

Definition dirent_header (e : dir_entry) : fuse_dirent := {|
  dirent_ino := de_ino e;
  dirent_off := de_off e;
  dirent_namelen := cast U32 (zlen (de_name e));
  dirent_type := de_type e |}.

Definition add (w : DirentWriter) (e : dir_entry) : outcome (bool * DirentWriter) :=
  let raw := dirent_raw e in
  let padded := dirent_padded e in
  if wrapu 64 (zlen (dw_buf w) - dw_pos w) <? padded then Done (false, w) else
  let* b := store (dw_buf w) (dw_pos w) (encode (dirent_header e)) in
  let* b := store b (dw_pos w + sizeof fuse_dirent) (de_name e) in
  let* b := store b (dw_pos w + raw) (zero_bytes (padded - raw)) in
  Done (true, {| dw_buf := b; dw_pos := dw_pos w + padded |}).

(** ** What a daemon can do with the writer: calls of [add], in any number,
    also after one that returned false. [adds w es w'] says that the calls
    lead from [w] to [w'] and that [es] are the entries accepted. *)
Inductive adds : DirentWriter -> list dir_entry -> DirentWriter -> Prop :=
| adds_nil w : adds w [] w
| adds_true w e w1 es w2 :
    add w e = Done (true, w1) -> adds w1 es w2 -> adds w (e :: es) w2
| adds_false w e w1 es w2 :
    add w e = Done (false, w1) -> adds w1 es w2 -> adds w es w2.

(** ** The reader *)

(** Walks the buffer as the receiver does, one [FUSE_DIRENT_SIZE] at a time;
    [None] when a record is cut short. The fuel bounds the number of records,
    each of which is at least 24 bytes. *)
Fixpoint read_dirents (fuel : nat) (b : bytes) : option (list dir_entry) :=
  match b, fuel with
  | [], _ => Some []
  | _, O => None
  | _, S fuel' =>
      match load fuse_dirent b 0 with
      | Fault _ => None
      | Done d =>
          match slice b (sizeof fuse_dirent) (dirent_namelen d) with
          | Fault _ => None
          | Done name =>
              if zlen b <? FUSE_DIRENT_SIZE d then None else
              match read_dirents fuel' (drop (Z.to_nat (FUSE_DIRENT_SIZE d)) b) with
              | None => None
              | Some es =>
                  Some ({| de_name := name; de_ino := dirent_ino d;
                           de_off := dirent_off d; de_type := dirent_type d |} :: es)
              end
          end
      end
  end.

(** ** Invariants *)

Definition dw_ok (w : DirentWriter) : Prop :=
  0 <= dw_pos w <= zlen (dw_buf w) /\ dw_pos w mod 8 = 0 /\ zlen (dw_buf w) < 2 ^ 63.

(** The record [add] lays out for one entry. *)
Definition dirent_bytes (e : dir_entry) : bytes :=
  encode (dirent_header e) ++ de_name e ++ zero_bytes (dirent_padded e - dirent_raw e).

(** The argument types of [add], and a name whose length fits the 32-bit field. *)
Definition entry_ok (e : dir_entry) : Prop :=
  fits U64 (de_ino e) /\ fits U64 (de_off e) /\ fits U32 (de_type e) /\
  zlen (de_name e) < 2 ^ 32.

(** ** Lemmas *)

Lemma sizeof_dirent : sizeof fuse_dirent = 24.
Proof. reflexivity. Qed.

Lemma dirent_padded_align e : dirent_padded e = FUSE_REC_ALIGN (dirent_raw e).
Proof.
  unfold dirent_padded, FUSE_REC_ALIGN. f_equal. lia.
Qed.

Lemma dirent_padded_bounds e :
  dirent_raw e <= dirent_padded e < dirent_raw e + 8 /\ dirent_padded e mod 8 = 0 /\
  24 <= dirent_raw e.
Proof.
  rewrite dirent_padded_align. pose proof (FUSE_REC_ALIGN_bounds (dirent_raw e)).
  split; [lia|]. split.
  - rewrite FUSE_REC_ALIGN_spec. apply Z.mod_mul. lia.
  - unfold dirent_raw. rewrite sizeof_dirent. pose_zlen. lia.
Qed.

Lemma zlen_dirent_bytes e : zlen (dirent_bytes e) = dirent_padded e.
Proof.
  pose proof (dirent_padded_bounds e). unfold dirent_bytes, dirent_raw in *. zl.
Qed.

(** [add] on a well-formed writer: it either refuses the entry and changes
    nothing, exactly when the padded record does not fit, or writes the record
    at the position. *)
Lemma add_spec w e :
  dw_ok w ->
  add w e =
    if zlen (dw_buf w) - dw_pos w <? dirent_padded e then Done (false, w)
    else Done (true, {| dw_buf := splice (dw_buf w) (dw_pos w) (dirent_bytes e);
                        dw_pos := dw_pos w + dirent_padded e |}).
Proof.
  intros (Hpos & _ & Hlen). unfold add. rewrite wrapu_small by lia.
  case_if; [done|].
  pose proof (dirent_padded_bounds e) as (Hp & _ & _).
  assert (Hh := zlen_encode (dirent_header e)). unfold dirent_bytes.
  revert Hh. generalize (encode (dirent_header e)). intros hdr Hh.
  unfold dirent_raw in *. rewrite <- Hh in *. pose_zlen.
  rewrite store_Done by zl. simpl.
  rewrite store_Done by zl. simpl. rewrite splice_splice_adjacent by zl.
  replace (dw_pos w + (zlen hdr + zlen (de_name e)))
    with (dw_pos w + zlen (hdr ++ de_name e)) by zl.
  rewrite store_Done by zl. simpl. rewrite splice_splice_adjacent by zl.
  by rewrite <- app_assoc.
Qed.

Lemma add_true_inv w e w' :
  dw_ok w -> add w e = Done (true, w') ->
  dw_ok w' /\ zlen (dw_buf w') = zlen (dw_buf w) /\
  take (Z.to_nat (dw_pos w')) (dw_buf w') =
    take (Z.to_nat (dw_pos w)) (dw_buf w) ++ dirent_bytes e.
Proof.
  intros Hok. rewrite add_spec by done. case_if; [discriminate|]. intros [= <-].
  destruct Hok as (Hpos & Hmod & Hlen). pose proof (dirent_padded_bounds e) as (Hp & Hp8 & _).
  rewrite <- (zlen_dirent_bytes e) in *. unfold dw_ok. simpl.
  rewrite zlen_splice, take_splice by lia.
  split; [|done]. pose_zlen. split_and!; [lia|lia| |lia]. rewrite Z.add_mod, Hmod, Hp8 by lia. done.
Qed.

Lemma add_false_inv w e w' : dw_ok w -> add w e = Done (false, w') -> w' = w.
Proof.
  intros Hok. rewrite add_spec by done. case_if; [|discriminate]. by intros [= <-].
Qed.

(** The bytes before the position are the records of the accepted entries. *)
Lemma adds_prefix w es w' :
  adds w es w' -> dw_ok w ->
  dw_ok w' /\ zlen (dw_buf w') = zlen (dw_buf w) /\
  take (Z.to_nat (dw_pos w')) (dw_buf w') =
    take (Z.to_nat (dw_pos w)) (dw_buf w) ++ concat (map dirent_bytes es).
Proof.
  induction 1 as [w|w e w1 es w2 Ha _ IH|w e w1 es w2 Ha _ IH]; intros Hok.
  - simpl. by rewrite app_nil_r.
  - apply add_true_inv in Ha as (Hok1 & Hl1 & Ht1); [|done].
    destruct (IH Hok1) as (? & Hl2 & Ht2). split_and!; [done|congruence|].
    rewrite Ht2, Ht1. cbn [map concat]. by rewrite <- app_assoc.
  - apply add_false_inv in Ha as ->; auto.
Qed.

Lemma load_dirent_bytes e k :
  entry_ok e -> load fuse_dirent (dirent_bytes e ++ k) 0 = Done (dirent_header e).
Proof.
  intros (? & ? & ? & ?). unfold dirent_bytes. rewrite <- app_assoc.
  apply (load_encode []); [|done]. split_in_range.
Qed.

Lemma header_namelen e : entry_ok e -> dirent_namelen (dirent_header e) = zlen (de_name e).
Proof.
  intros (? & ? & ? & ?). simpl. apply cast_id. pose_zlen. fits_lia.
Qed.

Lemma read_dirents_concat es fuel :
  Forall entry_ok es -> (length es <= fuel)%nat ->
  read_dirents fuel (concat (map dirent_bytes es)) = Some es.
Proof.
  intros Hes. revert fuel. induction Hes as [|e es He Hes IH]; intros fuel Hf; [by destruct fuel|].
  destruct fuel as [|fuel]; [simpl in Hf; lia|]. cbn [map concat].
  pose proof (zlen_dirent_bytes e) as Hz. pose proof (dirent_padded_bounds e).
  destruct (dirent_bytes e ++ concat (map dirent_bytes es)) eqn:Eb.
  { apply app_eq_nil in Eb as [Eb _]. rewrite Eb in Hz. unfold zlen in Hz. simpl in Hz. lia. }
  cbn [read_dirents]. rewrite <- Eb, load_dirent_bytes, header_namelen by done.
  assert (Hsl : slice (dirent_bytes e ++ concat (map dirent_bytes es))
                  (sizeof fuse_dirent) (zlen (de_name e)) = Done (de_name e)).
  { unfold dirent_bytes at 1. rewrite <- !app_assoc. apply slice_mid; zl. }
  rewrite Hsl.
  assert (Hsz : FUSE_DIRENT_SIZE (dirent_header e) = zlen (dirent_bytes e)).
  { unfold FUSE_DIRENT_SIZE. rewrite header_namelen by done.
    rewrite Hz, dirent_padded_align. done. }
  rewrite Hsz, drop_zlen_app by done. case_if; [zl|].
  rewrite IH by (simpl in Hf; lia). by destruct e.
Qed.

(** ** Theorems *)

(** [DirentWriter::add] never writes outside the buffer: on a well-formed
    writer it returns, it returns true exactly when the padded record fits in
    the room left, it keeps the writer well formed (position in the buffer and
    8-byte aligned), and it leaves the bytes before the position and those
    after the record as they were; when it returns false nothing changes. *)
Theorem add_in_bounds w e :
  dw_ok w ->
  exists ok w', add w e = Done (ok, w') /\ dw_ok w' /\
    (ok = true <-> dirent_padded e <= zlen (dw_buf w) - dw_pos w) /\
    (ok = true -> dw_pos w' = dw_pos w + dirent_padded e) /\
    (ok = false -> w' = w) /\
    zlen (dw_buf w') = zlen (dw_buf w) /\
    take (Z.to_nat (dw_pos w)) (dw_buf w') = take (Z.to_nat (dw_pos w)) (dw_buf w) /\
    drop (Z.to_nat (dw_pos w')) (dw_buf w') = drop (Z.to_nat (dw_pos w')) (dw_buf w).
Proof.
  intros Hok. pose proof (add_spec w e Hok) as Ha. case_if_in Ha.
  { exists false, w. split; [done|]. split; [done|]. split; [split; [done|]; intros; lia|].
    done. }
  eexists true, _. split; [exact Ha|].
  apply add_true_inv in Ha as (Hok' & Hlen & Ht); [|done].
  destruct Hok as (Hpos & _ & _). split; [done|]. split; [split; [lia|done]|].
  split; [done|]. split; [done|]. split; [done|]. simpl in *.
  rewrite <- (zlen_dirent_bytes e) in *. rewrite drop_splice by lia.
  split; [|done]. unfold splice. apply take_zlen_app. zl.
Qed.

Lemma add_in_bounds_witness :
  exists w', add (DirentWriter_make (zero_bytes 40))
    {| de_name := [Byte.x61; Byte.x62]; de_ino := 7; de_off := 1; de_type := 8 |}
    = Done (true, w') /\ dw_ok w' /\ dw_pos w' = 32.
Proof.
  destruct (add_in_bounds (DirentWriter_make (zero_bytes 40))
    {| de_name := [Byte.x61; Byte.x62]; de_ino := 7; de_off := 1; de_type := 8 |})
    as (ok & w' & Ha & Hok & Hiff & Hpos & _).
  - split_and!; vm_compute; congruence.
  - assert (Ht : ok = true) by (apply Hiff; vm_compute; congruence).
    exists w'. rewrite <- Ht. rewrite (Hpos Ht). done.
Defined.

(** C31: reading a directory reply back. Whatever calls of [add] a daemon makes
    on a fresh writer, a reader that walks the bytes written with
    [FUSE_DIRENT_SIZE] finds exactly the entries that were accepted, in order,
    with their names, inode numbers, offsets and types. *)
Theorem dirent_roundtrip buf es w' :
  zlen buf < 2 ^ 63 ->
  adds (DirentWriter_make buf) es w' ->
  Forall entry_ok es ->
  read_dirents (length es) (take (Z.to_nat (bytes_written w')) (dw_buf w')) = Some es.
Proof.
  intros Hbuf Ha Hes. apply adds_prefix in Ha as (_ & _ & Ht).
  - unfold bytes_written. rewrite Ht. simpl. by apply read_dirents_concat.
  - unfold dw_ok. simpl. pose_zlen. split_and!; [lia|lia|done|lia].
Qed.

Lemma dirent_roundtrip_witness :
  let e1 := {| de_name := [Byte.x61]; de_ino := 5; de_off := 1; de_type := 4 |} in
  let e2 := {| de_name := [Byte.x62; Byte.x63]; de_ino := 6; de_off := 2; de_type := 8 |} in
  exists w', read_dirents 1 (take (Z.to_nat (bytes_written w')) (dw_buf w')) = Some [e1] /\
    adds (DirentWriter_make (zero_bytes 40)) [e1] w'.
Proof.
  intros e1 e2.
  assert (Ha : exists w', adds (DirentWriter_make (zero_bytes 40)) [e1] w').
  { eexists. eapply adds_true; [vm_compute; reflexivity|].
    eapply (adds_false _ e2); [vm_compute; reflexivity|]. apply adds_nil. }
  destruct Ha as [w' Ha]. exists w'. split; [|done].
  apply (dirent_roundtrip (zero_bytes 40) [e1] w'); [done|done|].
  repeat constructor; vm_compute; congruence.
Defined.
