(* ===== verification/Filesystem.v ===== *)
(** * The daemon interface (include/fex/filesystem.hpp)

    [Filesystem S] is the abstract class: one operation per virtual method,
    over the state [S] of the daemon. A callback that returns
    [std::expected<T, Errc>] returns an [expected T]; one that fills a span or
    a [DirentWriter] returns what it made of it. [base] is the class with the
    default bodies, given the three pure virtual methods. *)

From S2P Require Import Prelude Memory Pod Abi Types DirentWriter.

(** ** The virtual methods *)

Record Filesystem (S : Type) := {
  fs_init : InitInfo -> S -> expected unit * InitInfo * S;
  fs_destroy : S -> S;
  fs_lookup_root : Context -> S -> expected EntryOut * S;
  fs_lookupx : Context -> NodeId -> bytes -> S -> expected EntryOut * S;
  fs_forget : NodeId -> Z -> S -> S;
  fs_forget_multi : list (NodeId * Z) -> S -> S;
  fs_statx : Context -> NodeId -> S -> expected StatxOut * S;
  fs_setstatx : Context -> NodeId -> FileHandle -> SetStatxIn -> S -> expected StatxOut * S;
  fs_mkobjx : Context -> NodeId -> MkobjxIn -> S -> expected EntryOut * S;
  fs_unlink : Context -> NodeId -> bytes -> S -> expected unit * S;
  fs_rmdir : Context -> NodeId -> bytes -> S -> expected unit * S;
  fs_rename : Context -> NodeId -> bytes -> NodeId -> bytes -> Z -> S -> expected unit * S;
  fs_link : Context -> NodeId -> NodeId -> bytes -> S -> expected unit * S;
  fs_readlink : Context -> NodeId -> S -> expected bytes * S;
  fs_open : Context -> NodeId -> Z -> S -> expected OpenOut * S;
  fs_release : Context -> NodeId -> FileHandle -> Z -> S -> expected unit * S;
  fs_read : Context -> NodeId -> FileHandle -> Z -> bytes -> S -> expected Z * bytes * S;
  fs_write : Context -> NodeId -> FileHandle -> Z -> bytes -> S -> expected Z * S;
  fs_fallocate : Context -> NodeId -> FileHandle -> Z -> Z -> Z -> S -> expected unit * S;
  fs_statfs : Context -> NodeId -> S -> expected StatfsOut * S;
  fs_opendir : Context -> NodeId -> S -> expected OpenOut * S;
  fs_releasedir : Context -> NodeId -> FileHandle -> S -> expected unit * S;
  fs_readdir : Context -> NodeId -> FileHandle -> Z -> DirentWriter -> S ->
               expected unit * DirentWriter * S;
  fs_getxattr : Context -> NodeId -> bytes -> bytes -> S -> expected Z * bytes * S;
  fs_setxattr : Context -> NodeId -> bytes -> bytes -> Z -> S -> expected unit * S;
  fs_listxattr : Context -> NodeId -> bytes -> S -> expected Z * bytes * S;
  fs_removexattr : Context -> NodeId -> bytes -> S -> expected unit * S;
}.
Arguments fs_init {S} _.
Arguments fs_destroy {S} _.
Arguments fs_lookup_root {S} _.
Arguments fs_lookupx {S} _.
Arguments fs_forget {S} _.
Arguments fs_forget_multi {S} _.
Arguments fs_statx {S} _.
Arguments fs_setstatx {S} _.
Arguments fs_mkobjx {S} _.
Arguments fs_unlink {S} _.
Arguments fs_rmdir {S} _.
Arguments fs_rename {S} _.
Arguments fs_link {S} _.
Arguments fs_readlink {S} _.
Arguments fs_open {S} _.
Arguments fs_release {S} _.
Arguments fs_read {S} _.
Arguments fs_write {S} _.
Arguments fs_fallocate {S} _.
Arguments fs_statfs {S} _.
Arguments fs_opendir {S} _.
Arguments fs_releasedir {S} _.
Arguments fs_readdir {S} _.
Arguments fs_getxattr {S} _.
Arguments fs_setxattr {S} _.
Arguments fs_listxattr {S} _.
Arguments fs_removexattr {S} _.

(** ** Default bodies *)

Section Defaults.
Context {S : Type}.

Definition default_init (info : InitInfo) (s : S) : expected unit * InitInfo * S :=
  (Value tt, info, s).

Definition default_destroy (s : S) : S := s.

Definition default_forget (_ : NodeId) (_ : Z) (s : S) : S := s.

(** [for (auto& [n, nl] : items) forget(n, nl);], with [forget] virtual. *)
Definition default_forget_multi (forget : NodeId -> Z -> S -> S)
    (items : list (NodeId * Z)) (s : S) : S :=
  fold_left (fun s item => forget (fst item) (snd item) s) items s.

Definition default_setstatx (_ : Context) (_ : NodeId) (_ : FileHandle) (_ : SetStatxIn)
    (s : S) : expected StatxOut * S := (Unexpected ENOSYS, s).

Definition default_mkobjx (_ : Context) (_ : NodeId) (_ : MkobjxIn) (s : S) :
  expected EntryOut * S := (Unexpected ENOSYS, s).

Definition default_unlink (_ : Context) (_ : NodeId) (_ : bytes) (s : S) :
  expected unit * S := (Unexpected ENOSYS, s).

(** [return unlink(ctx, parent, name);], with [unlink] virtual. *)
Definition default_rmdir (unlink : Context -> NodeId -> bytes -> S -> expected unit * S)
    (ctx : Context) (parent : NodeId) (name : bytes) (s : S) : expected unit * S :=
  unlink ctx parent name s.

Definition default_rename (_ : Context) (_ : NodeId) (_ : bytes) (_ : NodeId) (_ : bytes)
    (_ : Z) (s : S) : expected unit * S := (Unexpected ENOSYS, s).

Definition default_link (_ : Context) (_ : NodeId) (_ : NodeId) (_ : bytes) (s : S) :
  expected unit * S := (Unexpected ENOSYS, s).

Definition default_readlink (_ : Context) (_ : NodeId) (s : S) : expected bytes * S :=
  (Unexpected ENOSYS, s).

Definition default_open (_ : Context) (_ : NodeId) (_ : Z) (s : S) : expected OpenOut * S :=
  (Value {| oo_fh := 0; oo_open_flags := 0 |}, s).

Definition default_release (_ : Context) (_ : NodeId) (_ : FileHandle) (_ : Z) (s : S) :
  expected unit * S := (Value tt, s).

Definition default_read (_ : Context) (_ : NodeId) (_ : FileHandle) (_ : Z) (out : bytes)
    (s : S) : expected Z * bytes * S := (Unexpected ENOSYS, out, s).

Definition default_write (_ : Context) (_ : NodeId) (_ : FileHandle) (_ : Z) (_ : bytes)
    (s : S) : expected Z * S := (Unexpected ENOSYS, s).

Definition default_fallocate (_ : Context) (_ : NodeId) (_ : FileHandle) (_ _ _ : Z)
    (s : S) : expected unit * S := (Unexpected ENOSYS, s).

Definition default_statfs (_ : Context) (_ : NodeId) (s : S) : expected StatfsOut * S :=
  (Unexpected ENOSYS, s).

Definition default_opendir (_ : Context) (_ : NodeId) (s : S) : expected OpenOut * S :=
  (Value {| oo_fh := 0; oo_open_flags := 0 |}, s).

Definition default_releasedir (_ : Context) (_ : NodeId) (_ : FileHandle) (s : S) :
  expected unit * S := (Value tt, s).

Definition default_readdir (_ : Context) (_ : NodeId) (_ : FileHandle) (_ : Z)
    (out : DirentWriter) (s : S) : expected unit * DirentWriter * S :=
  (Unexpected ENOSYS, out, s).

Definition default_getxattr (_ : Context) (_ : NodeId) (_ : bytes) (out : bytes) (s : S) :
  expected Z * bytes * S := (Unexpected ENOSYS, out, s).

Definition default_setxattr (_ : Context) (_ : NodeId) (_ _ : bytes) (_ : Z) (s : S) :
  expected unit * S := (Unexpected ENOSYS, s).

Definition default_listxattr (_ : Context) (_ : NodeId) (out : bytes) (s : S) :
  expected Z * bytes * S := (Unexpected ENOSYS, out, s).

Definition default_removexattr (_ : Context) (_ : NodeId) (_ : bytes) (s : S) :
  expected unit * S := (Unexpected ENOSYS, s).

(** The class a daemon gets when it overrides the pure virtual methods only. *)
Definition base
    (lookup_root : Context -> S -> expected EntryOut * S)
    (lookupx : Context -> NodeId -> bytes -> S -> expected EntryOut * S)
    (statx : Context -> NodeId -> S -> expected StatxOut * S) : Filesystem S := {|
  fs_init := default_init;
  fs_destroy := default_destroy;
  fs_lookup_root := lookup_root;
  fs_lookupx := lookupx;
  fs_forget := default_forget;
  fs_forget_multi := default_forget_multi default_forget;
  fs_statx := statx;
  fs_setstatx := default_setstatx;
  fs_mkobjx := default_mkobjx;
  fs_unlink := default_unlink;
  fs_rmdir := default_rmdir default_unlink;
  fs_rename := default_rename;
  fs_link := default_link;
  fs_readlink := default_readlink;
  fs_open := default_open;
  fs_release := default_release;
  fs_read := default_read;
  fs_write := default_write;
  fs_fallocate := default_fallocate;
  fs_statfs := default_statfs;
  fs_opendir := default_opendir;
  fs_releasedir := default_releasedir;
  fs_readdir := default_readdir;
  fs_getxattr := default_getxattr;
  fs_setxattr := default_setxattr;
  fs_listxattr := default_listxattr;
  fs_removexattr := default_removexattr |}.
End Defaults.

(** ** What the dispatcher relies on

    A daemon stays inside the span it is given (it cannot change its length),
    returns a nonnegative count ([std::size_t]), and touches the directory
    buffer through [DirentWriter::add] only. *)
Class LawfulFs {S : Type} (fs : Filesystem S) : Prop := {
  read_span : forall ctx n fh off out s rv out' s',
    fs_read fs ctx n fh off out s = (rv, out', s') -> zlen out' = zlen out;
  read_count : forall ctx n fh off out s v out' s',
    fs_read fs ctx n fh off out s = (Value v, out', s') -> 0 <= v;
  getxattr_span : forall ctx n name out s rv out' s',
    fs_getxattr fs ctx n name out s = (rv, out', s') -> zlen out' = zlen out;
  getxattr_count : forall ctx n name out s v out' s',
    fs_getxattr fs ctx n name out s = (Value v, out', s') -> 0 <= v;
  listxattr_span : forall ctx n out s rv out' s',
    fs_listxattr fs ctx n out s = (rv, out', s') -> zlen out' = zlen out;
  listxattr_count : forall ctx n out s v out' s',
    fs_listxattr fs ctx n out s = (Value v, out', s') -> 0 <= v;
  readdir_adds : forall ctx n fh off w s rv w' s',
    fs_readdir fs ctx n fh off w s = (rv, w', s') -> exists es, adds w es w';
}.

(** The default bodies keep the contract. *)
#[export] Instance base_lawful {S} lr lx sx : LawfulFs (@base S lr lx sx).
Proof.
  split; cbn; unfold default_read, default_getxattr, default_listxattr, default_readdir;
    intros; simplify_eq; first [done | exists []; constructor].
Qed.

(** A small concrete daemon: one file named by the bytes [nm] with nodeid 2 in
    the root, remembering the names it was asked for. *)
Definition demo_lookupx (nm : bytes) (_ : Context) (parent : NodeId) (name : bytes)
    (asked : list bytes) : expected EntryOut * list bytes :=
  (if (parent =? NodeId_root) && bool_decide (name = nm)
   then Value {| eo_nodeid := 2; eo_entry_valid := 1000000000; eo_negative := false |}
   else Value {| eo_nodeid := 0; eo_entry_valid := 0; eo_negative := true |},
   asked ++ [name]).

Definition demo_stat (n : NodeId) : StatxOut := {|
  so_mask := statx_bits.basic; so_blksize := 4096; so_attributes := 0; so_nlink := 1;
  so_uid := 0; so_gid := 0; so_mode := 0x81a4; so_ino := n; so_size := 0; so_blocks := 0;
  so_attributes_mask := 0; so_atime := Timespec_zero; so_btime := Timespec_zero;
  so_ctime := Timespec_zero; so_mtime := Timespec_zero; so_rdev_major := 0; so_rdev_minor := 0;
  so_dev_major := 0; so_dev_minor := 0 |}.

Definition demo_fs (nm : bytes) : Filesystem (list bytes) :=
  base
    (fun _ s => (Value {| eo_nodeid := 1; eo_entry_valid := 1000000000; eo_negative := false |}, s))
    (demo_lookupx nm)
    (fun _ n s => (Value (demo_stat n), s)).

#[export] Instance demo_fs_lawful nm : LawfulFs (demo_fs nm).
Proof. apply base_lawful. Qed.
