(* ===== verification/Replier.v ===== *)
(** * Replies and request decoding (src/session_impl.hpp)

    The [Replier] a handler fills, the [reply_*] helpers, [split_duration],
    the session's state [Impl], and the two helpers every handler starts
    with: [make_ctx] and [in_arg]. *)

From S2P Require Import Prelude Memory Pod Abi Types.

(** ** Replier *)

(** [r_out] is the memory the pointer [out] designates: the bytes the handler
    may write. *)
Record Replier := {
  r_out : bytes;
  r_cap : Z;
  r_len : Z;
  r_neg_err : Z;
  r_unique : Z;
}.

Definition with_reply (r : Replier) (neg_err len : Z) : Replier := {|
  r_out := r_out r; r_cap := r_cap r; r_len := len;
  r_neg_err := neg_err; r_unique := r_unique r |}.

Definition with_out (r : Replier) (out : bytes) : Replier := {|
  r_out := out; r_cap := r_cap r; r_len := r_len r;
  r_neg_err := r_neg_err r; r_unique := r_unique r |}.

Definition neg_errno (e : Errc) : Z := - e.

Definition reply_error (r : Replier) (e : Errc) : Replier := with_reply r (neg_errno e) 0.

Definition reply_ok (r : Replier) : Replier := with_reply r 0 0.

Definition reply_payload (r : Replier) (p : bytes) : outcome Replier :=
  if r_cap r <? zlen p then Done (with_reply r (- EIO) 0) else
  let* out := match p with [] => Done (r_out r) | _ => store (r_out r) 0 p end in
  Done (with_reply (with_out r out) 0 (zlen p)).

Definition reply_pod {T} `{Pod T} (r : Replier) (pod : T) : outcome Replier :=
  reply_payload r (encode pod).

(** ** Durations *)

(** [d] is a [std::chrono::nanoseconds] count (signed 64-bit); division and
    remainder truncate. *)
Definition split_duration (d : Z) : Z * Z :=
  if d <? 0 then (0, 0)
  else (cast U64 (Z.quot d 1000000000), cast U32 (Z.rem d 1000000000)).

Definition seconds (n : Z) : Z := n * 1000000000.

(** ** Session::Impl *)

(** A [UniqueFd] member is the descriptor it owns, -1 when it owns none. *)
Record Impl := {
  impl_opts : SessionOptions;
  impl_dev_fd : Z;
  impl_stop_efd : Z;
  impl_stopping : bool;
  impl_init_done : bool;
  impl_mount_installed : bool;
}.

Definition Impl_make (o : SessionOptions) : Impl := {|
  impl_opts := o; impl_dev_fd := -1; impl_stop_efd := -1; impl_stopping := false;
  impl_init_done := false; impl_mount_installed := false |}.

Definition set_init_done (i : Impl) : Impl := {|
  impl_opts := impl_opts i; impl_dev_fd := impl_dev_fd i; impl_stop_efd := impl_stop_efd i;
  impl_stopping := impl_stopping i; impl_init_done := true;
  impl_mount_installed := impl_mount_installed i |}.

Definition make_ctx (h : fuse_in_header) : Context := {|
  ctx_uid := in_header_uid h;
  ctx_gid := in_header_gid h;
  ctx_pid := in_header_pid h;
  ctx_nodeid := in_header_nodeid h;
  ctx_unique := in_header_unique h |}.

(** [std::size_t{h.total_extlen} * 8u]. *)
Definition ext_bytes (h : fuse_in_header) : Z := in_header_total_extlen h * 8.

(** [in_arg<T>]: the argument struct after the extensions, or [nullptr] when
    the body is too short for it. *)
Definition in_arg (T : Type) `{Pod T} (h : fuse_in_header) (body : bytes) : outcome (option T) :=
  if zlen body <? ext_bytes h + sizeof T then Done None
  else let* x := load T body (ext_bytes h) in Done (Some x).

(** ** Contracts *)

(** A replier that designates memory of its capacity. *)
Definition replier_ok (r : Replier) : Prop :=
  zlen (r_out r) = r_cap r /\ r_cap r < 2 ^ 63.

(** What every handler leaves: same buffer, capacity and request id, a length
    within the capacity, and no payload beside an error. *)
Definition good_reply (r r' : Replier) : Prop :=
  r_cap r' = r_cap r /\ r_unique r' = r_unique r /\
  zlen (r_out r') = zlen (r_out r) /\
  0 <= r_len r' <= r_cap r /\ (r_neg_err r' <> 0 -> r_len r' = 0).

(** ** Lemmas *)

Lemma replier_cap_nonneg r : replier_ok r -> 0 <= r_cap r.
Proof. intros [<- _]. apply zlen_nonneg. Qed.

Lemma with_reply_good r out e len :
  replier_ok r -> zlen out = zlen (r_out r) -> 0 <= len <= r_cap r -> (e <> 0 -> len = 0) ->
  good_reply r (with_reply (with_out r out) e len).
Proof. intros. unfold good_reply. simpl. by split_and!; try lia. Qed.

Lemma reply_error_good r e : replier_ok r -> good_reply r (reply_error r e).
Proof.
  intros Hr. pose proof (replier_cap_nonneg r Hr). unfold good_reply. simpl.
  split_and!; [done..|lia|lia|done].
Qed.

Lemma reply_ok_good r : replier_ok r -> good_reply r (reply_ok r).
Proof.
  intros Hr. pose proof (replier_cap_nonneg r Hr). unfold good_reply. simpl.
  split_and!; [done..|lia|lia|done].
Qed.

(** An error set on a replier whose buffer the daemon may have written. *)
Lemma reply_error_with_out_good r out e :
  replier_ok r -> zlen out = zlen (r_out r) -> good_reply r (reply_error (with_out r out) e).
Proof.
  intros Hr Hz. pose proof (replier_cap_nonneg r Hr). unfold good_reply. simpl.
  split_and!; [done..|lia|lia|done].
Qed.

(** The two outcomes of [reply_payload]. *)
Lemma reply_payload_spec r p :
  replier_ok r ->
  reply_payload r p =
    if r_cap r <? zlen p then Done (with_reply r (- EIO) 0)
    else Done (with_reply (with_out r (splice (r_out r) 0 p)) 0 (zlen p)).
Proof.
  intros [Hz _]. unfold reply_payload. case_if; [done|]. destruct p as [|b p].
  - simpl. by destruct r.
  - rewrite store_Done by lia. done.
Qed.

Lemma reply_payload_good r p :
  replier_ok r -> exists r', reply_payload r p = Done r' /\ good_reply r r'.
Proof.
  intros Hr. rewrite reply_payload_spec by done. pose proof (replier_cap_nonneg r Hr).
  destruct Hr as [Hz Hc]. case_if; (eexists; split; [reflexivity|]); unfold good_reply; simpl.
  - split_and!; try done; lia.
  - rewrite zlen_splice by lia. pose_zlen. split_and!; try done; lia.
Qed.

Lemma reply_pod_good {T} `{Pod T} r (x : T) :
  replier_ok r -> exists r', reply_pod r x = Done r' /\ good_reply r r'.
Proof. apply reply_payload_good. Qed.

(** A struct that fits the capacity is laid out at the head of the buffer. *)
Lemma reply_pod_Done {T} `{Pod T} r (x : T) :
  replier_ok r -> sizeof T <= r_cap r ->
  reply_pod r x = Done (with_reply (with_out r (splice (r_out r) 0 (encode x))) 0 (sizeof T)).
Proof.
  intros Hr Hc. unfold reply_pod. rewrite reply_payload_spec, zlen_encode by done.
  case_if; [lia|done].
Qed.

Lemma ext_bytes_bounds h : in_range h -> 0 <= ext_bytes h < 2 ^ 19.
Proof.
  intros Hh. unfold in_range in Hh. destruct h. simpl in Hh. unfold ext_bytes. simpl.
  repeat match goal with H : Forall2 _ (_ :: _) (_ :: _) |- _ => apply Forall2_cons_1 in H as [? ?] end.
  fits_lia.
Qed.

Lemma in_arg_short T `{Pod T} h body :
  zlen body < ext_bytes h + sizeof T -> in_arg T h body = Done None.
Proof. intros. unfold in_arg. case_if; [done|lia]. Qed.

Lemma in_arg_long T `{Pod T} h body :
  0 <= ext_bytes h -> ext_bytes h + sizeof T <= zlen body ->
  exists x, in_arg T h body = Done (Some x) /\ in_range x /\ load T body (ext_bytes h) = Done x.
Proof.
  intros He Hl. unfold in_arg. case_if; [lia|].
  apply (load_Done body (ext_bytes h)) in Hl; [|done]. rewrite Hl.
  eexists. split; [done|]. split; [|done]. by apply load_Done_inv in Hl as [? _].
Qed.

(** The argument the sender laid out after [total_extlen] extension words. *)
Lemma in_arg_encode T `{Pod T} h (x : T) ext rest :
  in_range x -> ext_bytes h = zlen ext ->
  in_arg T h (ext ++ encode x ++ rest) = Done (Some x).
Proof.
  intros Hx He. unfold in_arg. case_if; [zl|]. by rewrite load_encode.
Qed.
