(* ===== verification/Handlers.v ===== *)
(** * Per-opcode handlers and dispatch (src/handlers.cpp)

    One definition per handler, in the order of the source. A handler takes
    the request header, the body (the [body_len] bytes at [body]), the state
    and the [Replier]; its result is the new state and the filled [Replier],
    or a [Fault] when it reads outside the body or writes outside the reply
    buffer. Sums of a span's length and 32-bit values do not wrap [size_t],
    so they are written as sums; the one unguarded difference, in
    [handle_removexattr], is reduced modulo 2^64. *)

From S2P Require Import Prelude Memory Pod Abi Types DirentWriter Filesystem Replier.

(** ** statx conversion *)

Definition pack_time (t : Timespec) : fuse_sx_time := {|
  sx_time_tv_sec := ts_sec t; sx_time_tv_nsec := ts_nsec t; sx_time_reserved := 0 |}.

Definition pack_statx (src : StatxOut) (attr_valid : Z) : fuse_statx_out :=
  let '(sec, nsec) := split_duration attr_valid in {|
  statx_out_attr_valid := sec;
  statx_out_attr_valid_nsec := nsec;
  statx_out_flags := 0;
  statx_out_spare0 := 0;
  statx_out_spare1 := 0;
  statx_out_stat := {|
    statx_mask := so_mask src;
    statx_blksize := so_blksize src;
    statx_attributes := so_attributes src;
    statx_nlink := so_nlink src;
    statx_uid := so_uid src;
    statx_gid := so_gid src;
    statx_mode := so_mode src;
    statx_spare0 := 0;
    statx_ino := so_ino src;
    statx_size := so_size src;
    statx_blocks := so_blocks src;
    statx_attributes_mask := so_attributes_mask src;
    statx_atime := pack_time (so_atime src);
    statx_btime := pack_time (so_btime src);
    statx_ctime := pack_time (so_ctime src);
    statx_mtime := pack_time (so_mtime src);
    statx_rdev_major := so_rdev_major src;
    statx_rdev_minor := so_rdev_minor src;
    statx_dev_major := so_dev_major src;
    statx_dev_minor := so_dev_minor src;
    statx_spare2 := replicate 14 0 |} |}.

Definition unpack_time (t : fuse_sx_time) : Timespec :=
  {| ts_sec := sx_time_tv_sec t; ts_nsec := sx_time_tv_nsec t |}.

Definition unpack_statx (w : fuse_statx) : SetStatxIn := {|
  si_mask := statx_mask w;
  si_mode := statx_mode w;
  si_uid := statx_uid w;
  si_gid := statx_gid w;
  si_size := statx_size w;
  si_atime := unpack_time (statx_atime w);
  si_ctime := unpack_time (statx_ctime w);
  si_mtime := unpack_time (statx_mtime w) |}.

(** [fuse_entryx_out out{}] filled from an [EntryOut]. *)
Definition pack_entryx (e : EntryOut) (flags : Z) : fuse_entryx_out :=
  let '(sec, nsec) := split_duration (eo_entry_valid e) in {|
  entryx_out_nodeid := eo_nodeid e;
  entryx_out_entry_valid := sec;
  entryx_out_entry_valid_nsec := nsec;
  entryx_out_flags := flags;
  entryx_out_spare := 0 |}.

Definition entryx_flags (e : EntryOut) : Z :=
  if eo_negative e then FUSE_ENTRYX_NEGATIVE else 0.

(** [offsetof(T, stat)] for the two structs that embed a [fuse_statx]. *)
Definition setstatx_stat_off : Z := sizeof fuse_setstatx_in - sizeof fuse_statx.
Definition mkobjx_stat_off : Z := sizeof fuse_mkobjx_in - sizeof fuse_statx.

Definition S_IFMT : Z := 0xf000.
Definition S_IFLNK : Z := 0xa000.

Section Handlers.
Context {S : Type} (fs : Filesystem S).

(** The session and the daemon it calls. *)
Record world := { w_impl : Impl; w_fs : S }.

Definition set_fs (w : world) (s : S) : world := {| w_impl := w_impl w; w_fs := s |}.

Definition handler : Type :=
  fuse_in_header -> bytes -> world -> Replier -> outcome (world * Replier).

(** [reply_error(r, e); return;]. *)
Definition fail (w : world) (r : Replier) (e : Errc) : outcome (world * Replier) :=
  Done (w, reply_error r e).

Definition finish (w : world) (o : outcome Replier) : outcome (world * Replier) :=
  let* r := o in Done (w, r).

(** [if (!rv) { reply_error(r, rv.error()); return; } reply_ok(r);]. *)
Definition reply_void (w : world) (r : Replier) (rv : expected unit) : outcome (world * Replier) :=
  match rv with
  | Unexpected e => fail w r e
  | Value _ => Done (w, reply_ok r)
  end.

(** ** Handlers *)

Definition init_in_kernel_flags (i : fuse_init_in) : Z :=
  Z.lor (init_in_flags i) (Z.shiftl (init_in_flags2 i) 32).

(** The [InitInfo] handed to [Filesystem::init]. *)
Definition init_offer (opts : SessionOptions) (i : fuse_init_in) : InitInfo := {|
  ii_kernel_major := init_in_major i;
  ii_kernel_minor := init_in_minor i;
  ii_kernel_flags := init_in_kernel_flags i;
  ii_max_readahead := init_in_max_readahead i;
  ii_flags := Z.lor (Z.lor (Z.lor (Z.lor FUSE_INIT_EXT FUSE_MAX_PAGES) FUSE_PARALLEL_DIROPS)
                FUSE_OVER_IO_URING) FUSE_WRITEBACK_CACHE;
  ii_max_write := Z.min (ii_max_write InitInfo_default)
                    (cast U32 (opt_uring_payload_bytes opts));
  ii_max_pages := cast U16 (Z.min (ii_max_pages InitInfo_default)
                    (wrapu 64 (opt_uring_payload_bytes opts + 4095) / 4096));
  ii_time_gran := ii_time_gran InitInfo_default |}.

Definition init_out_version : fuse_init_out := {|
  init_out_major := FUSE_KERNEL_VERSION; init_out_minor := 0;
  init_out_max_readahead := 0; init_out_flags := 0; init_out_max_background := 0;
  init_out_congestion_threshold := 0; init_out_max_write := 0; init_out_time_gran := 0;
  init_out_max_pages := 0; init_out_map_alignment := 0; init_out_flags2 := 0;
  init_out_max_stack_depth := 0; init_out_request_timeout := 0;
  init_out_unused := replicate 11 0 |}.

Definition init_reply (i : fuse_init_in) (info : InitInfo) : fuse_init_out :=
  let flags := Z.lor (ii_flags info) FUSE_OVER_IO_URING in {|
  init_out_major := FUSE_KERNEL_VERSION;
  init_out_minor := Z.min (init_in_minor i) FUSE_KERNEL_MINOR_VERSION;
  init_out_max_readahead := init_in_max_readahead i;
  init_out_flags := cast U32 (Z.land flags 0xffffffff);
  init_out_max_background := 64;
  init_out_congestion_threshold := 48;
  init_out_max_write := ii_max_write info;
  init_out_time_gran := ii_time_gran info;
  init_out_max_pages := ii_max_pages info;
  init_out_map_alignment := 0;
  init_out_flags2 := cast U32 (Z.shiftr flags 32);
  init_out_max_stack_depth := 0;
  init_out_request_timeout := 0;
  init_out_unused := replicate 11 0 |}.

Definition handle_init : handler := fun h body w r =>
  let* arg := in_arg fuse_init_in h body in
  match arg with
  | None => fail w r EINVAL
  | Some i =>
      if Z.land (init_in_kernel_flags i) FUSE_OVER_IO_URING =? 0 then fail w r EOPNOTSUPP else
      let '(rc, info, s) := fs_init fs (init_offer (impl_opts (w_impl w)) i) (w_fs w) in
      let w := set_fs w s in
      match rc with
      | Unexpected e => fail w r e
      | Value _ =>
          if negb (ii_kernel_major info =? FUSE_KERNEL_VERSION)
          then finish w (reply_pod r init_out_version)
          else finish {| w_impl := set_init_done (w_impl w); w_fs := w_fs w |}
                 (reply_pod r (init_reply i info))
      end
  end.

Definition handle_lookup_root : handler := fun h _ w r =>
  let '(rv, s) := fs_lookup_root fs (make_ctx h) (w_fs w) in
  let w := set_fs w s in
  match rv with
  | Unexpected e => fail w r e
  | Value e => finish w (reply_pod r (pack_entryx e (entryx_flags e)))
  end.

Definition handle_lookupx : handler := fun h body w r =>
  if zlen body <? 1 then fail w r EINVAL else
  let* nlen := strnlen body 0 (zlen body) in
  if nlen =? zlen body then fail w r EINVAL else
  let* name := slice body 0 nlen in
  let '(rv, s) := fs_lookupx fs (make_ctx h) (in_header_nodeid h) name (w_fs w) in
  let w := set_fs w s in
  match rv with
  | Unexpected e => fail w r e
  | Value e => finish w (reply_pod r (pack_entryx e (entryx_flags e)))
  end.

Definition handle_forget : handler := fun h body w r =>
  let* arg := in_arg fuse_forget_in h body in
  match arg with
  | None => fail w r EINVAL
  | Some i =>
      let s := fs_forget fs (in_header_nodeid h) (forget_in_nlookup i) (w_fs w) in
      Done (set_fs w s, reply_ok r)
  end.

(** [items[i]] for [i < count]. *)
Fixpoint load_forget_items (count : nat) (body : bytes) (off : Z) : outcome (list (NodeId * Z)) :=
  match count with
  | O => Done []
  | Datatypes.S count' =>
      let* one := load fuse_forget_one body off in
      let* items := load_forget_items count' body (off + sizeof fuse_forget_one) in
      Done ((forget_one_nodeid one, forget_one_nlookup one) :: items)
  end.

Definition handle_batch_forget : handler := fun h body w r =>
  let* arg := in_arg fuse_batch_forget_in h body in
  match arg with
  | None => fail w r EINVAL
  | Some i =>
      let count := batch_forget_in_count i in
      let off := sizeof fuse_batch_forget_in in
      let need := count * sizeof fuse_forget_one in
      if zlen body <? off + need then Done (w, reply_ok r) else
      let* repacked := load_forget_items (Z.to_nat count) body off in
      Done (set_fs w (fs_forget_multi fs repacked (w_fs w)), reply_ok r)
  end.

(** Reply of STATX and SETSTATX. *)
Definition reply_statx (w : world) (r : Replier) (rv : expected StatxOut) : outcome (world * Replier) :=
  match rv with
  | Unexpected e => fail w r e
  | Value st => finish w (reply_pod r (pack_statx st (seconds 1)))
  end.

Definition handle_statx : handler := fun h body w r =>
  let* arg := in_arg fuse_statx_in h body in
  match arg with
  | None => fail w r EINVAL
  | Some _ =>
      let '(rv, s) := fs_statx fs (make_ctx h) (in_header_nodeid h) (w_fs w) in
      reply_statx (set_fs w s) r rv
  end.

Definition handle_setstatx : handler := fun h body w r =>
  let* arg := in_arg fuse_setstatx_in h body in
  match arg with
  | None => fail w r EINVAL
  | Some i =>
      if zlen body <? setstatx_stat_off + sizeof fuse_statx then fail w r EINVAL else
      let* sx := load fuse_statx body setstatx_stat_off in
      let '(rv, s) := fs_setstatx fs (make_ctx h) (in_header_nodeid h) (setstatx_in_fh i)
                        (unpack_statx sx) (w_fs w) in
      reply_statx (set_fs w s) r rv
  end.

(** The [StatxOut] of a [MkobjxIn]: the requested fields, the others zero. *)
Definition mkobjx_stat (sx : fuse_statx) : StatxOut := {|
  so_mask := statx_mask sx; so_blksize := 0; so_attributes := 0; so_nlink := 0;
  so_uid := statx_uid sx; so_gid := statx_gid sx; so_mode := statx_mode sx;
  so_ino := 0; so_size := 0; so_blocks := 0; so_attributes_mask := 0;
  so_atime := unpack_time (statx_atime sx);
  so_btime := unpack_time (statx_btime sx);
  so_ctime := unpack_time (statx_ctime sx);
  so_mtime := unpack_time (statx_mtime sx);
  so_rdev_major := statx_rdev_major sx; so_rdev_minor := statx_rdev_minor sx;
  so_dev_major := 0; so_dev_minor := 0 |}.

(** The link body that follows the name of a symlink request. *)
Definition mkobjx_link_body (body : bytes) (sx : fuse_statx) (after : Z) : outcome bytes :=
  if (Z.land (statx_mode sx) S_IFMT =? S_IFLNK) && (after <? zlen body) then
    let* llen := strnlen body after (zlen body - after) in
    slice body after llen
  else Done [].

Definition handle_mkobjx : handler := fun h body w r =>
  let name_off := mkobjx_stat_off + sizeof fuse_statx in
  if zlen body <? ext_bytes h + name_off then fail w r EINVAL else
  let* i := load fuse_mkobjx_in body (ext_bytes h) in
  let* sx := load fuse_statx body mkobjx_stat_off in
  let namesize := mkobjx_in_namesize i in
  if zlen body <? name_off + namesize then fail w r EINVAL else
  let* name := slice body name_off (if namesize =? 0 then 0 else namesize - 1) in
  let* link_body := mkobjx_link_body body sx (name_off + namesize) in
  let mi := {| mi_stat := mkobjx_stat sx; mi_flags := mkobjx_in_flags i;
               mi_name := name; mi_link_target := link_body |} in
  let '(rv, s) := fs_mkobjx fs (make_ctx h) (in_header_nodeid h) mi (w_fs w) in
  let w := set_fs w s in
  match rv with
  | Unexpected e => fail w r e
  | Value e => finish w (reply_pod r (pack_entryx e 0))
  end.

Definition handle_unlink (is_rmdir : bool) : handler := fun h body w r =>
  if zlen body <? 1 then fail w r EINVAL else
  let* nlen := strnlen body 0 (zlen body) in
  if nlen =? zlen body then fail w r EINVAL else
  let* sv := slice body 0 nlen in
  let '(rv, s) :=
    if is_rmdir then fs_rmdir fs (make_ctx h) (in_header_nodeid h) sv (w_fs w)
    else fs_unlink fs (make_ctx h) (in_header_nodeid h) sv (w_fs w) in
  reply_void (set_fs w s) r rv.

Definition handle_rename2 : handler := fun h body w r =>
  let names_off := ext_bytes h + sizeof fuse_rename2_in in
  if zlen body <? names_off + 2 then fail w r EINVAL else
  let* i := load fuse_rename2_in body (ext_bytes h) in
  let avail := zlen body - names_off in
  let* olen := strnlen body names_off avail in
  if olen =? avail then fail w r EINVAL else
  let second := names_off + olen + 1 in
  let remain := avail - olen - 1 in
  let* nlen := strnlen body second remain in
  if nlen =? remain then fail w r EINVAL else
  let* oldname := slice body names_off olen in
  let* newname := slice body second nlen in
  let '(rv, s) := fs_rename fs (make_ctx h) (in_header_nodeid h) oldname
                    (rename2_in_newdir i) newname (rename2_in_flags i) (w_fs w) in
  reply_void (set_fs w s) r rv.

Definition handle_link : handler := fun h body w r =>
  let name_off := ext_bytes h + sizeof fuse_link_in in
  if zlen body <? name_off + 1 then fail w r EINVAL else
  let* i := load fuse_link_in body (ext_bytes h) in
  let avail := zlen body - name_off in
  let* nlen := strnlen body name_off avail in
  if nlen =? avail then fail w r EINVAL else
  let* name := slice body name_off nlen in
  let '(rv, s) := fs_link fs (make_ctx h) (link_in_oldnodeid i) (in_header_nodeid h)
                    name (w_fs w) in
  reply_void (set_fs w s) r rv.

Definition handle_open : handler := fun h body w r =>
  let* arg := in_arg fuse_open_in h body in
  match arg with
  | None => fail w r EINVAL
  | Some i =>
      let '(rv, s) := fs_open fs (make_ctx h) (in_header_nodeid h) (open_in_flags i) (w_fs w) in
      let w := set_fs w s in
      match rv with
      | Unexpected e => fail w r e
      | Value o => finish w (reply_pod r {|
            open_out_fh := oo_fh o; open_out_open_flags := oo_open_flags o;
            open_out_backing_id := 0 |})
      end
  end.

Definition handle_release : handler := fun h body w r =>
  let* arg := in_arg fuse_release_in h body in
  match arg with
  | None => fail w r EINVAL
  | Some i =>
      let '(rv, s) := fs_release fs (make_ctx h) (in_header_nodeid h) (release_in_fh i)
                        (release_in_flags i) (w_fs w) in
      reply_void (set_fs w s) r rv
  end.

Definition handle_read : handler := fun h body w r =>
  let* arg := in_arg fuse_read_in h body in
  match arg with
  | None => fail w r EINVAL
  | Some i =>
      let want := Z.min (read_in_size i) (r_cap r) in
      let* span := slice (r_out r) 0 want in
      let '(rv, span', s) := fs_read fs (make_ctx h) (in_header_nodeid h) (read_in_fh i)
                               (read_in_offset i) span (w_fs w) in
      let w := set_fs w s in
      let* out := store (r_out r) 0 span' in
      let r := with_out r out in
      match rv with
      | Unexpected e => fail w r e
      | Value n => Done (w, with_reply r 0 (Z.min n want))
      end
  end.

Definition handle_write : handler := fun h body w r =>
  let data_off := ext_bytes h + sizeof fuse_write_in in
  if zlen body <? data_off then fail w r EINVAL else
  let* i := load fuse_write_in body (ext_bytes h) in
  if zlen body - data_off <? write_in_size i then fail w r EINVAL else
  let* data := slice body data_off (write_in_size i) in
  let '(rv, s) := fs_write fs (make_ctx h) (in_header_nodeid h) (write_in_fh i)
                    (write_in_offset i) data (w_fs w) in
  let w := set_fs w s in
  match rv with
  | Unexpected e => fail w r e
  | Value n => finish w (reply_pod r {| write_out_size := cast U32 n; write_out_padding := 0 |})
  end.

Definition handle_readlink : handler := fun h _ w r =>
  let '(rv, s) := fs_readlink fs (make_ctx h) (in_header_nodeid h) (w_fs w) in
  let w := set_fs w s in
  match rv with
  | Unexpected e => fail w r e
  | Value target => finish w (reply_payload r target)
  end.

Definition pack_statfs (o : StatfsOut) : fuse_statfs_out := {| statfs_out_st := {|
  kstatfs_blocks := sf_blocks o; kstatfs_bfree := sf_bfree o; kstatfs_bavail := sf_bavail o;
  kstatfs_files := sf_files o; kstatfs_ffree := sf_ffree o; kstatfs_bsize := sf_bsize o;
  kstatfs_namelen := sf_namelen o; kstatfs_frsize := sf_frsize o;
  kstatfs_padding := 0; kstatfs_spare := replicate 6 0 |} |}.

Definition handle_statfs : handler := fun h _ w r =>
  let '(rv, s) := fs_statfs fs (make_ctx h) (in_header_nodeid h) (w_fs w) in
  let w := set_fs w s in
  match rv with
  | Unexpected e => fail w r e
  | Value o => finish w (reply_pod r (pack_statfs o))
  end.

Definition handle_fallocate : handler := fun h body w r =>
  let* arg := in_arg fuse_fallocate_in h body in
  match arg with
  | None => fail w r EINVAL
  | Some i =>
      let '(rv, s) := fs_fallocate fs (make_ctx h) (in_header_nodeid h) (fallocate_in_fh i)
                        (fallocate_in_mode i) (fallocate_in_offset i)
                        (fallocate_in_length i) (w_fs w) in
      reply_void (set_fs w s) r rv
  end.

Definition handle_opendir : handler := fun h _ w r =>
  let '(rv, s) := fs_opendir fs (make_ctx h) (in_header_nodeid h) (w_fs w) in
  let w := set_fs w s in
  match rv with
  | Unexpected e => fail w r e
  | Value o => finish w (reply_pod r {|
        open_out_fh := oo_fh o;
        open_out_open_flags := Z.lor (oo_open_flags o) FOPEN_CACHE_DIR;
        open_out_backing_id := 0 |})
  end.

Definition handle_releasedir : handler := fun h body w r =>
  let* arg := in_arg fuse_release_in h body in
  match arg with
  | None => fail w r EINVAL
  | Some i =>
      let '(rv, s) := fs_releasedir fs (make_ctx h) (in_header_nodeid h) (release_in_fh i)
                        (w_fs w) in
      reply_void (set_fs w s) r rv
  end.

Definition handle_readdir : handler := fun h body w r =>
  let* arg := in_arg fuse_read_in h body in
  match arg with
  | None => fail w r EINVAL
  | Some i =>
      let cap := Z.min (read_in_size i) (r_cap r) in
      let* span := slice (r_out r) 0 cap in
      let '(rv, dw, s) := fs_readdir fs (make_ctx h) (in_header_nodeid h) (read_in_fh i)
                            (read_in_offset i) (DirentWriter_make span) (w_fs w) in
      let w := set_fs w s in
      let* out := store (r_out r) 0 (dw_buf dw) in
      let r := with_out r out in
      match rv with
      | Unexpected e => fail w r e
      | Value _ => Done (w, with_reply r 0 (bytes_written dw))
      end
  end.

(** The size query and the filling call of GETXATTR and LISTXATTR:
    [call out s] is the daemon's callback on the span [out]. *)
Definition xattr_reply (size : Z) (call : bytes -> S -> expected Z * bytes * S)
    (w : world) (r : Replier) : outcome (world * Replier) :=
  if size =? 0 then
    let '(rv, _, s) := call [] (w_fs w) in
    let w := set_fs w s in
    match rv with
    | Unexpected e => fail w r e
    | Value n =>
        finish w (reply_pod r {| getxattr_out_size := cast U32 n; getxattr_out_padding := 0 |})
    end
  else
    let cap := Z.min size (r_cap r) in
    let* span := slice (r_out r) 0 cap in
    let '(rv, span', s) := call span (w_fs w) in
    let w := set_fs w s in
    let* out := store (r_out r) 0 span' in
    let r := with_out r out in
    match rv with
    | Unexpected e => fail w r e
    | Value n => Done (w, with_reply r 0 (Z.min n cap))
    end.

Definition handle_getxattr : handler := fun h body w r =>
  let name_off := ext_bytes h + sizeof fuse_getxattr_in in
  if zlen body <? name_off + 1 then fail w r EINVAL else
  let* i := load fuse_getxattr_in body (ext_bytes h) in
  let avail := zlen body - name_off in
  let* nlen := strnlen body name_off avail in
  if nlen =? avail then fail w r EINVAL else
  let* name := slice body name_off nlen in
  xattr_reply (getxattr_in_size i)
    (fs_getxattr fs (make_ctx h) (in_header_nodeid h) name) w r.

Definition handle_setxattr : handler := fun h body w r =>
  let name_off := ext_bytes h + sizeof fuse_setxattr_in in
  if zlen body <? name_off + 1 then fail w r EINVAL else
  let* i := load fuse_setxattr_in body (ext_bytes h) in
  let avail := zlen body - name_off in
  let* nlen := strnlen body name_off avail in
  if nlen =? avail then fail w r EINVAL else
  let after := name_off + nlen + 1 in
  if zlen body <? after + setxattr_in_size i then fail w r EINVAL else
  let* name := slice body name_off nlen in
  let* value := slice body after (setxattr_in_size i) in
  let '(rv, s) := fs_setxattr fs (make_ctx h) (in_header_nodeid h) name value
                    (setxattr_in_flags i) (w_fs w) in
  reply_void (set_fs w s) r rv.

Definition handle_listxattr : handler := fun h body w r =>
  let* arg := in_arg fuse_getxattr_in h body in
  match arg with
  | None => fail w r EINVAL
  | Some i =>
      xattr_reply (getxattr_in_size i)
        (fs_listxattr fs (make_ctx h) (in_header_nodeid h)) w r
  end.

(** The body is not compared with the extension length: [body_len - ext] is an
    unsigned difference. *)
Definition handle_removexattr : handler := fun h body w r =>
  let ext := ext_bytes h in
  let avail := wrapu 64 (zlen body - ext) in
  let* nlen := strnlen body ext avail in
  if nlen =? avail then fail w r EINVAL else
  let* name := slice body ext nlen in
  let '(rv, s) := fs_removexattr fs (make_ctx h) (in_header_nodeid h) name (w_fs w) in
  reply_void (set_fs w s) r rv.

(** ** Compound requests *)

Definition compound_hdrs : Z := sizeof fuse_compound_req_in + sizeof fuse_in_header.

Definition with_nodeid (h : fuse_in_header) (nodeid : Z) : fuse_in_header := {|
  in_header_len := in_header_len h; in_header_opcode := in_header_opcode h;
  in_header_unique := in_header_unique h; in_header_nodeid := nodeid;
  in_header_uid := in_header_uid h; in_header_gid := in_header_gid h;
  in_header_pid := in_header_pid h; in_header_total_extlen := in_header_total_extlen h;
  in_header_padding := in_header_padding h |}.

(** The nodeid of the subrequest this one depends on replaces its own. *)
Definition propagate_nodeid (req : fuse_compound_req_in) (produced : list Z)
    (h : fuse_in_header) : fuse_in_header :=
  let dep := compound_req_in_dep_index req in
  if negb (dep =? FUSE_COMPOUND_NO_DEP) && (dep <? zlen produced)
  then with_nodeid h (nth (Z.to_nat dep) produced 0) else h.

Definition opcode_is (h : fuse_in_header) (o : fuse_opcode) : bool :=
  in_header_opcode h =? opcode_value o.

(** The nodeid a subreply contributes: the first 64 bits of an entry reply. *)
Definition produced_nodeid (h : fuse_in_header) (r : Replier) : outcome Z :=
  if (r_neg_err r =? 0) && (8 <=? r_len r)
     && (opcode_is h FUSE_LOOKUPX || opcode_is h FUSE_MKOBJX || opcode_is h FUSE_LOOKUP_ROOT)
  then let* b := slice (r_out r) 0 8 in Done (dec_scalar U64 b)
  else Done 0.

Definition sub_out_header (h : fuse_in_header) (r : Replier) : fuse_out_header := {|
  out_header_len := cast U32 (sizeof fuse_out_header + (if r_neg_err r =? 0 then r_len r else 0));
  out_header_error := r_neg_err r;
  out_header_unique := in_header_unique h |}.

Section Compound.
Variable dispatch_rec : handler.

(** One subrequest, its header and body cut out: dispatch into the room after
    the subreply's header, then write that header at [out_p]. The result is the
    state, the reply buffer, the nodeid produced and the subreply's length. *)
Definition compound_sub (sub_req : fuse_compound_req_in) (sub_h0 : fuse_in_header)
    (sub_body : bytes) (out_p : Z) (produced : list Z) (w : world) (r : Replier) :
    outcome (world * bytes * Z * Z) :=
  let sub_h := propagate_nodeid sub_req produced sub_h0 in
  let sub_off := out_p + sizeof fuse_out_header in
  let sub_cap := r_cap r - out_p - sizeof fuse_out_header in
  let* sub_out := slice (r_out r) sub_off sub_cap in
  let sub_r := {| r_out := sub_out; r_cap := sub_cap; r_len := 0; r_neg_err := 0;
                  r_unique := in_header_unique sub_h |} in
  let* wr :=
    (if opcode_is sub_h FUSE_COMPOUND then fail w sub_r EOPNOTSUPP
     else dispatch_rec sub_h sub_body w sub_r) in
  let sub_r := snd wr in
  let* prod := produced_nodeid sub_h sub_r in
  let oh := sub_out_header sub_h sub_r in
  let* out := store (r_out r) sub_off (r_out sub_r) in
  let* out := store out out_p (encode oh) in
  Done (fst wr, out, prod, out_header_len oh).

(** The loop: [p] and [out_p] are offsets into the body and into [r.out]. Each
    iteration consumes at least [compound_hdrs] bytes of the body, so the
    body's length is fuel enough. *)
Fixpoint compound_loop (fuel : nat) (body : bytes) (p : Z) (out_p : Z) (produced : list Z)
    (w : world) (r : Replier) : outcome (world * Replier) :=
  if zlen body <=? p then Done (w, with_reply r 0 out_p) else
  match fuel with
  | O => Fault DepthExceeded
  | Datatypes.S fuel' =>
      if (zlen body - p <? compound_hdrs) || (r_cap r <? out_p + sizeof fuse_out_header)
      then fail w r EINVAL else
      let* sub_req := load fuse_compound_req_in body p in
      let* sub_h := load fuse_in_header body (p + sizeof fuse_compound_req_in) in
      let p := p + compound_hdrs in
      if (in_header_len sub_h <? sizeof fuse_in_header)
         || (zlen body - p <? in_header_len sub_h - sizeof fuse_in_header)
      then fail w r EINVAL else
      let sub_len := in_header_len sub_h - sizeof fuse_in_header in
      let* sub_body := slice body p sub_len in
      let* (w, out, prod, oh_len) := compound_sub sub_req sub_h sub_body out_p produced w r in
      compound_loop fuel' body (p + sub_len) (out_p + oh_len) (produced ++ [prod])
        w (with_out r out)
  end.

Definition handle_compound : handler := fun _ body w r =>
  if (zlen body <? sizeof fuse_compound_in) || (r_cap r <? sizeof fuse_compound_out)
  then fail w r EINVAL else
  let* out := store (r_out r) 0 (zero_bytes (sizeof fuse_compound_out)) in
  compound_loop (length body) body (sizeof fuse_compound_in) (sizeof fuse_compound_out) []
    w (with_out r out).

(** ** Top-level dispatch: the cases of the switch. *)
Definition handler_table : list (fuse_opcode * handler) :=
  [ (FUSE_INIT, handle_init);
    (FUSE_LOOKUP_ROOT, handle_lookup_root);
    (FUSE_LOOKUPX, handle_lookupx);
    (FUSE_FORGET, handle_forget);
    (FUSE_BATCH_FORGET, handle_batch_forget);
    (FUSE_STATX, handle_statx);
    (FUSE_SETSTATX, handle_setstatx);
    (FUSE_MKOBJX, handle_mkobjx);
    (FUSE_UNLINK, handle_unlink false);
    (FUSE_RMDIR, handle_unlink true);
    (FUSE_RENAME2, handle_rename2);
    (FUSE_LINK, handle_link);
    (FUSE_READ, handle_read);
    (FUSE_WRITE, handle_write);
    (FUSE_READLINK, handle_readlink);
    (FUSE_STATFS, handle_statfs);
    (FUSE_FALLOCATE, handle_fallocate);
    (FUSE_OPEN, handle_open);
    (FUSE_RELEASE, handle_release);
    (FUSE_OPENDIR, handle_opendir);
    (FUSE_RELEASEDIR, handle_releasedir);
    (FUSE_READDIR, handle_readdir);
    (FUSE_GETXATTR, handle_getxattr);
    (FUSE_SETXATTR, handle_setxattr);
    (FUSE_LISTXATTR, handle_listxattr);
    (FUSE_REMOVEXATTR, handle_removexattr);
    (FUSE_COMPOUND, handle_compound) ].

Fixpoint switch (cases : list (fuse_opcode * handler)) (h : fuse_in_header) : handler :=
  match cases with
  | [] => fun _ _ w r => fail w r ENOSYS
  | (o, hd) :: cases' => if opcode_is h o then hd else switch cases' h
  end.

Definition dispatch_body : handler := fun h body w r => switch handler_table h h body w r.
End Compound.

(** A compound request dispatches its subrequests, and refuses a compound among
    them, so the recursion is two levels deep. *)
Fixpoint dispatch_depth (depth : nat) : handler :=
  match depth with
  | O => fun _ _ _ _ => Fault DepthExceeded
  | Datatypes.S depth' => dispatch_body (dispatch_depth depth')
  end.

Definition dispatch : handler := dispatch_depth 2.
End Handlers.
Arguments world S : clear implicits.
Arguments handler S : clear implicits.
