(* ===== verification/HandlerSafety.v ===== *)
(** * Memory safety of the dispatcher

    Every handler, on every body of bytes, reads inside the body, writes
    inside the reply buffer and leaves a well-formed reply ([good_reply]). The
    one handler with a precondition is REMOVEXATTR, whose body must be at
    least as long as the extensions the header announces; the precondition is
    carried through compound requests and shown to be needed. *)

From S2P Require Import Prelude Memory Pod Abi Types DirentWriter Filesystem Replier Handlers.

(** ** Ranges of decoded fields *)

Ltac range_fields H :=
  unfold in_range in H; simpl in H;
  repeat (apply Forall2_cons_1 in H; let H1 := fresh "Hf" in destruct H as [H1 H]).

Lemma read_in_size_range (i : fuse_read_in) : in_range i -> 0 <= read_in_size i < 2 ^ 32.
Proof. intros H. range_fields H. fits_lia. Qed.

Lemma write_in_size_range (i : fuse_write_in) : in_range i -> 0 <= write_in_size i < 2 ^ 32.
Proof. intros H. range_fields H. fits_lia. Qed.

Lemma getxattr_in_size_range (i : fuse_getxattr_in) :
  in_range i -> 0 <= getxattr_in_size i < 2 ^ 32.
Proof. intros H. range_fields H. fits_lia. Qed.

Lemma setxattr_in_size_range (i : fuse_setxattr_in) :
  in_range i -> 0 <= setxattr_in_size i < 2 ^ 32.
Proof. intros H. range_fields H. fits_lia. Qed.

Lemma mkobjx_in_namesize_range (i : fuse_mkobjx_in) :
  in_range i -> 0 <= mkobjx_in_namesize i < 2 ^ 32.
Proof.
  intros H. unfold in_range in H. simpl in H. apply Forall2_cons_1 in H as [H _]. fits_lia.
Qed.

Lemma batch_forget_in_count_range (i : fuse_batch_forget_in) :
  in_range i -> 0 <= batch_forget_in_count i < 2 ^ 32.
Proof. intros H. range_fields H. fits_lia. Qed.

Lemma in_header_len_range (h : fuse_in_header) : in_range h -> 0 <= in_header_len h < 2 ^ 32.
Proof. intros H. range_fields H. fits_lia. Qed.

#[export] Hint Resolve read_in_size_range write_in_size_range getxattr_in_size_range
  setxattr_in_size_range mkobjx_in_namesize_range batch_forget_in_count_range
  in_header_len_range ext_bytes_bounds : fex.

(** ** Results *)

Definition safe_result {S} (r : Replier) (o : outcome (world S * Replier)) : Prop :=
  exists w' r', o = Done (w', r') /\ good_reply r r'.

Section Results.
Context {S : Type}.
Implicit Types (w : world S) (r : Replier).

Lemma safe_Done r w r' : good_reply r r' -> safe_result r (Done (w, r')).
Proof. unfold safe_result. eauto. Qed.

Lemma safe_fail r w e : replier_ok r -> safe_result r (fail w r e).
Proof. intros. by apply safe_Done, reply_error_good. Qed.

Lemma safe_finish_payload r w p : replier_ok r -> safe_result r (finish w (reply_payload r p)).
Proof.
  intros Hr. destruct (reply_payload_good r p Hr) as (r' & Hp & Hg).
  unfold finish. rewrite Hp. by apply safe_Done.
Qed.

Lemma safe_finish_pod {T} `{Pod T} r w (x : T) :
  replier_ok r -> safe_result r (finish w (reply_pod r x)).
Proof. apply safe_finish_payload. Qed.

Lemma safe_void r w rv : replier_ok r -> safe_result r (reply_void w r rv).
Proof.
  intros. destruct rv; [by apply safe_Done, reply_ok_good | by apply safe_fail].
Qed.

Lemma safe_statx r w rv : replier_ok r -> safe_result r (reply_statx w r rv).
Proof. intros. destruct rv; [by apply safe_finish_pod | by apply safe_fail]. Qed.

(** Loads that a length test has shown to be inside the body. *)
Lemma safe_load T `{Pod T} r body off (k : T -> outcome (world S * Replier)) :
  0 <= off -> off + sizeof T <= zlen body ->
  (forall x, in_range x -> safe_result r (k x)) ->
  safe_result r (let* x := load T body off in k x).
Proof.
  intros Ho Hl Hk. rewrite load_Done by done. simpl. apply Hk.
  apply decode_in_range. apply zlen_sub_bytes; [done|apply sizeof_nonneg|done].
Qed.

Lemma safe_slice r body off n (k : bytes -> outcome (world S * Replier)) :
  0 <= off -> 0 <= n -> off + n <= zlen body ->
  safe_result r (k (sub_bytes body off n)) ->
  safe_result r (let* x := slice body off n in k x).
Proof. intros. by rewrite slice_Done. Qed.

Lemma safe_store r m off src (k : bytes -> outcome (world S * Replier)) :
  0 <= off -> off + zlen src <= zlen m ->
  (forall m', zlen m' = zlen m -> safe_result r (k m')) ->
  safe_result r (let* x := store m off src in k x).
Proof. intros ? ? Hk. rewrite store_Done by done. simpl. apply Hk, zlen_splice; done. Qed.

Lemma safe_strnlen r body off n (k : Z -> outcome (world S * Replier)) :
  0 <= off -> 0 <= n -> off + n <= zlen body ->
  (forall m, 0 <= m <= n -> safe_result r (k m)) ->
  safe_result r (let* x := strnlen body off n in k x).
Proof.
  intros. destruct (strnlen_bounds body off n) as (m & -> & ?); [done..|]. simpl. auto.
Qed.

Lemma safe_in_arg T `{Pod T} r h body (k : option T -> outcome (world S * Replier)) :
  in_range h ->
  safe_result r (k None) ->
  (forall x, in_range x -> ext_bytes h + sizeof T <= zlen body -> safe_result r (k (Some x))) ->
  safe_result r (let* x := in_arg T h body in k x).
Proof.
  intros Hh Hn Hs. destruct (Z.lt_ge_cases (zlen body) (ext_bytes h + sizeof T)).
  - by rewrite in_arg_short.
  - pose proof (ext_bytes_bounds h Hh).
    destruct (in_arg_long T h body) as (x & -> & Hx & _); [lia..|]. simpl. auto.
Qed.
End Results.

(** One step of a handler: discharge the guard just passed, the load it
    protects, or the reply it ends with. *)
Ltac safe_step :=
  lazymatch goal with
  | |- safe_result _ (fail _ _ _) => apply safe_fail
  | |- safe_result _ (finish _ (reply_pod _ _)) => apply safe_finish_pod
  | |- safe_result _ (finish _ (reply_payload _ _)) => apply safe_finish_payload
  | |- safe_result _ (reply_void _ _ _) => apply safe_void
  | |- safe_result _ (reply_statx _ _ _) => apply safe_statx
  | |- safe_result _ (Done (_, reply_ok _)) => apply safe_Done, reply_ok_good
  | |- safe_result _ (obind (in_arg _ _ _) _) => apply safe_in_arg; [done| |intros ? ? ?]
  | |- safe_result _ (obind (load _ _ _) _) => apply safe_load; [lia|try slia|intros ? ?]
  | |- safe_result _ (obind (slice _ _ _) _) => apply safe_slice; [try slia..|]
  | |- safe_result _ (obind (strnlen _ _ _) _) => apply safe_strnlen; [try slia..|intros ? ?]
  | |- safe_result _ (if _ then _ else _) => case_if
  | |- safe_result _ (let '(_, _) := ?e in _) => destruct e as [? ?] eqn:?
  | |- safe_result _ (match ?e with Value _ => _ | Unexpected _ => _ end) => destruct e
  | |- safe_result _ (match ?e with Some _ => _ | None => _ end) => destruct e
  end.

(** ** Handlers without a precondition *)

Section Safety.
Context {S : Type} (fs : Filesystem S) `{!LawfulFs fs}.

(** [hd] is safe on the requests that satisfy [pre]. *)
Definition handler_safe (pre : fuse_in_header -> bytes -> Prop) (hd : handler S) : Prop :=
  forall h body w r, in_range h -> zlen body < 2 ^ 63 -> replier_ok r -> pre h body ->
    safe_result r (hd h body w r).

Definition any (_ : fuse_in_header) (_ : bytes) : Prop := True.

Ltac start := intros h body w r Hh Hb Hr _; pose proof (ext_bytes_bounds h Hh);
  pose proof (zlen_nonneg body).

Lemma sizeof_statx_off : mkobjx_stat_off + sizeof fuse_statx = 320 /\ mkobjx_stat_off = 64 /\
  setstatx_stat_off = 16 /\ sizeof fuse_statx = 256 /\ sizeof fuse_mkobjx_in = 320.
Proof. done. Qed.

Lemma handle_init_safe : handler_safe any (handle_init fs).
Proof. start. unfold handle_init. repeat safe_step; done. Qed.

Lemma handle_lookup_root_safe : handler_safe any (handle_lookup_root fs).
Proof. start. unfold handle_lookup_root. repeat safe_step; done. Qed.

Lemma handle_lookupx_safe : handler_safe any (handle_lookupx fs).
Proof. start. unfold handle_lookupx. repeat safe_step; done. Qed.

Lemma handle_forget_safe : handler_safe any (handle_forget fs).
Proof. start. unfold handle_forget. repeat safe_step; done. Qed.

Lemma handle_statx_safe : handler_safe any (handle_statx fs).
Proof. start. unfold handle_statx. repeat safe_step; done. Qed.

Lemma handle_unlink_safe b : handler_safe any (handle_unlink fs b).
Proof. start. unfold handle_unlink. repeat safe_step; done. Qed.

Lemma handle_open_safe : handler_safe any (handle_open fs).
Proof. start. unfold handle_open. repeat safe_step; done. Qed.

Lemma handle_release_safe : handler_safe any (handle_release fs).
Proof. start. unfold handle_release. repeat safe_step; done. Qed.

Lemma handle_readlink_safe : handler_safe any (handle_readlink fs).
Proof. start. unfold handle_readlink. repeat safe_step; done. Qed.

Lemma handle_statfs_safe : handler_safe any (handle_statfs fs).
Proof. start. unfold handle_statfs. repeat safe_step; done. Qed.

Lemma handle_fallocate_safe : handler_safe any (handle_fallocate fs).
Proof. start. unfold handle_fallocate. repeat safe_step; done. Qed.

Lemma handle_opendir_safe : handler_safe any (handle_opendir fs).
Proof. start. unfold handle_opendir. repeat safe_step; done. Qed.

Lemma handle_releasedir_safe : handler_safe any (handle_releasedir fs).
Proof. start. unfold handle_releasedir. repeat safe_step; done. Qed.

Lemma handle_setstatx_safe : handler_safe any (handle_setstatx fs).
Proof.
  start. pose proof sizeof_statx_off. unfold handle_setstatx. repeat safe_step; done.
Qed.

Lemma handle_rename2_safe : handler_safe any (handle_rename2 fs).
Proof. start. unfold handle_rename2. repeat safe_step; done. Qed.

Lemma handle_link_safe : handler_safe any (handle_link fs).
Proof. start. unfold handle_link. repeat safe_step; done. Qed.

Lemma handle_write_safe : handler_safe any (handle_write fs).
Proof.
  start. unfold handle_write. safe_step; [by safe_step|].
  apply safe_load; [lia|slia|]. intros i Hi%write_in_size_range. repeat safe_step; done.
Qed.

Lemma handle_setxattr_safe : handler_safe any (handle_setxattr fs).
Proof.
  start. unfold handle_setxattr. safe_step; [by safe_step|].
  apply safe_load; [lia|slia|]. intros i Hi%setxattr_in_size_range. repeat safe_step; done.
Qed.

Lemma mkobjx_link_body_Done body sx after :
  0 <= after ->
  exists l, mkobjx_link_body body sx after = Done l.
Proof.
  intros. unfold mkobjx_link_body. case_if; [|eauto].
  destruct (strnlen_bounds body after (zlen body - after)) as (n & -> & ?); [lia..|].
  simpl. rewrite slice_Done by lia. eauto.
Qed.

Lemma handle_mkobjx_safe : handler_safe any (handle_mkobjx fs).
Proof.
  start. unfold handle_mkobjx. cbv zeta. destruct sizeof_statx_off as (-> & ? & _ & ? & ?).
  safe_step; [by safe_step|].
  apply safe_load; [lia|lia|]. intros i Hi%mkobjx_in_namesize_range.
  safe_step. safe_step; [by safe_step|].
  apply safe_slice; [lia|case_if; lia|case_if; lia|].
  destruct (mkobjx_link_body_Done body x (320 + mkobjx_in_namesize i)) as [l ->]; [lia|].
  cbn [obind]. repeat safe_step; done.
Qed.

Lemma load_forget_items_Done n body off :
  0 <= off -> off + Z.of_nat n * sizeof fuse_forget_one <= zlen body ->
  exists l, load_forget_items n body off = Done l /\ length l = n.
Proof.
  revert off. induction n as [|n IH]; intros off Ho Hl; [by exists []|].
  cbn [load_forget_items]. rewrite load_Done by slia. cbn [obind].
  destruct (IH (off + sizeof fuse_forget_one)) as (l & -> & Hn); [slia..|].
  eexists. split; [done|]. simpl. by rewrite Hn.
Qed.

Lemma handle_batch_forget_safe : handler_safe any (handle_batch_forget fs).
Proof.
  start. unfold handle_batch_forget. safe_step; [by safe_step|].
  rename x into i. pose proof (batch_forget_in_count_range i H1).
  safe_step; [by safe_step|].
  destruct (load_forget_items_Done (Z.to_nat (batch_forget_in_count i)) body
    (sizeof fuse_batch_forget_in)) as (l & -> & _); [slia..|].
  cbn [obind]. by safe_step.
Qed.

(** A callback that fills the first [cap] bytes of the reply buffer. *)
Lemma span_reply_safe w r cap out rv :
  replier_ok r -> 0 <= cap <= r_cap r -> zlen out = zlen (r_out r) ->
  (forall n, rv = Value n -> 0 <= n) ->
  safe_result r (match rv with
                 | Value n => Done (w : world S, with_reply (with_out r out) 0 (Z.min n cap))
                 | Unexpected e => fail w (with_out r out) e
                 end).
Proof.
  intros Hr Hc Hz Hn. destruct rv as [n|e].
  - specialize (Hn n eq_refl). apply safe_Done, with_reply_good; [done..|lia|lia].
  - by apply safe_Done, reply_error_with_out_good.
Qed.

Lemma handle_read_safe : handler_safe any (handle_read fs).
Proof.
  start. unfold handle_read. safe_step; [by safe_step|]. rename x into i.
  pose proof (read_in_size_range i H1). pose proof (replier_cap_nonneg r Hr).
  destruct Hr as [Hz Hc]. safe_step. safe_step. destruct p as [rv span'].
  pose proof (read_span _ _ _ _ _ _ _ _ _ Heqp) as Hs.
  apply safe_store; [lia|zl|]. intros out Ho.
  apply span_reply_safe; [done|lia|done|]. intros n ->. by eapply read_count.
Qed.

Lemma handle_readdir_safe : handler_safe any (handle_readdir fs).
Proof.
  start. unfold handle_readdir. safe_step; [by safe_step|]. rename x into i.
  pose proof (read_in_size_range i H1). pose proof (replier_cap_nonneg r Hr).
  pose proof Hr as [Hz Hc]. safe_step. safe_step. destruct p as [rv dw].
  destruct (readdir_adds _ _ _ _ _ _ _ _ _ Heqp) as [es Ha].
  apply adds_prefix in Ha as ((Hp & _ & _) & Hs & _).
  2: { unfold dw_ok. simpl. rewrite zlen_sub_bytes by lia. split_and!; [lia|lia|done|lia]. }
  simpl in Hs. rewrite zlen_sub_bytes in Hs by lia. apply safe_store; [lia|zl|].
  intros out Ho. destruct rv.
  - apply safe_Done, with_reply_good; [done..| |done]. unfold bytes_written. lia.
  - by apply safe_Done, reply_error_with_out_good.
Qed.

Lemma xattr_reply_safe size call (w : world S) r :
  replier_ok r -> 0 <= size ->
  (forall out s rv out' s', call out s = (rv, out', s') -> zlen out' = zlen out) ->
  (forall out s n out' s', call out s = (Value n, out', s') -> 0 <= n) ->
  safe_result r (xattr_reply size call w r).
Proof.
  intros Hr Hsz Hspan Hcount. unfold xattr_reply. pose proof (replier_cap_nonneg r Hr).
  pose proof Hr as [Hz Hc]. safe_step.
  - safe_step. destruct p as [rv out']. repeat safe_step; done.
  - safe_step. safe_step. destruct p as [rv span'].
    pose proof (Hspan _ _ _ _ _ Heqp). apply safe_store; [lia|zl|]. intros out Ho.
    apply span_reply_safe; [done|lia|done|]. intros n ->. by eapply Hcount.
Qed.

Lemma handle_getxattr_safe : handler_safe any (handle_getxattr fs).
Proof.
  start. unfold handle_getxattr. safe_step; [by safe_step|].
  apply safe_load; [lia|slia|]. intros i Hi%getxattr_in_size_range.
  repeat safe_step; [done|]. apply xattr_reply_safe; [done|lia|..].
  - intros *. apply getxattr_span.
  - intros *. apply getxattr_count.
Qed.

Lemma handle_listxattr_safe : handler_safe any (handle_listxattr fs).
Proof.
  start. unfold handle_listxattr. safe_step; [by safe_step|].
  apply xattr_reply_safe; [done| |..].
  - apply getxattr_in_size_range in H1. lia.
  - intros *. apply listxattr_span.
  - intros *. apply listxattr_count.
Qed.

#[local] Hint Resolve handle_init_safe handle_lookup_root_safe handle_lookupx_safe
  handle_forget_safe handle_batch_forget_safe handle_statx_safe handle_setstatx_safe
  handle_mkobjx_safe handle_unlink_safe handle_rename2_safe handle_link_safe
  handle_read_safe handle_write_safe handle_readlink_safe handle_statfs_safe
  handle_fallocate_safe handle_open_safe handle_release_safe handle_opendir_safe
  handle_releasedir_safe handle_readdir_safe handle_getxattr_safe handle_setxattr_safe
  handle_listxattr_safe : fex.

(** ** REMOVEXATTR and compound requests *)

Definition ext_in_body (h : fuse_in_header) (body : bytes) : Prop := ext_bytes h <= zlen body.

Lemma handle_removexattr_safe : handler_safe ext_in_body (handle_removexattr fs).
Proof.
  intros h body w r Hh Hb Hr He. pose proof (ext_bytes_bounds h Hh).
  unfold ext_in_body in He. unfold handle_removexattr. rewrite wrapu_small by lia.
  repeat safe_step; done.
Qed.

(** The subrequests of a compound body, as far as it is well formed. *)
Fixpoint compound_subs (fuel : nat) (body : bytes) (p : Z) :
    list (fuse_compound_req_in * fuse_in_header * bytes) :=
  if zlen body <=? p then [] else
  match fuel with
  | O => []
  | Datatypes.S fuel' =>
      if zlen body - p <? compound_hdrs then [] else
      match load fuse_compound_req_in body p,
            load fuse_in_header body (p + sizeof fuse_compound_req_in) with
      | Done q, Done h =>
          let p := p + compound_hdrs in
          let sub_len := in_header_len h - sizeof fuse_in_header in
          if (in_header_len h <? sizeof fuse_in_header) || (zlen body - p <? sub_len) then []
          else (q, h, sub_bytes body p sub_len) :: compound_subs fuel' body (p + sub_len)
      | _, _ => []
      end
  end.

(** A plain request is in order when, being a REMOVEXATTR, its body covers the
    extensions; a compound, when every subrequest is. *)
Definition plain_ok (h : fuse_in_header) (body : bytes) : Prop :=
  opcode_is h FUSE_REMOVEXATTR = true -> ext_in_body h body.

Definition request_ok (h : fuse_in_header) (body : bytes) : Prop :=
  plain_ok h body /\
  (opcode_is h FUSE_COMPOUND = true ->
   Forall (fun x => plain_ok (snd (fst x)) (snd x))
     (compound_subs (length body) body (sizeof fuse_compound_in))).

Lemma compound_hdrs_val : compound_hdrs = 44.
Proof. done. Qed.

Lemma safe_bind r r1 (o : outcome (world S * Replier))
    (k : world S * Replier -> outcome (world S * Replier)) :
  safe_result r1 o ->
  (forall w' r', good_reply r1 r' -> safe_result r (k (w', r'))) ->
  safe_result r (obind o k).
Proof. intros (w' & r' & -> & Hg) Hk. simpl. by apply Hk. Qed.

Lemma safe_with_out r out o :
  zlen out = zlen (r_out r) -> safe_result (S:=S) (with_out r out) o -> safe_result r o.
Proof.
  intros Hz (w' & r' & -> & Hg). apply safe_Done.
  destruct Hg as (? & ? & Hz' & [? ?] & ?). simpl in *.
  unfold good_reply. split_and!; first [done | congruence].
Qed.

Lemma produced_nodeid_Done h r r' :
  good_reply r r' -> replier_ok r ->
  exists v, produced_nodeid h r' = Done v /\ fits U64 v.
Proof.
  intros (Hc & _ & Hz & Hl & _) [Hz0 _]. unfold produced_nodeid. case_if.
  - rewrite slice_Done by lia. simpl. eexists. split; [done|]. apply dec_scalar_fits.
    pose proof (zlen_sub_bytes (r_out r') 0 8). unfold zlen in *. simpl in *. lia.
  - exists 0. split; [done|]. fits_lia.
Qed.

Lemma propagate_nodeid_range q produced h :
  in_range h -> Forall (fits U64) produced -> in_range (propagate_nodeid q produced h).
Proof.
  intros Hh Hp. unfold propagate_nodeid. case_if; [|done].
  assert (fits U64 (nth (Z.to_nat (compound_req_in_dep_index q)) produced 0)).
  { clear -Hp. revert produced Hp. induction (Z.to_nat _); intros [|v l] Hl; simpl;
      try (inversion_clear Hl; by auto); fits_lia. }
  unfold in_range in *. destruct h. simpl in *.
  repeat (apply Forall2_cons_1 in Hh; destruct Hh as [? Hh]).
  repeat (apply Forall2_cons_2; [done|]). apply Forall2_nil_2.
Qed.

Lemma propagate_nodeid_frame q produced h :
  in_header_opcode (propagate_nodeid q produced h) = in_header_opcode h /\
  ext_bytes (propagate_nodeid q produced h) = ext_bytes h /\
  in_header_unique (propagate_nodeid q produced h) = in_header_unique h.
Proof. unfold propagate_nodeid. by case_if. Qed.

Section CompoundSafety.
Variable rec : handler S.
Hypothesis rec_safe :
  handler_safe (fun h body => plain_ok h body /\ opcode_is h FUSE_COMPOUND = false) rec.

Lemma sub_out_header_len h r :
  0 <= r_len r ->
  0 <= out_header_len (sub_out_header h r) <= sizeof fuse_out_header + r_len r.
Proof.
  intros. pose proof (cast_U32_le (sizeof fuse_out_header + (if r_neg_err r =? 0 then r_len r else 0))).
  simpl. case_if; slia.
Qed.

(** One subrequest leaves the reply buffer's size alone and advances by no
    more than the room there was. *)
Lemma compound_sub_safe q h0 sub_body out_p produced w r :
  in_range h0 -> zlen sub_body < 2 ^ 63 -> plain_ok h0 sub_body ->
  Forall (fits U64) produced -> replier_ok r ->
  0 <= out_p -> out_p + sizeof fuse_out_header <= r_cap r ->
  exists w' out prod oh_len,
    compound_sub rec q h0 sub_body out_p produced w r = Done (w', out, prod, oh_len) /\
    zlen out = zlen (r_out r) /\ fits U64 prod /\ 0 <= oh_len <= r_cap r - out_p.
Proof.
  intros Hh0 Hb Hok Hprod [Hz Hc] Ho Hcap. unfold compound_sub. cbv zeta.
  rewrite slice_Done by slia. cbn [obind].
  pose proof (propagate_nodeid_range q produced h0 Hh0 Hprod) as Hh.
  pose proof (propagate_nodeid_frame q produced h0) as (Hop & Hext & _).
  revert Hh Hop Hext. generalize (propagate_nodeid q produced h0). intros h Hh Hop Hext.
  match goal with |- context [fail w ?sr _] => set (sub_r := sr) end.
  assert (Hsr : replier_ok sub_r) by (split; simpl; [apply zlen_sub_bytes|]; slia).
  assert (Hs : safe_result sub_r (if opcode_is h FUSE_COMPOUND then fail w sub_r EOPNOTSUPP
                                  else rec h sub_body w sub_r)).
  { case_if; [by apply safe_fail|]. apply rec_safe; [done..|]. split; [|done].
    unfold plain_ok, ext_in_body, opcode_is in *. by rewrite Hop, Hext. }
  destruct Hs as (w' & r' & -> & Hg). cbn [obind fst snd].
  destruct (produced_nodeid_Done h sub_r r' Hg Hsr) as (v & -> & Hv). cbn [obind].
  destruct Hg as (_ & _ & Hz' & Hl' & _). simpl in Hz', Hl'.
  rewrite zlen_sub_bytes in Hz' by slia. rewrite store_Done by slia. cbn [obind].
  rewrite store_Done by (rewrite ?zlen_splice, ?zlen_encode; slia). cbn [obind].
  pose proof (sub_out_header_len h r'). eexists _, _, _, _. split; [reflexivity|].
  split; [|split; [done|slia]]. rewrite !zlen_splice; rewrite ?zlen_splice, ?zlen_encode; slia.
Qed.

Lemma compound_loop_safe fuel body p out_p produced w r :
  zlen body < 2 ^ 63 -> replier_ok r -> Forall (fits U64) produced ->
  0 <= p -> zlen body - p <= Z.of_nat fuel -> 0 <= out_p <= r_cap r ->
  Forall (fun x => plain_ok (snd (fst x)) (snd x)) (compound_subs fuel body p) ->
  safe_result r (compound_loop rec fuel body p out_p produced w r).
Proof.
  intros Hb. revert p out_p produced w r. pose proof (zlen_nonneg body).
  induction fuel as [|fuel IH]; intros p out_p produced w r Hr Hprod Hp Hfuel Ho Hsubs;
    cbn [compound_loop compound_subs] in *;
    (case_if; [apply safe_Done; destruct r; by apply with_reply_good|]); [lia|].
  rewrite compound_hdrs_val in *.
  destruct ((zlen body - p <? 44) || (r_cap r <? out_p + sizeof fuse_out_header)) eqn:Eg;
    [by apply safe_fail|].
  destruct (zlen body - p <? 44) eqn:Eb; [done|].
  rewrite (load_Done (T:=fuse_compound_req_in)) in * by slia.
  rewrite (load_Done (T:=fuse_in_header)) in * by slia. cbn [obind].
  assert (Hh0 : in_range (decode (T:=fuse_in_header)
    (sub_bytes body (p + sizeof fuse_compound_req_in) (sizeof fuse_in_header))))
    by (apply decode_in_range, zlen_sub_bytes; slia).
  revert Hh0 Hsubs. generalize (decode (T:=fuse_in_header)
    (sub_bytes body (p + sizeof fuse_compound_req_in) (sizeof fuse_in_header))).
  intros h Hh Hsubs. pose proof (in_header_len_range h Hh).
  case_if; [by apply safe_fail|]. inversion_clear Hsubs as [|? ? Hsub Hsubs'].
  apply safe_slice; [slia..|].
  edestruct (compound_sub_safe (decode (sub_bytes body p (sizeof fuse_compound_req_in))) h
    (sub_bytes body (p + 44) (in_header_len h - sizeof fuse_in_header)) out_p produced w r)
    as (w' & out & prod & n & -> & Hz & Hv & Hn); [done| |done..|lia|slia|].
  { rewrite zlen_sub_bytes; slia. }
  cbn [obind]. apply safe_with_out with out; [done|]. apply IH; cbn [r_cap with_out]; try done; try slia.
  - destruct Hr. split; simpl; congruence.
  - apply Forall_app. split; [done|]. by constructor.
Qed.

Lemma handle_compound_safe h body w r :
  zlen body < 2 ^ 63 -> replier_ok r ->
  Forall (fun x => plain_ok (snd (fst x)) (snd x))
    (compound_subs (length body) body (sizeof fuse_compound_in)) ->
  safe_result r (handle_compound rec h body w r).
Proof.
  intros Hb Hr Hsubs. unfold handle_compound. case_if; [by apply safe_fail|].
  pose proof Hr as [Hz Hc]. apply safe_store; [lia|rewrite zlen_zero_bytes; slia|].
  intros out Hout. apply safe_with_out with out; [done|].
  apply compound_loop_safe; try done; simpl.
  - split; simpl; congruence.
  - unfold zlen. slia.
  - slia.
Qed.

(** Every case of the switch. *)
Lemma handler_table_safe :
  Forall (fun c => handler_safe (fun h body => opcode_is h (fst c) = true /\ request_ok h body)
                     (snd c)) (handler_table fs rec).
Proof.
  assert (Hany : forall o hd, handler_safe any hd ->
    handler_safe (fun h body => opcode_is h o = true /\ request_ok h body) hd).
  { intros o hd Hs h body w r ? ? ? _. by apply Hs. }
  unfold handler_table.
  repeat (apply Forall_cons_2; [cbn [fst snd]; try (apply Hany; by auto with fex)|]);
    try apply Forall_nil_2.
  - intros h body w r ? ? ? [Ho [Hp _]]. apply handle_removexattr_safe; auto.
  - intros h body w r ? ? ? [Ho [_ Hc]]. apply handle_compound_safe; auto.
Qed.

Lemma switch_safe cases h body w r :
  Forall (fun c => handler_safe (fun h body => opcode_is h (fst c) = true /\ request_ok h body)
                     (snd c)) cases ->
  in_range h -> zlen body < 2 ^ 63 -> replier_ok r -> request_ok h body ->
  safe_result r (switch cases h h body w r).
Proof.
  intros Hc Hh Hb Hr Hok. induction Hc as [|[o hd] cases Hhd _ IH]; [by apply safe_fail|].
  cbn [switch]. destruct (opcode_is h o) eqn:Eo; [|done]. by apply Hhd.
Qed.
End CompoundSafety.

Lemma opcode_is_excl h o1 o2 :
  opcode_is h o1 = true -> opcode_is h o2 = true -> o1 = o2.
Proof. unfold opcode_is. intros. apply opcode_value_inj. lia. Qed.

(** The switch runs the handler of the request's opcode. *)
Lemma switch_case cases h o (hd : handler S) :
  NoDup (map fst cases) -> (o, hd) ∈ cases -> opcode_is h o = true -> switch cases h = hd.
Proof.
  intros Hnd Hin Ho. induction cases as [|[o' hd'] cases IH]; [by apply not_elem_of_nil in Hin|].
  inversion_clear Hnd as [|? ? Hni Hnd']. cbn [switch]. apply elem_of_cons in Hin as [Heq|Hin].
  - simplify_eq. by rewrite Ho.
  - destruct (opcode_is h o') eqn:Ho'; [|auto].
    assert (o' = o) by (unfold opcode_is in *; apply opcode_value_inj; lia). subst o'.
    exfalso. apply Hni. apply list_elem_of_In, in_map_iff. exists (o, hd).
    split; [done|]. by apply list_elem_of_In.
Qed.

Lemma handler_table_NoDup rec : NoDup (map fst (handler_table fs rec)).
Proof. unfold handler_table. cbn [map fst]. apply (bool_decide_unpack _). by vm_compute. Qed.

Lemma dispatch_case rec h o hd body w r :
  (o, hd) ∈ handler_table fs rec -> opcode_is h o = true ->
  dispatch_body fs rec h body w r = hd h body w r.
Proof.
  intros Hin Ho. unfold dispatch_body.
  by rewrite (switch_case _ _ o hd) by (first [apply handler_table_NoDup | done]).
Qed.

(** Outside FUSE_COMPOUND the switch does not recurse. *)
Lemma switch_no_compound rec1 rec2 h body w r :
  opcode_is h FUSE_COMPOUND = false ->
  dispatch_body fs rec1 h body w r = dispatch_body fs rec2 h body w r.
Proof.
  intros Hc. unfold dispatch_body, handler_table. cbn [switch].
  repeat match goal with |- (if ?b then _ else _) _ _ _ _ = _ => destruct b eqn:?; [done|] end.
  done.
Qed.

Lemma compound_loop_ext (rec1 rec2 : handler S) fuel body p out_p produced w r :
  (forall h b w r, opcode_is h FUSE_COMPOUND = false -> rec1 h b w r = rec2 h b w r) ->
  compound_loop rec1 fuel body p out_p produced w r =
  compound_loop rec2 fuel body p out_p produced w r.
Proof.
  intros Hrec. revert p out_p produced w r.
  assert (Hsub : forall q h b o pr w r,
    compound_sub rec1 q h b o pr w r = compound_sub rec2 q h b o pr w r).
  { intros. unfold compound_sub. cbv zeta. destruct (slice _ _ _); [|done]. cbn [obind].
    destruct (opcode_is (propagate_nodeid q pr h) FUSE_COMPOUND) eqn:Ec; [done|].
    by rewrite Hrec. }
  induction fuel as [|fuel IH]; intros; cbn [compound_loop]; [done|].
  repeat (case_if; [done|]).
  do 2 (destruct (load _ _ _); [|done]; cbn [obind]).
  case_if; [done|]. destruct (slice _ _ _); [|done]. cbn [obind]. rewrite Hsub.
  destruct (compound_sub _ _ _ _ _ _ _ _) as [[[[? ?] ?] ?]|]; [|done]. cbn [obind]. apply IH.
Qed.

Lemma handle_compound_ext (rec1 rec2 : handler S) h body w r :
  (forall h b w r, opcode_is h FUSE_COMPOUND = false -> rec1 h b w r = rec2 h b w r) ->
  handle_compound rec1 h body w r = handle_compound rec2 h body w r.
Proof.
  intros Hrec. unfold handle_compound. case_if; [done|].
  destruct (store _ _ _); [|done]. by apply compound_loop_ext.
Qed.

Lemma dispatch_depth_plain n m h body w r :
  opcode_is h FUSE_COMPOUND = false ->
  dispatch_depth fs (Datatypes.S n) h body w r = dispatch_depth fs (Datatypes.S m) h body w r.
Proof. apply switch_no_compound. Qed.

Lemma dispatch_depth_1_safe :
  handler_safe (fun h body => plain_ok h body /\ opcode_is h FUSE_COMPOUND = false)
    (dispatch_depth fs 1).
Proof.
  intros h body w r Hh Hb Hr [Hp Hc].
  change (dispatch_depth fs 1) with (dispatch_body fs (dispatch_depth fs 0)).
  rewrite (switch_no_compound _ (fun _ _ w r => fail w r EINVAL)) by done.
  apply switch_safe; [|done..|].
  - apply handler_table_safe. intros ? ? ? ? ? ? ? _. by apply safe_fail.
  - split; [done|]. intros Hc'. congruence.
Qed.

Lemma dispatch_safe h body w r :
  in_range h -> zlen body < 2 ^ 63 -> replier_ok r -> request_ok h body ->
  safe_result r (dispatch fs h body w r).
Proof.
  intros. apply switch_safe; [|done..]. apply handler_table_safe.
  by apply dispatch_depth_1_safe.
Qed.
End Safety.

(** ** Theorems *)

(** C1: memory safety of dispatch. For every request in order ([request_ok]),
    whatever the bytes of its body, the dispatcher returns; it reads nothing
    outside the body and writes nothing outside the reply buffer; and the reply
    it leaves keeps the buffer, its capacity and the request id, has a length
    within the capacity, and carries no payload beside an error. *)
Theorem dispatch_memory_safe {S} (fs : Filesystem S) (LFS : LawfulFs fs) h body w r :
  in_range h -> zlen body < 2 ^ 63 -> replier_ok r -> request_ok h body ->
  exists w' r', dispatch fs h body w r = Done (w', r') /\ good_reply r r'.
Proof. intros. by apply dispatch_safe. Qed.

(** C39: REMOVEXATTR does not compare the body with the extension length the
    header announces: on a body shorter than that it reads outside the body. *)
Theorem removexattr_reads_past_body {S} (fs : Filesystem S) h body w r :
  zlen body < ext_bytes h -> handle_removexattr fs h body w r = Fault OobRead.
Proof.
  intros Hlt. unfold handle_removexattr, strnlen.
  destruct (in_bounds body (ext_bytes h) 0) eqn:E; [|done].
  apply in_bounds_true in E. lia.
Qed.

(** Two levels of dispatch are all the dispatcher ever uses: a subrequest
    that is itself a compound is refused, so more depth changes nothing. *)
Theorem dispatch_depth_enough {S} (fs : Filesystem S) n h body w r :
  dispatch_depth fs (2 + n) h body w r = dispatch fs h body w r.
Proof.
  unfold dispatch. destruct (opcode_is h FUSE_COMPOUND) eqn:Ec.
  - assert (Hc : forall rec, dispatch_body fs rec h body w r = handle_compound rec h body w r).
    { intros rec. apply dispatch_case with FUSE_COMPOUND; [|done].
      unfold handler_table. do 26 apply list_elem_of_further. apply list_elem_of_here. }
    change (dispatch_depth fs (2 + n)) with (dispatch_body fs (dispatch_depth fs (1 + n))).
    change (dispatch_depth fs 2) with (dispatch_body fs (dispatch_depth fs 1)).
    rewrite !Hc. apply handle_compound_ext. intros. by apply dispatch_depth_plain.
  - by apply dispatch_depth_plain.
Qed.

(** A request header and a replier for the examples below. *)
Definition demo_header (o : fuse_opcode) (nodeid extlen : Z) : fuse_in_header := {|
  in_header_len := 40; in_header_opcode := opcode_value o; in_header_unique := 9;
  in_header_nodeid := nodeid; in_header_uid := 0; in_header_gid := 0; in_header_pid := 1;
  in_header_total_extlen := extlen; in_header_padding := 0 |}.

Definition demo_replier (cap : Z) : Replier := {|
  r_out := zero_bytes cap; r_cap := cap; r_len := 0; r_neg_err := 0; r_unique := 9 |}.

Definition demo_options : SessionOptions := {|
  opt_mountpoint := []; opt_fsname := []; opt_source := []; opt_read_only := false;
  opt_allow_other := false; opt_dev_fd := -1; opt_uring_queues := 1;
  opt_uring_queue_depth := 2; opt_uring_payload_bytes := 8192 |}.

Definition demo_world {S} (s : S) : world S :=
  {| w_impl := Impl_make demo_options; w_fs := s |}.

Ltac demo_range := split_in_range; vm_compute; intuition congruence.

Lemma dispatch_memory_safe_witness :
  exists w' r', dispatch (demo_fs [Byte.x61]) (demo_header FUSE_LOOKUPX 1 0)
    [Byte.x61; Byte.x00] (demo_world []) (demo_replier 64) = Done (w', r') /\
    good_reply (demo_replier 64) r'.
Proof.
  apply (dispatch_memory_safe (demo_fs [Byte.x61])).
  - apply demo_fs_lawful.
  - demo_range.
  - reflexivity.
  - split; reflexivity.
  - split; discriminate.
Defined.

Lemma removexattr_reads_past_body_witness :
  handle_removexattr (demo_fs []) (demo_header FUSE_REMOVEXATTR 1 1) [Byte.x61; Byte.x00]
    (demo_world []) (demo_replier 64) = Fault OobRead.
Proof. apply removexattr_reads_past_body. reflexivity. Defined.
