(* ===== verification/Callbacks.v ===== *)
(** * Requests as sequences of callbacks

    The dispatcher reaches the daemon through the virtual methods of
    [Filesystem] only. [callback] is one call of such a method and [invoke] its
    effect on the daemon's state. A property of that state kept by every
    callback is therefore kept by every request, compound requests included:
    the bridge from a daemon's own invariants to the bytes the kernel sends. *)

From S2P Require Import Prelude Memory Pod Abi Types DirentWriter Filesystem Replier Handlers.

(** ** Callbacks *)

Inductive callback :=
| CbInit (info : InitInfo)
| CbDestroy
| CbLookupRoot (ctx : Context)
| CbLookupx (ctx : Context) (parent : NodeId) (name : bytes)
| CbForget (n : NodeId) (nlookup : Z)
| CbForgetMulti (items : list (NodeId * Z))
| CbStatx (ctx : Context) (n : NodeId)
| CbSetstatx (ctx : Context) (n : NodeId) (fh : FileHandle) (i : SetStatxIn)
| CbMkobjx (ctx : Context) (parent : NodeId) (mi : MkobjxIn)
| CbUnlink (ctx : Context) (parent : NodeId) (name : bytes)
| CbRmdir (ctx : Context) (parent : NodeId) (name : bytes)
| CbRename (ctx : Context) (od : NodeId) (on : bytes) (nd : NodeId) (nn : bytes) (flags : Z)
| CbLink (ctx : Context) (old newparent : NodeId) (newname : bytes)
| CbReadlink (ctx : Context) (n : NodeId)
| CbOpen (ctx : Context) (n : NodeId) (flags : Z)
| CbRelease (ctx : Context) (n : NodeId) (fh : FileHandle) (flags : Z)
| CbRead (ctx : Context) (n : NodeId) (fh : FileHandle) (off : Z) (out : bytes)
| CbWrite (ctx : Context) (n : NodeId) (fh : FileHandle) (off : Z) (data : bytes)
| CbFallocate (ctx : Context) (n : NodeId) (fh : FileHandle) (mode off len : Z)
| CbStatfs (ctx : Context) (n : NodeId)
| CbOpendir (ctx : Context) (n : NodeId)
| CbReleasedir (ctx : Context) (n : NodeId) (fh : FileHandle)
| CbReaddir (ctx : Context) (n : NodeId) (fh : FileHandle) (off : Z) (out : DirentWriter)
| CbGetxattr (ctx : Context) (n : NodeId) (name out : bytes)
| CbSetxattr (ctx : Context) (n : NodeId) (name value : bytes) (flags : Z)
| CbListxattr (ctx : Context) (n : NodeId) (out : bytes)
| CbRemovexattr (ctx : Context) (n : NodeId) (name : bytes).

Definition invoke {S} (fs : Filesystem S) (cb : callback) (s : S) : S :=
  match cb with
  | CbInit info => snd (fs_init fs info s)
  | CbDestroy => fs_destroy fs s
  | CbLookupRoot ctx => snd (fs_lookup_root fs ctx s)
  | CbLookupx ctx p name => snd (fs_lookupx fs ctx p name s)
  | CbForget n k => fs_forget fs n k s
  | CbForgetMulti items => fs_forget_multi fs items s
  | CbStatx ctx n => snd (fs_statx fs ctx n s)
  | CbSetstatx ctx n fh i => snd (fs_setstatx fs ctx n fh i s)
  | CbMkobjx ctx p mi => snd (fs_mkobjx fs ctx p mi s)
  | CbUnlink ctx p name => snd (fs_unlink fs ctx p name s)
  | CbRmdir ctx p name => snd (fs_rmdir fs ctx p name s)
  | CbRename ctx od on nd nn flags => snd (fs_rename fs ctx od on nd nn flags s)
  | CbLink ctx old np name => snd (fs_link fs ctx old np name s)
  | CbReadlink ctx n => snd (fs_readlink fs ctx n s)
  | CbOpen ctx n flags => snd (fs_open fs ctx n flags s)
  | CbRelease ctx n fh flags => snd (fs_release fs ctx n fh flags s)
  | CbRead ctx n fh off out => snd (fs_read fs ctx n fh off out s)
  | CbWrite ctx n fh off data => snd (fs_write fs ctx n fh off data s)
  | CbFallocate ctx n fh mode off len => snd (fs_fallocate fs ctx n fh mode off len s)
  | CbStatfs ctx n => snd (fs_statfs fs ctx n s)
  | CbOpendir ctx n => snd (fs_opendir fs ctx n s)
  | CbReleasedir ctx n fh => snd (fs_releasedir fs ctx n fh s)
  | CbReaddir ctx n fh off out => snd (fs_readdir fs ctx n fh off out s)
  | CbGetxattr ctx n name out => snd (fs_getxattr fs ctx n name out s)
  | CbSetxattr ctx n name value flags => snd (fs_setxattr fs ctx n name value flags s)
  | CbListxattr ctx n out => snd (fs_listxattr fs ctx n out s)
  | CbRemovexattr ctx n name => snd (fs_removexattr fs ctx n name s)
  end.

(** What a callback returns to the dispatcher: its value or error, and what it
    stored through its reference and span arguments. *)
Inductive answer :=
| AnsNone
| AnsInit (r : expected unit) (info : InitInfo)
| AnsVoid (r : expected unit)
| AnsEntry (r : expected EntryOut)
| AnsStatx (r : expected StatxOut)
| AnsStatfs (r : expected StatfsOut)
| AnsOpen (r : expected OpenOut)
| AnsLink (r : expected bytes)
| AnsCount (r : expected Z)
| AnsSpan (r : expected Z) (out : bytes)
| AnsDir (r : expected unit) (out : DirentWriter).

Definition ask {S} (fs : Filesystem S) (cb : callback) (s : S) : answer * S :=
  match cb with
  | CbInit info => let '(r, info, s) := fs_init fs info s in (AnsInit r info, s)
  | CbDestroy => (AnsNone, fs_destroy fs s)
  | CbLookupRoot ctx => let '(r, s) := fs_lookup_root fs ctx s in (AnsEntry r, s)
  | CbLookupx ctx p name => let '(r, s) := fs_lookupx fs ctx p name s in (AnsEntry r, s)
  | CbForget n k => (AnsNone, fs_forget fs n k s)
  | CbForgetMulti items => (AnsNone, fs_forget_multi fs items s)
  | CbStatx ctx n => let '(r, s) := fs_statx fs ctx n s in (AnsStatx r, s)
  | CbSetstatx ctx n fh i => let '(r, s) := fs_setstatx fs ctx n fh i s in (AnsStatx r, s)
  | CbMkobjx ctx p mi => let '(r, s) := fs_mkobjx fs ctx p mi s in (AnsEntry r, s)
  | CbUnlink ctx p name => let '(r, s) := fs_unlink fs ctx p name s in (AnsVoid r, s)
  | CbRmdir ctx p name => let '(r, s) := fs_rmdir fs ctx p name s in (AnsVoid r, s)
  | CbRename ctx od on nd nn flags =>
      let '(r, s) := fs_rename fs ctx od on nd nn flags s in (AnsVoid r, s)
  | CbLink ctx old np name => let '(r, s) := fs_link fs ctx old np name s in (AnsVoid r, s)
  | CbReadlink ctx n => let '(r, s) := fs_readlink fs ctx n s in (AnsLink r, s)
  | CbOpen ctx n flags => let '(r, s) := fs_open fs ctx n flags s in (AnsOpen r, s)
  | CbRelease ctx n fh flags => let '(r, s) := fs_release fs ctx n fh flags s in (AnsVoid r, s)
  | CbRead ctx n fh off out => let '(r, out, s) := fs_read fs ctx n fh off out s in (AnsSpan r out, s)
  | CbWrite ctx n fh off data => let '(r, s) := fs_write fs ctx n fh off data s in (AnsCount r, s)
  | CbFallocate ctx n fh mode off len =>
      let '(r, s) := fs_fallocate fs ctx n fh mode off len s in (AnsVoid r, s)
  | CbStatfs ctx n => let '(r, s) := fs_statfs fs ctx n s in (AnsStatfs r, s)
  | CbOpendir ctx n => let '(r, s) := fs_opendir fs ctx n s in (AnsOpen r, s)
  | CbReleasedir ctx n fh => let '(r, s) := fs_releasedir fs ctx n fh s in (AnsVoid r, s)
  | CbReaddir ctx n fh off out =>
      let '(r, out, s) := fs_readdir fs ctx n fh off out s in (AnsDir r out, s)
  | CbGetxattr ctx n name out =>
      let '(r, out, s) := fs_getxattr fs ctx n name out s in (AnsSpan r out, s)
  | CbSetxattr ctx n name value flags =>
      let '(r, s) := fs_setxattr fs ctx n name value flags s in (AnsVoid r, s)
  | CbListxattr ctx n out => let '(r, out, s) := fs_listxattr fs ctx n out s in (AnsSpan r out, s)
  | CbRemovexattr ctx n name => let '(r, s) := fs_removexattr fs ctx n name s in (AnsVoid r, s)
  end.

Lemma ask_invoke {S} (fs : Filesystem S) cb s : snd (ask fs cb s) = invoke fs cb s.
Proof. destruct cb; simpl; repeat case_match; by simplify_eq/=. Qed.

(** A property of the daemon's state that every callback keeps. *)
Class FsInvariant {S} (fs : Filesystem S) (P : S -> Prop) : Prop :=
  invoke_keeps : forall cb s, P s -> P (invoke fs cb s).

(** A property of the session and the daemon together that the callbacks keep,
    and the mark that INIT was served. *)
Class WorldInvariant {S} (fs : Filesystem S) (P : world S -> Prop) : Prop := {
  invoke_keeps_world : forall cb w, P w -> P (set_fs w (invoke fs cb (w_fs w)));
  init_done_keeps_world : forall w, P w ->
    P {| w_impl := set_init_done (w_impl w); w_fs := w_fs w |};
}.

#[export] Instance fs_world_invariant {S} (fs : Filesystem S) (P : S -> Prop) `{!FsInvariant fs P} :
  WorldInvariant fs (fun w => P (w_fs w)).
Proof. split; [|done]. intros cb w. apply invoke_keeps. Qed.

(** ** Handlers keep invariants *)

Section Keeps.
Context {S : Type} (fs : Filesystem S) (P : world S -> Prop) `{!WorldInvariant fs P}.

Definition keeps (hd : handler S) : Prop := forall h body w r w' r',
  P w -> hd h body w r = Done (w', r') -> P w'.

(** Finds the callback that led to a state. *)
Ltac by_callback cb w E :=
  match goal with HP : P w |- _ =>
    exact (eq_ind _ (fun s => P (set_fs w s)) (invoke_keeps_world cb w HP) _ (f_equal snd E)) end.

Ltac callback_step :=
  try match goal with |- P {| w_impl := set_init_done (w_impl ?w); w_fs := ?s |} =>
    apply (init_done_keeps_world (set_fs w s)) end;
  match goal with
  | E : fs_init _ ?a (w_fs ?w) = (_, ?s') |- P (set_fs ?w ?s') =>
      by_callback (CbInit a) w E
  | E : fs_lookup_root _ ?a (w_fs ?w) = (_, ?s') |- P (set_fs ?w ?s') =>
      by_callback (CbLookupRoot a) w E
  | E : fs_lookupx _ ?a ?b ?c (w_fs ?w) = (_, ?s') |- P (set_fs ?w ?s') =>
      by_callback (CbLookupx a b c) w E
  | E : fs_statx _ ?a ?b (w_fs ?w) = (_, ?s') |- P (set_fs ?w ?s') =>
      by_callback (CbStatx a b) w E
  | E : fs_setstatx _ ?a ?b ?c ?d (w_fs ?w) = (_, ?s') |- P (set_fs ?w ?s') =>
      by_callback (CbSetstatx a b c d) w E
  | E : fs_mkobjx _ ?a ?b ?c (w_fs ?w) = (_, ?s') |- P (set_fs ?w ?s') =>
      by_callback (CbMkobjx a b c) w E
  | E : fs_unlink _ ?a ?b ?c (w_fs ?w) = (_, ?s') |- P (set_fs ?w ?s') =>
      by_callback (CbUnlink a b c) w E
  | E : fs_rmdir _ ?a ?b ?c (w_fs ?w) = (_, ?s') |- P (set_fs ?w ?s') =>
      by_callback (CbRmdir a b c) w E
  | E : fs_rename _ ?a ?b ?c ?d ?e ?f (w_fs ?w) = (_, ?s') |- P (set_fs ?w ?s') =>
      by_callback (CbRename a b c d e f) w E
  | E : fs_link _ ?a ?b ?c ?d (w_fs ?w) = (_, ?s') |- P (set_fs ?w ?s') =>
      by_callback (CbLink a b c d) w E
  | E : fs_readlink _ ?a ?b (w_fs ?w) = (_, ?s') |- P (set_fs ?w ?s') =>
      by_callback (CbReadlink a b) w E
  | E : fs_open _ ?a ?b ?c (w_fs ?w) = (_, ?s') |- P (set_fs ?w ?s') =>
      by_callback (CbOpen a b c) w E
  | E : fs_release _ ?a ?b ?c ?d (w_fs ?w) = (_, ?s') |- P (set_fs ?w ?s') =>
      by_callback (CbRelease a b c d) w E
  | E : fs_read _ ?a ?b ?c ?d ?e (w_fs ?w) = (_, ?s') |- P (set_fs ?w ?s') =>
      by_callback (CbRead a b c d e) w E
  | E : fs_write _ ?a ?b ?c ?d ?e (w_fs ?w) = (_, ?s') |- P (set_fs ?w ?s') =>
      by_callback (CbWrite a b c d e) w E
  | E : fs_fallocate _ ?a ?b ?c ?d ?e ?f (w_fs ?w) = (_, ?s') |- P (set_fs ?w ?s') =>
      by_callback (CbFallocate a b c d e f) w E
  | E : fs_statfs _ ?a ?b (w_fs ?w) = (_, ?s') |- P (set_fs ?w ?s') =>
      by_callback (CbStatfs a b) w E
  | E : fs_opendir _ ?a ?b (w_fs ?w) = (_, ?s') |- P (set_fs ?w ?s') =>
      by_callback (CbOpendir a b) w E
  | E : fs_releasedir _ ?a ?b ?c (w_fs ?w) = (_, ?s') |- P (set_fs ?w ?s') =>
      by_callback (CbReleasedir a b c) w E
  | E : fs_readdir _ ?a ?b ?c ?d ?e (w_fs ?w) = (_, ?s') |- P (set_fs ?w ?s') =>
      by_callback (CbReaddir a b c d e) w E
  | E : fs_getxattr _ ?a ?b ?c ?d (w_fs ?w) = (_, ?s') |- P (set_fs ?w ?s') =>
      by_callback (CbGetxattr a b c d) w E
  | E : fs_setxattr _ ?a ?b ?c ?d ?e (w_fs ?w) = (_, ?s') |- P (set_fs ?w ?s') =>
      by_callback (CbSetxattr a b c d e) w E
  | E : fs_listxattr _ ?a ?b ?c (w_fs ?w) = (_, ?s') |- P (set_fs ?w ?s') =>
      by_callback (CbListxattr a b c) w E
  | E : fs_removexattr _ ?a ?b ?c (w_fs ?w) = (_, ?s') |- P (set_fs ?w ?s') =>
      by_callback (CbRemovexattr a b c) w E
  | |- P (set_fs ?w (fs_forget _ ?a ?b _)) => apply (invoke_keeps_world (CbForget a b) w); assumption
  | |- P (set_fs ?w (fs_forget_multi _ ?a _)) =>
      apply (invoke_keeps_world (CbForgetMulti a) w); assumption
  end.

(** Walks through a handler: every binding and branch, down to its results. *)
Ltac walk :=
  repeat match goal with
  | H : Done _ = Done _ |- _ => injection H; clear H; intros
  | H : Fault _ = Done _ |- _ => discriminate H
  | H : obind ?e _ = Done _ |- _ => let E := fresh "E" in destruct e eqn:E; cbn [obind] in H
  | H : (let '(_, _) := ?e in _) = Done _ |- _ => let E := fresh "E" in destruct e eqn:E
  | H : (if ?e then _ else _) = Done _ |- _ => destruct e
  | H : match ?e with _ => _ end = Done _ |- _ => let E := fresh "E" in destruct e eqn:E
  end.

Ltac keeps_tac := intros h body w r w' r' HP H;
  unfold handle_init, handle_lookup_root, handle_lookupx, handle_forget, handle_batch_forget,
    handle_statx, handle_setstatx, handle_mkobjx, handle_unlink, handle_rename2, handle_link,
    handle_open, handle_release, handle_read, handle_write, handle_readlink, handle_statfs,
    handle_fallocate, handle_opendir, handle_releasedir, handle_readdir, handle_getxattr,
    handle_setxattr, handle_listxattr, handle_removexattr,
    reply_void, reply_statx, xattr_reply, fail, finish in H; walk; subst;
  first [assumption | callback_step].

Lemma simple_handlers_keep dispatch_rec o hd :
  In (o, hd) (handler_table fs dispatch_rec) -> o <> FUSE_COMPOUND -> keeps hd.
Proof.
  intros Hin Ho. simpl in Hin.
  repeat match type of Hin with
  | _ \/ _ => destruct Hin as [Heq|Hin]; [injection Heq as <- <-; try done; keeps_tac|]
  end.
  done.
Qed.

Lemma compound_sub_keeps dispatch_rec sub_req sub_h body out_p produced w r w' out prod len :
  keeps dispatch_rec -> P w ->
  compound_sub dispatch_rec sub_req sub_h body out_p produced w r = Done (w', out, prod, len) ->
  P w'.
Proof.
  intros Hd HP H. unfold compound_sub, fail in H. walk; subst; cbn [fst]; [done|].
  match goal with |- P (fst ?wr) => destruct wr end. by eapply Hd.
Qed.

Lemma compound_loop_keeps dispatch_rec fuel body p out_p produced w r w' r' :
  keeps dispatch_rec -> P w ->
  compound_loop dispatch_rec fuel body p out_p produced w r = Done (w', r') ->
  P w'.
Proof.
  intros Hd. revert p out_p produced w r. induction fuel as [|fuel IH]; intros p out_p produced w r HP H.
  - simpl in H. walk; by subst.
  - cbn [compound_loop] in H. unfold fail in H. walk; subst; try done.
    eapply IH; [|eassumption]. eapply compound_sub_keeps; eassumption.
Qed.

Lemma handle_compound_keeps dispatch_rec : keeps dispatch_rec -> keeps (handle_compound dispatch_rec).
Proof.
  intros Hd h body w r w' r' HP H. unfold handle_compound, fail in H. walk; subst; try done.
  by eapply compound_loop_keeps.
Qed.

Lemma switch_keeps cases :
  Forall (fun c => keeps (snd c)) cases ->
  forall h body w r w' r', P w -> switch cases h h body w r = Done (w', r') -> P w'.
Proof.
  induction 1 as [|[o hd] cases Hhd _ IH]; intros h body w r w' r' HP H; simpl in H.
  - unfold fail in H. walk; by subst.
  - destruct (opcode_is h o); [by eapply Hhd|by eapply IH].
Qed.

Lemma dispatch_depth_keeps depth : keeps (dispatch_depth fs depth).
Proof.
  induction depth as [|depth IH]; intros h body w r w' r' HP H; [discriminate|].
  refine (switch_keeps _ _ h body w r w' r' HP H). apply List.Forall_forall. intros [o hd] Hin.
  destruct (decide (o = FUSE_COMPOUND)) as [->|Ho].
  - simpl in Hin. repeat match type of Hin with
    | _ \/ _ => destruct Hin as [Heq|Hin]; [try discriminate Heq|]
    end; [|done]. injection Heq as <-. by apply handle_compound_keeps.
  - by eapply simple_handlers_keep.
Qed.

(** Every request keeps what every callback and the mark of INIT keep. *)
Lemma dispatch_keeps : keeps (dispatch fs).
Proof. apply dispatch_depth_keeps. Qed.
End Keeps.
