(* ===== verification/Request.v ===== *)
(** * The protocol, and the dispatcher as its implementation

    [request] is what the kernel asks for, [wire] the bytes it sends for it and
    [serve] what the daemon interface promises: which callback runs, with which
    arguments, and what the answer is made of. The theorem is a refinement: on
    the bytes of a request, [dispatch] does to the state what [serve] does and
    leaves the answer of [serve] in the reply buffer. The second half covers the
    bodies that are no request: cut short, or with a name that never ends. *)

From S2P Require Import Prelude Memory Pod Abi Types DirentWriter Filesystem Replier Handlers.
From S2P Require Import HandlerSafety.

(** ** Requests *)

Inductive request :=
| ReqInit (i : fuse_init_in)
| ReqLookupRoot
| ReqLookupx (name : bytes)
| ReqForget (nlookup : Z)
| ReqBatchForget (items : list (NodeId * Z))
| ReqStatx (i : fuse_statx_in)
| ReqSetstatx (fh : FileHandle) (st : fuse_statx)
| ReqMkobjx (flags : Z) (st : fuse_statx) (name target : bytes)
| ReqUnlink (name : bytes)
| ReqRmdir (name : bytes)
| ReqRename (oldname : bytes) (newdir : NodeId) (newname : bytes) (flags : Z)
| ReqLink (oldnode : NodeId) (name : bytes)
| ReqOpen (flags : Z)
| ReqRelease (fh : FileHandle) (flags : Z)
| ReqRead (fh : FileHandle) (offset size : Z)
| ReqWrite (fh : FileHandle) (offset : Z) (data : bytes)
| ReqReadlink
| ReqStatfs
| ReqFallocate (fh : FileHandle) (mode offset length : Z)
| ReqOpendir
| ReqReleasedir (fh : FileHandle)
| ReqReaddir (fh : FileHandle) (offset size : Z)
| ReqGetxattr (name : bytes) (size : Z)
| ReqSetxattr (name value : bytes) (flags : Z)
| ReqListxattr (size : Z)
| ReqRemovexattr (name : bytes).

Definition request_opcode (q : request) : fuse_opcode :=
  match q with
  | ReqInit _ => FUSE_INIT
  | ReqLookupRoot => FUSE_LOOKUP_ROOT
  | ReqLookupx _ => FUSE_LOOKUPX
  | ReqForget _ => FUSE_FORGET
  | ReqBatchForget _ => FUSE_BATCH_FORGET
  | ReqStatx _ => FUSE_STATX
  | ReqSetstatx _ _ => FUSE_SETSTATX
  | ReqMkobjx _ _ _ _ => FUSE_MKOBJX
  | ReqUnlink _ => FUSE_UNLINK
  | ReqRmdir _ => FUSE_RMDIR
  | ReqRename _ _ _ _ => FUSE_RENAME2
  | ReqLink _ _ => FUSE_LINK
  | ReqOpen _ => FUSE_OPEN
  | ReqRelease _ _ => FUSE_RELEASE
  | ReqRead _ _ _ => FUSE_READ
  | ReqWrite _ _ _ => FUSE_WRITE
  | ReqReadlink => FUSE_READLINK
  | ReqStatfs => FUSE_STATFS
  | ReqFallocate _ _ _ _ => FUSE_FALLOCATE
  | ReqOpendir => FUSE_OPENDIR
  | ReqReleasedir _ => FUSE_RELEASEDIR
  | ReqReaddir _ _ _ => FUSE_READDIR
  | ReqGetxattr _ _ => FUSE_GETXATTR
  | ReqSetxattr _ _ _ => FUSE_SETXATTR
  | ReqListxattr _ => FUSE_LISTXATTR
  | ReqRemovexattr _ => FUSE_REMOVEXATTR
  end.

(** ** The bytes of a request: the argument structs and strings one after the
    other, as the layout comments of the handlers give them. *)

Definition cstring (s : bytes) : bytes := s ++ [Byte.x00].

Definition is_symlink (st : fuse_statx) : bool := Z.land (statx_mode st) S_IFMT =? S_IFLNK.

Definition read_arg (fh offset size : Z) : fuse_read_in := {|
  read_in_fh := fh; read_in_offset := offset; read_in_size := size; read_in_read_flags := 0;
  read_in_lock_owner := 0; read_in_flags := 0; read_in_padding := 0 |}.

Definition write_arg (fh offset size : Z) : fuse_write_in := {|
  write_in_fh := fh; write_in_offset := offset; write_in_size := size;
  write_in_write_flags := 0; write_in_lock_owner := 0; write_in_flags := 0;
  write_in_padding := 0 |}.

Definition release_arg (fh flags : Z) : fuse_release_in := {|
  release_in_fh := fh; release_in_flags := flags; release_in_release_flags := 0;
  release_in_lock_owner := 0 |}.

Definition getxattr_arg (size : Z) : fuse_getxattr_in := {|
  getxattr_in_size := size; getxattr_in_padding := 0 |}.

Definition setxattr_arg (size flags : Z) : fuse_setxattr_in := {|
  setxattr_in_size := size; setxattr_in_flags := flags; setxattr_in_setxattr_flags := 0;
  setxattr_in_padding := 0 |}.

Definition mkobjx_arg (namesize flags : Z) (st : fuse_statx) : fuse_mkobjx_in := {|
  mkobjx_in_namesize := namesize; mkobjx_in_flags := flags; mkobjx_in_spare0 := 0;
  mkobjx_in_spare1 := 0; mkobjx_in_spare2 := 0; mkobjx_in_spare3 := 0; mkobjx_in_spare4 := 0;
  mkobjx_in_spare5 := 0; mkobjx_in_spare6 := 0; mkobjx_in_stat := st |}.

Definition setstatx_arg (fh : Z) (st : fuse_statx) : fuse_setstatx_in := {|
  setstatx_in_fh := fh; setstatx_in_flags := 0; setstatx_in_reserved := 0;
  setstatx_in_stat := st |}.

Definition forget_one_arg (item : NodeId * Z) : fuse_forget_one := {|
  forget_one_nodeid := fst item; forget_one_nlookup := snd item |}.

Definition wire (q : request) : bytes :=
  match q with
  | ReqInit i => encode i
  | ReqLookupx name | ReqUnlink name | ReqRmdir name | ReqRemovexattr name => cstring name
  | ReqForget nlookup => encode {| forget_in_nlookup := nlookup |}
  | ReqBatchForget items =>
      encode {| batch_forget_in_count := zlen items; batch_forget_in_dummy := 0 |}
      ++ concat (map (fun item => encode (forget_one_arg item)) items)
  | ReqStatx i => encode i
  | ReqSetstatx fh st => encode (setstatx_arg fh st)
  | ReqMkobjx flags st name target =>
      encode (mkobjx_arg (zlen name + 1) flags st) ++ cstring name
      ++ (if is_symlink st then cstring target else [])
  | ReqRename oldname newdir newname flags =>
      encode {| rename2_in_newdir := newdir; rename2_in_flags := flags; rename2_in_padding := 0 |}
      ++ cstring oldname ++ cstring newname
  | ReqLink oldnode name => encode {| link_in_oldnodeid := oldnode |} ++ cstring name
  | ReqOpen flags => encode {| open_in_flags := flags; open_in_open_flags := 0 |}
  | ReqRelease fh flags => encode (release_arg fh flags)
  | ReqReleasedir fh => encode (release_arg fh 0)
  | ReqRead fh offset size | ReqReaddir fh offset size => encode (read_arg fh offset size)
  | ReqWrite fh offset data => encode (write_arg fh offset (zlen data)) ++ data
  | ReqFallocate fh mode offset length =>
      encode {| fallocate_in_fh := fh; fallocate_in_offset := offset;
                fallocate_in_length := length; fallocate_in_mode := mode;
                fallocate_in_padding := 0 |}
  | ReqGetxattr name size => encode (getxattr_arg size) ++ cstring name
  | ReqSetxattr name value flags =>
      encode (setxattr_arg (zlen value) flags) ++ cstring name ++ value
  | ReqListxattr size => encode (getxattr_arg size)
  | ReqLookupRoot | ReqReadlink | ReqStatfs | ReqOpendir => []
  end.

(** The values the kernel can put in a request: integers of their type, names
    without a NUL, a link target for a symlink only. *)
Definition request_wf (q : request) : Prop :=
  match q with
  | ReqInit i => in_range i
  | ReqLookupRoot | ReqReadlink | ReqStatfs | ReqOpendir => True
  | ReqLookupx name | ReqUnlink name | ReqRmdir name | ReqRemovexattr name => no_nul name
  | ReqForget nlookup => fits U64 nlookup
  | ReqBatchForget items =>
      zlen items < 2 ^ 32 /\ Forall (fun item => in_range (forget_one_arg item)) items
  | ReqStatx i => in_range i
  | ReqSetstatx fh st => fits U64 fh /\ in_range st
  | ReqMkobjx flags st name target =>
      fits U32 flags /\ in_range st /\ zlen name + 1 < 2 ^ 32 /\ no_nul target /\
      (is_symlink st = false -> target = [])
  | ReqRename oldname newdir newname flags =>
      no_nul oldname /\ fits U64 newdir /\ no_nul newname /\ fits U32 flags
  | ReqLink oldnode name => fits U64 oldnode /\ no_nul name
  | ReqOpen flags => fits U32 flags
  | ReqRelease fh flags => fits U64 fh /\ fits U32 flags
  | ReqReleasedir fh => fits U64 fh
  | ReqRead fh offset size | ReqReaddir fh offset size =>
      fits U64 fh /\ fits U64 offset /\ fits U32 size
  | ReqWrite fh offset data => fits U64 fh /\ fits U64 offset /\ zlen data < 2 ^ 32
  | ReqFallocate fh mode offset length =>
      fits U64 fh /\ fits U32 mode /\ fits U64 offset /\ fits U64 length
  | ReqGetxattr name size => no_nul name /\ fits U32 size
  | ReqSetxattr name value flags => no_nul name /\ zlen value < 2 ^ 32 /\ fits U32 flags
  | ReqListxattr size => fits U32 size
  end.

(** The opcodes whose handler skips the extensions before its arguments. *)
Definition skips_extensions (q : request) : bool :=
  match q with
  | ReqLookupx _ | ReqUnlink _ | ReqRmdir _ | ReqBatchForget _ | ReqSetstatx _ _
  | ReqMkobjx _ _ _ _ => false
  | _ => true
  end.

(** ** Answers *)

Inductive answer :=
| Refused (e : Errc)
| Replied (payload : bytes).

Definition answer_with {A} (f : A -> bytes) (rv : expected A) : answer :=
  match rv with
  | Value a => Replied (f a)
  | Unexpected e => Refused e
  end.

Definition answer_void : expected unit -> answer := answer_with (fun _ => []).
Definition answer_entry : expected EntryOut -> answer :=
  answer_with (fun e => encode (pack_entryx e (entryx_flags e))).
Definition answer_statx : expected StatxOut -> answer :=
  answer_with (fun st => encode (pack_statx st (seconds 1))).
Definition answer_open (forced : Z) : expected OpenOut -> answer :=
  answer_with (fun o => encode {| open_out_fh := oo_fh o;
    open_out_open_flags := Z.lor (oo_open_flags o) forced; open_out_backing_id := 0 |}).

(** The first [size] bytes of the reply buffer, or all of it. *)
Definition span_of (size : Z) (out : bytes) : bytes :=
  take (Z.to_nat (Z.min size (zlen out))) out.

(** What a callback left of a span, when it reports [n] bytes. *)
Definition answer_span (span : bytes) (rv : expected Z) : answer :=
  answer_with (fun n => take (Z.to_nat (Z.min n (zlen span))) span) rv.

Definition mkobjx_request (flags : Z) (st : fuse_statx) (name target : bytes) : MkobjxIn := {|
  mi_stat := mkobjx_stat st; mi_flags := flags; mi_name := name; mi_link_target := target |}.

Section Serve.
Context {S : Type} (fs : Filesystem S).

(** Lifts a callback to the state of the session. *)
Definition calling {A} (f : S -> A * S) (k : A -> answer) (w : world S) : world S * answer :=
  let '(a, s) := f (w_fs w) in (set_fs w s, k a).

Definition calling_span (f : S -> expected Z * bytes * S) (w : world S) : world S * answer :=
  let '(rv, span, s) := f (w_fs w) in (set_fs w s, answer_span span rv).

Definition serve_init (i : fuse_init_in) (w : world S) : world S * answer :=
  if Z.testbit (init_in_flags2 i) 9 then
    let '(rc, info, s) := fs_init fs (init_offer (impl_opts (w_impl w)) i) (w_fs w) in
    match rc with
    | Unexpected e => (set_fs w s, Refused e)
    | Value _ =>
        if ii_kernel_major info =? FUSE_KERNEL_VERSION
        then ({| w_impl := set_init_done (w_impl w); w_fs := s |},
              Replied (encode (init_reply i info)))
        else (set_fs w s, Replied (encode init_out_version))
    end
  else (w, Refused EOPNOTSUPP).

(** A size of zero asks for the length of the value. *)
Definition serve_xattr (size : Z) (f : bytes -> S -> expected Z * bytes * S) (out : bytes)
    (w : world S) : world S * answer :=
  if size =? 0 then
    calling (fun s => let '(rv, _, s) := f [] s in (rv, s))
      (answer_with (fun n => encode {| getxattr_out_size := cast U32 n;
                                       getxattr_out_padding := 0 |})) w
  else calling_span (f (span_of size out)) w.

(** [out] is the reply buffer, which READ, READDIR and the xattr calls fill in
    place. *)
Definition serve (h : fuse_in_header) (q : request) (out : bytes) (w : world S) :
    world S * answer :=
  let ctx := make_ctx h in
  let node := in_header_nodeid h in
  match q with
  | ReqInit i => serve_init i w
  | ReqLookupRoot => calling (fs_lookup_root fs ctx) answer_entry w
  | ReqLookupx name => calling (fs_lookupx fs ctx node name) answer_entry w
  | ReqForget nlookup => (set_fs w (fs_forget fs node nlookup (w_fs w)), Replied [])
  | ReqBatchForget items => (set_fs w (fs_forget_multi fs items (w_fs w)), Replied [])
  | ReqStatx _ => calling (fs_statx fs ctx node) answer_statx w
  | ReqSetstatx fh st => calling (fs_setstatx fs ctx node fh (unpack_statx st)) answer_statx w
  | ReqMkobjx flags st name target =>
      calling (fs_mkobjx fs ctx node (mkobjx_request flags st name target))
        (answer_with (fun e => encode (pack_entryx e 0))) w
  | ReqUnlink name => calling (fs_unlink fs ctx node name) answer_void w
  | ReqRmdir name => calling (fs_rmdir fs ctx node name) answer_void w
  | ReqRename oldname newdir newname flags =>
      calling (fs_rename fs ctx node oldname newdir newname flags) answer_void w
  | ReqLink oldnode name => calling (fs_link fs ctx oldnode node name) answer_void w
  | ReqOpen flags => calling (fs_open fs ctx node flags) (answer_open 0) w
  | ReqRelease fh flags => calling (fs_release fs ctx node fh flags) answer_void w
  | ReqRead fh offset size =>
      calling_span (fs_read fs ctx node fh offset (span_of size out)) w
  | ReqWrite fh offset data =>
      calling (fs_write fs ctx node fh offset data)
        (answer_with (fun n => encode {| write_out_size := cast U32 n;
                                         write_out_padding := 0 |})) w
  | ReqReadlink => calling (fs_readlink fs ctx node) (answer_with id) w
  | ReqStatfs => calling (fs_statfs fs ctx node) (answer_with (fun o => encode (pack_statfs o))) w
  | ReqFallocate fh mode offset length =>
      calling (fs_fallocate fs ctx node fh mode offset length) answer_void w
  | ReqOpendir => calling (fs_opendir fs ctx node) (answer_open FOPEN_CACHE_DIR) w
  | ReqReleasedir fh => calling (fs_releasedir fs ctx node fh) answer_void w
  | ReqReaddir fh offset size =>
      let '(rv, dw, s) := fs_readdir fs ctx node fh offset
                            (DirentWriter_make (span_of size out)) (w_fs w) in
      (set_fs w s, answer_with (fun _ => take (Z.to_nat (bytes_written dw)) (dw_buf dw)) rv)
  | ReqGetxattr name size => serve_xattr size (fs_getxattr fs ctx node name) out w
  | ReqSetxattr name value flags =>
      calling (fs_setxattr fs ctx node name value flags) answer_void w
  | ReqListxattr size => serve_xattr size (fs_listxattr fs ctx node) out w
  | ReqRemovexattr name => calling (fs_removexattr fs ctx node name) answer_void w
  end.
End Serve.

(** The reply buffer carries the answer; a payload that does not fit the
    capacity turns into EIO. *)
Definition delivered (r r' : Replier) (a : answer) : Prop :=
  r_cap r' = r_cap r /\ r_unique r' = r_unique r /\ zlen (r_out r') = zlen (r_out r) /\
  match a with
  | Refused e => r_neg_err r' = neg_errno e /\ r_len r' = 0
  | Replied p =>
      if r_cap r <? zlen p then r_neg_err r' = neg_errno EIO /\ r_len r' = 0
      else r_neg_err r' = 0 /\ r_len r' = zlen p /\
           take (Z.to_nat (r_len r')) (r_out r') = p
  end.

Definition delivers {S} (r : Replier) (o : outcome (world S * Replier))
    (wa : world S * answer) : Prop :=
  exists r', o = Done (fst wa, r') /\ delivered r r' (snd wa).

(** ** Lemmas on replies *)

Section Delivers.
Context {S : Type}.
Implicit Types (w : world S) (r : Replier).

Lemma delivers_fail r w e : delivers r (fail w r e) (w, Refused e).
Proof. exists (reply_error r e). by split_and!. Qed.

Lemma delivers_ok r w : replier_ok r -> delivers r (Done (w, reply_ok r)) (w, Replied []).
Proof.
  intros Hr%replier_cap_nonneg. exists (reply_ok r). do 4 (split; [done|]). simpl.
  case_if; [zl|done].
Qed.

Lemma delivers_payload r w p :
  replier_ok r -> delivers r (finish w (reply_payload r p)) (w, Replied p).
Proof.
  intros Hr. unfold finish. rewrite reply_payload_spec by done. destruct Hr as [Hz Hc].
  case_if; (eexists; split; [reflexivity|]); unfold delivered; simpl.
  - by rewrite E.
  - rewrite E, zlen_splice by lia. split_and!; try done.
    rewrite <- (Z.add_0_l (zlen p)) at 1. rewrite take_splice by lia. done.
Qed.

Lemma delivers_pod {T} `{Pod T} r w (x : T) :
  replier_ok r -> delivers r (finish w (reply_pod r x)) (w, Replied (encode x)).
Proof. apply delivers_payload. Qed.

Lemma delivers_void r w rv :
  replier_ok r -> delivers r (reply_void w r rv) (w, answer_void rv).
Proof. intros. destruct rv; [by apply delivers_ok | apply delivers_fail]. Qed.

Lemma delivers_statx r w rv :
  replier_ok r -> delivers r (reply_statx w r rv) (w, answer_statx rv).
Proof. intros. destruct rv; [by apply delivers_pod | apply delivers_fail]. Qed.

Lemma zlen_span_of size out :
  0 <= size -> zlen (span_of size out) = Z.min size (zlen out).
Proof. intros. unfold span_of. zl. Qed.

Lemma slice_span_of size r :
  replier_ok r -> 0 <= size ->
  slice (r_out r) 0 (Z.min size (r_cap r)) = Done (span_of size (r_out r)).
Proof.
  intros [Hz _] Hs. pose proof (zlen_nonneg (r_out r)). rewrite slice_Done by lia.
  unfold span_of, sub_bytes. by rewrite Hz.
Qed.

(** A span at the head of the reply buffer, of which [n] bytes are reported. *)
Lemma delivers_head r w span n :
  replier_ok r -> zlen span <= r_cap r -> 0 <= n <= zlen span ->
  delivers r (let* out := store (r_out r) 0 span in Done (w, with_reply (with_out r out) 0 n))
    (w, Replied (take (Z.to_nat n) span)).
Proof.
  intros [Hz Hc] Hs Hn. rewrite store_Done by lia. simpl. eexists. split; [reflexivity|].
  unfold delivered. simpl. rewrite zlen_splice by lia. case_if; [zl|]. do 4 (split; [done|]).
  split; [zl|]. unfold splice. simpl. rewrite take_app_le; [done|].
  unfold zlen in *. lia.
Qed.

Lemma delivers_error_after r w span e :
  replier_ok r -> zlen span <= r_cap r ->
  delivers r (let* out := store (r_out r) 0 span in fail w (with_out r out) e) (w, Refused e).
Proof.
  intros [Hz Hc] Hs. rewrite store_Done by lia. simpl. eexists. split; [reflexivity|].
  unfold delivered. simpl. by rewrite zlen_splice by lia.
Qed.

Lemma delivers_span r w span cap rv :
  replier_ok r -> zlen span = cap -> cap <= r_cap r -> (forall n, rv = Value n -> 0 <= n) ->
  delivers r (let* out := store (r_out r) 0 span in
              match rv with
              | Value n => Done (w, with_reply (with_out r out) 0 (Z.min n cap))
              | Unexpected e => fail w (with_out r out) e
              end) (w, answer_span span rv).
Proof.
  intros Hr <- Hc Hn. pose_zlen. destruct rv as [n|e].
  - specialize (Hn n eq_refl). apply delivers_head; [done..|lia].
  - by apply delivers_error_after.
Qed.
End Delivers.

(** ** Lemmas on the wire *)

Lemma zlen_cstring s : zlen (cstring s) = zlen s + 1.
Proof. unfold cstring. zl. Qed.

#[export] Hint Rewrite zlen_cstring : zlen.

(** A C string found by a scan of the rest of the body. *)
Lemma strnlen_cstring pre s rest off n :
  no_nul s -> off = zlen pre -> n = zlen (cstring s ++ rest) ->
  strnlen (pre ++ cstring s ++ rest) off n = Done (zlen s).
Proof.
  intros Hs -> ->. unfold cstring. rewrite <- app_assoc. apply strnlen_string; [done..|zl].
Qed.

Lemma slice_cstring pre s rest off n :
  off = zlen pre -> n = zlen s -> slice (pre ++ cstring s ++ rest) off n = Done s.
Proof. intros. unfold cstring. rewrite <- app_assoc. by apply slice_mid. Qed.

Lemma in_arg_encode_last T `{Pod T} h (x : T) ext :
  in_range x -> ext_bytes h = zlen ext -> in_arg T h (ext ++ encode x) = Done (Some x).
Proof. intros. rewrite <- (app_nil_r (encode x)). by apply in_arg_encode. Qed.

Lemma enc_fields_app ts1 ts2 vs1 vs2 :
  length ts1 = length vs1 ->
  enc_fields (ts1 ++ ts2) (vs1 ++ vs2) = enc_fields ts1 vs1 ++ enc_fields ts2 vs2.
Proof.
  revert vs1. induction ts1 as [|t ts1 IH]; intros [|v vs1] Hl; try discriminate; [done|].
  simpl. rewrite IH by (simpl in Hl; lia). by rewrite app_assoc.
Qed.

(** The embedded [stat] ends the two structs that have one. *)
Lemma encode_setstatx i :
  exists hdr, encode i = hdr ++ encode (setstatx_in_stat i) /\ zlen hdr = setstatx_stat_off.
Proof.
  eexists. split; [apply (enc_fields_app [U64; U32; U32]); reflexivity|].
  unfold zlen. by rewrite length_enc_fields.
Qed.

Lemma encode_mkobjx i :
  exists hdr, encode i = hdr ++ encode (mkobjx_in_stat i) /\ zlen hdr = mkobjx_stat_off.
Proof.
  eexists. split; [apply (enc_fields_app (U32 :: U32 :: replicate 7 U64)); reflexivity|].
  unfold zlen. by rewrite length_enc_fields.
Qed.

Lemma in_range_app ts1 ts2 vs1 vs2 :
  Forall2 fits ts1 vs1 -> Forall2 fits ts2 vs2 -> Forall2 fits (ts1 ++ ts2) (vs1 ++ vs2).
Proof. apply Forall2_app. Qed.

Lemma setstatx_arg_range fh st : fits U64 fh -> in_range st -> in_range (setstatx_arg fh st).
Proof.
  intros. apply in_range_app; [|done]. simpl.
  repeat (apply Forall2_cons_2; [fits_lia|]). apply Forall2_nil_2.
Qed.

Lemma mkobjx_arg_range n flags st :
  fits U32 n -> fits U32 flags -> in_range st -> in_range (mkobjx_arg n flags st).
Proof.
  intros. apply in_range_app; [|done]. simpl.
  repeat (apply Forall2_cons_2; [fits_lia|]). apply Forall2_nil_2.
Qed.

Lemma load_forget_items_wire items pre off :
  Forall (fun item => in_range (forget_one_arg item)) items -> off = zlen pre ->
  load_forget_items (length items)
    (pre ++ concat (map (fun item => encode (forget_one_arg item)) items)) off = Done items.
Proof.
  intros Hi. revert pre off. induction Hi as [|item items Hit Hi IH]; intros pre off Ho; [done|].
  cbn [length load_forget_items map concat]. rewrite load_encode by done. cbn [obind].
  rewrite app_assoc, IH; [by destruct item|zl].
Qed.

(** The flag that offers io_uring is bit 9 of [flags2]. *)
Lemma init_over_io_uring i :
  in_range i ->
  (Z.land (init_in_kernel_flags i) FUSE_OVER_IO_URING =? 0) = negb (Z.testbit (init_in_flags2 i) 9).
Proof.
  intros Hi. range_fields Hi. unfold init_in_kernel_flags, FUSE_OVER_IO_URING.
  assert (Hfl : 0 <= init_in_flags i < 2 ^ 32) by fits_lia.
  assert (Hb : Z.testbit (Z.lor (init_in_flags i) (Z.shiftl (init_in_flags2 i) 32)) 41 =
               Z.testbit (init_in_flags2 i) 9).
  { rewrite Z.lor_spec, Z.shiftl_spec by lia. change (41 - 32) with 9.
    destruct (Z.eq_dec (init_in_flags i) 0) as [->|]; [done|].
    rewrite Z.bits_above_log2; [done|lia|]. apply Z.log2_lt_pow2; lia. }
  rewrite <- Hb. generalize (Z.lor (init_in_flags i) (Z.shiftl (init_in_flags2 i) 32)). intros x.
  apply Z.b2z_inj. destruct (Z.testbit x 41) eqn:E; simpl.
  - case_eq (Z.land x (Z.shiftl 1 41) =? 0); [|done]. intros Hz%Z.eqb_eq.
    apply (f_equal (fun y => Z.testbit y 41)) in Hz. rewrite Z.land_spec, E in Hz. done.
  - replace (Z.land x (Z.shiftl 1 41)) with 0; [done|]. symmetry. apply Z.bits_inj'. intros n Hn.
    rewrite Z.land_spec, Z.bits_0, Z.shiftl_spec by done.
    destruct (Z.eq_dec n 41) as [->|]; [by rewrite E|].
    destruct (Z.ltb_spec (n - 41) 0); [by rewrite (Z.testbit_neg_r 1), andb_false_r by lia|].
    rewrite (Z.bits_above_log2 1), andb_false_r; [done|lia|simpl; lia].
Qed.

(** ** Handlers *)

Section Refinement.
Context {S : Type} (fs : Filesystem S) `{!LawfulFs fs}.

Definition refines (q : request) (hd : handler S) : Prop :=
  forall h ext w r,
    replier_ok r -> ext_bytes h = zlen ext -> (skips_extensions q = true \/ ext = []) ->
    zlen (ext ++ wire q) < 2 ^ 63 -> request_wf q ->
    delivers r (hd h (ext ++ wire q) w r) (serve fs h q (r_out r) w).

Ltac start := intros h ext w r Hr He Hext Hlen Hwf; pose proof (replier_cap_nonneg r Hr);
  cbn [wire request_wf serve] in *.

(** The argument struct of a well-formed request is in range. *)
Ltac arg_range := split_in_range; first [by intuition | fits_lia | pose_zlen; fits_lia].

(** [in_arg] on a body that is the extensions and the argument. *)
Ltac parse_arg := rewrite in_arg_encode_last by (first [done | arg_range]); cbn [obind].

(** One call of the daemon: split its result. *)
Ltac call_fs :=
  unfold calling, calling_span;
  lazymatch goal with
  | |- delivers _ (let '(_, _) := ?c in _) (let '(_, _) := ?c' in _) =>
      change c' with c; destruct c as [? ?] eqn:?
  end.

Ltac answer :=
  lazymatch goal with
  | |- delivers _ (reply_void _ _ _) _ => by apply delivers_void
  | |- delivers _ (reply_statx _ _ _) _ => by apply delivers_statx
  | |- delivers _ (match ?e with Value _ => _ | Unexpected _ => _ end) _ =>
      destruct e; [first [by apply delivers_pod | by apply delivers_payload] | apply delivers_fail]
  end.

Lemma lookup_root_refines : refines ReqLookupRoot (handle_lookup_root fs).
Proof. start. unfold handle_lookup_root. call_fs. answer. Qed.

Lemma readlink_refines : refines ReqReadlink (handle_readlink fs).
Proof. start. unfold handle_readlink. call_fs. answer. Qed.

Lemma statfs_refines : refines ReqStatfs (handle_statfs fs).
Proof. start. unfold handle_statfs. call_fs. answer. Qed.

Lemma opendir_refines : refines ReqOpendir (handle_opendir fs).
Proof. start. unfold handle_opendir. call_fs. answer. Qed.

Lemma statx_refines i : refines (ReqStatx i) (handle_statx fs).
Proof. start. unfold handle_statx. parse_arg. call_fs. answer. Qed.

Lemma forget_refines n : refines (ReqForget n) (handle_forget fs).
Proof. start. unfold handle_forget. parse_arg. by apply delivers_ok. Qed.

Lemma open_refines flags : refines (ReqOpen flags) (handle_open fs).
Proof.
  start. unfold handle_open. parse_arg. call_fs.
  destruct e as [o|e]; [|apply delivers_fail].
  unfold answer_open, answer_with. rewrite Z.lor_0_r. by apply delivers_pod.
Qed.

Lemma release_refines fh flags : refines (ReqRelease fh flags) (handle_release fs).
Proof. start. unfold handle_release. parse_arg. call_fs. answer. Qed.

Lemma releasedir_refines fh : refines (ReqReleasedir fh) (handle_releasedir fs).
Proof. start. unfold handle_releasedir. parse_arg. call_fs. answer. Qed.

Lemma fallocate_refines fh mode off len :
  refines (ReqFallocate fh mode off len) (handle_fallocate fs).
Proof. start. unfold handle_fallocate. parse_arg. call_fs. answer. Qed.

Lemma init_refines i : refines (ReqInit i) (handle_init fs).
Proof.
  start. unfold handle_init, serve_init. parse_arg. rewrite init_over_io_uring by done.
  destruct (Z.testbit (init_in_flags2 i) 9); cbn [negb]; [|apply delivers_fail].
  destruct (fs_init _ _ _) as [[rc info] s]. destruct rc as [u|e]; [|apply delivers_fail].
  case_if; case_if; try lia; by apply delivers_pod.
Qed.

(** The extensions are empty where the handler does not skip them. *)
Ltac no_ext :=
  match goal with
  | H : skips_extensions _ = true \/ _ = [] |- _ =>
      destruct H as [?| ->]; [discriminate|]
  end.

Lemma slice_name name n : n = zlen name -> slice (cstring name) 0 n = Done name.
Proof. intros. rewrite <- (app_nil_r (cstring name)). by apply (slice_cstring []). Qed.

Lemma strnlen_name name : no_nul name -> strnlen (cstring name) 0 (zlen (cstring name)) = Done (zlen name).
Proof.
  intros. rewrite <- (app_nil_r (cstring name)) at 1.
  apply (strnlen_cstring []); [done..|by rewrite app_nil_r].
Qed.

Lemma lookupx_refines name : refines (ReqLookupx name) (handle_lookupx fs).
Proof.
  start. no_ext. cbn [app] in *. unfold handle_lookupx. case_if; [zl|].
  rewrite strnlen_name by done. cbn [obind]. case_if; [zl|].
  rewrite slice_name by done. cbn [obind]. call_fs. answer.
Qed.

Lemma unlink_refines name : refines (ReqUnlink name) (handle_unlink fs false).
Proof.
  start. no_ext. cbn [app] in *. unfold handle_unlink. case_if; [zl|].
  rewrite strnlen_name by done. cbn [obind]. case_if; [zl|].
  rewrite slice_name by done. cbn [obind]. call_fs. answer.
Qed.

Lemma rmdir_refines name : refines (ReqRmdir name) (handle_unlink fs true).
Proof.
  start. no_ext. cbn [app] in *. unfold handle_unlink. case_if; [zl|].
  rewrite strnlen_name by done. cbn [obind]. case_if; [zl|].
  rewrite slice_name by done. cbn [obind]. call_fs. answer.
Qed.

Lemma removexattr_refines name : refines (ReqRemovexattr name) (handle_removexattr fs).
Proof.
  start. unfold handle_removexattr. rewrite <- (app_nil_r (cstring name)).
  rewrite He, wrapu_small by zl.
  replace (zlen (ext ++ cstring name ++ []) - zlen ext) with (zlen (cstring name ++ [])) by zl.
  rewrite strnlen_cstring by done. cbn [obind]. case_if; [zl|].
  rewrite slice_cstring by done. cbn [obind]. call_fs. answer.
Qed.


Lemma xattr_refines size f (w : world S) r :
  replier_ok r -> 0 <= size ->
  (forall out s rv out' s', f out s = (rv, out', s') -> zlen out' = zlen out) ->
  (forall out s n out' s', f out s = (Value n, out', s') -> 0 <= n) ->
  delivers r (xattr_reply size f w r) (serve_xattr size f (r_out r) w).
Proof.
  intros Hr Hs Hspan Hcount. unfold xattr_reply, serve_xattr. case_if.
  - unfold calling. destruct (f [] (w_fs w)) as [[rv ?] s]. answer.
  - rewrite slice_span_of by done. cbn [obind]. unfold calling_span.
    destruct (f (span_of size (r_out r)) (w_fs w)) as [[rv span'] s] eqn:Ef.
    pose proof (Hspan _ _ _ _ _ Ef) as Hz. rewrite zlen_span_of in Hz by done.
    destruct Hr as [Hzr ?]. apply delivers_span; [done|lia..|].
    intros n ->. by eapply Hcount.
Qed.

Lemma listxattr_refines size : refines (ReqListxattr size) (handle_listxattr fs).
Proof.
  start. unfold handle_listxattr. parse_arg. apply xattr_refines; [done|fits_lia|..].
  - intros *. apply listxattr_span.
  - intros *. apply listxattr_count.
Qed.

Lemma read_refines fh off size : refines (ReqRead fh off size) (handle_read fs).
Proof.
  start. destruct Hwf as (? & ? & ?). unfold handle_read. parse_arg. change (read_in_size (read_arg fh off size)) with size.
  rewrite slice_span_of by (first [done | fits_lia]). cbn [obind].
  call_fs. destruct p as [rv span].
  pose proof (read_span _ _ _ _ _ _ _ _ _ Heqp) as Hz. rewrite zlen_span_of in Hz by fits_lia.
  destruct Hr as [Hzr ?]. apply delivers_span; [done|simpl; lia..|].
  intros n ->. by eapply read_count.
Qed.

Lemma readdir_refines fh off size : refines (ReqReaddir fh off size) (handle_readdir fs).
Proof.
  start. destruct Hwf as (? & ? & ?). unfold handle_readdir. parse_arg. change (read_in_size (read_arg fh off size)) with size.
  rewrite slice_span_of by (first [done | fits_lia]). cbn [obind].
  call_fs. destruct p as [rv dw]. destruct (readdir_adds _ _ _ _ _ _ _ _ _ Heqp) as [es Ha].
  pose proof Hr as [Hzr Hc]. assert (Hs := zlen_span_of size (r_out r)).
  apply adds_prefix in Ha as ((Hp & _ & _) & Hz & _).
  2: { unfold dw_ok. simpl. rewrite Hs by fits_lia. split_and!; [lia|fits_lia|done|lia]. }
  simpl in Hz. rewrite Hs in Hz by fits_lia. unfold bytes_written.
  destruct rv; [apply delivers_head | apply delivers_error_after]; first [done | lia].
Qed.

(** The argument struct that a length test has shown to be in the body. *)
Ltac parse_load := rewrite load_encode by (first [done | arg_range]); cbn [obind].
Ltac passed := case_if; [exfalso; zls|].

Lemma link_refines old name : refines (ReqLink old name) (handle_link fs).
Proof.
  start. destruct Hwf as [? ?]. unfold handle_link. rewrite He. passed. parse_load.
  rewrite app_assoc, <- (app_nil_r (cstring name)).
  rewrite strnlen_cstring by (first [done | zl]). cbn [obind]. passed.
  rewrite slice_cstring by (first [done | zl]). cbn [obind]. call_fs. answer.
Qed.

Lemma write_refines fh off data : refines (ReqWrite fh off data) (handle_write fs).
Proof.
  start. destruct Hwf as (? & ? & ?). unfold handle_write. rewrite He. passed. parse_load.
  change (write_in_size (write_arg fh off (zlen data))) with (zlen data). passed.
  rewrite app_assoc, slice_last by zl. cbn [obind].
  call_fs. answer.
Qed.

Lemma getxattr_refines name size : refines (ReqGetxattr name size) (handle_getxattr fs).
Proof.
  start. destruct Hwf as [? ?]. unfold handle_getxattr. rewrite He. passed. parse_load.
  rewrite app_assoc, <- (app_nil_r (cstring name)).
  rewrite strnlen_cstring by (first [done | zl]). cbn [obind]. passed.
  rewrite slice_cstring by (first [done | zl]). cbn [obind].
  apply xattr_refines; [done|fits_lia|..].
  - intros *. apply getxattr_span.
  - intros *. apply getxattr_count.
Qed.

Lemma setxattr_refines name value flags :
  refines (ReqSetxattr name value flags) (handle_setxattr fs).
Proof.
  start. destruct Hwf as (? & ? & ?). unfold handle_setxattr. rewrite He. passed. parse_load.
  rewrite app_assoc. rewrite strnlen_cstring by (first [done | zl]). cbn [obind]. passed.
  change (setxattr_in_size (setxattr_arg (zlen value) flags)) with (zlen value). passed.
  rewrite slice_cstring by (first [done | zl]). cbn [obind].
  rewrite (app_assoc _ (cstring name)), slice_last by zl. cbn [obind].
  call_fs. answer.
Qed.

Lemma rename_refines old dir new flags :
  refines (ReqRename old dir new flags) (handle_rename2 fs).
Proof.
  start. destruct Hwf as (? & ? & ? & ?). unfold handle_rename2. rewrite He. passed. parse_load.
  rewrite app_assoc. rewrite strnlen_cstring by (first [done | zl]). cbn [obind]. passed.
  rewrite (app_assoc _ (cstring old)), <- (app_nil_r (cstring new)).
  rewrite strnlen_cstring by (first [done | zl]). cbn [obind]. passed.
  rewrite <- (app_assoc _ (cstring old)), slice_cstring by (first [done | zl]). cbn [obind].
  rewrite (app_assoc _ (cstring old)), slice_cstring by (first [done | zl]). cbn [obind].
  call_fs. answer.
Qed.

Lemma setstatx_refines fh st : refines (ReqSetstatx fh st) (handle_setstatx fs).
Proof.
  start. no_ext. destruct Hwf as [? ?]. unfold handle_setstatx.
  rewrite in_arg_encode_last by (first [done | by apply setstatx_arg_range]).
  cbn [obind app]. destruct (encode_setstatx (setstatx_arg fh st)) as (hdr & -> & Hz).
  rewrite <- (app_nil_r (encode (setstatx_in_stat _))). passed.
  rewrite load_encode by done. cbn [obind]. call_fs. answer.
Qed.

Lemma batch_forget_refines items : refines (ReqBatchForget items) (handle_batch_forget fs).
Proof.
  start. no_ext. destruct Hwf as [? ?]. unfold handle_batch_forget.
  rewrite in_arg_encode by (first [done | arg_range]). cbn [obind batch_forget_in_count app].
  assert (Hz : zlen (concat (map (fun item => encode (forget_one_arg item)) items)) =
    zlen items * sizeof fuse_forget_one).
  { clear. induction items as [|i items IH]; [done|]. cbn [map concat]. zl. }
  passed. unfold zlen at 1. rewrite Nat2Z.id, load_forget_items_wire by (first [done | zl]).
  by apply delivers_ok.
Qed.

Lemma mkobjx_link_body_wire pre st target :
  no_nul target -> (is_symlink st = false -> target = []) ->
  mkobjx_link_body (pre ++ (if is_symlink st then cstring target else [])) st (zlen pre) =
  Done target.
Proof.
  intros Hn Ht. unfold mkobjx_link_body. fold (is_symlink st).
  destruct (is_symlink st); cbn [andb]; [|by rewrite Ht].
  case_if; [|zl]. rewrite <- (app_nil_r (cstring target)).
  rewrite strnlen_cstring by (first [done | zl]). cbn [obind]. by apply slice_cstring.
Qed.

Lemma mkobjx_refines flags st name target :
  refines (ReqMkobjx flags st name target) (handle_mkobjx fs).
Proof.
  start. no_ext. destruct Hwf as (Hf & Hst & Hn & Hnt & Ht). unfold handle_mkobjx.
  assert (fits U32 (zlen name + 1)) by (pose_zlen; fits_lia). cbv zeta.
  destruct sizeof_statx_off as (-> & Hoff & _ & _ & Hsz). rewrite He.
  set (tail := if is_symlink st then cstring target else []). passed.
  rewrite load_encode by (first [done | by apply mkobjx_arg_range]). cbn [obind app].
  destruct (encode_mkobjx (mkobjx_arg (zlen name + 1) flags st)) as (hdr & Henc & Hh).
  rewrite Henc, <- app_assoc, load_encode by done. cbn [obind].
  change (mkobjx_in_namesize (mkobjx_arg (zlen name + 1) flags st)) with (zlen name + 1).
  rewrite app_assoc, <- Henc. passed. case_if; [zl|].
  rewrite slice_cstring by zl. cbn [obind].
  replace (320 + (zlen name + 1)) with
    (zlen (encode (mkobjx_arg (zlen name + 1) flags st) ++ cstring name)) by zl.
  rewrite app_assoc. subst tail. rewrite mkobjx_link_body_wire by done. cbn [obind].
  call_fs. answer.
Qed.

(** The handler of each request's opcode. *)
Lemma request_case q rec :
  exists hd, (request_opcode q, hd) ∈ handler_table fs rec /\ refines q hd.
Proof.
  destruct q; eexists; (split;
    [unfold handler_table; repeat first [apply list_elem_of_here | apply list_elem_of_further]|]).
  - apply init_refines.
  - apply lookup_root_refines.
  - apply lookupx_refines.
  - apply forget_refines.
  - apply batch_forget_refines.
  - apply statx_refines.
  - apply setstatx_refines.
  - apply mkobjx_refines.
  - apply unlink_refines.
  - apply rmdir_refines.
  - apply rename_refines.
  - apply link_refines.
  - apply open_refines.
  - apply release_refines.
  - apply read_refines.
  - apply write_refines.
  - apply readlink_refines.
  - apply statfs_refines.
  - apply fallocate_refines.
  - apply opendir_refines.
  - apply releasedir_refines.
  - apply readdir_refines.
  - apply getxattr_refines.
  - apply setxattr_refines.
  - apply listxattr_refines.
  - apply removexattr_refines.
Qed.

Lemma dispatch_body_refines q rec h ext w r :
  replier_ok r -> opcode_is h (request_opcode q) = true ->
  ext_bytes h = zlen ext -> (skips_extensions q = true \/ ext = []) ->
  zlen (ext ++ wire q) < 2 ^ 63 -> request_wf q ->
  delivers r (dispatch_body fs rec h (ext ++ wire q) w r) (serve fs h q (r_out r) w).
Proof.
  intros Hr Ho ? ? ? ?. destruct (request_case q rec) as (hd & Hin & Href).
  rewrite (dispatch_case fs rec h _ hd) by done. by apply Href.
Qed.
End Refinement.

(** ** Theorems *)

(** C2: dispatch refines the protocol. On the bytes of any well-formed request,
    preceded by the extensions the header announces (for the opcodes that skip
    them; none otherwise), the dispatcher returns, changes the state of the
    session and of the daemon exactly as [serve] does (one callback, with the
    arguments the kernel encoded), and leaves in the reply buffer exactly the
    answer of [serve]: its errno, or its payload and length, EIO when the
    payload exceeds the capacity. *)
Theorem dispatch_refines {S} (fs : Filesystem S) (LFS : LawfulFs fs) q h ext w r :
  replier_ok r -> opcode_is h (request_opcode q) = true ->
  ext_bytes h = zlen ext -> (skips_extensions q = true \/ ext = []) ->
  zlen (ext ++ wire q) < 2 ^ 63 -> request_wf q ->
  exists r', dispatch fs h (ext ++ wire q) w r = Done (fst (serve fs h q (r_out r) w), r') /\
    delivered r r' (snd (serve fs h q (r_out r) w)).
Proof. intros. by apply dispatch_body_refines. Qed.

Lemma dispatch_refines_witness :
  exists r', dispatch (demo_fs [Byte.x61]) (demo_header FUSE_LOOKUPX 1 0) [Byte.x61; Byte.x00]
    (demo_world []) (demo_replier 64) = Done (demo_world [[Byte.x61]], r') /\
    r_neg_err r' = 0 /\ r_len r' = 32 /\ dec_scalar U64 (take 8 (r_out r')) = 2.
Proof.
  destruct (dispatch_refines (demo_fs [Byte.x61]) (demo_fs_lawful _) (ReqLookupx [Byte.x61])
    (demo_header FUSE_LOOKUPX 1 0) [] (demo_world []) (demo_replier 64))
    as (r' & Hd & _ & _ & _ & He & Hl & Ht).
  - split; reflexivity.
  - reflexivity.
  - reflexivity.
  - right. reflexivity.
  - reflexivity.
  - repeat constructor.
  - exists r'. split; [exact Hd|]. split; [exact He|]. split; [exact Hl|].
    rewrite Hl in Ht. apply (f_equal (take 8)) in Ht. rewrite take_take in Ht.
    change (8 `min` _)%nat with 8%nat in Ht. rewrite Ht. reflexivity.
Defined.
