(* ===== verification/Compound.v ===== *)
(** * Compound requests against a reference semantics

    A compound is a list of subrequests. [compound_runs] says what serving it
    means: the subrequests are served in order, each on the node an earlier one
    produced if it names one, each in the room its predecessors left; the reply
    is the concatenation of the subreplies, and a compound that runs out of room
    is refused as a whole, its effects kept. The theorem shows that the
    dispatcher's loop over offsets, which writes subreply headers behind the
    handlers' backs, does exactly this. *)

From S2P Require Import Prelude Memory Pod Abi Types DirentWriter Filesystem Replier Handlers.
From S2P Require Import HandlerSafety Request.

(** ** Subrequests *)

Inductive sub_call :=
| Sub (q : request)
| SubCompound (body : bytes).

Record subrequest := {
  sub_req : fuse_compound_req_in;
  sub_header : fuse_in_header;
  sub_what : sub_call;
}.

Definition sub_body (s : subrequest) : bytes :=
  match sub_what s with
  | Sub q => wire q
  | SubCompound body => body
  end.

Definition sub_wire (s : subrequest) : bytes :=
  encode (sub_req s) ++ encode (sub_header s) ++ sub_body s.

(** The body of a compound: the reserved words of [fuse_compound_in] and the
    subrequests. *)
Definition compound_wire (c : fuse_compound_in) (subs : list subrequest) : bytes :=
  encode c ++ concat (map sub_wire subs).

Definition sub_wf (s : subrequest) : Prop :=
  in_range (sub_req s) /\ in_range (sub_header s) /\
  in_header_len (sub_header s) = sizeof fuse_in_header + zlen (sub_body s) /\
  ext_bytes (sub_header s) = 0 /\
  match sub_what s with
  | Sub q => opcode_is (sub_header s) (request_opcode q) = true /\ request_wf q
  | SubCompound _ => opcode_is (sub_header s) FUSE_COMPOUND = true
  end.

(** ** Reference semantics *)

(** A payload larger than the room left is EIO. *)
Definition fit (room : Z) (a : answer) : answer :=
  match a with
  | Replied p => if room <? zlen p then Refused EIO else a
  | Refused _ => a
  end.

Definition out_header (h : fuse_in_header) (error len : Z) : fuse_out_header := {|
  out_header_len := sizeof fuse_out_header + len; out_header_error := error;
  out_header_unique := in_header_unique h |}.

(** The bytes of a subreply. *)
Definition sub_reply (h : fuse_in_header) (a : answer) : bytes :=
  match a with
  | Refused e => encode (out_header h (neg_errno e) 0)
  | Replied p => encode (out_header h 0 (zlen p)) ++ p
  end.

(** The node an entry reply names. *)
Definition entry_node (h : fuse_in_header) (a : answer) : Z :=
  match a with
  | Replied p =>
      if (8 <=? zlen p) &&
         (opcode_is h FUSE_LOOKUPX || opcode_is h FUSE_MKOBJX || opcode_is h FUSE_LOOKUP_ROOT)
      then dec_scalar U64 (take 8 p) else 0
  | Refused _ => 0
  end.

Definition serve_sub {S} (fs : Filesystem S) (h : fuse_in_header) (c : sub_call) (out : bytes)
    (w : world S) : world S * answer :=
  match c with
  | Sub q => serve fs h q out w
  | SubCompound _ => (w, Refused EOPNOTSUPP)
  end.

(** [compound_runs fs subs produced n w w' res]: with [n] bytes of room, serving
    [subs] leads from [w] to [w'] and gives the subreplies [res], [None] when
    the room ends. [out] is what the buffer held before. *)
Inductive compound_runs {S} (fs : Filesystem S) :
    list subrequest -> list Z -> Z -> world S -> world S -> option (list bytes) -> Prop :=
| runs_nil produced n w : compound_runs fs [] produced n w w (Some [])
| runs_full s subs produced n w :
    n < sizeof fuse_out_header -> compound_runs fs (s :: subs) produced n w w None
| runs_cons s subs produced n h out w w1 a b w2 res :
    sizeof fuse_out_header <= n ->
    h = propagate_nodeid (sub_req s) produced (sub_header s) ->
    zlen out = n - sizeof fuse_out_header ->
    serve_sub fs h (sub_what s) out w = (w1, a) ->
    b = fit (n - sizeof fuse_out_header) a ->
    compound_runs fs subs (produced ++ [entry_node h b]) (n - zlen (sub_reply h b)) w1 w2 res ->
    compound_runs fs (s :: subs) produced n w w2 (option_map (cons (sub_reply h b)) res).

(** ** Lemmas *)

Lemma zlen_sub_reply h a :
  zlen (sub_reply h a) =
    sizeof fuse_out_header + match a with Replied p => zlen p | Refused _ => 0 end.
Proof. destruct a; cbn [sub_reply]; zl. Qed.

Lemma delivered_fit r r' a : delivered r r' a -> delivered r r' (fit (r_cap r) a).
Proof.
  destruct a as [e|p]; [done|]. unfold delivered, fit. case_if; [done|].
  intros (? & ? & ? & ?). rewrite E. done.
Qed.

Lemma fit_fits room a p : fit room a = Replied p -> zlen p <= room.
Proof. destruct a as [|p']; simpl; [done|]. case_if; [done|]. intros. simplify_eq. lia. Qed.

Lemma fit_idem room a : fit room (fit room a) = fit room a.
Proof. destruct a as [|p]; [done|]. unfold fit. destruct (room <? zlen p) eqn:E; [done|]. by rewrite E. Qed.

Lemma propagate_nodeid_len q produced h :
  in_header_len (propagate_nodeid q produced h) = in_header_len h /\
  in_header_total_extlen (propagate_nodeid q produced h) = in_header_total_extlen h.
Proof. unfold propagate_nodeid. by case_if. Qed.

(** What the loop reads off a delivered subreply. *)
Lemma produced_nodeid_delivered h r r' a :
  replier_ok r -> delivered r r' a -> fit (r_cap r) a = a ->
  produced_nodeid h r' = Done (entry_node h a).
Proof.
  intros [Hz _] (Hc & _ & Hz' & Ha) Hfit. unfold produced_nodeid, entry_node.
  destruct a as [e|p]; simpl in Hfit.
  - destruct Ha as [-> ->]. by rewrite andb_false_r.
  - destruct (r_cap r <? zlen p) eqn:E; [done|]. destruct Ha as (-> & Hl & Ht).
    rewrite Hl in *. cbn [Z.eqb andb]. case_if; [|done]. rewrite slice_Done by lia. cbn [obind].
    unfold sub_bytes. simpl. rewrite <- Ht, take_take.
    do 3 f_equal. lia.
Qed.

Lemma sub_out_header_delivered h r r' a :
  replier_ok r -> r_cap r < 2 ^ 32 - sizeof fuse_out_header -> delivered r r' a ->
  fit (r_cap r) a = a ->
  sub_out_header h r' =
    match a with
    | Refused e => out_header h (neg_errno e) 0
    | Replied p => out_header h 0 (zlen p)
    end.
Proof.
  intros Hr%replier_cap_nonneg Hc (_ & _ & _ & Ha) Hfit. unfold sub_out_header, out_header.
  destruct a as [e|p]; simpl in Hfit.
  - destruct Ha as [-> ->]. f_equal. rewrite cast_id; case_if; slia || (norm_sizes; fits_lia).
  - destruct (r_cap r <? zlen p) eqn:E; [done|]. destruct Ha as (-> & -> & _). f_equal.
    apply cast_id. pose_zlen. norm_sizes. fits_lia.
Qed.

(** The buffer of the handler after a delivered answer. *)
Lemma delivered_out r r' a :
  replier_ok r -> delivered r r' a -> fit (r_cap r) a = a ->
  exists rest, r_out r' = match a with Replied p => p | Refused _ => [] end ++ rest.
Proof.
  intros [Hz _] (_ & _ & Hz' & Ha) Hfit. destruct a as [e|p]; [by eexists|].
  simpl in Hfit. destruct (r_cap r <? zlen p) eqn:E; [done|]. destruct Ha as (_ & _ & Ht).
  eexists. rewrite <- Ht at 1. symmetry. apply take_drop.
Qed.

Section Loop.
Context {S : Type} (fs : Filesystem S) `{!LawfulFs fs}.
Abbreviation rec := (dispatch_depth fs 1).

(** Dispatch of one subrequest in the room after its reply header. *)
Lemma sub_dispatch_delivers s produced w sub_r :
  sub_wf s -> replier_ok sub_r ->
  let h := propagate_nodeid (sub_req s) produced (sub_header s) in
  delivers sub_r (if opcode_is h FUSE_COMPOUND then fail w sub_r EOPNOTSUPP
                  else rec h (sub_body s) w sub_r)
    (serve_sub fs h (sub_what s) (r_out sub_r) w).
Proof.
  intros (_ & Hh & Hlen & Hext & Hwhat) Hr h.
  destruct (propagate_nodeid_frame (sub_req s) produced (sub_header s)) as (Hop & Hx & _).
  fold h in Hop, Hx. unfold sub_body in *. destruct (sub_what s) as [q|b].
  - destruct Hwhat as [Hq Hwf]. assert (Hq' : opcode_is h (request_opcode q) = true).
    { unfold opcode_is in *. by rewrite Hop. }
    destruct (opcode_is h FUSE_COMPOUND) eqn:Ec.
    { pose proof (opcode_is_excl _ _ _ Hq' Ec) as Hcq. by destruct q. }
    change (wire q) with ([] ++ wire q).
    apply dispatch_body_refines; try done.
    + rewrite Hx. by rewrite Hext.
    + by right.
    + pose proof (in_header_len_range _ Hh). cbn [app]. slia.
  - unfold opcode_is in *. rewrite Hop, Hwhat. apply delivers_fail.
Qed.

Lemma compound_sub_delivers s produced w r acc room :
  sub_wf s -> replier_ok r -> r_out r = acc ++ room -> r_cap r < 2 ^ 32 ->
  sizeof fuse_out_header <= zlen room ->
  let h := propagate_nodeid (sub_req s) produced (sub_header s) in
  exists out w1 a room',
    let b := fit (zlen room - sizeof fuse_out_header) a in
    zlen out = zlen room - sizeof fuse_out_header /\
    serve_sub fs h (sub_what s) out w = (w1, a) /\
    compound_sub rec (sub_req s) (sub_header s) (sub_body s) (zlen acc) produced w r =
      Done (w1, (acc ++ sub_reply h b) ++ room', entry_node h b, zlen (sub_reply h b)) /\
    zlen room' = zlen room - zlen (sub_reply h b).
Proof.
  intros Hwf Hr Hout Hcap Hroom h. destruct Hr as [Hz Hc]. rewrite Hout, zlen_app in Hz.
  unfold compound_sub. fold h. cbv zeta. rewrite Hout, slice_Done by zls. cbn [obind].
  set (sub_out := sub_bytes _ _ _).
  assert (Hso : zlen sub_out = zlen room - sizeof fuse_out_header)
    by (subst sub_out; rewrite zlen_sub_bytes; zls).
  match goal with |- context [fail w ?sr _] => set (sub_r := sr) end.
  assert (Hsr : replier_ok sub_r) by (split; cbn [sub_r r_out r_cap]; pose_zlen; slia).
  destruct (sub_dispatch_delivers s produced w sub_r Hwf Hsr) as (r' & Hd & Hans).
  fold h in Hd, Hans. destruct (serve_sub fs h (sub_what s) (r_out sub_r) w) as [w1 a] eqn:Es.
  cbn [fst snd] in Hd, Hans. apply delivered_fit in Hans.
  assert (Hcr : r_cap sub_r = zlen room - sizeof fuse_out_header) by (cbn [sub_r r_cap]; lia).
  rewrite Hcr in Hans. set (b := fit _ a) in *.
  assert (Hb : fit (r_cap sub_r) b = b).
  { rewrite Hcr. subst b. by apply fit_idem. }
  rewrite Hd. cbn [obind fst snd].
  rewrite (produced_nodeid_delivered h sub_r r' b) by done. cbn [obind].
  rewrite (sub_out_header_delivered h sub_r r' b) by (first [done | rewrite Hcr; pose_zlen; slia]).
  destruct (delivered_out sub_r r' b Hsr Hans Hb) as [rest Hrest].
  destruct Hans as (_ & _ & Hz' & _). change (r_out sub_r) with sub_out in Hz'.
  exists sub_out, w1, a, rest. cbv zeta. fold b. split; [done|]. split; [done|].
  destruct (split_mid room 0 (sizeof fuse_out_header)) as (n0 & hole & tail & -> & Hn0 & Hhole);
    [slia..|]. destruct n0; [|zls]. cbn [app] in *. rewrite zlen_app in *.
  rewrite (app_assoc acc hole tail), <- (app_nil_r tail).
  rewrite store_Done by zls. cbn [obind]. rewrite splice_mid by zls. rewrite app_nil_r.
  rewrite <- (app_assoc acc hole). rewrite store_Done by zls.
  cbn [obind]. rewrite splice_mid by (rewrite ?zlen_encode; done).
  rewrite Hrest in *. rewrite zlen_sub_reply. split; [|destruct b; zls].
  destruct b as [e|p]; cbn [sub_reply out_header out_header_len app];
    rewrite <- ?app_assoc; repeat f_equal; lia.
Qed.

(** The answer to the whole compound, [acc] written before the loop. *)
Definition compound_answer (acc : bytes) (res : option (list bytes)) : answer :=
  match res with
  | Some rs => Replied (acc ++ concat rs)
  | None => Refused EINVAL
  end.

Lemma zlen_sub_wire s : zlen (sub_wire s) = compound_hdrs + zlen (sub_body s).
Proof. unfold sub_wire, compound_hdrs. zl. Qed.

Lemma delivered_with_out r out r' a :
  zlen out = zlen (r_out r) -> delivered (with_out r out) r' a -> delivered r r' a.
Proof. intros Hz (? & ? & Hz' & ?). split_and!; [done..|by rewrite <- Hz|done]. Qed.

Lemma delivered_head r acc room :
  replier_ok r -> r_out r = acc ++ room ->
  delivered r (with_reply r 0 (zlen acc)) (Replied acc).
Proof.
  intros [Hz _] Ho. rewrite Ho in Hz. unfold delivered. simpl.
  case_if; [zl|]. split_and!; try done. rewrite Ho. by apply take_zlen_app.
Qed.

(** The two loads and the cut of one subrequest. *)
Lemma sub_wire_parse pre s rest :
  sub_wf s ->
  let body := pre ++ sub_wire s ++ rest in
  load fuse_compound_req_in body (zlen pre) = Done (sub_req s) /\
  load fuse_in_header body (zlen pre + sizeof fuse_compound_req_in) = Done (sub_header s) /\
  slice body (zlen pre + compound_hdrs) (in_header_len (sub_header s) - sizeof fuse_in_header)
    = Done (sub_body s).
Proof.
  intros (Hq & Hh & Hl & _). cbv zeta. unfold sub_wire, compound_hdrs. rewrite <- !app_assoc.
  split; [by apply load_encode|]. rewrite app_assoc.
  split; [apply load_encode; [done|zl]|]. rewrite app_assoc. apply slice_mid; zls.
Qed.

Lemma compound_loop_runs subs :
  Forall sub_wf subs -> forall fuel pre produced w r acc room,
  zlen (concat (map sub_wire subs)) <= Z.of_nat fuel ->
  replier_ok r -> r_cap r < 2 ^ 32 -> r_out r = acc ++ room ->
  exists w' res r',
    compound_runs fs subs produced (zlen room) w w' res /\
    compound_loop rec fuel (pre ++ concat (map sub_wire subs)) (zlen pre) (zlen acc) produced w r
      = Done (w', r') /\
    delivered r r' (compound_answer acc res).
Proof.
  induction 1 as [|s subs Hs Hsubs IH]; intros fuel pre produced w r acc room Hfuel Hr Hc Ho.
  { exists w, (Some []), (with_reply r 0 (zlen acc)). split; [constructor|].
    cbn [map concat compound_answer]. rewrite !app_nil_r. destruct fuel; cbn [compound_loop];
      (case_if; [|lia]; split; [done|by eapply delivered_head]). }
  cbn [map concat] in *. pose proof (zlen_sub_wire s) as Hw. rewrite compound_hdrs_val in Hw.
  destruct fuel as [|fuel]; [zls|]. cbn [compound_loop]. case_if; [zls|].
  destruct (Z.lt_ge_cases (zlen room) (sizeof fuse_out_header)) as [Hfull|Hroom].
  { exists w, None, (reply_error r EINVAL). split; [by constructor|].
    destruct Hr as [Hz _]. rewrite Ho in Hz. case_if; [|zls]. by split_and!. }
  destruct (sub_wire_parse pre s (concat (map sub_wire subs)) Hs) as (-> & -> & Hsl).
  rewrite compound_hdrs_val in *. case_if; [destruct Hr as [Hz _]; rewrite Ho in Hz; zls|].
  cbn [obind]. pose proof Hs as (_ & Hh & Hl & _). case_if; [zls|]. rewrite Hsl. cbn [obind].
  destruct (compound_sub_delivers s produced w r acc room) as
    (out & w1 & a & room' & Hlen & Hserve & -> & Hroom'); [done..|]. cbn [obind].
  set (h := propagate_nodeid _ _ _) in *. set (b := fit _ a) in *.
  destruct (IH fuel (pre ++ sub_wire s) (produced ++ [entry_node h b]) w1
    (with_out r ((acc ++ sub_reply h b) ++ room')) (acc ++ sub_reply h b) room')
    as (w' & res & r' & Hruns & Hloop & Hd); [zls| |done|done|].
  { destruct Hr as [Hz ?]. split; [|done]. simpl. rewrite Ho in Hz. zl. }
  exists w', (option_map (cons (sub_reply h b)) res), r'. split; [|split].
  - eapply runs_cons; [done..|]. fold b. by rewrite <- Hroom'.
  - rewrite <- app_assoc in Hloop. rewrite <- Hloop.
    replace (zlen pre + 44 + _) with (zlen (pre ++ sub_wire s)) by zls.
    by replace (zlen acc + _) with (zlen (acc ++ sub_reply h b)) by zl.
  - apply delivered_with_out with ((acc ++ sub_reply h b) ++ room'); [destruct Hr; rewrite Ho; zl|].
    destruct res; cbn [compound_answer option_map concat] in *; [|done]. by rewrite app_assoc.
Qed.
End Loop.

Lemma compound_refines_core {S} (fs : Filesystem S) `{!LawfulFs fs} h c subs w r :
  replier_ok r -> sizeof fuse_compound_out <= r_cap r < 2 ^ 32 ->
  opcode_is h FUSE_COMPOUND = true -> Forall sub_wf subs ->
  exists w' res r',
    compound_runs fs subs [] (r_cap r - sizeof fuse_compound_out) w w' res /\
    dispatch fs h (compound_wire c subs) w r = Done (w', r') /\
    delivered r r' (compound_answer (zero_bytes (sizeof fuse_compound_out)) res).
Proof.
  intros Hr [Hc Hc'] Ho Hsubs. pose proof Hr as [Hz Hm].
  unfold dispatch. change (dispatch_depth fs 2) with (dispatch_body fs (dispatch_depth fs 1)).
  rewrite (dispatch_case fs _ h FUSE_COMPOUND (handle_compound (dispatch_depth fs 1))).
  2: { unfold handler_table. do 26 apply list_elem_of_further. apply list_elem_of_here. }
  2: { done. }
  unfold handle_compound, compound_wire. case_if; [zls|].
  destruct (split_mid (r_out r) 0 (sizeof fuse_compound_out)) as (n0 & hole & room & Hout & Hn0 & Hh);
    [slia..|]. destruct n0; [|zl]. cbn [app] in Hout.
  rewrite store_Done by (rewrite ?zlen_zero_bytes; slia). cbn [obind].
  rewrite Hout, (splice_mid [] hole room) by (rewrite ?zlen_zero_bytes; slia). cbn [app].
  set (zs := zero_bytes (sizeof fuse_compound_out)).
  assert (Hzs : zlen zs = sizeof fuse_compound_out) by (apply zlen_zero_bytes; slia).
  clearbody zs. destruct (compound_loop_runs fs subs Hsubs (length (encode c ++ concat (map sub_wire subs)))
    (encode c) [] w (with_out r (zs ++ room)) zs room) as (w' & res & r' & Hruns & Hloop & Hd);
    [|split; [|done]; simpl; rewrite <- Hz, Hout; zl|done|done|].
  { fold (zlen (encode c ++ concat (map sub_wire subs))). zls. }
  exists w', res, r'. rewrite Hout in Hz. split; [|split].
  - replace (r_cap r - _) with (zlen room) by zl. done.
  - rewrite zlen_encode, Hzs in Hloop. exact Hloop.
  - apply delivered_with_out with (zs ++ room); [rewrite Hout; zl|done].
Qed.

(** ** Theorems *)

(** C3: compound requests. On the bytes of any list of well-formed subrequests
    the dispatcher returns; the state it leaves and its reply are those of the
    reference semantics [compound_runs]: every subrequest served once, in
    order, on the node produced by the subrequest it depends on, nested
    compounds refused; the payload is the zeroed [fuse_compound_out] and the
    subreplies one after the other, each with its own header; and when the
    reply buffer ends before the subrequests do, the compound is refused with
    EINVAL. *)
Theorem compound_refines {S} (fs : Filesystem S) (LFS : LawfulFs fs) h c subs w r :
  replier_ok r -> sizeof fuse_compound_out <= r_cap r < 2 ^ 32 ->
  opcode_is h FUSE_COMPOUND = true -> Forall sub_wf subs ->
  exists w' res r',
    compound_runs fs subs [] (r_cap r - sizeof fuse_compound_out) w w' res /\
    dispatch fs h (compound_wire c subs) w r = Done (w', r') /\
    delivered r r' (compound_answer (zero_bytes (sizeof fuse_compound_out)) res).
Proof. intros. by apply compound_refines_core. Qed.

(** The two subrequests of a name lookup: LOOKUPX, and STATX on its result. *)
Definition lookup_then_statx (hl hs : fuse_in_header) (name : bytes) (i : fuse_statx_in) :
    list subrequest :=
  [ {| sub_req := {| compound_req_in_dep_index := FUSE_COMPOUND_NO_DEP;
                     compound_req_in_reserved := replicate 3 0 |};
       sub_header := hl; sub_what := Sub (ReqLookupx name) |};
    {| sub_req := {| compound_req_in_dep_index := 0;
                     compound_req_in_reserved := replicate 3 0 |};
       sub_header := hs; sub_what := Sub (ReqStatx i) |} ].

(** The node an entry reply names is the daemon's. *)
Lemma entry_node_entry h e flags :
  fits U64 (eo_nodeid e) -> opcode_is h FUSE_LOOKUPX = true ->
  entry_node h (Replied (encode (pack_entryx e flags))) = eo_nodeid e.
Proof.
  intros He Ho. unfold entry_node. rewrite Ho, zlen_encode. simpl andb. case_if; [|done].
  unfold pack_entryx. destruct (split_duration _) as [sec nsec].
  unfold encode. cbn [layout to_fields fuse_entryx_out_pod enc_fields hd tl entryx_out_nodeid].
  rewrite take_app_length' by (by rewrite length_enc_scalar).
  by apply dec_enc_scalar.
Qed.

Lemma fit_small room p : zlen p <= room -> fit room (Replied p) = Replied p.
Proof. intros. unfold fit. case_if; [lia|done]. Qed.

(** With room for its header, a subrequest is served. *)
Lemma runs_cons_inv {S} (fs : Filesystem S) s subs produced n w w2 res :
  compound_runs fs (s :: subs) produced n w w2 res -> sizeof fuse_out_header <= n ->
  let h := propagate_nodeid (sub_req s) produced (sub_header s) in
  let served a := fit (n - sizeof fuse_out_header) a in
  exists out w1 a res',
    (zlen out = n - sizeof fuse_out_header) /\
    (serve_sub fs h (sub_what s) out w = (w1, a)) /\
    compound_runs fs subs (produced ++ [entry_node h (served a)])
      (n - zlen (sub_reply h (served a))) w1 w2 res' /\
    res = option_map (cons (sub_reply h (served a))) res'.
Proof.
  intros Hr Hn h served. inversion Hr; subst; [slia|].
  eexists _, _, _, _. split; [eassumption|]. split; [eassumption|]. by split.
Qed.

Lemma lookup_then_statx_runs {S} (fs : Filesystem S) hl hs name i n w w' res e s1 st s2 :
  compound_runs fs (lookup_then_statx hl hs name i) [] n w w' res ->
  2 * sizeof fuse_out_header + sizeof fuse_entryx_out + sizeof fuse_statx_out <= n ->
  opcode_is hl FUSE_LOOKUPX = true ->
  fs_lookupx fs (make_ctx hl) (in_header_nodeid hl) name (w_fs w) = (Value e, s1) ->
  fits U64 (eo_nodeid e) ->
  fs_statx fs (make_ctx (with_nodeid hs (eo_nodeid e))) (eo_nodeid e) s1 = (Value st, s2) ->
  w' = set_fs w s2 /\
  res = Some [sub_reply hl (Replied (encode (pack_entryx e (entryx_flags e))));
              sub_reply hs (Replied (encode (pack_statx st (seconds 1))))].
Proof.
  intros Hruns Hn Ho Hl He Hs.
  apply runs_cons_inv in Hruns as (out1 & w1 & a1 & res1 & _ & H1 & Hruns & ->); [|slia].
  change (propagate_nodeid _ [] _) with hl in *.
  cbn [serve_sub sub_what serve] in H1. unfold calling in H1. rewrite Hl in H1. simplify_eq.
  cbv beta zeta in Hruns.
  cbn [answer_entry answer_with] in *. rewrite fit_small in * by (rewrite zlen_encode; slia).
  cbn [app] in Hruns. rewrite entry_node_entry, zlen_sub_reply, zlen_encode in Hruns by done.
  apply runs_cons_inv in Hruns as (out2 & w2 & a2 & res2 & _ & H2 & Hruns & ->); [|slia].
  change (propagate_nodeid _ [_] _) with (with_nodeid hs (eo_nodeid e)) in *.
  cbn [serve_sub sub_what serve] in H2. unfold calling in H2. cbn [set_fs w_fs] in H2.
  change (in_header_nodeid (with_nodeid hs (eo_nodeid e))) with (eo_nodeid e) in H2.
  rewrite Hs in H2. simplify_eq. cbn [answer_statx answer_with] in *.
  rewrite fit_small in * by (rewrite zlen_encode; slia). inversion Hruns; subst. by split.
Qed.

(** Nodeid propagation. In the compound LOOKUPX; STATX, the second
    depending on the first, STATX is asked about the node the lookup returned,
    whatever nodeid its own header carried; the reply is the zeroed compound
    header, the entry reply and the statx reply, each behind its header. *)
Theorem compound_lookup_statx {S} (fs : Filesystem S) (LFS : LawfulFs fs)
    h c hl hs name i w r e s1 st s2 :
  let subs := lookup_then_statx hl hs name i in
  let need := sizeof fuse_compound_out + 2 * sizeof fuse_out_header
              + sizeof fuse_entryx_out + sizeof fuse_statx_out in
  replier_ok r -> need <= r_cap r < 2 ^ 32 ->
  opcode_is h FUSE_COMPOUND = true -> Forall sub_wf subs ->
  fs_lookupx fs (make_ctx hl) (in_header_nodeid hl) name (w_fs w) = (Value e, s1) ->
  fits U64 (eo_nodeid e) ->
  fs_statx fs (make_ctx (with_nodeid hs (eo_nodeid e))) (eo_nodeid e) s1 = (Value st, s2) ->
  exists r', dispatch fs h (compound_wire c subs) w r = Done (set_fs w s2, r') /\
    r_neg_err r' = 0 /\ r_len r' = need /\
    take (Z.to_nat need) (r_out r') =
      zero_bytes (sizeof fuse_compound_out)
      ++ sub_reply hl (Replied (encode (pack_entryx e (entryx_flags e))))
      ++ sub_reply hs (Replied (encode (pack_statx st (seconds 1)))).
Proof.
  intros subs need Hr Hc Ho Hsubs Hl He Hs.
  destruct (compound_refines_core fs h c subs w r) as (w' & res & r' & Hruns & Hd & Hans);
    [done|subst need; slia|done..|].
  apply lookup_then_statx_runs with (e := e) (s1 := s1) (st := st) (s2 := s2) in Hruns
    as [-> ->]; [|subst need; slia| |done..].
  2: { by pose proof (Forall_inv Hsubs) as (_ & _ & _ & _ & ? & _). }
  exists r'. split; [done|]. destruct Hans as (_ & _ & _ & Hans).
  cbn [compound_answer concat] in Hans. rewrite app_nil_r in Hans.
  rewrite !zlen_app, !zlen_sub_reply, !zlen_encode, zlen_zero_bytes in Hans by slia.
  case_if_in Hans; [subst need; slia|]. destruct Hans as (? & Hlen & Ht).
  split; [done|]. rewrite Hlen in *. split; [subst need; slia|]. rewrite <- Ht. f_equal.
Qed.

(** ** Examples *)

Definition demo_sub_header (o : fuse_opcode) (len unique nodeid : Z) : fuse_in_header := {|
  in_header_len := len; in_header_opcode := opcode_value o; in_header_unique := unique;
  in_header_nodeid := nodeid; in_header_uid := 0; in_header_gid := 0; in_header_pid := 1;
  in_header_total_extlen := 0; in_header_padding := 0 |}.

Definition demo_compound_in : fuse_compound_in := {| compound_in_reserved := [0; 0] |}.

Definition demo_statx_in : fuse_statx_in := {|
  statx_in_getattr_flags := 0; statx_in_reserved := 0; statx_in_fh := 0;
  statx_in_sx_flags := 0; statx_in_sx_mask := statx_bits.basic |}.

Definition demo_hl : fuse_in_header := demo_sub_header FUSE_LOOKUPX 42 10 1.
Definition demo_hs : fuse_in_header := demo_sub_header FUSE_STATX 64 11 0.

Definition demo_subs : list subrequest :=
  lookup_then_statx demo_hl demo_hs [Byte.x61] demo_statx_in.

Lemma demo_subs_wf : Forall sub_wf demo_subs.
Proof.
  repeat constructor; try (simpl; fits_lia); demo_range.
Qed.

Lemma compound_refines_witness :
  exists w' res r',
    compound_runs (demo_fs [Byte.x61]) demo_subs [] 484 (demo_world []) w' res /\
    dispatch (demo_fs [Byte.x61]) (demo_header FUSE_COMPOUND 0 0)
      (compound_wire demo_compound_in demo_subs) (demo_world []) (demo_replier 500)
      = Done (w', r') /\
    delivered (demo_replier 500) r' (compound_answer (zero_bytes 16) res).
Proof.
  apply (compound_refines (demo_fs [Byte.x61]) (demo_fs_lawful _) (demo_header FUSE_COMPOUND 0 0)
    demo_compound_in demo_subs (demo_world []) (demo_replier 500)).
  - split; reflexivity.
  - split; [discriminate|reflexivity].
  - reflexivity.
  - exact demo_subs_wf.
Defined.

Lemma compound_lookup_statx_witness :
  exists r', dispatch (demo_fs [Byte.x61]) (demo_header FUSE_COMPOUND 0 0)
      (compound_wire demo_compound_in demo_subs) (demo_world []) (demo_replier 500)
      = Done (demo_world [[Byte.x61]], r') /\ r_neg_err r' = 0 /\ r_len r' = 368.
Proof.
  destruct (compound_lookup_statx (demo_fs [Byte.x61]) (demo_fs_lawful _)
    (demo_header FUSE_COMPOUND 0 0) demo_compound_in demo_hl demo_hs [Byte.x61] demo_statx_in
    (demo_world []) (demo_replier 500)
    {| eo_nodeid := 2; eo_entry_valid := 1000000000; eo_negative := false |} [[Byte.x61]]
    (demo_stat 2) [[Byte.x61]]) as (r' & Hd & He & Hl & _).
  - split; reflexivity.
  - split; [discriminate|reflexivity].
  - reflexivity.
  - exact demo_subs_wf.
  - reflexivity.
  - split; [discriminate|reflexivity].
  - reflexivity.
  - exists r'. split; [exact Hd|]. split; [exact He|exact Hl].
Defined.
