(* ===== verification/Tracing.v ===== *)
(** * Debug output (the log lines of src/handlers.cpp)

    With [FEX_DEBUG] set, [handle_compound] prints one line per compound: the
    names of the subrequests' opcodes, each with the index it depends on. Here
    the handler is the one of [Handlers] with the text it sends to stderr beside
    its result. The theorems say that the output is all the variable changes,
    and that the line of a compound names its subrequests in order. *)

From S2P Require Import Prelude Memory Pod Abi Types DirentWriter Filesystem Replier Handlers.
From S2P Require Import HandlerSafety Request Compound.
From Stdlib Require Import Ascii.
From stdpp Require Import strings pretty.
#[local] Open Scope string_scope.
#[local] Open Scope list_scope.
#[local] Open Scope Z_scope.

(** ** The gate *)

(** [e && *e && *e != '0'], on the value of the variable. *)
Definition debug_enabled (FEX_DEBUG : option string) : bool :=
  match FEX_DEBUG with
  | None => false
  | Some EmptyString => false
  | Some (String c _) => negb (Ascii.eqb c "0"%char)
  end.

(** ** Names *)

Definition named_opcodes : list (fuse_opcode * string) :=
  [ (FUSE_LOOKUP, "LOOKUP");
    (FUSE_FORGET, "FORGET");
    (FUSE_GETATTR, "GETATTR");
    (FUSE_SETATTR, "SETATTR");
    (FUSE_READLINK, "READLINK");
    (FUSE_SYMLINK, "SYMLINK");
    (FUSE_MKNOD, "MKNOD");
    (FUSE_MKDIR, "MKDIR");
    (FUSE_UNLINK, "UNLINK");
    (FUSE_RMDIR, "RMDIR");
    (FUSE_RENAME, "RENAME");
    (FUSE_LINK, "LINK");
    (FUSE_OPEN, "OPEN");
    (FUSE_READ, "READ");
    (FUSE_WRITE, "WRITE");
    (FUSE_STATFS, "STATFS");
    (FUSE_RELEASE, "RELEASE");
    (FUSE_FSYNC, "FSYNC");
    (FUSE_SETXATTR, "SETXATTR");
    (FUSE_GETXATTR, "GETXATTR");
    (FUSE_LISTXATTR, "LISTXATTR");
    (FUSE_REMOVEXATTR, "REMOVEXATTR");
    (FUSE_FLUSH, "FLUSH");
    (FUSE_INIT, "INIT");
    (FUSE_OPENDIR, "OPENDIR");
    (FUSE_READDIR, "READDIR");
    (FUSE_RELEASEDIR, "RELEASEDIR");
    (FUSE_FSYNCDIR, "FSYNCDIR");
    (FUSE_FALLOCATE, "FALLOCATE");
    (FUSE_RENAME2, "RENAME2");
    (FUSE_STATX, "STATX");
    (FUSE_LOOKUP_ROOT, "LOOKUP_ROOT");
    (FUSE_LOOKUPX, "LOOKUPX");
    (FUSE_MKOBJX, "MKOBJX");
    (FUSE_SETSTATX, "SETSTATX");
    (FUSE_COMPOUND, "COMPOUND") ].

(** The [switch]: the first case that matches, else its default. *)
Fixpoint switch_name (cases : list (fuse_opcode * string)) (op : Z) : string :=
  match cases with
  | [] => "?"
  | (o, name) :: cases' => if op =? opcode_value o then name else switch_name cases' op
  end.

Definition opcode_name : Z -> string := switch_name named_opcodes.

(** ** The handler with its output *)

(** What one subrequest adds: a comma unless it is the first, its name, and its
    dependency. *)
Definition sub_text (log : bool) (req : fuse_compound_req_in) (h : fuse_in_header)
    (produced : list Z) : string :=
  if log then
    (if bool_decide (produced = []) then "" else ",") +:+
    opcode_name (in_header_opcode h) +:+
    (if compound_req_in_dep_index req =? FUSE_COMPOUND_NO_DEP then ""
     else "^" +:+ pretty (compound_req_in_dep_index req))
  else "".

Definition newline : string := String (Ascii.ascii_of_nat 10) "".

Definition opening (log : bool) : string := if log then "[fex] compound [" else "".
Definition closing (log : bool) : string := if log then "]" +:+ newline else "".

Section Traced.
Context {S : Type}.
Variable log : bool.
Variable dispatch_rec : handler S.

Fixpoint traced_loop (fuel : nat) (body : bytes) (p : Z) (out_p : Z) (produced : list Z)
    (w : world S) (r : Replier) : string * outcome (world S * Replier) :=
  if zlen body <=? p then (closing log, Done (w, with_reply r 0 out_p)) else
  match fuel with
  | O => ("", Fault DepthExceeded)
  | Datatypes.S fuel' =>
      if (zlen body - p <? compound_hdrs) || (r_cap r <? out_p + sizeof fuse_out_header)
      then ("", fail w r EINVAL) else
      match load fuse_compound_req_in body p,
            load fuse_in_header body (p + sizeof fuse_compound_req_in) with
      | Done sub_req, Done sub_h =>
          let p := p + compound_hdrs in
          if (in_header_len sub_h <? sizeof fuse_in_header)
             || (zlen body - p <? in_header_len sub_h - sizeof fuse_in_header)
          then ("", fail w r EINVAL) else
          let sub_len := in_header_len sub_h - sizeof fuse_in_header in
          let said := sub_text log sub_req (propagate_nodeid sub_req produced sub_h) produced in
          match slice body p sub_len with
          | Fault f => (said, Fault f)
          | Done sub_body =>
              match compound_sub dispatch_rec sub_req sub_h sub_body out_p produced w r with
              | Fault f => (said, Fault f)
              | Done (w, out, prod, oh_len) =>
                  let '(text, res) := traced_loop fuel' body (p + sub_len) (out_p + oh_len)
                                        (produced ++ [prod]) w (with_out r out) in
                  (said +:+ text, res)
              end
          end
      | Fault f, _ => ("", Fault f)
      | _, Fault f => ("", Fault f)
      end
  end.

Definition traced_compound (body : bytes) (w : world S) (r : Replier) :
    string * outcome (world S * Replier) :=
  if (zlen body <? sizeof fuse_compound_in) || (r_cap r <? sizeof fuse_compound_out)
  then ("", fail w r EINVAL) else
  match store (r_out r) 0 (zero_bytes (sizeof fuse_compound_out)) with
  | Fault f => ("", Fault f)
  | Done out =>
      let '(text, res) := traced_loop (length body) body (sizeof fuse_compound_in)
                            (sizeof fuse_compound_out) [] w (with_out r out) in
      (opening log +:+ text, res)
  end.
End Traced.

(** ** What the line says *)

Definition sub_item (s : subrequest) : string :=
  opcode_name (in_header_opcode (sub_header s)) +:+
  (if compound_req_in_dep_index (sub_req s) =? FUSE_COMPOUND_NO_DEP then ""
   else "^" +:+ pretty (compound_req_in_dep_index (sub_req s))).

(** The items of a line, separated by commas. *)
Definition sub_items (subs : list subrequest) : string :=
  String.concat "," (map sub_item subs).

(** The rest of a line on which [produced] subrequests have been named. *)
Definition items_after (produced : list Z) (subs : list subrequest) : string :=
  match subs with
  | [] => ""
  | _ => (if bool_decide (produced = []) then "" else ",") +:+ sub_items subs
  end.

(** ** Lemmas *)

Lemma string_app_assoc (a b c : string) : (a +:+ b) +:+ c = a +:+ (b +:+ c).
Proof. induction a as [|x a IH]; [done|]. exact (f_equal (String x) IH). Qed.

Lemma string_app_nil (a : string) : a +:+ "" = a.
Proof. induction a as [|x a IH]; [done|]. exact (f_equal (String x) IH). Qed.

Lemma propagate_nodeid_opcode q produced h :
  in_header_opcode (propagate_nodeid q produced h) = in_header_opcode h.
Proof. unfold propagate_nodeid. by case_if. Qed.

Lemma items_after_cons s subs produced prod :
  items_after produced (s :: subs) =
    sub_text true (sub_req s) (propagate_nodeid (sub_req s) produced (sub_header s)) produced
    +:+ items_after (produced ++ [prod]) subs.
Proof.
  unfold items_after, sub_text, sub_items. rewrite propagate_nodeid_opcode, string_app_assoc.
  f_equal. rewrite bool_decide_false by (by destruct produced). fold (sub_item s).
  destruct subs as [|s' subs]; cbn [map String.concat]; [by rewrite string_app_nil|done].
Qed.

Lemma traced_loop_result {S} log (rec : handler S) fuel body p out_p produced w r :
  snd (traced_loop log rec fuel body p out_p produced w r) =
    compound_loop rec fuel body p out_p produced w r.
Proof.
  revert p out_p produced w r. induction fuel as [|fuel IH]; intros; cbn [traced_loop compound_loop].
  { by case_if. }
  case_if; [done|]. case_if; [done|]. destruct (load _ body p) as [q|]; [|done]. cbn [obind].
  destruct (load _ body _) as [h|]; [|done]. cbn [obind]. case_if; [done|].
  destruct (slice body _ _) as [b|]; [|done]. cbn [obind].
  destruct (compound_sub _ _ _ _ _ _ _ _) as [[[[w1 out] prod] n]|]; [|done]. cbn [obind].
  rewrite <- IH. by destruct (traced_loop _ _ _ _ _ _ _ _ _).
Qed.

Lemma traced_compound_result {S} log (rec : handler S) h body w r :
  snd (traced_compound log rec body w r) = handle_compound rec h body w r.
Proof.
  unfold traced_compound, handle_compound. case_if; [done|].
  destruct (store _ _ _) as [out|]; [|done]. cbn [obind]. rewrite <- (traced_loop_result log).
  by destruct (traced_loop _ _ _ _ _ _ _ _ _).
Qed.

Lemma traced_loop_quiet {S} (rec : handler S) fuel body p out_p produced w r :
  fst (traced_loop false rec fuel body p out_p produced w r) = "".
Proof.
  revert p out_p produced w r. induction fuel as [|fuel IH]; intros; cbn [traced_loop]; [by case_if|].
  case_if; [done|]. case_if; [done|]. destruct (load _ body p) as [q|]; [|done].
  destruct (load _ body _) as [h|]; [|done]. case_if; [done|].
  destruct (slice body _ _) as [b|]; [|done].
  destruct (compound_sub _ _ _ _ _ _ _ _) as [[[[w1 out] prod] n]|]; [|done].
  specialize (IH (p + compound_hdrs + (in_header_len h - sizeof fuse_in_header)) (out_p + n)
    (produced ++ [prod]) w1 (with_out r out)).
  destruct (traced_loop _ _ _ _ _ _ _ _ _) as [text res]. cbn [fst] in *. by subst.
Qed.

(** A line is finished if the compound is answered; if it is refused the
    subrequests it had room for are named. *)
Definition line_of (start : list Z) (subs : list subrequest) (r' : Replier) (text : string) : Prop :=
  (r_neg_err r' = 0 /\ text = items_after start subs +:+ closing true) \/
  (r_neg_err r' <> 0 /\ exists k, (k < length subs)%nat /\ text = items_after start (take k subs)).

Lemma traced_loop_line {S} (rec : handler S) subs :
  Forall sub_wf subs -> forall fuel pre out_p produced w r text w' r',
  traced_loop true rec fuel (pre ++ concat (map sub_wire subs)) (zlen pre) out_p produced w r
    = (text, Done (w', r')) ->
  line_of produced subs r' text.
Proof.
  induction 1 as [|s subs Hs Hsubs IH]; intros fuel pre out_p produced w r text w' r' E.
  { cbn [map concat] in E. rewrite app_nil_r in E.
    destruct fuel; cbn [traced_loop] in E; (case_if_in E; [|lia]; injection E as <- <- <-; by left). }
  cbn [map concat] in E. pose proof (zlen_sub_wire s) as Hw. rewrite compound_hdrs_val in Hw.
  destruct fuel as [|fuel]; cbn [traced_loop] in E; (case_if_in E; [zls|]); [done|].
  assert (Hfail : (text, Done (w', r')) = ("", @fail S w r EINVAL) ->
                  line_of produced (s :: subs) r' text).
  { intros [= -> _ ->]. right. split; [done|]. exists 0%nat. split; [cbn; lia|done]. }
  case_if_in E; [by apply Hfail|].
  destruct (sub_wire_parse pre s (concat (map sub_wire subs)) Hs) as (Hq & Hh & Hb).
  rewrite Hq, Hh in E. case_if_in E; [by apply Hfail|]. rewrite Hb in E.
  destruct (compound_sub _ _ _ _ _ _ _ _) as [[[[w1 out] prod] n]|]; [|done].
  destruct (traced_loop _ _ _ _ _ _ _ _ _) as [rest res] eqn:Er. apply pair_equal_spec in E as [<- ->].
  rewrite app_assoc in Er. pose proof Hs as (_ & _ & Hl & _).
  replace (zlen pre + compound_hdrs + _) with (zlen (pre ++ sub_wire s)) in Er
    by (rewrite zlen_app, zlen_sub_wire; lia).
  destruct (IH _ _ _ _ _ _ _ _ _ Er) as [[H0 ->]|[H0 (k & Hk & ->)]].
  - left. split; [done|]. by rewrite (items_after_cons _ _ _ prod), string_app_assoc.
  - right. split; [done|]. exists (Datatypes.S k). cbn [length take].
    split; [lia|]. by rewrite (items_after_cons _ _ _ prod).
Qed.

(** ** Theorems *)

(** Debugging changes nothing but the output: with and without [FEX_DEBUG] a
    compound is handled as [handle_compound] does it, and without the variable,
    or with its value starting with 0, nothing is printed. *)
Theorem tracing_is_passive {S} FEX_DEBUG (rec : handler S) h body w r :
  snd (traced_compound (debug_enabled FEX_DEBUG) rec body w r) = handle_compound rec h body w r /\
  (debug_enabled FEX_DEBUG = false ->
   fst (traced_compound (debug_enabled FEX_DEBUG) rec body w r) = "").
Proof.
  split; [apply traced_compound_result|]. intros ->. unfold traced_compound. case_if; [done|].
  destruct (store _ _ _) as [out|]; [|done].
  pose proof (traced_loop_quiet rec (length body) body (sizeof fuse_compound_in)
    (sizeof fuse_compound_out) [] w (with_out r out)) as Hq.
  destruct (traced_loop _ _ _ _ _ _ _ _ _) as [text res]. cbn [fst] in *. by subst.
Qed.

(** The log line of a compound. On any list of well-formed subrequests the
    handler that prints answers as the dispatcher does; if the compound is
    answered, its line is the names of all subrequests in order, each with the
    index it depends on; if the room for replies ends, the line names the ones
    served and is left without its end. *)
Theorem compound_line {S} (fs : Filesystem S) (LFS : LawfulFs fs) h c subs w r :
  replier_ok r -> sizeof fuse_compound_out <= r_cap r < 2 ^ 32 ->
  opcode_is h FUSE_COMPOUND = true -> Forall sub_wf subs ->
  exists text w' r',
    traced_compound true (dispatch_depth fs 1) (compound_wire c subs) w r = (text, Done (w', r')) /\
    dispatch fs h (compound_wire c subs) w r = Done (w', r') /\
    (r_neg_err r' = 0 ->
     text = "[fex] compound [" +:+ sub_items subs +:+ "]" +:+ newline) /\
    (r_neg_err r' <> 0 ->
     exists k, (k < length subs)%nat /\ text = "[fex] compound [" +:+ sub_items (take k subs)).
Proof.
  intros Hr Hc Ho Hsubs.
  destruct (compound_refines_core fs h c subs w r) as (w' & res & r' & _ & Hd & _); [done..|].
  assert (Hh : handle_compound (dispatch_depth fs 1) h (compound_wire c subs) w r = Done (w', r')).
  { rewrite <- Hd. unfold dispatch.
    change (dispatch_depth fs 2) with (dispatch_body fs (dispatch_depth fs 1)).
    rewrite (dispatch_case fs _ h FUSE_COMPOUND (handle_compound (dispatch_depth fs 1))); [done| |done].
    unfold handler_table. do 26 apply list_elem_of_further. apply list_elem_of_here. }
  rewrite <- (traced_compound_result true) in Hh.
  destruct (traced_compound _ _ _ _ _) as [text o] eqn:Et. cbn [snd] in Hh. subst o.
  exists text, w', r'. split; [done|]. split; [done|].
  unfold traced_compound, compound_wire in Et. case_if_in Et; [zls|].
  destruct (store _ _ _) as [out|]; [|done].
  destruct (traced_loop _ _ _ _ _ _ _ _ _) as [rest o] eqn:El. injection Et as <- ->.
  rewrite <- (zlen_encode c) in El at 1.
  destruct (traced_loop_line _ _ Hsubs _ _ _ _ _ _ _ _ _ El) as [[H0 ->]|[H0 (k & Hk & ->)]].
  - split; [|done]. intros _. cbn [opening]. f_equal. by destruct subs.
  - split; [done|]. intros _. exists k. split; [done|]. cbn [opening]. f_equal.
    by destruct (take k subs).
Qed.

(** Names tell opcodes apart, and every opcode the dispatcher serves has one,
    except BATCH_FORGET. *)
Theorem opcode_names_apart {S} (fs : Filesystem S) (rec : handler S) :
  NoDup (map snd named_opcodes) /\
  filter (fun o => opcode_name (opcode_value o) = "?") (map fst (handler_table fs rec))
    = [FUSE_BATCH_FORGET].
Proof. split; [|reflexivity]. apply (bool_decide_unpack _). vm_compute. exact I. Qed.

(** ** Examples *)

Lemma compound_line_witness :
  exists text w' r',
    traced_compound true (dispatch_depth (demo_fs [Byte.x61]) 1)
      (compound_wire demo_compound_in demo_subs) (demo_world []) (demo_replier 500)
      = (text, Done (w', r')) /\
    (r_neg_err r' = 0 -> text = "[fex] compound [LOOKUPX,STATX^0]" +:+ newline).
Proof.
  destruct (compound_line (demo_fs [Byte.x61]) (demo_fs_lawful _) (demo_header FUSE_COMPOUND 0 0)
    demo_compound_in demo_subs (demo_world []) (demo_replier 500)) as (text & w' & r' & E & _ & Ht & _).
  - split; reflexivity.
  - split; [discriminate|reflexivity].
  - reflexivity.
  - exact demo_subs_wf.
  - exists text, w', r'. split; [exact E|exact Ht].
Defined.

(** A compound with no room for its second reply: the line stays open. *)
Example refused_line_stays_open :
  fst (traced_compound true (dispatch_depth (demo_fs [Byte.x61]) 1)
         (compound_wire demo_compound_in demo_subs) (demo_world []) (demo_replier 40))
  = "[fex] compound [LOOKUPX".
Proof. vm_compute. reflexivity. Qed.
