(* ===== verification/Refusals.v ===== *)
(** * Bodies that are no request

    A body too short for the argument of its opcode, a name without its NUL, a
    length field that exceeds the body, an opcode the library does not speak:
    the dispatcher answers with an errno and no callback of the daemon runs. *)

From S2P Require Import Prelude Memory Pod Abi Types DirentWriter Filesystem Replier Handlers.
From S2P Require Import HandlerSafety Request.

(** ** Classification *)

(** The bytes a body must have for its opcode's fixed part, a terminator for
    each name included. *)
Definition min_body (o : fuse_opcode) (h : fuse_in_header) : Z :=
  match o with
  | FUSE_INIT => ext_bytes h + sizeof fuse_init_in
  | FUSE_LOOKUPX | FUSE_UNLINK | FUSE_RMDIR => 1
  | FUSE_FORGET => ext_bytes h + sizeof fuse_forget_in
  | FUSE_BATCH_FORGET => ext_bytes h + sizeof fuse_batch_forget_in
  | FUSE_STATX => ext_bytes h + sizeof fuse_statx_in
  | FUSE_SETSTATX => ext_bytes h + sizeof fuse_setstatx_in
  | FUSE_MKOBJX => ext_bytes h + sizeof fuse_mkobjx_in
  | FUSE_RENAME2 => ext_bytes h + sizeof fuse_rename2_in + 2
  | FUSE_LINK => ext_bytes h + sizeof fuse_link_in + 1
  | FUSE_READ | FUSE_READDIR => ext_bytes h + sizeof fuse_read_in
  | FUSE_WRITE => ext_bytes h + sizeof fuse_write_in
  | FUSE_FALLOCATE => ext_bytes h + sizeof fuse_fallocate_in
  | FUSE_OPEN => ext_bytes h + sizeof fuse_open_in
  | FUSE_RELEASE | FUSE_RELEASEDIR => ext_bytes h + sizeof fuse_release_in
  | FUSE_GETXATTR => ext_bytes h + sizeof fuse_getxattr_in + 1
  | FUSE_SETXATTR => ext_bytes h + sizeof fuse_setxattr_in + 1
  | FUSE_LISTXATTR => ext_bytes h + sizeof fuse_getxattr_in
  | FUSE_COMPOUND => sizeof fuse_compound_in
  | _ => 0
  end.

(** Where the name of a request starts, for the opcodes that scan for its end. *)
Definition name_offset (o : fuse_opcode) (h : fuse_in_header) : option Z :=
  match o with
  | FUSE_LOOKUPX | FUSE_UNLINK | FUSE_RMDIR => Some 0
  | FUSE_RENAME2 => Some (ext_bytes h + sizeof fuse_rename2_in)
  | FUSE_LINK => Some (ext_bytes h + sizeof fuse_link_in)
  | FUSE_GETXATTR => Some (ext_bytes h + sizeof fuse_getxattr_in)
  | FUSE_SETXATTR => Some (ext_bytes h + sizeof fuse_setxattr_in)
  | FUSE_REMOVEXATTR => Some (ext_bytes h)
  | _ => None
  end.

(** ** Lemmas *)

Section Refusals.
Context {S : Type} (fs : Filesystem S).
Implicit Types (w : world S) (r : Replier).

Definition refused (hd : handler S) (h : fuse_in_header) (body : bytes) : Prop :=
  forall w r, hd h body w r = Done (w, reply_error r EINVAL).

Lemma dispatch_opcode h o hd body w r :
  (o, hd) ∈ handler_table fs (dispatch_depth fs 1) -> opcode_is h o = true ->
  dispatch fs h body w r = hd h body w r.
Proof. apply dispatch_case. Qed.

(** The switch entry of an opcode with a fixed part. *)
Lemma truncated_case o h body :
  zlen body < min_body o h ->
  exists hd, (o, hd) ∈ handler_table fs (dispatch_depth fs 1) /\ refused hd h body.
Proof.
  intros Hl. pose proof (zlen_nonneg body). pose proof sizeof_statx_off.
  destruct o; cbn [min_body] in Hl; try lia; eexists;
    (split; [unfold handler_table; repeat first [apply list_elem_of_here | apply list_elem_of_further]|]);
    intros w r;
    cbv delta [handle_init handle_lookupx handle_forget handle_batch_forget handle_statx
      handle_setstatx handle_mkobjx handle_unlink handle_rename2 handle_link handle_read
      handle_write handle_fallocate handle_open handle_release handle_releasedir handle_readdir
      handle_getxattr handle_setxattr handle_listxattr handle_compound] beta zeta;
    first [by rewrite in_arg_short | case_if; [done|slia]].
Qed.

(** A scan that meets no NUL runs to the end of the body. *)
Lemma strnlen_unterminated body off :
  0 <= off <= zlen body -> no_nul (drop (Z.to_nat off) body) ->
  strnlen body off (zlen body - off) = Done (zlen body - off).
Proof.
  intros Ho Hn. rewrite <- (take_drop (Z.to_nat off) body) at 1.
  replace (zlen body - off) with (zlen (drop (Z.to_nat off) body)) by zl.
  apply strnlen_no_nul; [done|zl].
Qed.

Lemma unterminated_case o h body off :
  in_range h -> zlen body < 2 ^ 63 -> name_offset o h = Some off -> off <= zlen body ->
  no_nul (drop (Z.to_nat off) body) ->
  exists hd, (o, hd) ∈ handler_table fs (dispatch_depth fs 1) /\ refused hd h body.
Proof.
  intros Hh%ext_bytes_bounds Hb Hoff Hlen Hn. pose proof (zlen_nonneg body).
  assert (Hs := fun Ho => strnlen_unterminated body off Ho Hn).
  destruct o; cbn [name_offset] in Hoff; simplify_eq; eexists;
    (split; [unfold handler_table; repeat first [apply list_elem_of_here | apply list_elem_of_further]|]);
    intros w r;
    cbv delta [handle_lookupx handle_unlink handle_rename2 handle_link handle_getxattr
      handle_setxattr handle_removexattr] beta zeta;
    try (case_if; [done|]); rewrite ?load_Done by slia; cbn [obind];
    rewrite ?wrapu_small by lia; rewrite ?Z.sub_0_r in Hs; rewrite Hs by slia; cbn [obind];
    by rewrite Z.eqb_refl.
Qed.

(** A length field that promises more bytes than follow. *)
Inductive overstated : fuse_opcode -> bytes -> bytes -> Prop :=
| over_write ext i data :
    in_range i -> zlen data < write_in_size i ->
    overstated FUSE_WRITE ext (ext ++ encode i ++ data)
| over_setxattr ext i name value :
    in_range i -> no_nul name -> zlen value < setxattr_in_size i ->
    overstated FUSE_SETXATTR ext (ext ++ encode i ++ cstring name ++ value)
| over_mkobjx i rest :
    in_range i -> zlen rest < mkobjx_in_namesize i ->
    overstated FUSE_MKOBJX [] (encode i ++ rest)
| over_batch_forget i items :
    in_range i -> zlen items < batch_forget_in_count i * sizeof fuse_forget_one ->
    overstated FUSE_BATCH_FORGET [] (encode i ++ items).

(** BATCH_FORGET has no error reply: a truncated batch is dropped. *)
Definition overstated_reply (o : fuse_opcode) (r : Replier) : Replier :=
  match o with
  | FUSE_BATCH_FORGET => reply_ok r
  | _ => reply_error r EINVAL
  end.

Lemma overstated_case o ext h body :
  overstated o ext body -> ext_bytes h = zlen ext ->
  exists hd, (o, hd) ∈ handler_table fs (dispatch_depth fs 1) /\
    forall w r, hd h body w r = Done (w, overstated_reply o r).
Proof.
  intros Ho He. destruct Ho as [ext i data Hi Hs|ext i name value Hi Hn Hs|i rest Hi Hs|i items Hi Hs];
    eexists; (split; [unfold handler_table;
      repeat first [apply list_elem_of_here | apply list_elem_of_further]|]); intros w r.
  - unfold handle_write. rewrite He. case_if; [done|]. rewrite load_encode by done. cbn [obind].
    case_if; [done|]. zls.
  - unfold handle_setxattr. rewrite He. case_if; [done|]. rewrite load_encode by done. cbn [obind].
    rewrite app_assoc, strnlen_cstring by (first [done | zls]). cbn [obind].
    case_if; [done|]. case_if; [done|]. zls.
  - unfold handle_mkobjx. cbv zeta. destruct sizeof_statx_off as (-> & ? & _ & ? & ?). rewrite He.
    case_if; [done|]. change (encode i ++ rest) with ([] ++ encode i ++ rest).
    rewrite load_encode by done. cbn [obind app].
    rewrite load_Done by zls. cbn [obind]. case_if; [done|]. zls.
  - change (encode i ++ items) with ([] ++ encode i ++ items).
    unfold handle_batch_forget. rewrite in_arg_encode by done. cbn [obind app].
    case_if; [done|]. zls.
Qed.
End Refusals.

(** ** Theorems *)

(** C35: truncated requests. A body shorter than the fixed part of its opcode is
    answered with EINVAL, and neither the session nor the daemon changes. *)
Theorem truncated_request_refused {S} (fs : Filesystem S) o h body w r :
  opcode_is h o = true -> zlen body < min_body o h ->
  dispatch fs h body w r = Done (w, reply_error r EINVAL).
Proof.
  intros Ho Hl. destruct (truncated_case fs o h body Hl) as (hd & Hin & Hd).
  by rewrite (dispatch_opcode fs h o hd) by done.
Qed.

(** Unterminated names. A request whose name has no NUL before the end of
    the body is answered with EINVAL, and nothing changes: the daemon never
    sees a name that runs past the request. *)
Theorem unterminated_name_refused {S} (fs : Filesystem S) o h body off w r :
  opcode_is h o = true -> in_range h -> zlen body < 2 ^ 63 ->
  name_offset o h = Some off -> off <= zlen body -> no_nul (drop (Z.to_nat off) body) ->
  dispatch fs h body w r = Done (w, reply_error r EINVAL).
Proof.
  intros Ho Hh Hb Hoff Hl Hn.
  destruct (unterminated_case fs o h body off Hh Hb Hoff Hl Hn) as (hd & Hin & Hd).
  by rewrite (dispatch_opcode fs h o hd) by done.
Qed.

(** Overstated lengths. A WRITE, SETXATTR or MKOBJX whose length field
    promises more bytes than the body has is answered with EINVAL, a
    BATCH_FORGET with an empty reply; in each case no callback runs. *)
Theorem overstated_length_refused {S} (fs : Filesystem S) o ext h body w r :
  overstated o ext body -> ext_bytes h = zlen ext -> opcode_is h o = true ->
  dispatch fs h body w r = Done (w, overstated_reply o r).
Proof.
  intros Hov He Ho. destruct (overstated_case fs o ext h body Hov He) as (hd & Hin & Hd).
  by rewrite (dispatch_opcode fs h o hd) by done.
Qed.

(** Unknown opcodes. An opcode outside the switch is answered with ENOSYS
    whatever the body, and nothing changes. *)
Theorem unknown_opcode_enosys {S} (fs : Filesystem S) h body w r :
  Forall (fun o => opcode_is h o = false) (map fst (handler_table fs (dispatch_depth fs 1))) ->
  dispatch fs h body w r = Done (w, reply_error r ENOSYS).
Proof.
  intros Hall. unfold dispatch.
  change (dispatch_depth fs 2) with (dispatch_body fs (dispatch_depth fs 1)). unfold dispatch_body.
  induction (handler_table fs (dispatch_depth fs 1)) as [|[o hd] cases IH]; [done|].
  inversion_clear Hall as [|? ? Ho Hcases]. cbn [switch]. cbn [fst] in Ho. rewrite Ho. auto.
Qed.

Lemma truncated_request_refused_witness :
  dispatch (demo_fs []) (demo_header FUSE_READ 1 0) (zero_bytes 39) (demo_world [])
    (demo_replier 64) = Done (demo_world [], reply_error (demo_replier 64) EINVAL).
Proof. apply (truncated_request_refused _ FUSE_READ); reflexivity. Defined.

Lemma unterminated_name_refused_witness :
  dispatch (demo_fs []) (demo_header FUSE_GETXATTR 1 0) (zero_bytes 8 ++ [Byte.x61; Byte.x62])
    (demo_world []) (demo_replier 64)
  = Done (demo_world [], reply_error (demo_replier 64) EINVAL).
Proof.
  apply (unterminated_name_refused _ FUSE_GETXATTR _ _ 8).
  - reflexivity.
  - demo_range.
  - reflexivity.
  - reflexivity.
  - vm_compute. discriminate.
  - repeat constructor.
Defined.

Lemma overstated_length_refused_witness :
  dispatch (demo_fs []) (demo_header FUSE_WRITE 1 0)
    (encode (write_arg 0 0 5) ++ [Byte.x61; Byte.x62]) (demo_world []) (demo_replier 64)
  = Done (demo_world [], reply_error (demo_replier 64) EINVAL).
Proof.
  apply (overstated_length_refused _ FUSE_WRITE []).
  - apply (over_write [] (write_arg 0 0 5)); [demo_range|reflexivity].
  - reflexivity.
  - reflexivity.
Defined.

Lemma unknown_opcode_enosys_witness :
  dispatch (demo_fs []) (demo_header FUSE_GETATTR 1 0) [] (demo_world []) (demo_replier 64)
  = Done (demo_world [], reply_error (demo_replier 64) ENOSYS).
Proof. apply unknown_opcode_enosys. repeat constructor. Defined.
