(* ===== verification/Negotiation.v ===== *)
(** * The INIT handshake and the conversions of statx data

    What INIT offers the daemon and tells the kernel, and that statx data and
    durations survive their way through the wire structs. *)

From S2P Require Import Prelude Memory Pod Abi Types DirentWriter Filesystem Replier Handlers.
From S2P Require Import HandlerSafety Request Refusals.

(** ** Lemmas *)

Lemma split_duration_spec d sec nsec :
  0 <= d < 2 ^ 63 -> split_duration d = (sec, nsec) ->
  seconds sec + nsec = d /\ 0 <= nsec < 1000000000 /\ 0 <= sec < 2 ^ 34.
Proof.
  intros Hd. unfold split_duration, seconds. case_if; [lia|].
  rewrite Z.quot_div_nonneg, Z.rem_mod_nonneg by lia.
  assert (0 <= d / 1000000000 < 2 ^ 34) by (Z.to_euclidean_division_equations; lia).
  assert (0 <= d mod 1000000000 < 1000000000) by (apply Z.mod_pos_bound; lia).
  rewrite !cast_id by fits_lia. intros [= <- <-]. split; [|lia].
  rewrite (Z.div_mod d 1000000000) at 3; lia.
Qed.

Lemma pack_time_range t : Timespec_ok t -> Forall2 fits [I64; U32; U32] (to_fields (pack_time t)).
Proof. intros [? ?]. repeat (apply Forall2_cons_2; [try done; fits_lia|]). apply Forall2_nil_2. Qed.

Lemma pack_statx_range st d :
  StatxOut_ok st -> 0 <= d < 2 ^ 63 -> in_range (pack_statx st d).
Proof.
  intros Hst Hd. unfold pack_statx. destruct (split_duration d) as [sec nsec] eqn:Es.
  apply split_duration_spec in Es as (_ & ? & ?); [|done].
  unfold StatxOut_ok, Timespec_ok in Hst. destruct_and! Hst. split_in_range; fits_lia.
Qed.

Lemma init_out_flags_split f :
  0 <= f < 2 ^ 64 ->
  Z.lor (cast U32 (Z.land f 0xffffffff)) (Z.shiftl (cast U32 (Z.shiftr f 32)) 32) = f.
Proof.
  intros Hf. change 0xffffffff with (Z.ones 32). rewrite Z.land_ones by lia.
  rewrite Z.shiftr_div_pow2 by lia.
  rewrite !cast_id by (autorewrite with fits; Z.to_euclidean_division_equations; lia).
  rewrite <- (Z.land_ones f 32), <- Z.shiftr_div_pow2 by lia. apply Z.bits_inj'. intros n Hn.
  rewrite Z.lor_spec, Z.land_spec, Z.shiftl_spec by done.
  destruct (Z.lt_ge_cases n 32).
  - rewrite Z.ones_spec_low, (Z.testbit_neg_r _ (n - 32)) by lia.
    by rewrite andb_true_r, orb_false_r.
  - rewrite Z.ones_spec_high, Z.shiftr_spec by lia. rewrite andb_false_r. simpl. f_equal. lia.
Qed.

(** The members of an [InitInfo] that the reply carries hold values of their
    types. *)
Definition InitInfo_ok (info : InitInfo) : Prop :=
  fits U64 (ii_flags info) /\ fits U32 (ii_max_write info) /\ fits U16 (ii_max_pages info) /\
  fits U32 (ii_time_gran info).

Lemma over_io_uring_fits f : fits U64 f -> 0 <= Z.lor f FUSE_OVER_IO_URING < 2 ^ 64.
Proof.
  intros Hf. assert (H0 : 0 <= Z.lor f FUSE_OVER_IO_URING) by (apply Z.lor_nonneg; split; [fits_lia|done]).
  split; [done|]. destruct (Z.eq_dec (Z.lor f FUSE_OVER_IO_URING) 0) as [->|]; [done|].
  apply Z.log2_lt_pow2; [lia|]. rewrite Z.log2_lor by (first [fits_lia | done]).
  destruct (Z.eq_dec f 0) as [->|]; [done|]. apply Z.max_lub_lt; [|done].
  apply Z.log2_lt_pow2; fits_lia.
Qed.

Lemma init_reply_range i info : in_range i -> InitInfo_ok info -> in_range (init_reply i info).
Proof.
  intros Hi (? & ? & ? & ?). range_fields Hi. unfold init_reply.
  split_in_range; unfold FUSE_KERNEL_VERSION, FUSE_KERNEL_MINOR_VERSION; fits_lia.
Qed.

(** ** Theorems *)

(** C32: INIT negotiation. When the kernel offers io_uring and the daemon accepts
    with the kernel's major version, the session is marked initialised, the
    daemon saw the kernel's version, flags and readahead, and the reply
    carries: the library's major version, the smaller of the two minor
    versions, the limits the daemon settled on, and a 64-bit flag set that is
    the daemon's with io_uring forced on, whatever the daemon did to it. *)
Theorem init_negotiated {S} (fs : Filesystem S) h i w r info s :
  replier_ok r -> sizeof fuse_init_out <= r_cap r -> opcode_is h FUSE_INIT = true ->
  ext_bytes h = 0 -> in_range i -> Z.testbit (init_in_flags2 i) 9 = true ->
  fs_init fs (init_offer (impl_opts (w_impl w)) i) (w_fs w) = (Value tt, info, s) ->
  ii_kernel_major info = FUSE_KERNEL_VERSION -> InitInfo_ok info ->
  exists w' r', dispatch fs h (encode i) w r = Done (w', r') /\
    w_fs w' = s /\ impl_init_done (w_impl w') = true /\
    r_neg_err r' = 0 /\ r_len r' = sizeof fuse_init_out /\
    let o := decode (T:=fuse_init_out) (take (Z.to_nat (r_len r')) (r_out r')) in
    init_out_major o = FUSE_KERNEL_VERSION /\
    init_out_minor o = Z.min (init_in_minor i) FUSE_KERNEL_MINOR_VERSION /\
    init_out_max_write o = ii_max_write info /\ init_out_max_pages o = ii_max_pages info /\
    Z.lor (init_out_flags o) (Z.shiftl (init_out_flags2 o) 32)
      = Z.lor (ii_flags info) FUSE_OVER_IO_URING.
Proof.
  intros Hr Hc Ho He Hi Hbit Hinit Hmaj Hok.
  rewrite (dispatch_opcode fs h FUSE_INIT (handle_init fs)) by (first [done | apply list_elem_of_here]).
  destruct (init_refines fs i h [] w r) as (r' & Hd & _ & _ & _ & Hans);
    [done|by rewrite He|by left|reflexivity|done|].
  cbn [serve] in Hd, Hans. unfold serve_init in Hd, Hans. rewrite Hbit, Hinit in Hd, Hans.
  rewrite Hmaj, Z.eqb_refl in Hd, Hans. eexists _, r'. split; [exact Hd|].
  cbn [fst snd] in *. rewrite zlen_encode in Hans. case_if_in Hans; [slia|].
  destruct Hans as (Herr & Hl & Ht). do 4 (split; [done|]). rewrite Ht.
  rewrite decode_encode by (by apply init_reply_range). destruct Hok as (Hf & _).
  do 4 (split; [done|]). cbn [init_reply init_out_flags init_out_flags2].
  by apply init_out_flags_split, over_io_uring_fits.
Qed.

(** C33: the limits INIT offers. For a ring payload below 4 GiB the daemon is
    offered at most 1 MiB and at most the payload as [max_write], and the pages
    that cover the payload, at most 256, as [max_pages]; these pages exceed the
    payload by less than one page, and not at all when it is a whole number of
    pages. *)
Theorem init_offer_fits_ring opts i :
  0 <= opt_uring_payload_bytes opts < 2 ^ 32 ->
  let p := opt_uring_payload_bytes opts in
  let offer := init_offer opts i in
  ii_max_write offer = Z.min (2 ^ 20) p /\
  ii_max_pages offer = Z.min 256 ((p + 4095) / 4096) /\
  4096 * ii_max_pages offer < p + 4096 /\
  (p mod 4096 = 0 -> 4096 * ii_max_pages offer <= p).
Proof.
  intros Hp p offer. subst p offer. cbn [init_offer ii_max_write ii_max_pages InitInfo_default].
  set (p := opt_uring_payload_bytes opts) in *. rewrite wrapu_small by lia.
  assert (0 <= (p + 4095) / 4096) by (apply Z.div_pos; lia).
  rewrite !cast_id by fits_lia. split; [done|]. split; [done|].
  split; [|intros Hmod]; Z.to_euclidean_division_equations; lia.
Qed.

(** The limits can exceed a ring slot. When the payload is not a whole number
    of pages and below 1 MiB, the pages offered cover more than the payload;
    and the cast to 32 bits turns a payload of 4 GiB into a [max_write] of 0. *)
Theorem init_offer_exceeds_ring opts i :
  let p := opt_uring_payload_bytes opts in
  (0 < p < 2 ^ 20 /\ p mod 4096 <> 0 -> p < 4096 * ii_max_pages (init_offer opts i)) /\
  (p = 2 ^ 32 -> ii_max_write (init_offer opts i) = 0).
Proof.
  cbn [init_offer ii_max_write ii_max_pages InitInfo_default].
  set (p := opt_uring_payload_bytes opts) in *. split.
  - intros [Hp Hm]. rewrite wrapu_small by lia.
    assert (0 <= (p + 4095) / 4096) by (apply Z.div_pos; lia).
    rewrite cast_id by fits_lia. Z.to_euclidean_division_equations; lia.
  - by intros ->.
Qed.

(** C34: statx data survive the wire. The kernel that decodes a statx reply finds
    the validity time of the daemon split into seconds and nanoseconds, every
    attribute of the daemon's [StatxOut] in its field, and nothing in the spare
    fields; and unpacking the embedded struct the way SETSTATX does gives back
    the settable attributes. *)
Theorem statx_roundtrip st d :
  StatxOut_ok st -> 0 <= d < 2 ^ 63 ->
  let o := decode (T:=fuse_statx_out) (encode (pack_statx st d)) in
  let x := statx_out_stat o in
  seconds (statx_out_attr_valid o) + statx_out_attr_valid_nsec o = d /\
  0 <= statx_out_attr_valid_nsec o < 1000000000 /\
  unpack_statx x = {| si_mask := so_mask st; si_mode := so_mode st; si_uid := so_uid st;
                      si_gid := so_gid st; si_size := so_size st; si_atime := so_atime st;
                      si_ctime := so_ctime st; si_mtime := so_mtime st |} /\
  (statx_ino x, statx_nlink x, statx_blksize x, statx_blocks x)
    = (so_ino st, so_nlink st, so_blksize st, so_blocks st) /\
  unpack_time (statx_btime x) = so_btime st /\
  (statx_rdev_major x, statx_rdev_minor x, statx_dev_major x, statx_dev_minor x)
    = (so_rdev_major st, so_rdev_minor st, so_dev_major st, so_dev_minor st) /\
  (statx_attributes x, statx_attributes_mask x) = (so_attributes st, so_attributes_mask st) /\
  statx_spare2 x = replicate 14 0.
Proof.
  intros Hst Hd. rewrite decode_encode by (by apply pack_statx_range). unfold pack_statx.
  destruct (split_duration d) as [sec nsec] eqn:Es.
  apply split_duration_spec in Es as (? & ? & _); [|done].
  destruct st as [? ? ? ? ? ? ? ? ? ? ? [] [] [] [] ? ? ? ?].
  split_and!; first [done | simpl; lia].
Qed.

(** SETSTATX does not account for extensions. With one extension word before
    the arguments the handler checks the length and reads the file handle past
    the extension, but the attributes at their offset from the start of the
    body: the daemon is called with an attribute mask of 0 whatever attributes
    were to be set. *)
Theorem setstatx_extension_loses_mask {S} (fs : Filesystem S) h ext fh st w r :
  ext_bytes h = 8 -> zlen ext = 8 -> fits U64 fh -> in_range st ->
  exists si, si_mask si = 0 /\
    handle_setstatx fs h (ext ++ encode (setstatx_arg fh st)) w r =
      let '(rv, s) := fs_setstatx fs (make_ctx h) (in_header_nodeid h) fh si (w_fs w) in
      reply_statx (set_fs w s) r rv.
Proof.
  intros He Hz Hfh Hst. unfold handle_setstatx.
  rewrite in_arg_encode_last by (first [congruence | by apply setstatx_arg_range]). cbn [obind].
  destruct sizeof_statx_off as (_ & _ & Hoff & Hsz & _). rewrite Hoff, Hsz.
  assert (Hsa : sizeof fuse_setstatx_in = 272) by reflexivity.
  case_if; [zl|]. rewrite load_Done by zl. cbn [obind].
  eexists. split; [|reflexivity]. cbn [unpack_statx si_mask setstatx_in_stat]. rewrite Hsz.
  unfold sub_bytes.
  replace (drop (Z.to_nat 16) (ext ++ encode (setstatx_arg fh st))) with
    (enc_scalar U32 0 ++ enc_scalar U32 0 ++ encode st).
  { reflexivity. }
  rewrite drop_app_ge by (unfold zlen in Hz; lia).
  replace (Z.to_nat 16 - length ext)%nat with 8%nat by (unfold zlen in Hz; lia). reflexivity.
Qed.

(** ** Examples *)

Definition demo_init_in : fuse_init_in := {|
  init_in_major := 7; init_in_minor := 50; init_in_max_readahead := 131072;
  init_in_flags := 0; init_in_flags2 := 512; init_in_unused := replicate 11 0 |}.

Definition demo_statx : fuse_statx := statx_out_stat (pack_statx (demo_stat 5) 0).

Lemma demo_stat_ok : StatxOut_ok (demo_stat 5).
Proof. repeat split; vm_compute; congruence. Qed.

Lemma init_negotiated_witness :
  exists w' r', dispatch (demo_fs []) (demo_header FUSE_INIT 0 0) (encode demo_init_in)
      (demo_world []) (demo_replier 64) = Done (w', r') /\
    impl_init_done (w_impl w') = true /\
    init_out_minor (decode (T:=fuse_init_out) (take (Z.to_nat (r_len r')) (r_out r'))) = 46.
Proof.
  destruct (init_negotiated (demo_fs []) (demo_header FUSE_INIT 0 0) demo_init_in (demo_world [])
    (demo_replier 64) (init_offer demo_options demo_init_in) [])
    as (w' & r' & Hd & _ & Hi & _ & _ & _ & Hm & _).
  - split; reflexivity.
  - vm_compute. discriminate.
  - reflexivity.
  - reflexivity.
  - demo_range.
  - reflexivity.
  - reflexivity.
  - reflexivity.
  - repeat split; vm_compute; congruence.
  - exists w', r'. split; [exact Hd|]. split; [exact Hi|exact Hm].
Defined.

Lemma init_offer_fits_ring_witness :
  ii_max_pages (init_offer demo_options demo_init_in) = 2.
Proof.
  destruct (init_offer_fits_ring demo_options demo_init_in) as (_ & Hp & _).
  - vm_compute. split; congruence.
  - exact Hp.
Defined.

Lemma statx_roundtrip_witness :
  statx_ino (statx_out_stat (decode (T:=fuse_statx_out)
    (encode (pack_statx (demo_stat 5) (seconds 1))))) = 5.
Proof.
  destruct (statx_roundtrip (demo_stat 5) (seconds 1)) as (_ & _ & _ & Hx & _).
  - exact demo_stat_ok.
  - vm_compute. split; congruence.
  - exact (f_equal (fun t => fst (fst (fst t))) Hx).
Defined.

Lemma setstatx_extension_loses_mask_witness :
  exists si, si_mask si = 0 /\
    handle_setstatx (demo_fs []) (demo_header FUSE_SETSTATX 1 1)
      (zero_bytes 8 ++ encode (setstatx_arg 0 demo_statx)) (demo_world []) (demo_replier 400) =
      let '(rv, s) := fs_setstatx (demo_fs []) (make_ctx (demo_header FUSE_SETSTATX 1 1)) 1 0 si [] in
      reply_statx (set_fs (demo_world []) s) (demo_replier 400) rv.
Proof.
  apply (setstatx_extension_loses_mask (demo_fs []) (demo_header FUSE_SETSTATX 1 1)).
  - reflexivity.
  - reflexivity.
  - split; [discriminate|reflexivity].
  - demo_range.
Defined.
