(* ===== verification/UringEntry.v ===== *)
(** * One ring entry (src/uring_worker.hpp, src/uring_worker.cpp: handle_one)

    An entry is one buffer, shared with the kernel: a [fuse_uring_req_header]
    (the request or reply header, the first argument, the entry's own header)
    and the payload area. [handle_one] assembles the body of the request that
    landed in it, dispatches it with the payload area as reply buffer, and
    overlays the reply header. The theorems carry the results on [dispatch] to
    the bytes the kernel finds in the entry. *)

From S2P Require Import Prelude Memory Pod Abi Types DirentWriter Filesystem Replier Handlers.
From S2P Require Import HandlerSafety Request Compound.

(** ** Entries *)

(** [e_buf] is [None] while the pointer is null; [e_iov] holds the two segments
    as offsets from [buf] and lengths. *)
Record Entry := {
  e_buf : option bytes;
  e_buf_len : Z;
  e_commit_id : Z;
  e_iov : list (Z * Z);
  e_body_scratch : bytes;
}.

Definition Entry_init : Entry := {|
  e_buf := None; e_buf_len := 0; e_commit_id := 0; e_iov := [(0, 0); (0, 0)];
  e_body_scratch := [] |}.

(** [offsetof(fuse_uring_req_header, ring_ent_in_out.payload_sz)]. *)
Definition payload_sz_off : Z := req_header_ent + 16.

Definition with_request (e : Entry) (buf : bytes) (commit_id : Z) (scratch : bytes) : Entry := {|
  e_buf := Some buf; e_buf_len := e_buf_len e; e_commit_id := commit_id; e_iov := e_iov e;
  e_body_scratch := scratch |}.

(** [if (n) memcpy(dst + off, src + src_off, n)]. *)
Definition copy_in (dst : bytes) (off : Z) (src : bytes) (src_off n : Z) : outcome bytes :=
  if n =? 0 then Done dst else
  let* b := slice src src_off n in
  store dst off b.

(** The reply header over [in_out] and [ring_ent_in_out.payload_sz]. *)
Definition overlay_reply (buf : bytes) (oh : fuse_out_header) (reply_sz : Z) : outcome bytes :=
  let* buf := store buf req_header_in_out (encode oh) in
  store buf payload_sz_off (enc_scalar U32 reply_sz).

(** [in_args[0].size]: what is left of the request after header and payload. *)
Definition first_arg_size (h : fuse_in_header) (payload_sz : Z) : Z :=
  if sizeof fuse_in_header + payload_sz <=? in_header_len h
  then in_header_len h - sizeof fuse_in_header - payload_sz else 0.

Definition entry_replier (out : bytes) (cap : Z) (h : fuse_in_header) : Replier := {|
  r_out := out; r_cap := cap; r_len := 0; r_neg_err := 0; r_unique := in_header_unique h |}.

Section HandleOne.
Context {S : Type} (fs : Filesystem S) (payload_bytes : Z).

(** The result is the entry, the state and the reply's payload size. *)
Definition handle_one (e : Entry) (w : world S) : outcome (Entry * world S * Z) :=
  let* buf := match e_buf e with Some b => Done b | None => Fault OobRead end in
  let* ent := load fuse_uring_ent_in_out buf req_header_ent in
  let commit_id := uring_ent_in_out_commit_id ent in
  let payload_sz := uring_ent_in_out_payload_sz ent in
  let* h_copy := load fuse_in_header buf req_header_in_out in
  let first_arg_sz := first_arg_size h_copy payload_sz in
  let body_len := first_arg_sz + payload_sz in
  let scratch := e_body_scratch e in
  if (FUSE_URING_OP_IN_OUT_SZ <? first_arg_sz) || (zlen scratch <? body_len) then
    let* buf := overlay_reply buf {| out_header_len := sizeof fuse_out_header;
      out_header_error := - EIO; out_header_unique := in_header_unique h_copy |} 0 in
    Done (with_request e buf commit_id scratch, w, 0)
  else
    let* scratch := copy_in scratch 0 buf req_header_op_in first_arg_sz in
    let* scratch := copy_in scratch first_arg_sz buf sizeof_req_header payload_sz in
    let* body := slice scratch 0 body_len in
    let* out := slice buf sizeof_req_header payload_bytes in
    let* (w, r) := dispatch fs h_copy body w (entry_replier out payload_bytes h_copy) in
    let* buf := store buf sizeof_req_header (r_out r) in
    let reply_sz := if r_neg_err r =? 0 then cast U32 (r_len r) else 0 in
    let* buf := overlay_reply buf {|
      out_header_len := cast U32 (sizeof fuse_out_header
                                  + (if r_neg_err r =? 0 then r_len r else 0));
      out_header_error := r_neg_err r; out_header_unique := r_unique r |} reply_sz in
    Done (with_request e buf commit_id scratch, w, reply_sz).
End HandleOne.

(** ** The layout of an entry *)

(** The parts of an entry's buffer: the message header in the first 128 bytes,
    the first argument in the next, the entry's header and the payload. *)
Record entry_view := {
  v_header : fuse_in_header;
  v_in_out_rest : bytes;
  v_op_in : bytes;
  v_ent : fuse_uring_ent_in_out;
  v_payload : bytes;
}.

Definition view_bytes (v : entry_view) : bytes :=
  (encode (v_header v) ++ v_in_out_rest v) ++ v_op_in v ++ encode (v_ent v) ++ v_payload v.

Definition view_wf (payload_bytes : Z) (v : entry_view) : Prop :=
  in_range (v_header v) /\ zlen (v_in_out_rest v) = 88 /\
  zlen (v_op_in v) = FUSE_URING_OP_IN_OUT_SZ /\ in_range (v_ent v) /\
  zlen (v_payload v) = payload_bytes.

(** An allocated entry: buffer and scratch of the sizes [start] gives them. *)
Definition entry_alloc (payload_bytes : Z) (e : Entry) : Prop :=
  e_buf_len e = sizeof_req_header + payload_bytes /\
  zlen (e_body_scratch e) = FUSE_URING_OP_IN_OUT_SZ + payload_bytes /\
  exists buf, e_buf e = Some buf /\ zlen buf = e_buf_len e.

Definition view_payload_sz (v : entry_view) : Z := uring_ent_in_out_payload_sz (v_ent v).
Definition view_first (v : entry_view) : Z := first_arg_size (v_header v) (view_payload_sz v).

(** The body [handle_one] assembles. *)
Definition view_body (v : entry_view) : bytes :=
  take (Z.to_nat (view_first v)) (v_op_in v) ++ take (Z.to_nat (view_payload_sz v)) (v_payload v).

(** What the kernel reads back from an entry: the reply header, the payload
    size and that many bytes of payload. *)
Definition reads_reply (buf : bytes) (oh : fuse_out_header) (payload : bytes) : Prop :=
  load fuse_out_header buf req_header_in_out = Done oh /\
  (exists ent, load fuse_uring_ent_in_out buf req_header_ent = Done ent /\
     uring_ent_in_out_payload_sz ent = zlen payload) /\
  slice buf sizeof_req_header (zlen payload) = Done payload.

(** ** Lemmas *)

(** Replaces the offsets into a request header by their values. *)
Ltac offsets :=
  change req_header_in_out with 0 in *; change req_header_op_in with 128 in *;
  change req_header_ent with 256 in *; change payload_sz_off with 272 in *;
  change sizeof_req_header with 288 in *; change FUSE_URING_OP_IN_OUT_SZ with 128 in *.

(** A block of bytes as a struct followed by the rest of the block. *)
Lemma block_split {T} `{Pod T} (b : bytes) :
  sizeof T <= zlen b ->
  exists (x : T) rest, b = encode x ++ rest /\ in_range x /\ zlen rest = zlen b - sizeof T.
Proof.
  intros Hb. pose proof (sizeof_nonneg (T:=T)).
  assert (Hz : zlen (take (Z.to_nat (sizeof T)) b) = sizeof T) by zl.
  exists (decode (take (Z.to_nat (sizeof T)) b)), (drop (Z.to_nat (sizeof T)) b).
  rewrite encode_decode by done. split; [symmetry; apply take_drop|].
  split; [by apply decode_in_range | zl].
Qed.

(** Every buffer of the right length is the bytes of a view. *)
Lemma buffer_view pb buf :
  0 <= pb -> zlen buf = sizeof_req_header + pb ->
  exists v, buf = view_bytes v /\ view_wf pb v.
Proof.
  intros Hp Hz. offsets.
  destruct (split_mid buf 128 128) as (a & b & c & -> & Ha & Hb); [lia..|].
  destruct (block_split (T:=fuse_in_header) a) as (h & a' & -> & Hh & Ha'); [slia|].
  destruct (block_split (T:=fuse_uring_ent_in_out) c) as (ent & p & -> & He & Hp'); [zls|].
  exists {| v_header := h; v_in_out_rest := a'; v_op_in := b; v_ent := ent; v_payload := p |}.
  split; [done|]. unfold view_wf. offsets. simpl. split_and!; [done|zls|done|done|zls].
Qed.

Lemma zlen_view pb v : view_wf pb v -> zlen (view_bytes v) = sizeof_req_header + pb.
Proof. intros (_ & ? & ? & _ & ?). offsets. unfold view_bytes. zls. Qed.

(** The loads of [handle_one]. *)
Lemma view_loads pb v :
  view_wf pb v ->
  load fuse_uring_ent_in_out (view_bytes v) req_header_ent = Done (v_ent v) /\
  load fuse_in_header (view_bytes v) req_header_in_out = Done (v_header v).
Proof.
  intros (Hh & H1 & H2 & He & Hp). offsets. unfold view_bytes. split.
  - rewrite app_assoc. apply load_encode; [done|zls].
  - rewrite <- app_assoc. by apply (load_encode []).
Qed.

Lemma splice_nil m off : 0 <= off <= zlen m -> splice m off [] = m.
Proof.
  intros. unfold splice. cbn [app]. rewrite zlen_nil, Z.add_0_r. apply take_drop.
Qed.

Lemma copy_in_Done dst off src src_off n :
  0 <= off -> 0 <= n -> off + n <= zlen dst -> 0 <= src_off -> src_off + n <= zlen src ->
  copy_in dst off src src_off n = Done (splice dst off (sub_bytes src src_off n)).
Proof.
  intros. unfold copy_in. case_if.
  - replace n with 0 by lia. unfold sub_bytes. simpl. by rewrite splice_nil by lia.
  - rewrite slice_Done by lia. cbn [obind]. apply store_Done; rewrite ?zlen_sub_bytes; lia.
Qed.

(** The part of a block that a length selects. *)
Lemma sub_bytes_block a b c off n :
  off = zlen a -> 0 <= n <= zlen b -> sub_bytes (a ++ b ++ c) off n = take (Z.to_nat n) b.
Proof.
  intros -> Hn. unfold sub_bytes. rewrite drop_zlen_app by done.
  rewrite take_app_le; [done|]. unfold zlen in Hn. lia.
Qed.

Lemma view_op_in pb v n :
  view_wf pb v -> 0 <= n <= FUSE_URING_OP_IN_OUT_SZ ->
  sub_bytes (view_bytes v) req_header_op_in n = take (Z.to_nat n) (v_op_in v).
Proof.
  intros (_ & H1 & H2 & _) Hn. offsets. unfold view_bytes. apply sub_bytes_block; [zls|lia].
Qed.

Lemma view_payload pb v n :
  view_wf pb v -> 0 <= n <= pb ->
  sub_bytes (view_bytes v) sizeof_req_header n = take (Z.to_nat n) (v_payload v).
Proof.
  intros (_ & H1 & H2 & _ & H3) Hn. offsets. unfold view_bytes.
  rewrite !app_assoc. unfold sub_bytes. by rewrite drop_zlen_app by zls.
Qed.

Lemma view_payload_sz_range pb v : view_wf pb v -> 0 <= view_payload_sz v < 2 ^ 32.
Proof. intros (_ & _ & _ & He & _). range_fields He. unfold view_payload_sz. fits_lia. Qed.

Lemma view_first_range v : 0 <= view_first v.
Proof. unfold view_first, first_arg_size. case_if; slia. Qed.

(** The scratch buffer after the two copies starts with the body. *)
Lemma assemble_body pb v scratch :
  view_wf pb v -> zlen scratch = FUSE_URING_OP_IN_OUT_SZ + pb ->
  view_first v <= FUSE_URING_OP_IN_OUT_SZ -> view_payload_sz v <= pb ->
  exists scratch', zlen scratch' = zlen scratch /\
    (let* s := copy_in scratch 0 (view_bytes v) req_header_op_in (view_first v) in
     copy_in s (view_first v) (view_bytes v) sizeof_req_header (view_payload_sz v))
      = Done scratch' /\
    slice scratch' 0 (view_first v + view_payload_sz v) = Done (view_body v).
Proof.
  intros Hv Hs Hf Hp. pose proof (zlen_view pb v Hv) as Hz. pose proof (view_first_range v).
  pose proof (view_payload_sz_range pb v Hv). pose proof Hv as (_ & _ & Hop & _ & Hpay).
  assert (Hz1 : zlen (take (Z.to_nat (view_first v)) (v_op_in v)) = view_first v) by (offsets; zl).
  assert (Hz2 : zlen (take (Z.to_nat (view_payload_sz v)) (v_payload v)) = view_payload_sz v) by zl.
  exists (splice scratch 0 (view_body v)).
  rewrite copy_in_Done by (offsets; lia). rewrite (view_op_in pb) by done. cbn [obind].
  rewrite copy_in_Done by (rewrite ?zlen_splice; offsets; lia). rewrite (view_payload pb) by (done || lia).
  rewrite <- Hz1 at 2. rewrite <- (Z.add_0_l (zlen _)) at 1.
  rewrite splice_splice_adjacent by (offsets; lia). fold (view_body v).
  assert (Hb : zlen (view_body v) = view_first v + view_payload_sz v)
    by (unfold view_body; rewrite zlen_app; lia).
  split; [apply zlen_splice; offsets; lia|]. split; [done|].
  apply slice_splice; offsets; lia.
Qed.

Definition set_payload_sz (ent : fuse_uring_ent_in_out) (n : Z) : fuse_uring_ent_in_out := {|
  uring_ent_in_out_flags := uring_ent_in_out_flags ent;
  uring_ent_in_out_commit_id := uring_ent_in_out_commit_id ent;
  uring_ent_in_out_payload_sz := n;
  uring_ent_in_out_padding := uring_ent_in_out_padding ent;
  uring_ent_in_out_reserved := uring_ent_in_out_reserved ent |}.

(** A store to the member is a store of the struct with the member replaced. *)
Lemma splice_payload_sz a ent c n :
  zlen a = 256 ->
  splice (a ++ encode ent ++ c) payload_sz_off (enc_scalar U32 n) =
  a ++ encode (set_payload_sz ent n) ++ c.
Proof.
  intros Ha. offsets.
  unfold encode. cbn [layout to_fields fuse_uring_ent_in_out_pod enc_fields hd tl set_payload_sz
    uring_ent_in_out_flags uring_ent_in_out_commit_id uring_ent_in_out_payload_sz
    uring_ent_in_out_padding uring_ent_in_out_reserved].
  assert (Hz : forall t z, zlen (enc_scalar t z) = Z.of_nat (width t))
    by (intros; unfold zlen; by rewrite length_enc_scalar).
  rewrite app_nil_r, <- !app_assoc.
  rewrite (app_assoc a), (app_assoc (a ++ _) (enc_scalar U64 (uring_ent_in_out_commit_id ent))).
  rewrite splice_mid by (rewrite ?zlen_app, !Hz; simpl; lia).
  by rewrite <- !app_assoc.
Qed.

Lemma set_payload_sz_range ent n : in_range ent -> fits U32 n -> in_range (set_payload_sz ent n).
Proof. intros He Hn. range_fields He. split_in_range. Qed.

Lemma overlay_reply_Done pb v oh n :
  view_wf pb v ->
  exists buf', overlay_reply (view_bytes v) oh n = Done buf' /\ zlen buf' = zlen (view_bytes v).
Proof.
  intros Hv. pose proof (zlen_view pb v Hv). destruct Hv as (_ & _ & _ & _ & Hp).
  pose proof (zlen_nonneg (v_payload v)). assert (Hoh := zlen_encode oh).
  change (sizeof fuse_out_header) with 16 in Hoh.
  assert (Hes : zlen (enc_scalar U32 n) = 4) by (unfold zlen; by rewrite length_enc_scalar).
  unfold overlay_reply. offsets. rewrite store_Done by lia. cbn [obind].
  rewrite store_Done by (rewrite ?zlen_splice; lia). eexists. split; [reflexivity|].
  rewrite !zlen_splice; rewrite ?zlen_splice; lia.
Qed.

(** The reply header and the payload size, overlaid on a view. *)
Lemma overlay_reply_reads pb v oh n :
  view_wf pb v -> in_range oh -> fits U32 n -> n <= pb ->
  exists buf', overlay_reply (view_bytes v) oh n = Done buf' /\
    zlen buf' = zlen (view_bytes v) /\
    reads_reply buf' oh (take (Z.to_nat n) (v_payload v)).
Proof.
  intros Hv Hoh Hn Hle. pose proof (zlen_view pb v Hv) as Hz.
  destruct Hv as (Hh & H1 & H2 & He & Hp). offsets. unfold overlay_reply, view_bytes in *. offsets.
  destruct (block_split (T:=fuse_out_header) (encode (v_header v) ++ v_in_out_rest v))
    as (old & rest & Hold & _ & Hrest); [zls|].
  assert (Hr : zlen rest = 112) by (rewrite Hrest, zlen_app, zlen_encode; slia).
  rewrite Hold in *. clear Hrest.
  rewrite <- app_assoc, store_Done by zls. cbn [obind].
  change (encode old ++ ?x) with ([] ++ encode old ++ x).
  rewrite (splice_mid [] (encode old)) by (rewrite ?zlen_encode; done). cbn [app].
  rewrite app_assoc, (app_assoc _ (v_op_in v)).
  assert (Hes : zlen (enc_scalar U32 n) = 4) by (unfold zlen; by rewrite length_enc_scalar).
  rewrite store_Done by (offsets; zls). rewrite splice_payload_sz by zls.
  eexists. split; [reflexivity|]. split; [zls|]. unfold reads_reply. offsets. split_and!.
  - rewrite <- !app_assoc. by apply (load_encode []).
  - eexists. split; [apply load_encode; [by apply set_payload_sz_range|zls]|].
    cbn [set_payload_sz uring_ent_in_out_payload_sz]. rewrite zlen_take. fits_lia.
  - rewrite app_assoc. rewrite slice_Done by (fits_lia || zls). f_equal. unfold sub_bytes.
    rewrite drop_zlen_app by zls. rewrite zlen_take. f_equal. fits_lia.
Qed.

Section HandleOneLemmas.
Context {S : Type} (fs : Filesystem S) (pb : Z).
Hypothesis pb_range : 0 <= pb < 2 ^ 32 - sizeof fuse_out_header.

(** An entry whose buffer is the bytes of a view. *)
Definition holds (e : Entry) (v : entry_view) : Prop :=
  entry_alloc pb e /\ e_buf e = Some (view_bytes v) /\ view_wf pb v.

Definition view_replier (v : entry_view) : Replier :=
  entry_replier (v_payload v) pb (v_header v).

Lemma view_replier_ok v : view_wf pb v -> replier_ok (view_replier v).
Proof. intros (_ & _ & _ & _ & Hp). split; simpl; slia. Qed.

Lemma with_request_alloc e buf c scratch :
  entry_alloc pb e -> zlen buf = sizeof_req_header + pb ->
  zlen scratch = FUSE_URING_OP_IN_OUT_SZ + pb -> entry_alloc pb (with_request e buf c scratch).
Proof.
  intros (Hl & _ & _) Hb Hs. split; [done|]. split; [done|]. exists buf. split; [done|].
  simpl. congruence.
Qed.

Definition set_payload (v : entry_view) (p : bytes) : entry_view := {|
  v_header := v_header v; v_in_out_rest := v_in_out_rest v; v_op_in := v_op_in v;
  v_ent := v_ent v; v_payload := p |}.

(** The payload area is the reply buffer. *)
Lemma store_payload v p :
  view_wf pb v -> zlen p = pb ->
  store (view_bytes v) sizeof_req_header p = Done (view_bytes (set_payload v p)).
Proof.
  intros Hv Hp. pose proof (zlen_view pb v Hv). destruct Hv as (_ & H1 & H2 & _ & H3).
  rewrite store_Done by (offsets; lia). f_equal. offsets. unfold view_bytes.
  cbn [set_payload v_header v_in_out_rest v_op_in v_ent v_payload].
  rewrite !app_assoc. apply splice_last; zls.
Qed.

Lemma set_payload_wf v p : view_wf pb v -> zlen p = pb -> view_wf pb (set_payload v p).
Proof. intros (? & ? & ? & ? & ?) Hp. by split_and!. Qed.

(** The bytes reported by a reply that is no error. *)
Definition reported (r : Replier) : Z := if r_neg_err r =? 0 then r_len r else 0.

(** The reply header [handle_one] writes for a replier. *)
Definition reply_header (h : fuse_in_header) (r : Replier) : fuse_out_header :=
  out_header h (r_neg_err r) (reported r).

Lemma reported_range v r' : good_reply (view_replier v) r' -> 0 <= reported r' <= pb.
Proof. intros (_ & _ & _ & Hl & _). unfold reported. simpl in Hl. case_if; lia. Qed.

(** [handle_one] around a dispatch that returns. *)
Lemma handle_one_runs e v w w' r' :
  holds e v -> view_first v <= FUSE_URING_OP_IN_OUT_SZ -> view_payload_sz v <= pb ->
  dispatch fs (v_header v) (view_body v) w (view_replier v) = Done (w', r') ->
  good_reply (view_replier v) r' ->
  exists scratch, zlen scratch = FUSE_URING_OP_IN_OUT_SZ + pb /\
    handle_one fs pb e w =
      let* buf := overlay_reply (view_bytes (set_payload v (r_out r')))
                    (reply_header (v_header v) r') (reported r') in
      Done (with_request e buf (uring_ent_in_out_commit_id (v_ent v)) scratch, w', reported r').
Proof.
  intros (Ha & Hb & Hv) Hf Hp Hd Hg. pose proof Ha as (_ & Hs & _).
  destruct (view_loads pb v Hv) as [Hle Hlh].
  destruct (assemble_body pb v _ Hv Hs Hf Hp) as (scratch & Hsz & Hcopy & Hbody).
  pose proof (reported_range v r' Hg) as Hrep. pose proof Hv as (_ & _ & _ & _ & Hpay).
  destruct Hg as (_ & Hu & Hz & _). simpl in Hz. exists scratch. split; [congruence|].
  unfold handle_one. rewrite Hb. cbn [obind]. rewrite Hle. cbn [obind]. rewrite Hlh. cbn [obind].
  fold (view_payload_sz v). fold (view_first v).
  destruct (_ || _) eqn:Eg; [offsets; lia|]. rewrite <- obind_assoc, Hcopy. cbn [obind].
  rewrite Hbody. cbn [obind]. rewrite slice_Done by (rewrite ?(zlen_view pb v Hv); offsets; lia).
  rewrite (view_payload pb v pb Hv) by lia. cbn [obind].
  rewrite take_ge by (unfold zlen in Hpay; lia). fold (view_replier v). rewrite Hd. cbn [obind].
  rewrite store_payload by (done || congruence). cbn [obind]. fold (reported r').
  rewrite Hu, cast_id by (norm_sizes; fits_lia).
  replace (if r_neg_err r' =? 0 then cast U32 (r_len r') else 0) with (reported r'); [done|].
  unfold reported in *. case_if; [|done]. by rewrite cast_id by (norm_sizes; fits_lia).
Qed.

Lemma handle_one_dispatch e v w w' r' :
  holds e v -> view_first v <= FUSE_URING_OP_IN_OUT_SZ -> view_payload_sz v <= pb ->
  dispatch fs (v_header v) (view_body v) w (view_replier v) = Done (w', r') ->
  good_reply (view_replier v) r' -> fits I32 (r_neg_err r') ->
  exists e' buf', handle_one fs pb e w = Done (e', w', reported r') /\
    entry_alloc pb e' /\ e_buf e' = Some buf' /\
    e_commit_id e' = uring_ent_in_out_commit_id (v_ent v) /\
    reads_reply buf' (reply_header (v_header v) r') (take (Z.to_nat (reported r')) (r_out r')).
Proof.
  intros He Hf Hp Hd Hg Herr. pose proof He as (Ha & _ & Hv). pose proof Hv as (Hh & _ & _ & _ & Hpay).
  pose proof (reported_range v r' Hg) as Hrep.
  destruct (handle_one_runs e v w w' r') as (scratch & Hsc & ->); [done..|].
  assert (Hz : zlen (r_out r') = pb) by (destruct Hg as (_ & _ & Hz & _); simpl in Hz; congruence).
  pose proof (set_payload_wf v _ Hv Hz) as Hv'.
  destruct (overlay_reply_reads pb (set_payload v (r_out r')) (reply_header (v_header v) r')
    (reported r')) as (buf' & -> & Hzb & Hreads); [done| |norm_sizes; fits_lia|lia|].
  { range_fields Hh. unfold reply_header, out_header. split_in_range. norm_sizes. fits_lia. }
  eexists _, buf'. split; [reflexivity|]. split; [|done].
  apply with_request_alloc; [done| |done]. by rewrite Hzb, (zlen_view pb).
Qed.
End HandleOneLemmas.

(** The entry as the kernel fills it: the first argument in [op_in], the others
    in the payload area, the lengths in the two headers. *)
Definition carries (v : entry_view) (first rest : bytes) : Prop :=
  in_header_len (v_header v) = sizeof fuse_in_header + zlen first + zlen rest /\
  view_payload_sz v = zlen rest /\
  (exists slack, v_op_in v = first ++ slack) /\ (exists slack, v_payload v = rest ++ slack).

Lemma carries_body pb v first rest :
  view_wf pb v -> carries v first rest ->
  view_body v = first ++ rest /\ view_first v <= FUSE_URING_OP_IN_OUT_SZ /\
  view_payload_sz v <= pb.
Proof.
  intros (_ & _ & Hop & _ & Hp) (Hlen & Hsz & [s1 H1] & [s2 H2]).
  assert (Hf : view_first v = zlen first).
  { unfold view_first, first_arg_size. rewrite Hsz, Hlen. pose_zlen. case_if; lia. }
  unfold view_body. rewrite Hf, Hsz, H1, H2 in *.
  split; [by rewrite !take_zlen_app | zl].
Qed.

(** The reply an answer makes in an entry. *)
Definition entry_reply (h : fuse_in_header) (a : answer) : fuse_out_header * bytes :=
  match a with
  | Refused e => (out_header h (neg_errno e) 0, [])
  | Replied p => (out_header h 0 (zlen p), p)
  end.

Lemma delivered_good r r' a : replier_ok r -> delivered r r' a -> good_reply r r'.
Proof.
  intros Hr%replier_cap_nonneg (Hc & Hu & Hz & Ha). unfold good_reply.
  do 3 (split; [done|]). destruct a as [e|p]; [destruct Ha as [-> ->]; split; [lia|done]|].
  pose_zlen. case_if_in Ha; destruct Ha as (-> & ?); [split; [lia|done]|]. split; [lia|done].
Qed.

(** A delivered answer read off the entry. *)
Lemma delivered_entry_reply h r r' a oh p :
  replier_ok r -> delivered r r' (fit (r_cap r) a) ->
  entry_reply h (fit (r_cap r) a) = (oh, p) ->
  oh = out_header h (r_neg_err r') (reported r') /\
  p = take (Z.to_nat (reported r')) (r_out r') /\ zlen p = reported r'.
Proof.
  intros Hr (_ & _ & _ & Ha) He. unfold reported.
  destruct (fit (r_cap r) a) as [e|q] eqn:Ef; cbn [entry_reply] in He; simplify_eq.
  - destruct Ha as [-> ->]. by case_if.
  - apply fit_fits in Ef. case_if_in Ha; [lia|]. destruct Ha as (-> & Hl & Ht).
    rewrite Hl in *. cbn [Z.eqb]. by rewrite Ht.
Qed.

Lemma handle_one_returns {S} (fs : Filesystem S) `{!LawfulFs fs} pb e v w :
  0 <= pb < 2 ^ 32 - sizeof fuse_out_header -> holds pb e v ->
  view_payload_sz v <= pb -> request_ok (v_header v) (view_body v) ->
  exists e' w' n, handle_one fs pb e w = Done (e', w', n) /\ entry_alloc pb e' /\ 0 <= n <= pb /\
    e_commit_id e' = uring_ent_in_out_commit_id (v_ent v).
Proof.
  intros Hpb He Hp Hok. pose proof He as (Ha & Hb & Hv). pose proof (view_first_range v).
  pose proof (view_payload_sz_range pb v Hv). pose proof Ha as (_ & Hs & _).
  destruct (Z.lt_ge_cases FUSE_URING_OP_IN_OUT_SZ (view_first v)) as [Hbig|Hf].
  - destruct (view_loads pb v Hv) as [Hle Hlh]. unfold handle_one. rewrite Hb. cbn [obind].
    rewrite Hle. cbn [obind]. rewrite Hlh. cbn [obind].
    fold (view_payload_sz v). fold (view_first v). destruct (_ || _) eqn:Eg; [|offsets; lia].
    edestruct (overlay_reply_Done pb v) as (buf' & -> & Hz); [done|]. cbn [obind].
    eexists _, w, 0. split; [reflexivity|]. split; [|split; [lia|done]].
    apply with_request_alloc; [done| |done]. by rewrite Hz, (zlen_view pb).
  - pose proof Hv as (Hh & _ & _ & _ & Hpay). pose proof (view_replier_ok pb Hpb v Hv) as Hr.
    destruct (dispatch_safe fs (v_header v) (view_body v) w (view_replier pb v))
      as (w' & r' & Hd & Hg); [done| |done..|].
    { unfold view_body. offsets. zls. }
    pose proof (reported_range pb Hpb v r' Hg).
    destruct (handle_one_runs fs pb Hpb e v w w' r') as (scratch & Hsc & ->); [done..|].
    assert (Hz : zlen (r_out r') = pb) by (destruct Hg as (_ & _ & Hz & _); simpl in Hz; congruence).
    pose proof (set_payload_wf pb v _ Hv Hz) as Hv'.
    edestruct (overlay_reply_Done pb (set_payload v (r_out r'))) as (buf' & -> & Hzb); [done|].
    eexists _, w', _. split; [reflexivity|]. split; [|done].
    apply with_request_alloc; [done| |done]. by rewrite Hzb, (zlen_view pb).
Qed.

(** A well-formed request in an entry. *)
Lemma handle_one_serves {S} (fs : Filesystem S) (LFS : LawfulFs fs) pb e v q first rest w :
  0 <= pb < 2 ^ 32 - sizeof fuse_out_header -> holds pb e v -> carries v first rest ->
  first ++ rest = wire q -> request_wf q ->
  opcode_is (v_header v) (request_opcode q) = true -> ext_bytes (v_header v) = 0 ->
  (forall err, fit pb (snd (serve fs (v_header v) q (v_payload v) w)) = Refused err ->
     fits I32 (neg_errno err)) ->
  exists e' buf' oh payload,
    handle_one fs pb e w =
      Done (e', fst (serve fs (v_header v) q (v_payload v) w), zlen payload) /\
    entry_alloc pb e' /\ e_buf e' = Some buf' /\
    e_commit_id e' = uring_ent_in_out_commit_id (v_ent v) /\
    entry_reply (v_header v) (fit pb (snd (serve fs (v_header v) q (v_payload v) w)))
      = (oh, payload) /\
    reads_reply buf' oh payload.
Proof.
  intros Hpb He Hc Hw Hwf Ho Hx Herr. pose proof He as (_ & _ & Hv).
  destruct (carries_body pb v first rest Hv Hc) as (Hbody & Hf & Hp). rewrite Hw in Hbody.
  pose proof (view_replier_ok pb Hpb v Hv) as Hr. pose proof Hv as (Hh & _).
  destruct (dispatch_body_refines fs q (dispatch_depth fs 1) (v_header v) [] w (view_replier pb v))
    as (r' & Hd & Hans); [done|done|by rewrite Hx|by right| |done|].
  { rewrite <- Hw. cbn [app]. destruct Hc as (Hl & _). pose proof (in_header_len_range _ Hh). zls. }
  cbn [app] in Hd. rewrite <- Hbody in Hd. change (r_out (view_replier pb v)) with (v_payload v) in *.
  destruct (serve fs (v_header v) q (v_payload v) w) as [w' a]. cbn [fst snd] in *.
  apply delivered_fit in Hans. change (r_cap (view_replier pb v)) with pb in Hans.
  destruct (entry_reply (v_header v) (fit pb a)) as [oh p] eqn:Er.
  destruct (delivered_entry_reply _ _ _ a oh p Hr Hans Er) as (-> & -> & Hz).
  destruct (handle_one_dispatch fs pb Hpb e v w w' r') as (e' & buf' & H1 & H2 & H3 & H4 & H5);
    [done..|by eapply delivered_good| |].
  { destruct Hans as (_ & _ & _ & Hans). destruct (fit pb a) as [err|p]; [|case_if_in Hans].
    - destruct Hans as [-> _]. by apply Herr.
    - destruct Hans as [-> _]. done.
    - destruct Hans as [-> _]. done. }
  eexists e', buf', _, _. rewrite Hz. split; [done|]. by split_and!.
Qed.

(** ** Theorems *)

(** C10: a request served through a ring entry. When the kernel has laid out a
    well-formed request in an entry, [handle_one] returns; the session and the
    daemon change as [serve] says; and the kernel finds in the entry exactly
    the answer: a reply header with the request's id, the errno and the length,
    the payload size in the entry's header and the payload in the payload area.
    The commit id kept for COMMIT_AND_FETCH is the one of the request. *)
Theorem ring_request_served {S} (fs : Filesystem S) (LFS : LawfulFs fs) pb e v q first rest w :
  0 <= pb < 2 ^ 32 - sizeof fuse_out_header -> holds pb e v -> carries v first rest ->
  first ++ rest = wire q -> request_wf q ->
  opcode_is (v_header v) (request_opcode q) = true -> ext_bytes (v_header v) = 0 ->
  (forall err, fit pb (snd (serve fs (v_header v) q (v_payload v) w)) = Refused err ->
     fits I32 (neg_errno err)) ->
  exists e' buf' oh payload,
    handle_one fs pb e w =
      Done (e', fst (serve fs (v_header v) q (v_payload v) w), zlen payload) /\
    entry_alloc pb e' /\ e_buf e' = Some buf' /\
    e_commit_id e' = uring_ent_in_out_commit_id (v_ent v) /\
    entry_reply (v_header v) (fit pb (snd (serve fs (v_header v) q (v_payload v) w)))
      = (oh, payload) /\
    reads_reply buf' oh payload.
Proof. by apply handle_one_serves. Qed.

(** C30: memory safety of [handle_one]. Whatever bytes the buffer of an allocated
    entry holds, if the payload size it announces is at most the payload area
    and the request is in order, [handle_one] returns without touching memory
    outside the entry, the entry keeps its sizes, and the reply size is within
    the payload area. *)
Theorem handle_one_safe {S} (fs : Filesystem S) (LFS : LawfulFs fs) pb e v w :
  0 <= pb < 2 ^ 32 - sizeof fuse_out_header -> holds pb e v ->
  view_payload_sz v <= pb -> request_ok (v_header v) (view_body v) ->
  exists e' w' n, handle_one fs pb e w = Done (e', w', n) /\ entry_alloc pb e' /\ 0 <= n <= pb.
Proof.
  intros Hpb He Hp Hok.
  destruct (handle_one_returns fs pb e v w Hpb He Hp Hok) as (e' & w' & n & H1 & H2 & H3 & _).
  by exists e', w', n.
Qed.

(** C40: the size check of [handle_one] is 128 bytes too generous. A payload size
    above the payload area but within the scratch buffer passes the check, and
    the copy of the payload then reads past the end of the entry's buffer. *)
Theorem handle_one_overreads {S} (fs : Filesystem S) pb e v w :
  0 <= pb < 2 ^ 32 - sizeof fuse_out_header -> holds pb e v ->
  pb < view_payload_sz v -> view_first v <= FUSE_URING_OP_IN_OUT_SZ ->
  view_first v + view_payload_sz v <= FUSE_URING_OP_IN_OUT_SZ + pb ->
  handle_one fs pb e w = Fault OobRead.
Proof.
  intros Hpb (Ha & Hb & Hv) Hp Hf Hsum. pose proof Ha as (_ & Hs & _).
  destruct (view_loads pb v Hv) as [Hle Hlh]. pose proof (view_first_range v).
  pose proof (zlen_view pb v Hv) as Hz. unfold handle_one. rewrite Hb. cbn [obind].
  rewrite Hle. cbn [obind]. rewrite Hlh. cbn [obind]. fold (view_payload_sz v). fold (view_first v).
  destruct (_ || _) eqn:Eg; [offsets; lia|]. rewrite copy_in_Done by (offsets; lia). cbn [obind].
  unfold copy_in at 1. case_if; [lia|]. rewrite slice_Fault by (offsets; lia). done.
Qed.

(** An oversized first argument. When the header's length leaves more than
    [op_in] can hold for the first argument, the request is answered with EIO
    under its own id, without a payload and without a callback. *)
Theorem oversized_first_arg_eio {S} (fs : Filesystem S) pb e v w :
  0 <= pb < 2 ^ 32 - sizeof fuse_out_header -> holds pb e v ->
  FUSE_URING_OP_IN_OUT_SZ < view_first v ->
  exists e' buf', handle_one fs pb e w = Done (e', w, 0) /\ entry_alloc pb e' /\
    e_buf e' = Some buf' /\ e_commit_id e' = uring_ent_in_out_commit_id (v_ent v) /\
    reads_reply buf' (out_header (v_header v) (- EIO) 0) [].
Proof.
  intros Hpb (Ha & Hb & Hv) Hf. pose proof Ha as (_ & Hs & _).
  destruct (view_loads pb v Hv) as [Hle Hlh]. unfold handle_one. rewrite Hb. cbn [obind].
  rewrite Hle. cbn [obind]. rewrite Hlh. cbn [obind]. fold (view_payload_sz v). fold (view_first v).
  destruct (_ || _) eqn:Eg; [|offsets; lia].
  change {| out_header_len := _; out_header_error := - EIO; out_header_unique := _ |}
    with (out_header (v_header v) (- EIO) 0).
  destruct (overlay_reply_reads pb v (out_header (v_header v) (- EIO) 0) 0)
    as (buf' & -> & Hz & Hreads); [done| |done|lia|].
  { destruct Hv as (Hh & _). range_fields Hh. unfold out_header. split_in_range; done. }
  eexists _, buf'. split; [reflexivity|]. split; [|done].
  apply with_request_alloc; [done| |done]. by rewrite Hz, (zlen_view pb).
Qed.

(** ** Examples *)

Definition demo_view (o : fuse_opcode) (len payload_sz : Z) (payload : bytes) : entry_view := {|
  v_header := demo_sub_header o len 9 1; v_in_out_rest := zero_bytes 88;
  v_op_in := zero_bytes 128;
  v_ent := {| uring_ent_in_out_flags := 0; uring_ent_in_out_commit_id := 77;
              uring_ent_in_out_payload_sz := payload_sz; uring_ent_in_out_padding := 0;
              uring_ent_in_out_reserved := 0 |};
  v_payload := payload |}.

Definition demo_entry (v : entry_view) (pb : Z) : Entry := {|
  e_buf := Some (view_bytes v); e_buf_len := sizeof_req_header + pb; e_commit_id := 0;
  e_iov := [(0, 288); (288, pb)]; e_body_scratch := zero_bytes (128 + pb) |}.

Lemma demo_holds o len payload_sz payload :
  fits U32 len -> fits U32 payload_sz ->
  holds (zlen payload) (demo_entry (demo_view o len payload_sz payload) (zlen payload))
    (demo_view o len payload_sz payload).
Proof.
  intros Hl Hp. pose proof (zlen_nonneg payload).
  assert (Hv : view_wf (zlen payload) (demo_view o len payload_sz payload)).
  { split_and!; try done.
    - unfold demo_view, demo_sub_header. split_in_range; try fits_lia. by destruct o.
    - unfold demo_view. split_in_range; fits_lia. }
  split; [|done]. split; [done|]. split; [cbn [demo_entry e_body_scratch]; offsets; rewrite zlen_zero_bytes; lia|].
  eexists. split; [done|]. by rewrite (zlen_view (zlen payload)).
Qed.

Definition demo_lookup_view : entry_view :=
  demo_view FUSE_LOOKUPX 42 2 ([Byte.x61; Byte.x00] ++ zero_bytes 62).

Lemma ring_request_served_witness :
  exists e' buf' payload,
    handle_one (demo_fs [Byte.x61]) 64 (demo_entry demo_lookup_view 64) (demo_world [])
      = Done (e', demo_world [[Byte.x61]], 32) /\
    e_commit_id e' = 77 /\ e_buf e' = Some buf' /\
    reads_reply buf' (out_header (v_header demo_lookup_view) 0 32) payload /\
    dec_scalar U64 (take 8 payload) = 2.
Proof.
  destruct (ring_request_served (demo_fs [Byte.x61]) (demo_fs_lawful _) 64
    (demo_entry demo_lookup_view 64) demo_lookup_view (ReqLookupx [Byte.x61]) []
    [Byte.x61; Byte.x00] (demo_world []))
    as (e' & buf' & oh & payload & H1 & _ & H3 & H4 & H5 & H6).
  - vm_compute. split; congruence.
  - apply (demo_holds FUSE_LOOKUPX 42 2 ([Byte.x61; Byte.x00] ++ zero_bytes 62));
      vm_compute; split; congruence.
  - split_and!; try reflexivity; eexists; reflexivity.
  - reflexivity.
  - repeat constructor.
  - reflexivity.
  - reflexivity.
  - intros err Herr. vm_compute in Herr. discriminate.
  - exists e', buf', payload. injection H5 as <- <-.
    split; [exact H1|]. split; [exact H4|]. split; [exact H3|]. split; [exact H6|reflexivity].
Defined.

Lemma handle_one_safe_witness :
  exists e' w' n, handle_one (demo_fs [Byte.x61]) 64 (demo_entry demo_lookup_view 64)
    (demo_world []) = Done (e', w', n) /\ entry_alloc 64 e' /\ 0 <= n <= 64.
Proof.
  apply (handle_one_safe (demo_fs [Byte.x61]) (demo_fs_lawful _) 64 _ demo_lookup_view).
  - vm_compute. split; congruence.
  - apply (demo_holds FUSE_LOOKUPX 42 2 ([Byte.x61; Byte.x00] ++ zero_bytes 62));
      vm_compute; split; congruence.
  - vm_compute. congruence.
  - split; discriminate.
Defined.

Lemma handle_one_overreads_witness :
  handle_one (demo_fs []) 64 (demo_entry (demo_view FUSE_WRITE 140 100 (zero_bytes 64)) 64)
    (demo_world []) = Fault OobRead.
Proof.
  apply (handle_one_overreads (demo_fs []) 64 _ (demo_view FUSE_WRITE 140 100 (zero_bytes 64))).
  - vm_compute. split; congruence.
  - apply (demo_holds FUSE_WRITE 140 100 (zero_bytes 64)); vm_compute; split; congruence.
  - reflexivity.
  - vm_compute. congruence.
  - vm_compute. congruence.
Defined.

Lemma oversized_first_arg_eio_witness :
  exists e' buf', handle_one (demo_fs []) 64
      (demo_entry (demo_view FUSE_INIT 169 0 (zero_bytes 64)) 64) (demo_world [])
      = Done (e', demo_world [], 0) /\
    e_buf e' = Some buf' /\
    reads_reply buf' (out_header (demo_sub_header FUSE_INIT 169 9 1) (-5) 0) [].
Proof.
  destruct (oversized_first_arg_eio (demo_fs []) 64
    (demo_entry (demo_view FUSE_INIT 169 0 (zero_bytes 64)) 64)
    (demo_view FUSE_INIT 169 0 (zero_bytes 64)) (demo_world [])) as (e' & buf' & H1 & _ & H3 & _ & H5).
  - vm_compute. split; congruence.
  - apply (demo_holds FUSE_INIT 169 0 (zero_bytes 64)); vm_compute; split; congruence.
  - reflexivity.
  - exists e', buf'. split; [exact H1|]. split; [exact H3|exact H5].
Defined.
