(* ===== verification/UringWorker.v ===== *)
(** * The ring worker (src/uring_worker.hpp, src/uring_worker.cpp)

    [start] allocates the entries, sets up the ring and arms every slot; [run]
    handles one completion after the other and re-arms the slot it came from.
    liburing and the kernel are outside: a ring is the queue of entries
    acquired and not yet submitted, with its capacity, and the entries armed in
    the kernel; the results of system calls and the completions come from
    events. The theorems: the loop never loses a slot, the stop poll ends it, its
    queue-full branches are dead, and each reply is committed under the id of its
    request. *)

From S2P Require Import Prelude Memory Pod Abi Types DirentWriter Filesystem Replier Handlers.
From S2P Require Import HandlerSafety Request Compound UringEntry Callbacks.
From stdpp Require Import relations sorting.
#[local] Open Scope Z_scope.

(** ** Submission queue entries *)

Definition kStopSentinel : Z := 0xFFFFFFFFFFFFFFFF.

Definition make_ud (entry_idx : Z) : Z := entry_idx.

Inductive sqe_opcode := IORING_OP_POLL_ADD | IORING_OP_URING_CMD.

(** [sqe_addr] is the entry whose two-segment iovec the address points to. *)
Record sqe := {
  sqe_op : sqe_opcode;
  sqe_fd : Z;
  sqe_cmd_op : Z;
  sqe_addr : Z;
  sqe_len : Z;
  sqe_cmd : fuse_uring_cmd_req;
  sqe_user_data : Z;
}.

Definition cmd_req (qid commit_id : Z) : fuse_uring_cmd_req := {|
  uring_cmd_req_flags := 0; uring_cmd_req_commit_id := commit_id;
  uring_cmd_req_qid := cast U16 qid; uring_cmd_req_padding := replicate 6 0 |}.

Definition prep_register (dev_fd qid i : Z) : sqe := {|
  sqe_op := IORING_OP_URING_CMD; sqe_fd := dev_fd;
  sqe_cmd_op := uring_cmd_value FUSE_IO_URING_CMD_REGISTER;
  sqe_addr := i; sqe_len := 2; sqe_cmd := cmd_req qid 0; sqe_user_data := make_ud i |}.

Definition prep_commit_and_fetch (dev_fd qid i commit_id : Z) : sqe := {|
  sqe_op := IORING_OP_URING_CMD; sqe_fd := dev_fd;
  sqe_cmd_op := uring_cmd_value FUSE_IO_URING_CMD_COMMIT_AND_FETCH;
  sqe_addr := i; sqe_len := 2; sqe_cmd := cmd_req qid commit_id; sqe_user_data := make_ud i |}.

(** The poll on the stop eventfd; its command area is unused. *)
Definition prep_poll (stop_efd : Z) : sqe := {|
  sqe_op := IORING_OP_POLL_ADD; sqe_fd := stop_efd; sqe_cmd_op := 0; sqe_addr := 0;
  sqe_len := 0; sqe_cmd := cmd_req 0 0; sqe_user_data := kStopSentinel |}.

(** ** The ring *)

Record ring := {
  rg_capacity : Z;
  rg_sq : list sqe;
  rg_armed : list sqe;
}.

(** [io_uring_get_sqe] and the preparation of what it returned; [None] when the
    queue is full. *)
Definition push_sqe (rg : ring) (x : sqe) : option ring :=
  if zlen (rg_sq rg) <? rg_capacity rg
  then Some {| rg_capacity := rg_capacity rg; rg_sq := rg_sq rg ++ [x]; rg_armed := rg_armed rg |}
  else None.

(** [io_uring_submit] with the result [rc]: an error, or the number of entries
    the kernel has taken, the oldest first. *)
Definition submit (rc : Z) (rg : ring) : ring :=
  if rc <? 0 then rg
  else {| rg_capacity := rg_capacity rg; rg_sq := drop (Z.to_nat rc) (rg_sq rg);
          rg_armed := rg_armed rg ++ take (Z.to_nat rc) (rg_sq rg) |}.

Fixpoint remove_ud (ud : Z) (l : list sqe) : list sqe :=
  match l with
  | [] => []
  | x :: l' => if sqe_user_data x =? ud then l' else x :: remove_ud ud l'
  end.

(** A completion takes its entry out of the kernel. *)
Definition complete (ud : Z) (rg : ring) : ring :=
  {| rg_capacity := rg_capacity rg; rg_sq := rg_sq rg; rg_armed := remove_ud ud (rg_armed rg) |}.

(** ** The worker *)

(** [rw_ring] is [None] while [ring_inited_] is false; [rw_ec] is 0 for no
    error. *)
Record RingWorker := {
  rw_qid : Z;
  rw_depth : Z;
  rw_payload_bytes : Z;
  rw_ring : option ring;
  rw_entries : list Entry;
  rw_ec : Z;
}.

Definition RingWorker_make (qid depth payload_bytes : Z) : RingWorker := {|
  rw_qid := qid; rw_depth := depth; rw_payload_bytes := payload_bytes; rw_ring := None;
  rw_entries := []; rw_ec := 0 |}.

Definition set_ring (k : RingWorker) (rg : option ring) : RingWorker := {|
  rw_qid := rw_qid k; rw_depth := rw_depth k; rw_payload_bytes := rw_payload_bytes k;
  rw_ring := rg; rw_entries := rw_entries k; rw_ec := rw_ec k |}.

Definition set_entries (k : RingWorker) (es : list Entry) : RingWorker := {|
  rw_qid := rw_qid k; rw_depth := rw_depth k; rw_payload_bytes := rw_payload_bytes k;
  rw_ring := rw_ring k; rw_entries := es; rw_ec := rw_ec k |}.

Definition set_ec (k : RingWorker) (ec : Z) : RingWorker := {|
  rw_qid := rw_qid k; rw_depth := rw_depth k; rw_payload_bytes := rw_payload_bytes k;
  rw_ring := rw_ring k; rw_entries := rw_entries k; rw_ec := ec |}.

Definition error (k : RingWorker) : Z := rw_ec k.

(** *** start *)

Definition EINTR : Z := 4.
Definition EAGAIN : Z := 11.
Definition ENODEV : Z := 19.
Definition ENOTCONN : Z := 107.

(** What the system calls of [start] return: [mmap] per entry (0 or an errno),
    [io_uring_queue_init_params] with the size of the queue it made, and
    [io_uring_submit]. *)
Record start_env := {
  se_mmap : nat -> Z;
  se_queue_init : Z;
  se_sq_entries : Z;
  se_submit : Z;
}.

(** An entry after its [mmap]: anonymous memory is zero-filled. *)
Definition map_entry (payload_bytes : Z) : Entry := {|
  e_buf := Some (zero_bytes (sizeof_req_header + payload_bytes));
  e_buf_len := sizeof_req_header + payload_bytes;
  e_commit_id := 0;
  e_iov := [(0, sizeof_req_header); (sizeof_req_header, payload_bytes)];
  e_body_scratch := zero_bytes (FUSE_URING_OP_IN_OUT_SZ + payload_bytes) |}.

(** The allocation loop: the entries, those after a failure left null, and the
    errno. *)
Fixpoint map_entries (mmap : nat -> Z) (payload_bytes : Z) (i n : nat) : list Entry * Z :=
  match n with
  | O => ([], 0)
  | S n' =>
      if mmap i =? 0 then
        let '(es, err) := map_entries mmap payload_bytes (S i) n' in
        (map_entry payload_bytes :: es, err)
      else (replicate n Entry_init, mmap i)
  end.

(** The registration loop: the ring, and whether every push succeeded. *)
Fixpoint register_all (dev_fd qid : Z) (idxs : list Z) (rg : ring) : ring * bool :=
  match idxs with
  | [] => (rg, true)
  | i :: idxs' =>
      match push_sqe rg (prep_register dev_fd qid i) with
      | Some rg' => register_all dev_fd qid idxs' rg'
      | None => (rg, false)
      end
  end.

Definition slots (depth : Z) : list Z := map Z.of_nat (seq 0 (Z.to_nat depth)).

(** The worker and the errno [start] returns, 0 for success. *)
Definition start (impl : Impl) (env : start_env) (k : RingWorker) : RingWorker * Z :=
  let '(es, err) := map_entries (se_mmap env) (rw_payload_bytes k) 0 (Z.to_nat (rw_depth k)) in
  let k := set_entries k es in
  if negb (err =? 0) then (k, err) else
  if se_queue_init env <? 0 then (k, - se_queue_init env) else
  let rg := {| rg_capacity := se_sq_entries env; rg_sq := []; rg_armed := [] |} in
  match push_sqe rg (prep_poll (impl_stop_efd impl)) with
  | None => (set_ring k (Some rg), EAGAIN)
  | Some rg =>
      match register_all (impl_dev_fd impl) (rw_qid k) (slots (rw_depth k)) rg with
      | (rg, false) => (set_ring k (Some rg), EAGAIN)
      | (rg, true) =>
          let rc := se_submit env in
          (set_ring k (Some (submit rc rg)), if rc <? 0 then - rc else 0)
      end
  end.

(** *** run *)

(** What [io_uring_wait_cqe] returns: an error, or a completion and, for a
    successful fetch, the bytes the kernel has put in the entry's buffer. *)
Inductive wait :=
| WaitErr (rc : Z)
| WaitCqe (user_data res : Z) (landed : bytes).

(** One iteration's view of the outside: the completion, and the results of the
    submit that flushes a full queue and of the one that ships the reply. *)
Record event := { ev_wait : wait; ev_flush : Z; ev_submit : Z }.

Inductive verdict := Continue | Stop.

Definition receive (e : Entry) (landed : bytes) : Entry := {|
  e_buf := Some landed; e_buf_len := e_buf_len e; e_commit_id := e_commit_id e;
  e_iov := e_iov e; e_body_scratch := e_body_scratch e |}.

(** [get_sqe]; when the queue is full, submit and try once more. *)
Definition push_or_flush (rg : ring) (flush : Z) (x : sqe) : option ring :=
  match push_sqe rg x with
  | Some rg' => Some rg'
  | None => push_sqe (submit flush rg) x
  end.

Section Run.
Context {S : Type} (fs : Filesystem S).

(** A request landed in entry [idx]. *)
Definition serve_slot (k : RingWorker) (rg : ring) (idx : Z) (landed : bytes) (ev : event)
    (w : world S) : outcome (RingWorker * world S * verdict) :=
  match nth_error (rw_entries k) (Z.to_nat idx) with
  | None => Fault OobRead
  | Some e =>
      let* (e, w, _) := handle_one fs (rw_payload_bytes k) (receive e landed) w in
      let k := set_entries k (<[Z.to_nat idx := e]> (rw_entries k)) in
      let x := prep_commit_and_fetch (impl_dev_fd (w_impl w)) (rw_qid k) idx (e_commit_id e) in
      match push_or_flush rg (ev_flush ev) x with
      | None => Done (set_ec (set_ring k (Some (submit (ev_flush ev) rg))) EAGAIN, w, Stop)
      | Some rg =>
          let k := set_ring k (Some (submit (ev_submit ev) rg)) in
          if ev_submit ev <? 0 then Done (set_ec k (- ev_submit ev), w, Stop)
          else Done (k, w, Continue)
      end
  end.

(** A failed completion of entry [idx]. *)
Definition slot_failed (k : RingWorker) (rg : ring) (idx res : Z) (ev : event) (w : world S) :
    RingWorker * world S * verdict :=
  let k := set_ring k (Some rg) in
  if (res =? - ENOTCONN) || (res =? - ENODEV) then (k, w, Stop) else
  if res =? - EINTR then
    match push_sqe rg (prep_register (impl_dev_fd (w_impl w)) (rw_qid k) idx) with
    | Some rg => (set_ring k (Some (submit (ev_submit ev) rg)), w, Continue)
    | None => (k, w, Continue)
    end
  else (set_ec k (- res), w, Stop).

(** One iteration of the loop of [run]. *)
Definition iteration (k : RingWorker) (w : world S) (ev : event) :
    outcome (RingWorker * world S * verdict) :=
  match rw_ring k with
  | None => Fault OobRead
  | Some rg =>
      match ev_wait ev with
      | WaitErr rc =>
          if rc =? - EINTR then Done (k, w, Continue) else Done (set_ec k (- rc), w, Stop)
      | WaitCqe ud res landed =>
          let rg := complete ud rg in
          if ud =? kStopSentinel then Done (set_ring k (Some rg), w, Stop) else
          let idx := cast U32 ud in
          if zlen (rw_entries k) <=? idx
          then Done (set_ec (set_ring k (Some rg)) EINVAL, w, Continue)
          else if res <? 0 then Done (slot_failed k rg idx res ev w)
          else serve_slot k rg idx landed ev w
      end
  end.

(** The loop, over the completions the outside delivers. *)
Fixpoint run (k : RingWorker) (w : world S) (evs : list event) :
    outcome (RingWorker * world S * verdict) :=
  match evs with
  | [] => Done (k, w, Continue)
  | ev :: evs' =>
      let* (k, w, v) := iteration k w ev in
      match v with
      | Continue => run k w evs'
      | Stop => Done (k, w, Stop)
      end
  end.
End Run.

(** *** teardown *)

(** The lengths unmapped, and whether the ring was closed. *)
Definition teardown (k : RingWorker) : RingWorker * list Z * bool :=
  let unmapped := flat_map (fun e => match e_buf e with Some _ => [e_buf_len e] | None => [] end)
                    (rw_entries k) in
  (set_entries (set_ring k None) [], unmapped,
   match rw_ring k with Some _ => true | None => false end).

(** ** What the kernel and liburing promise *)

(** A completion is for an entry that is armed; a successful fetch leaves in
    the slot's buffer a request whose payload fits the payload area. *)
Definition event_ok (k : RingWorker) (ev : event) : Prop :=
  match ev_wait ev with
  | WaitErr rc => rc < 0
  | WaitCqe ud res landed =>
      (exists rg, rw_ring k = Some rg /\ ud ∈ map sqe_user_data (rg_armed rg)) /\
      (0 <= res -> ud <> kStopSentinel ->
       exists v, landed = view_bytes v /\ view_wf (rw_payload_bytes k) v /\
         view_payload_sz v <= rw_payload_bytes k /\ request_ok (v_header v) (view_body v))
  end.

(** ** Invariant *)

(** Every slot and the stop poll is in exactly one place: armed in the kernel,
    or acquired and waiting for the next submit. *)
Definition all_slots (k : RingWorker) (rg : ring) : Prop :=
  map sqe_user_data (rg_sq rg ++ rg_armed rg) ≡ₚ kStopSentinel :: slots (rw_depth k).

Record worker_ok (k : RingWorker) (rg : ring) : Prop := {
  wo_payload : 0 <= rw_payload_bytes k < 2 ^ 32 - sizeof fuse_out_header;
  wo_depth : 0 <= rw_depth k < 2 ^ 32 - 1;
  wo_ring : rw_ring k = Some rg;
  wo_capacity : rw_depth k + 1 <= rg_capacity rg;
  wo_entries : zlen (rw_entries k) = rw_depth k;
  wo_alloc : Forall (entry_alloc (rw_payload_bytes k)) (rw_entries k);
  wo_slots : all_slots k rg;
}.

(** ** Lemmas on slots *)

Lemma elem_of_slots d i : i ∈ slots d <-> 0 <= i < d.
Proof.
  unfold slots. rewrite list_elem_of_In, in_map_iff. setoid_rewrite in_seq. split.
  - intros (n & <- & ?). lia.
  - intros. exists (Z.to_nat i). lia.
Qed.

Lemma length_slots d : 0 <= d -> zlen (slots d) = d.
Proof. intros. unfold slots, zlen. rewrite length_map, length_seq. lia. Qed.

Lemma remove_ud_perm ud l :
  ud ∈ map sqe_user_data l -> map sqe_user_data l ≡ₚ ud :: map sqe_user_data (remove_ud ud l).
Proof.
  induction l as [|x l IH]; intros Hin; [by apply not_elem_of_nil in Hin|].
  cbn [map remove_ud] in *. case_if.
  - by apply Z.eqb_eq in E as ->.
  - apply elem_of_cons in Hin as [->|Hin]; [by rewrite Z.eqb_refl in E|].
    cbn [map]. rewrite (IH Hin) at 1. apply Permutation_swap.
Qed.

(** After a completion the slot is in the worker's hands only. *)
Lemma complete_slots k rg ud :
  all_slots k rg -> ud ∈ map sqe_user_data (rg_armed rg) ->
  ud :: map sqe_user_data (rg_sq rg ++ remove_ud ud (rg_armed rg))
    ≡ₚ kStopSentinel :: slots (rw_depth k).
Proof.
  unfold all_slots. intros Ha Hin. rewrite <- Ha, !map_app.
  rewrite (remove_ud_perm ud (rg_armed rg)) by done. apply Permutation_middle.
Qed.

Lemma completed_ud k rg ud :
  all_slots k rg -> ud ∈ map sqe_user_data (rg_armed rg) -> ud <> kStopSentinel ->
  0 <= ud < rw_depth k.
Proof.
  intros Ha Hin Hne. apply elem_of_slots.
  assert (Hi : ud ∈ kStopSentinel :: slots (rw_depth k)).
  { rewrite <- Ha, map_app. apply elem_of_app. by right. }
  by apply elem_of_cons in Hi as [->|].
Qed.

(** Equal images in a list whose images differ are of one element. *)
Lemma NoDup_map_inj {A C} (f : A -> C) l x y : NoDup (map f l) -> x ∈ l -> y ∈ l -> f x = f y -> x = y.
Proof.
  induction l as [|z l IH]; cbn; [by intros _ ?%not_elem_of_nil|].
  intros [Hz Hl]%NoDup_cons Hx Hy He. apply elem_of_cons in Hx as [->|Hx], Hy as [->|Hy]; [done|..|by apply IH].
  - destruct Hz. rewrite He. by apply list_elem_of_fmap_2.
  - destruct Hz. rewrite <- He. by apply list_elem_of_fmap_2.
Qed.

(** A slot has one entry. *)
Lemma one_entry k rg x y :
  worker_ok k rg -> x ∈ rg_armed rg -> y ∈ rg_armed rg -> sqe_user_data x = sqe_user_data y -> x = y.
Proof.
  intros Hok. pose proof (wo_slots _ _ Hok) as Ha. unfold all_slots in Ha.
  assert (Hnd : NoDup (kStopSentinel :: slots (rw_depth k))).
  { apply NoDup_cons. split; [|apply (NoDup_fmap_2 Z.of_nat), NoDup_seq].
    rewrite elem_of_slots. pose proof (wo_depth _ _ Hok). unfold kStopSentinel. lia. }
  rewrite <- Ha, map_app in Hnd. apply NoDup_app in Hnd as (_ & _ & Hnd). by apply NoDup_map_inj.
Qed.

(** A queue with a slot in the worker's hands has room for it. *)
Lemma push_after_complete k rg ud x :
  worker_ok k rg -> ud ∈ map sqe_user_data (rg_armed rg) ->
  push_sqe (complete ud rg) x = Some {| rg_capacity := rg_capacity rg; rg_sq := rg_sq rg ++ [x];
                                        rg_armed := remove_ud ud (rg_armed rg) |}.
Proof.
  intros Hok Hin. pose proof (complete_slots k rg ud (wo_slots _ _ Hok) Hin) as Hp.
  apply Permutation_length in Hp. unfold push_sqe. simpl.
  pose proof (wo_depth _ _ Hok). pose proof (wo_capacity _ _ Hok).
  pose proof (length_slots (rw_depth k)). case_if; [done|]. exfalso.
  simpl in Hp. rewrite length_map, length_app in Hp. unfold zlen in *. lia.
Qed.

(** A submit moves entries from the queue to the kernel, all of them if it takes
    as many. *)
Lemma submit_moves rc rg :
  rg_sq (submit rc rg) ++ rg_armed (submit rc rg) ≡ₚ rg_sq rg ++ rg_armed rg.
Proof.
  unfold submit. case_if; [done|]. cbn [rg_sq rg_armed].
  rewrite (Permutation_app_comm (drop _ _)), <- app_assoc, take_drop. apply Permutation_app_comm.
Qed.

Lemma submit_all rc rg : zlen (rg_sq rg) <= rc -> rg_sq (submit rc rg) = [].
Proof.
  intros Hrc. unfold submit. pose proof (zlen_nonneg (rg_sq rg)). case_if; [lia|].
  cbn [rg_sq]. apply drop_ge. unfold zlen in *. lia.
Qed.

Lemma submit_capacity rc rg : rg_capacity (submit rc rg) = rg_capacity rg.
Proof. unfold submit. by case_if. Qed.

(** Re-arming: the pushed entry takes the place of the completed one. *)
Lemma rearm_slots k rg ud x rc :
  all_slots k rg -> ud ∈ map sqe_user_data (rg_armed rg) -> sqe_user_data x = ud ->
  all_slots k (submit rc {| rg_capacity := rg_capacity rg; rg_sq := rg_sq rg ++ [x];
                            rg_armed := remove_ud ud (rg_armed rg) |}).
Proof.
  intros Ha Hin Hx. pose proof (complete_slots k rg ud Ha Hin) as Hp.
  unfold all_slots. rewrite submit_moves, <- Hp. cbn [rg_sq rg_armed].
  rewrite !map_app. cbn [map]. rewrite Hx, <- app_assoc. symmetry. apply Permutation_middle.
Qed.

Lemma entry_at k rg idx :
  worker_ok k rg -> 0 <= idx < rw_depth k ->
  exists e, nth_error (rw_entries k) (Z.to_nat idx) = Some e /\
    entry_alloc (rw_payload_bytes k) e.
Proof.
  intros Hok Hi. pose proof (wo_entries _ _ Hok) as He. unfold zlen in He.
  destruct (nth_error (rw_entries k) (Z.to_nat idx)) as [e|] eqn:En.
  - exists e. split; [done|]. apply nth_error_In in En.
    by eapply (proj1 (List.Forall_forall _ _) (wo_alloc _ _ Hok)).
  - apply nth_error_None in En. lia.
Qed.

Lemma receive_holds pb e v :
  entry_alloc pb e -> view_wf pb v -> holds pb (receive e (view_bytes v)) v.
Proof.
  intros (Hl & Hs & _) Hv. split; [|done]. split; [done|]. split; [done|].
  exists (view_bytes v). split; [done|]. simpl. by rewrite (zlen_view pb).
Qed.

Lemma Forall_update {A} (P : A -> Prop) l i x : Forall P l -> P x -> Forall P (<[i := x]> l).
Proof. intros. by apply Forall_insert. Qed.

(** ** One iteration *)

Section IterationLemmas.
Context {S : Type} (fs : Filesystem S) `{!LawfulFs fs}.

(** A successful fetch is served, and its slot re-armed with the commit of its
    request. *)
Lemma serve_slot_ok k rg ud v ev w :
  worker_ok k rg -> ud ∈ map sqe_user_data (rg_armed rg) -> 0 <= ud < rw_depth k ->
  view_wf (rw_payload_bytes k) v -> view_payload_sz v <= rw_payload_bytes k ->
  request_ok (v_header v) (view_body v) ->
  exists k' w' rg',
    serve_slot fs k (complete ud rg) ud (view_bytes v) ev w =
      Done (if ev_submit ev <? 0 then set_ec k' (- ev_submit ev) else k', w',
            if ev_submit ev <? 0 then Stop else Continue) /\
    worker_ok k' rg' /\ rw_depth k' = rw_depth k /\
    prep_commit_and_fetch (impl_dev_fd (w_impl w')) (rw_qid k) ud
      (uring_ent_in_out_commit_id (v_ent v)) ∈ rg_sq rg' ++ rg_armed rg' /\
    (zlen (rg_sq rg) < ev_submit ev -> rg_sq rg' = []) /\
    exists e e' n, entry_alloc (rw_payload_bytes k) e /\
      handle_one fs (rw_payload_bytes k) (receive e (view_bytes v)) w = Done (e', w', n) /\
      rw_entries k' = <[Z.to_nat ud := e']> (rw_entries k).
Proof.
  intros Hok Hin Hud Hv Hp Hreq. destruct (entry_at k rg ud Hok Hud) as (e & He & Hal).
  destruct (handle_one_returns fs (rw_payload_bytes k) (receive e (view_bytes v)) v w)
    as (e' & w' & n & H1 & Hal' & _ & Hc); [apply Hok|by apply receive_holds|done..|].
  unfold serve_slot. rewrite He, H1. cbn [obind]. rewrite Hc. unfold push_or_flush.
  erewrite push_after_complete by done.
  set (x := prep_commit_and_fetch _ _ _ _). set (rg1 := {| rg_capacity := _ |}).
  set (k1 := set_ring _ _). exists k1, w', (submit (ev_submit ev) rg1).
  split; [by case_if|].
  assert (Hx : x ∈ rg_sq (submit (ev_submit ev) rg1) ++ rg_armed (submit (ev_submit ev) rg1)).
  { rewrite submit_moves. cbn [rg1 rg_sq rg_armed].
    rewrite !elem_of_app, list_elem_of_singleton. auto. }
  assert (Hq : zlen (rg_sq rg) < ev_submit ev -> rg_sq (submit (ev_submit ev) rg1) = []).
  { intros Hs. apply submit_all. cbn [rg1 rg_sq]. zl. }
  split; [|split; [done|split; [done|split; [done|by exists e, e', n]]]].
  destruct Hok. split; try done.
  - by rewrite submit_capacity.
  - unfold k1. simpl. unfold zlen. by rewrite length_insert.
  - by apply Forall_update.
  - change (all_slots k (submit (ev_submit ev) rg1)). by apply (rearm_slots k).
Qed.

(** The end of a failed completion: the loop stops, or the slot is armed anew. *)
Lemma slot_failed_ok k rg ud res ev (w : world S) k' w' v :
  worker_ok k rg -> ud ∈ map sqe_user_data (rg_armed rg) -> 0 <= ud < rw_depth k ->
  slot_failed k (complete ud rg) ud res ev w = (k', w', v) -> v = Continue ->
  exists rg', worker_ok k' rg' /\ rw_depth k' = rw_depth k /\
    (zlen (rg_sq rg) < ev_submit ev -> rg_sq rg' = []).
Proof.
  intros Hok Hin Hud Hf ->. unfold slot_failed in Hf. case_if_in Hf; [done|].
  case_if_in Hf; [|done]. erewrite push_after_complete in Hf by done. simplify_eq.
  eexists. split; [|split; [done|]].
  - destruct Hok. split; try done.
    + by rewrite submit_capacity.
    + by apply (rearm_slots k).
  - intros Hs. apply submit_all. cbn [rg_sq]. zl.
Qed.

(** Every iteration returns; one that continues has all slots accounted for,
    and none waiting for a submit if none was and the submit takes its entry. *)
Lemma iteration_ok k rg ev (w : world S) :
  worker_ok k rg -> event_ok k ev ->
  exists k' w' v, iteration fs k w ev = Done (k', w', v) /\
    (v = Continue -> exists rg', worker_ok k' rg' /\ rw_depth k' = rw_depth k /\
       (rg_sq rg = [] -> 1 <= ev_submit ev -> rg_sq rg' = [])).
Proof.
  intros Hok Hev. unfold iteration. rewrite (wo_ring _ _ Hok). unfold event_ok in Hev.
  destruct (ev_wait ev) as [rc|ud res landed].
  { case_if; eexists _, _, _; (split; [reflexivity|]); [|done]. intros _. by exists rg. }
  destruct Hev as [(rg0 & Hrg & Hin) Hland]. rewrite (wo_ring _ _ Hok) in Hrg.
  injection Hrg as <-.
  destruct (ud =? kStopSentinel) eqn:Estop; [by eexists _, _, _|]. apply Z.eqb_neq in Estop.
  pose proof (completed_ud k rg ud (wo_slots _ _ Hok) Hin Estop) as Hud.
  pose proof (wo_depth _ _ Hok). rewrite cast_id by fits_lia.
  rewrite (wo_entries _ _ Hok). case_if; [lia|]. case_if.
  - destruct (slot_failed k (complete ud rg) ud res ev w) as [[k' w'] v] eqn:Ef.
    eexists _, _, _. split; [reflexivity|]. intros Hc.
    destruct (slot_failed_ok k rg ud res ev w k' w' v) as (rg' & ? & ? & Hq); [done..|].
    exists rg'. split; [done|]. split; [done|]. intros Hnil Hs. apply Hq. rewrite Hnil, zlen_nil. lia.
  - destruct Hland as (v & -> & Hv & Hp & Hreq); [lia|done|].
    destruct (serve_slot_ok k rg ud v ev w) as (k' & w' & rg' & -> & Hok' & Hd & _ & Hq & _); [done..|].
    eexists _, _, _. split; [reflexivity|]. case_if; [done|]. intros _. exists rg'.
    split; [done|]. split; [done|]. intros Hnil Hs. apply Hq. rewrite Hnil, zlen_nil. lia.
Qed.
End IterationLemmas.

(** ** The loop *)

(** The events of a run, each as the kernel can deliver it when it comes. *)
Fixpoint legit {S} (fs : Filesystem S) (k : RingWorker) (w : world S) (evs : list event) : Prop :=
  match evs with
  | [] => True
  | ev :: evs' =>
      event_ok k ev /\
      forall k' w', iteration fs k w ev = Done (k', w', Continue) -> legit fs k' w' evs'
  end.

Lemma run_ok {S} (fs : Filesystem S) `{!LawfulFs fs} evs k rg w :
  worker_ok k rg -> legit fs k w evs ->
  exists k' w' v, run fs k w evs = Done (k', w', v) /\
    (v = Continue -> exists rg', worker_ok k' rg' /\ rw_depth k' = rw_depth k /\
       (rg_sq rg = [] -> Forall (fun ev => 1 <= ev_submit ev) evs -> rg_sq rg' = [])).
Proof.
  revert k rg w. induction evs as [|ev evs IH]; intros k rg w Hok Hl.
  { eexists _, _, _. split; [reflexivity|]. intros _. by exists rg. }
  destruct Hl as [Hev Hl]. destruct (iteration_ok fs k rg ev w Hok Hev) as (k1 & w1 & v1 & Hi & Hc).
  cbn [run]. rewrite Hi. cbn [obind]. destruct v1; [|by eexists _, _, _].
  destruct (Hc eq_refl) as (rg1 & Hok1 & Hd1 & Hq1).
  destruct (IH k1 rg1 w1 Hok1 (Hl k1 w1 Hi)) as (k2 & w2 & v2 & Hr & Hc2).
  eexists _, _, _. split; [exact Hr|]. intros Hv. destruct (Hc2 Hv) as (rg2 & Hok2 & Hd2 & Hq2).
  exists rg2. split; [done|]. split; [congruence|]. intros Hq Hf. inversion_clear Hf. auto.
Qed.

(** An entry for something other than a slot, once in the ring, stays until it
    completes. *)
Section Kept.
Context (x : sqe).

Definition in_ring (k : RingWorker) : Prop :=
  exists rg, rw_ring k = Some rg /\ x ∈ rg_sq rg ++ rg_armed rg.

Lemma remove_ud_other ud l : x ∈ l -> sqe_user_data x <> ud -> x ∈ remove_ud ud l.
Proof.
  intros Hx Hu. induction l as [|y l IH]; [done|]. cbn [remove_ud].
  apply elem_of_cons in Hx as [<-|Hx].
  - case_if; [lia|]. left.
  - case_if; [done|]. right. auto.
Qed.

Lemma complete_other ud rg :
  x ∈ rg_sq rg ++ rg_armed rg -> sqe_user_data x <> ud ->
  x ∈ rg_sq (complete ud rg) ++ rg_armed (complete ud rg).
Proof.
  rewrite !elem_of_app. intros [Hx|Hx] Hu; [by left|right]. by apply remove_ud_other.
Qed.

Lemma push_keeps rg y rg' :
  push_sqe rg y = Some rg' -> x ∈ rg_sq rg ++ rg_armed rg -> x ∈ rg_sq rg' ++ rg_armed rg'.
Proof. unfold push_sqe. case_if; intros [= <-]. cbn [rg_sq rg_armed]. rewrite !elem_of_app. tauto. Qed.

Lemma push_or_flush_keeps rg flush y rg' :
  push_or_flush rg flush y = Some rg' -> x ∈ rg_sq rg ++ rg_armed rg ->
  x ∈ rg_sq rg' ++ rg_armed rg'.
Proof.
  unfold push_or_flush. destruct (push_sqe rg y) eqn:E; intros H Hx.
  - simplify_eq. by eapply push_keeps.
  - eapply push_keeps; [exact H|]. by rewrite submit_moves.
Qed.

Lemma iteration_keeps_other {S} (fs : Filesystem S) k w ev k' w' :
  sqe_user_data x = kStopSentinel -> in_ring k ->
  iteration fs k w ev = Done (k', w', Continue) -> in_ring k'.
Proof.
  intros Hud (rg & Hrg & Hx) Hi. unfold iteration in Hi. rewrite Hrg in Hi.
  destruct (ev_wait ev) as [rc|ud res landed].
  { case_if_in Hi; simplify_eq. by exists rg. }
  destruct (ud =? kStopSentinel) eqn:Es; [done|]. apply Z.eqb_neq in Es.
  apply (complete_other ud) in Hx; [|congruence]. case_if_in Hi; [simplify_eq; by eexists|].
  case_if_in Hi.
  - injection Hi as Hi. unfold slot_failed in Hi. case_if_in Hi; [done|]. case_if_in Hi; [|done].
    destruct (push_sqe _ _) as [rg1|] eqn:Ep; simplify_eq; [|by eexists].
    eexists. split; [reflexivity|]. rewrite submit_moves. by eapply push_keeps.
  - unfold serve_slot in Hi. destruct (nth_error _ _) as [e|]; [|done].
    destruct (handle_one _ _ _ _) as [[[e1 w1] n]|]; [|done]. cbn [obind] in Hi.
    destruct (push_or_flush _ _ _) as [rg1|] eqn:Ep; [|done]. case_if_in Hi; [done|].
    injection Hi as <- _. eexists. split; [reflexivity|]. rewrite submit_moves.
    by eapply push_or_flush_keeps.
Qed.

Lemma run_keeps_other {S} (fs : Filesystem S) evs k w k' w' :
  sqe_user_data x = kStopSentinel -> in_ring k ->
  run fs k w evs = Done (k', w', Continue) -> in_ring k'.
Proof.
  intros Hud. revert k w. induction evs as [|ev evs IH]; intros k w Hk Hr; cbn [run] in Hr.
  { by simplify_eq. }
  destruct (iteration fs k w ev) as [[[k1 w1] v]|] eqn:Ei; [|done]. cbn [obind] in Hr.
  destruct v; [|done]. eapply IH; [|exact Hr]. by eapply iteration_keeps_other.
Qed.
End Kept.

Lemma run_snoc {S} (fs : Filesystem S) evs ev k w k' w' :
  run fs k w evs = Done (k', w', Continue) -> run fs k w (evs ++ [ev]) = run fs k' w' [ev].
Proof.
  revert k w. induction evs as [|e evs IH]; intros k w Hr; cbn [run app] in *; [by simplify_eq|].
  destruct (iteration fs k w e) as [[[k1 w1] v]|]; [|done]. cbn [obind] in *.
  destruct v; [|done]. by apply IH.
Qed.

(** ** start *)

Lemma map_entries_ok mmap pb n i es :
  0 <= pb -> map_entries mmap pb i n = (es, 0) ->
  length es = n /\ Forall (entry_alloc pb) es.
Proof.
  intros Hpb. revert i es. induction n as [|n IH]; intros i es Hm; cbn [map_entries] in Hm.
  { by simplify_eq. }
  destruct (mmap i =? 0) eqn:E; [|injection Hm as _ Hm; lia].
  destruct (map_entries mmap pb (S i) n) as [es' err] eqn:Em. simplify_eq.
  destruct (IH _ _ Em) as [Hl Hf]. split; [simpl; lia|]. constructor; [|done].
  split; [done|]. split; [apply zlen_zero_bytes; offsets; lia|].
  exists (zero_bytes (sizeof_req_header + pb)). split; [done|]. cbn [map_entry e_buf_len].
  apply zlen_zero_bytes. offsets. lia.
Qed.

Lemma register_all_spec dev qid l rg rg' :
  register_all dev qid l rg = (rg', true) ->
  rg_sq rg' = rg_sq rg ++ map (prep_register dev qid) l /\ rg_armed rg' = rg_armed rg /\
  rg_capacity rg' = rg_capacity rg.
Proof.
  revert rg. induction l as [|i l IH]; intros rg Hr; cbn [register_all map] in *.
  { simplify_eq. by rewrite app_nil_r. }
  destruct (push_sqe rg (prep_register dev qid i)) as [rg1|] eqn:Ep; [|done].
  unfold push_sqe in Ep. case_if_in Ep; [|done]. simplify_eq.
  destruct (IH _ Hr) as (-> & -> & ->). simpl. by rewrite <- app_assoc.
Qed.

(** A worker that started has every slot and the stop poll queued or armed, and
    all of them armed if the submit took them all. *)
Lemma start_ok impl env qid depth pb k :
  0 <= pb < 2 ^ 32 - sizeof fuse_out_header -> 0 <= depth < 2 ^ 32 - 1 ->
  depth + 1 <= se_sq_entries env ->
  start impl env (RingWorker_make qid depth pb) = (k, 0) ->
  exists rg, worker_ok k rg /\ rw_depth k = depth /\
    rg_armed rg ++ rg_sq rg = prep_poll (impl_stop_efd impl) ::
                              map (prep_register (impl_dev_fd impl) qid) (slots depth) /\
    (depth + 1 <= se_submit env -> rg_sq rg = []).
Proof.
  intros Hpb Hd Hcap Hs. unfold start in Hs. cbn [RingWorker_make rw_payload_bytes rw_depth] in Hs.
  destruct (map_entries _ _ _ _) as [es err] eqn:Em. destruct (err =? 0) eqn:Ee; cbn [negb] in Hs.
  2: { by simplify_eq. }
  apply Z.eqb_eq in Ee as ->. apply map_entries_ok in Em as [Hl Hal]; [|lia].
  destruct (se_queue_init env <? 0) eqn:Eq; [injection Hs as _ Hs; lia|].
  unfold push_sqe at 1 in Hs. simpl zlen in Hs. rewrite zlen_nil in Hs. cbn [rg_capacity] in Hs.
  destruct (0 <? se_sq_entries env) eqn:E0; [|lia]. cbn [app rg_armed] in Hs.
  destruct (register_all _ _ _ _) as [rg b] eqn:Er. destruct b; [|done].
  apply register_all_spec in Er as (Hsq & Har & Hc). cbn [rg_sq rg_armed rg_capacity app] in *.
  simplify_eq. destruct (se_submit env <? 0) eqn:Es; [lia|].
  exists (submit (se_submit env) rg). split; [|split; [done|split]].
  - split; cbn; try done.
    + rewrite submit_capacity. lia.
    + unfold zlen. rewrite Hl. lia.
    + unfold all_slots. rewrite submit_moves, Har, Hsq, app_nil_r. cbn. rewrite map_map. cbn.
      by rewrite map_id.
  - unfold submit. rewrite Es. cbn [rg_sq rg_armed]. rewrite Har. cbn [app].
    by rewrite take_drop, Hsq.
  - intros Hall. apply submit_all. rewrite Hsq. unfold zlen, slots. cbn [length].
    rewrite !length_map, length_seq. cbn [set_entries RingWorker_make rw_depth]. lia.
Qed.

(** ** teardown *)

(** The entries mapped before the first failure. *)
Fixpoint mapped_prefix (mmap : nat -> Z) (i n : nat) : nat :=
  match n with
  | O => O
  | S n' => if mmap i =? 0 then S (mapped_prefix mmap (S i) n') else O
  end.

Definition unmapped_of (es : list Entry) : list Z :=
  flat_map (fun e => match e_buf e with Some _ => [e_buf_len e] | None => [] end) es.

Lemma unmapped_null n : unmapped_of (replicate n Entry_init) = [].
Proof. by induction n. Qed.

Lemma map_entries_unmapped mmap pb n i :
  unmapped_of (fst (map_entries mmap pb i n)) =
  replicate (mapped_prefix mmap i n) (sizeof_req_header + pb).
Proof.
  revert i. induction n as [|n IH]; intros i; [done|]. cbn [map_entries mapped_prefix].
  case_if; [|apply unmapped_null].
  specialize (IH (S i)). destruct (map_entries mmap pb (S i) n) as [es err].
  cbn [fst] in *. unfold unmapped_of in *. cbn [flat_map map_entry e_buf e_buf_len app].
  by rewrite IH.
Qed.

Lemma start_entries impl env k k' err :
  start impl env k = (k', err) ->
  rw_entries k' = fst (map_entries (se_mmap env) (rw_payload_bytes k) 0 (Z.to_nat (rw_depth k))).
Proof.
  unfold start. destruct (map_entries _ _ _ _) as [es e]. intros Hs.
  repeat first [case_if_in Hs | case_match]; by simplify_eq.
Qed.

(** A property of the daemon's state that every callback keeps holds along the
    whole loop. *)
Section Keeps.
Context {S : Type} (fs : Filesystem S) (P : world S -> Prop) `{!WorldInvariant fs P}.

Lemma handle_one_keeps pb e w e' w' n :
  P w -> handle_one fs pb e w = Done (e', w', n) -> P w'.
Proof.
  intros HP H. unfold handle_one in H.
  repeat match type of H with
  | obind ?e _ = Done _ => let E := fresh "E" in destruct e eqn:E; cbn [obind] in H; [|discriminate H]
  | (if ?e then _ else _) = Done _ => destruct e
  | (let '(_, _) := ?e in _) = Done _ => destruct e
  end; injection H as <- <- <-; [done|]. by eapply (dispatch_keeps fs P).
Qed.

Lemma iteration_keeps k w ev k' w' v :
  P w -> iteration fs k w ev = Done (k', w', v) -> P w'.
Proof.
  intros HP H. unfold iteration, slot_failed, serve_slot in H.
  repeat match type of H with
  | Fault _ = _ => discriminate H
  | obind ?e _ = Done _ =>
      let E := fresh "E" in destruct e as [[[? ?] ?]|] eqn:E; cbn [obind] in H; [|discriminate H]
  | Done (if ?e then _ else _) = Done _ => destruct e
  | Done match ?e with _ => _ end = Done _ => destruct e
  | (if ?e then _ else _) = Done _ => destruct e
  | match ?e with _ => _ end = Done _ => destruct e
  end; injection H as <- <- <-; try done; by eapply handle_one_keeps.
Qed.

Lemma run_keeps k w evs k' w' v :
  P w -> run fs k w evs = Done (k', w', v) -> P w'.
Proof.
  revert k w. induction evs as [|ev evs IH]; intros k w HP H; simpl in H; [by injection H as <- <- <-|].
  destruct (iteration fs k w ev) as [[[k1 w1] v1]|] eqn:E; [|discriminate H]. simpl in H.
  assert (HP1 : P w1) by (eapply iteration_keeps; eassumption).
  destruct v1; [by eapply IH|]. by injection H as <- <- <-.
Qed.
End Keeps.

(** ** Theorems *)

(** C12: the worker loop never loses a slot. After a successful [start], along
    any sequence of completions the kernel can deliver, with requests of any
    content, every iteration returns (no access outside the buffers); and as
    long as the loop goes on, every slot and the stop poll is in exactly one
    place, armed in the kernel or queued for the next submit, however few
    entries a submit takes; and all of them are armed when no submit falls
    short. *)
Theorem run_never_loses_slot {S} (fs : Filesystem S) (LFS : LawfulFs fs) impl env qid depth pb k w
    evs :
  0 <= pb < 2 ^ 32 - sizeof fuse_out_header -> 0 <= depth < 2 ^ 32 - 1 ->
  depth + 1 <= se_sq_entries env ->
  start impl env (RingWorker_make qid depth pb) = (k, 0) ->
  legit fs k w evs ->
  exists k' w' v, run fs k w evs = Done (k', w', v) /\
    (v = Continue -> exists rg, rw_ring k' = Some rg /\
       map sqe_user_data (rg_sq rg ++ rg_armed rg) ≡ₚ kStopSentinel :: slots depth /\
       (depth + 1 <= se_submit env -> Forall (fun ev => 1 <= ev_submit ev) evs ->
        rg_sq rg = [])).
Proof.
  intros Hpb Hd Hc Hs Hl. destruct (start_ok impl env qid depth pb k Hpb Hd Hc Hs)
    as (rg & Hok & Hdk & _ & Hq).
  destruct (run_ok fs evs k rg w Hok Hl) as (k' & w' & v & Hr & Hv).
  exists k', w', v. split; [done|]. intros Hcont. destruct (Hv Hcont) as (rg' & Hok' & Hd' & Hq').
  exists rg'. split; [apply Hok'|]. split; [|auto].
  pose proof (wo_slots _ _ Hok') as Hslots. unfold all_slots in Hslots. congruence.
Qed.

(** C13: stop ends the loop. Whatever completions come, provided that the submit of
    [start] takes all entries and every submit of the loop at least one: the poll on
    the stop eventfd is armed while the loop goes on; when it completes, whenever
    that is, the loop ends there, without an error of its own, with every slot armed
    and no request taken and not answered. *)
Theorem stop_ends_run {S} (fs : Filesystem S) (LFS : LawfulFs fs) impl env qid depth pb k w
    evs k' w' :
  0 <= pb < 2 ^ 32 - sizeof fuse_out_header -> 0 <= depth < 2 ^ 32 - 1 ->
  depth + 1 <= se_sq_entries env -> depth + 1 <= se_submit env ->
  start impl env (RingWorker_make qid depth pb) = (k, 0) ->
  legit fs k w evs -> Forall (fun ev => 1 <= ev_submit ev) evs ->
  run fs k w evs = Done (k', w', Continue) ->
  exists rg, rw_ring k' = Some rg /\ prep_poll (impl_stop_efd impl) ∈ rg_armed rg /\
    forall ev res landed, ev_wait ev = WaitCqe kStopSentinel res landed ->
      exists rg', run fs k w (evs ++ [ev]) = Done (set_ring k' (Some rg'), w', Stop) /\
        rg_sq rg' = [] /\ map sqe_user_data (rg_armed rg') ≡ₚ slots depth.
Proof.
  intros Hpb Hd Hc Hall Hs Hl Hsub Hr. destruct (start_ok impl env qid depth pb k Hpb Hd Hc Hs)
    as (rg & Hok & Hdk & Ha & Hq). specialize (Hq Hall).
  destruct (run_ok fs evs k rg w Hok Hl) as (k2 & w2 & v & Hr2 & Hv).
  rewrite Hr in Hr2. simplify_eq. destruct (Hv eq_refl) as (rg' & Hok' & Hd' & Hq').
  specialize (Hq' Hq Hsub). exists rg'. pose proof (wo_ring _ _ Hok') as Hrg. split; [done|].
  destruct (run_keeps_other (prep_poll (impl_stop_efd impl)) fs evs k w k2 w2) as (rg2 & Hrg2 & Hin);
    [done| |done|].
  { exists rg. split; [apply Hok|]. rewrite Permutation_app_comm, Ha. left. }
  rewrite Hrg in Hrg2. simplify_eq. rewrite Hq' in Hin. split; [done|].
  intros ev res landed Hw. exists (complete kStopSentinel rg2). split; [|split; [done|]].
  - rewrite (run_snoc fs evs ev k w k2 w2) by done. cbn [run]. unfold iteration.
    rewrite Hrg, Hw. by cbn [obind].
  - apply (Permutation_cons_inv (a := kStopSentinel)).
    pose proof (complete_slots k2 rg2 kStopSentinel (wo_slots _ _ Hok')) as Hp.
    rewrite Hq' in Hp. cbn [app] in Hp. rewrite Hd' in Hp.
    apply Hp. apply (list_elem_of_fmap_2 sqe_user_data) in Hin. exact Hin.
Qed.

(** The queue is never full. While a completed slot is in the worker's hands
    the submission queue has room for the entry that re-arms it: the branches
    of [run] for a failed [io_uring_get_sqe] are never taken. *)
Theorem queue_never_full k rg ud x :
  worker_ok k rg -> ud ∈ map sqe_user_data (rg_armed rg) -> push_sqe (complete ud rg) x <> None.
Proof. intros Hok Hin. by erewrite push_after_complete. Qed.

(** C11: a request is served in its slot. When a well-formed request lands in a slot
    and the submit takes what is queued, the iteration goes on; the session and the
    daemon change as [serve] says; the buffer of that slot, and of no other, changes,
    and the kernel finds in it exactly the answer; and the slot is armed again with
    COMMIT_AND_FETCH for this slot, the worker's queue and the commit id of the
    request, the only entry for the slot. *)
Theorem slot_request_served {S} (fs : Filesystem S) (LFS : LawfulFs fs) k rg ev w ud res v q first rest :
  worker_ok k rg -> event_ok k ev -> ev_wait ev = WaitCqe ud res (view_bytes v) ->
  0 <= res -> ud <> kStopSentinel -> zlen (rg_sq rg) < ev_submit ev ->
  view_wf (rw_payload_bytes k) v -> carries v first rest -> first ++ rest = wire q -> request_wf q ->
  request_ok (v_header v) (view_body v) ->
  opcode_is (v_header v) (request_opcode q) = true -> ext_bytes (v_header v) = 0 ->
  let '(w', a) := serve fs (v_header v) q (v_payload v) w in
  (forall err, fit (rw_payload_bytes k) a = Refused err -> fits I32 (neg_errno err)) ->
  let x := prep_commit_and_fetch (impl_dev_fd (w_impl w')) (rw_qid k) ud
             (uring_ent_in_out_commit_id (v_ent v)) in
  exists k' rg' e' buf' oh payload, iteration fs k w ev = Done (k', w', Continue) /\
    rw_entries k' = <[Z.to_nat ud := e']> (rw_entries k) /\ e_buf e' = Some buf' /\
    entry_reply (v_header v) (fit (rw_payload_bytes k) a) = (oh, payload) /\ reads_reply buf' oh payload /\
    worker_ok k' rg' /\ rg_sq rg' = [] /\
    x ∈ rg_armed rg' /\ forall y, y ∈ rg_armed rg' -> sqe_user_data y = ud -> y = x.
Proof.
  intros Hok Hev Hw Hres Hud Hsub Hv Hc Hq Hwf Hreq Hop Hext.
  destruct (serve fs (v_header v) q (v_payload v) w) as [w0 a] eqn:Es. intros Herr x.
  unfold event_ok in Hev. rewrite Hw in Hev.
  destruct Hev as [(rg0 & Hrg & Hin) _]. rewrite (wo_ring _ _ Hok) in Hrg. injection Hrg as <-.
  pose proof (completed_ud k rg ud (wo_slots _ _ Hok) Hin Hud) as Hr.
  destruct (carries_body _ v first rest Hv Hc) as (_ & _ & Hp).
  destruct (serve_slot_ok fs k rg ud v ev w) as (k' & w' & rg' & Hs & Hok' & _ & Hx & Hsq & e & e1 & n & Hal & He & Hes);
    [done..|]. specialize (Hsq Hsub). rewrite Hsq in Hx. cbn [app] in Hx.
  destruct (handle_one_serves fs LFS (rw_payload_bytes k) (receive e (view_bytes v)) v q first rest w)
    as (e' & buf' & oh & payload & H1 & _ & H3 & _ & H5 & H6);
    [apply Hok|by apply receive_holds|done..|by rewrite Es|].
  rewrite Es in H1, H5. cbn [fst snd] in H1, H5. rewrite H1 in He. injection He as <- <- _.
  pose proof (zlen_nonneg (rg_sq rg)). destruct (Z.ltb_spec (ev_submit ev) 0) as [|_]; [lia|].
  exists k', rg', e', buf', oh, payload. split_and!; try done.
  - unfold iteration. rewrite (wo_ring _ _ Hok), Hw. case_if; [lia|].
    pose proof (wo_depth _ _ Hok). rewrite cast_id by fits_lia. rewrite (wo_entries _ _ Hok).
    case_if; [lia|]. case_if; [lia|]. done.
  - intros y Hy Hyud. by apply (one_entry k' rg').
Qed.

(** Teardown gives back what start took. Whatever [start] returned, teardown
    unmaps exactly the buffers mapped before the first failure, each with its
    length, and closes the ring if and only if it was set up. *)
Theorem teardown_unmaps impl env qid depth pb k err :
  start impl env (RingWorker_make qid depth pb) = (k, err) ->
  teardown k =
    ({| rw_qid := rw_qid k; rw_depth := rw_depth k; rw_payload_bytes := rw_payload_bytes k;
        rw_ring := None; rw_entries := []; rw_ec := rw_ec k |},
     replicate (mapped_prefix (se_mmap env) 0 (Z.to_nat depth)) (sizeof_req_header + pb),
     match rw_ring k with Some _ => true | None => false end).
Proof.
  intros Hs%start_entries. unfold teardown. fold (unmapped_of (rw_entries k)).
  rewrite Hs. by rewrite map_entries_unmapped.
Qed.

(** Why an iteration ends the loop, and the error code it leaves. *)
Definition stop_cause (k : RingWorker) (ev : event) (ec : Z) : Prop :=
  match ev_wait ev with
  | WaitErr rc => rc <> - EINTR /\ ec = - rc
  | WaitCqe ud res _ =>
      (ud = kStopSentinel /\ ec = rw_ec k) \/
      (ud <> kStopSentinel /\ (res = - ENOTCONN \/ res = - ENODEV) /\ ec = rw_ec k) \/
      (ud <> kStopSentinel /\ res < 0 /\ res <> - ENOTCONN /\ res <> - ENODEV /\
       res <> - EINTR /\ ec = - res) \/
      (ud <> kStopSentinel /\ 0 <= res /\ ev_submit ev < 0 /\ ec = - ev_submit ev)
  end.

Lemma slot_failed_stop {S} k rg idx res ev (w : world S) k' w' :
  slot_failed k rg idx res ev w = (k', w', Stop) ->
  ((res = - ENOTCONN \/ res = - ENODEV) /\ rw_ec k' = rw_ec k) \/
  (res <> - ENOTCONN /\ res <> - ENODEV /\ res <> - EINTR /\ rw_ec k' = - res).
Proof.
  unfold slot_failed. case_if; [intros; simplify_eq; left; split; [lia|done]|].
  case_if; [case_match; intros; simplify_eq|]. intros. simplify_eq. right.
  split_and!; [lia..|done].
Qed.

(** Why the loop ends. An iteration stops the worker only for a failed wait
    other than EINTR, the stop poll, a failed completion other than EINTR, or a
    failed submit; the stop poll and a disconnected device (ENOTCONN, ENODEV)
    leave the error code as it was, every other cause is recorded in it, the
    EAGAIN of a completion included. *)
Theorem iteration_stop_cause {S} (fs : Filesystem S) (LFS : LawfulFs fs) k rg ev w k' w' :
  worker_ok k rg -> event_ok k ev -> iteration fs k w ev = Done (k', w', Stop) ->
  stop_cause k ev (rw_ec k').
Proof.
  intros Hok Hev Hi. unfold iteration in Hi. rewrite (wo_ring _ _ Hok) in Hi.
  unfold event_ok in Hev. unfold stop_cause. destruct (ev_wait ev) as [rc|ud res landed].
  { case_if_in Hi; simplify_eq. split; [lia|done]. }
  destruct Hev as [(rg0 & Hrg & Hin) Hland]. rewrite (wo_ring _ _ Hok) in Hrg. injection Hrg as <-.
  destruct (ud =? kStopSentinel) eqn:Es; [simplify_eq; left; split; [lia|done]|].
  apply Z.eqb_neq in Es. right.
  pose proof (completed_ud k rg ud (wo_slots _ _ Hok) Hin Es) as Hud.
  pose proof (wo_depth _ _ Hok). rewrite cast_id in Hi by fits_lia.
  rewrite (wo_entries _ _ Hok) in Hi. case_if_in Hi; [lia|]. case_if_in Hi.
  - injection Hi as Hi. apply slot_failed_stop in Hi as [[? ?]|(? & ? & ? & ?)]; [by left|].
    right. left. split_and!; try done. lia.
  - destruct Hland as (v & -> & Hv & Hp & Hreq); [lia|done|].
    destruct (serve_slot_ok fs k rg ud v ev w) as (k1 & w1 & rg1 & Hs & _); [done..|].
    rewrite Hs in Hi. right. right. destruct (ev_submit ev <? 0) eqn:Eb; simplify_eq.
    split_and!; [done|lia|lia|done].
Qed.

(** ** Examples *)

Definition demo_env : start_env := {|
  se_mmap := fun _ => 0; se_queue_init := 0; se_sq_entries := 4; se_submit := 3 |}.

Definition demo_impl : Impl := Impl_make demo_options.
Definition demo_worker : RingWorker := fst (start demo_impl demo_env (RingWorker_make 0 2 64)).

Definition demo_fetch (ud res : Z) (v : entry_view) (rc : Z) : event := {|
  ev_wait := WaitCqe ud res (view_bytes v); ev_flush := 0; ev_submit := rc |}.

Lemma demo_worker_started :
  start demo_impl demo_env (RingWorker_make 0 2 64) = (demo_worker, 0).
Proof. reflexivity. Qed.

Lemma demo_worker_ok : exists rg, worker_ok demo_worker rg /\ rg_sq rg = [] /\
  rw_payload_bytes demo_worker = 64 /\
  rg_armed rg = prep_poll (-1) :: map (prep_register (-1) 0) (slots 2).
Proof.
  destruct (start_ok demo_impl demo_env 0 2 64 demo_worker) as (rg & Hok & _ & Ha & Hq);
    [vm_compute; split; congruence|lia|vm_compute; congruence|reflexivity|].
  rewrite Hq, app_nil_r in Ha by done. exists rg. by rewrite Hq by done.
Qed.

Lemma demo_lookup_view_wf : view_wf 64 demo_lookup_view.
Proof.
  apply (demo_holds FUSE_LOOKUPX 42 2 ([Byte.x61; Byte.x00] ++ zero_bytes 62));
    vm_compute; split; congruence.
Qed.

Lemma demo_fetch_ok k rg ud res rc :
  rw_ring k = Some rg -> ud ∈ map sqe_user_data (rg_armed rg) -> rw_payload_bytes k = 64 ->
  event_ok k (demo_fetch ud res demo_lookup_view rc).
Proof.
  intros Hrg Hin Hpb. split; [by exists rg|]. intros _ _. exists demo_lookup_view. rewrite Hpb.
  split; [done|]. split; [apply demo_lookup_view_wf|]. split; [by vm_compute|].
  split; discriminate.
Qed.

Lemma run_never_loses_slot_witness :
  exists k' w' v, run (demo_fs [Byte.x61]) demo_worker (demo_world [])
      [demo_fetch 1 0 demo_lookup_view 1] = Done (k', w', v) /\
    (v = Continue -> exists rg, rw_ring k' = Some rg /\
       map sqe_user_data (rg_sq rg ++ rg_armed rg) ≡ₚ kStopSentinel :: slots 2 /\
       (3 <= 3 -> Forall (fun ev => 1 <= ev_submit ev) [demo_fetch 1 0 demo_lookup_view 1] ->
        rg_sq rg = [])).
Proof.
  apply (run_never_loses_slot (demo_fs [Byte.x61]) (demo_fs_lawful _) demo_impl demo_env 0 2 64).
  - vm_compute. split; congruence.
  - lia.
  - vm_compute. congruence.
  - reflexivity.
  - split; [|intros; exact I]. destruct demo_worker_ok as (rg & Hok & _ & Hpb & Ha).
    apply (demo_fetch_ok _ rg); [apply Hok| |done]. rewrite Ha. cbn. set_solver.
Defined.

Lemma stop_ends_run_witness :
  exists k' w' rg, run (demo_fs [Byte.x61]) demo_worker (demo_world [])
      [demo_fetch 1 0 demo_lookup_view 1] = Done (k', w', Continue) /\
    rw_ring k' = Some rg /\ prep_poll (-1) ∈ rg_armed rg.
Proof.
  destruct (run (demo_fs [Byte.x61]) demo_worker (demo_world []) [demo_fetch 1 0 demo_lookup_view 1])
    as [[[k' w'] v]|] eqn:E; [|vm_compute in E; discriminate E].
  assert (v = Continue) as -> by (vm_compute in E; injection E; congruence).
  destruct (stop_ends_run (demo_fs [Byte.x61]) (demo_fs_lawful _) demo_impl demo_env 0 2 64 demo_worker
    (demo_world []) [demo_fetch 1 0 demo_lookup_view 1] k' w') as (rg & Hrg & Hp & _).
  - vm_compute. split; congruence.
  - lia.
  - vm_compute. congruence.
  - vm_compute. congruence.
  - reflexivity.
  - split; [|intros; exact I]. destruct demo_worker_ok as (rg & Hok & _ & Hpb & Ha).
    apply (demo_fetch_ok _ rg); [apply Hok| |done]. rewrite Ha. cbn. set_solver.
  - constructor; [cbn; lia|constructor].
  - exact E.
  - exists k', w', rg. split; [reflexivity|]. split; [exact Hrg|exact Hp].
Defined.

Lemma queue_never_full_witness :
  exists rg, push_sqe (complete 0 rg) (prep_register 3 0 0) <> None /\ worker_ok demo_worker rg.
Proof.
  destruct demo_worker_ok as (rg & Hok & _ & _ & Ha). exists rg. split; [|done].
  apply (queue_never_full demo_worker rg 0); [done|]. rewrite Ha. cbn. set_solver.
Defined.

Lemma slot_request_served_witness :
  exists k' w' rg' e' buf' payload, iteration (demo_fs [Byte.x61]) demo_worker (demo_world [])
      (demo_fetch 1 0 demo_lookup_view 1) = Done (k', w', Continue) /\
    rw_entries k' = <[1%nat := e']> (rw_entries demo_worker) /\ e_buf e' = Some buf' /\
    reads_reply buf' (out_header (v_header demo_lookup_view) 0 32) payload /\
    prep_commit_and_fetch (impl_dev_fd (w_impl w')) 0 1 77 ∈ rg_armed rg'.
Proof.
  destruct demo_worker_ok as (rg & Hok & Hnil & Hpb & Ha).
  assert (Hin : 1 ∈ map sqe_user_data (rg_armed rg)) by (rewrite Ha; cbn; set_solver).
  assert (Hev : event_ok demo_worker (demo_fetch 1 0 demo_lookup_view 1))
    by (apply (demo_fetch_ok _ rg); [apply Hok|exact Hin|exact Hpb]).
  assert (Hsq : zlen (rg_sq rg) < 1) by (rewrite Hnil; reflexivity).
  assert (Hc : carries demo_lookup_view [] [Byte.x61; Byte.x00])
    by (split_and!; try reflexivity; eexists; reflexivity).
  assert (Hreq : request_ok (v_header demo_lookup_view) (view_body demo_lookup_view)) by (split; discriminate).
  destruct (slot_request_served (demo_fs [Byte.x61]) (demo_fs_lawful _) demo_worker rg
    (demo_fetch 1 0 demo_lookup_view 1) (demo_world []) 1 0 demo_lookup_view (ReqLookupx [Byte.x61]) []
    [Byte.x61; Byte.x00] Hok Hev eq_refl ltac:(lia) ltac:(discriminate) Hsq demo_lookup_view_wf Hc
    eq_refl ltac:(repeat constructor) Hreq eq_refl eq_refl)
    as (k' & rg' & e' & buf' & oh & payload & Hi & He & Hb & Hr & Hrd & _ & _ & Hx & _).
  { intros err Herr. vm_compute in Herr. discriminate Herr. }
  eexists k', _, rg', e', buf', payload. injection Hr as <- <-.
  split; [exact Hi|]. split; [exact He|]. split; [exact Hb|]. split; [exact Hrd|exact Hx].
Defined.

Lemma teardown_unmaps_witness :
  snd (fst (teardown (fst (start demo_impl
    {| se_mmap := fun i => if Nat.eqb i 1 then 12 else 0; se_queue_init := 0;
       se_sq_entries := 4; se_submit := 3 |} (RingWorker_make 0 2 64))))) = [352].
Proof.
  erewrite (teardown_unmaps demo_impl
    {| se_mmap := fun i => if Nat.eqb i 1 then 12 else 0; se_queue_init := 0;
       se_sq_entries := 4; se_submit := 3 |} 0 2 64 _ 12); reflexivity.
Defined.

Lemma iteration_stop_cause_witness :
  exists k' w', iteration (demo_fs [Byte.x61]) demo_worker (demo_world [])
      (demo_fetch 0 (- EAGAIN) demo_lookup_view 1) = Done (k', w', Stop) /\
    stop_cause demo_worker (demo_fetch 0 (- EAGAIN) demo_lookup_view 1) (rw_ec k').
Proof.
  destruct demo_worker_ok as (rg & Hok & _ & Hpb & Ha).
  assert (Hin : 0 ∈ map sqe_user_data (rg_armed rg)) by (rewrite Ha; cbn; set_solver).
  eexists _, _. split; [reflexivity|].
  eapply (iteration_stop_cause (demo_fs [Byte.x61]) (demo_fs_lawful _) demo_worker rg
    (demo_fetch 0 (- EAGAIN) demo_lookup_view 1) (demo_world [])).
  - done.
  - apply (demo_fetch_ok _ rg); [apply Hok|done|done].
  - reflexivity.
Defined.

(** [start] does not compare the result of its submit with what it queued: if
    the kernel takes nothing it reports success, with neither the slots nor the
    stop poll armed, and the loop would wait for ever. *)
Example short_submit_unnoticed :
  exists k rg, start demo_impl
      {| se_mmap := fun _ => 0; se_queue_init := 0; se_sq_entries := 4; se_submit := 0 |}
      (RingWorker_make 0 2 64) = (k, 0) /\
    rw_ring k = Some rg /\ rg_armed rg = [] /\ zlen (rg_sq rg) = 3.
Proof. eexists _, _. repeat split. Qed.
