(* ===== verification/Simulation.v ===== *)
(** * Daemons that cannot be told apart

    The dispatcher reaches the daemon through its callbacks only. So if two
    daemons answer every callback alike, from states a relation [R] holds
    between and into such states, then no request tells them apart: dispatch,
    compound requests included, the service of a ring entry and the loop of a
    worker reply the same bytes. This is how a result on an abstract daemon is
    carried to the bytes the kernel sees from a concrete one. *)

From S2P Require Import Prelude Memory Pod Abi Types DirentWriter Filesystem Replier Handlers.
From S2P Require Import Callbacks UringEntry UringWorker.
#[local] Open Scope Z_scope.

(** ** Simulation *)

Class FsSimulation {S1 S2} (fs1 : Filesystem S1) (fs2 : Filesystem S2) (R : S1 -> S2 -> Prop) :
    Prop :=
  ask_simulates : forall cb s1 s2, R s1 s2 ->
    fst (ask fs1 cb s1) = fst (ask fs2 cb s2) /\ R (snd (ask fs1 cb s1)) (snd (ask fs2 cb s2)).

(** Outcomes with related results; a fault on one side is one on the other. *)
Definition outcome_rel {A C} (P : A -> C -> Prop) (o1 : outcome A) (o2 : outcome C) : Prop :=
  match o1, o2 with
  | Done a, Done c => P a c
  | Fault f, Fault g => f = g
  | _, _ => False
  end.

Lemma outcome_rel_impl {A C} (P Q : A -> C -> Prop) o1 o2 :
  (forall a c, P a c -> Q a c) -> outcome_rel P o1 o2 -> outcome_rel Q o1 o2.
Proof. intros HPQ. destruct o1, o2; cbn; auto. Qed.

Section Simulation.
Context {S1 S2 : Type} (fs1 : Filesystem S1) (fs2 : Filesystem S2) (R : S1 -> S2 -> Prop).
Context `{!FsSimulation fs1 fs2 R}.

Definition world_rel (w1 : world S1) (w2 : world S2) : Prop :=
  w_impl w1 = w_impl w2 /\ R (w_fs w1) (w_fs w2).

(** Related worlds and the same reply. *)
Definition reply_rel (x : world S1 * Replier) (y : world S2 * Replier) : Prop :=
  world_rel (fst x) (fst y) /\ snd x = snd y.

Definition handlers_rel (hd1 : handler S1) (hd2 : handler S2) : Prop :=
  forall h body w1 w2 r, world_rel w1 w2 ->
    outcome_rel reply_rel (hd1 h body w1 r) (hd2 h body w2 r).

(** ** Handlers *)

(** Takes the callback on both sides: the answers are the same, and the states
    after it related. *)
Ltac both cb :=
  let H := fresh "H" in
  match goal with
  | HR : R ?a ?b |- _ => pose proof (ask_simulates cb a b HR) as H; clear HR
  end; cbn [ask] in H;
  repeat match type of H with
  | fst (let '(_, _) := ?x in _) = fst (let '(_, _) := ?y in _) /\ _ => destruct x, y
  | fst (let '(_, _) := let '(_, _) := ?x in _ in _) = _ /\ _ => destruct x
  | _ = fst (let '(_, _) := let '(_, _) := ?x in _ in _) /\ _ => destruct x
  end; cbn [fst snd] in H;
  let He := fresh "He" in destruct H as [He ?]; simplify_eq.

Ltac sim_callback :=
  match goal with
  | |- context [fs_init fs1 ?a _] => both (CbInit a)
  | |- context [fs_lookup_root fs1 ?a _] => both (CbLookupRoot a)
  | |- context [fs_lookupx fs1 ?a ?b ?c _] => both (CbLookupx a b c)
  | |- context [fs_forget fs1 ?a ?b _] => both (CbForget a b)
  | |- context [fs_forget_multi fs1 ?a _] => both (CbForgetMulti a)
  | |- context [fs_statx fs1 ?a ?b _] => both (CbStatx a b)
  | |- context [fs_setstatx fs1 ?a ?b ?c ?d _] => both (CbSetstatx a b c d)
  | |- context [fs_mkobjx fs1 ?a ?b ?c _] => both (CbMkobjx a b c)
  | |- context [fs_unlink fs1 ?a ?b ?c _] => both (CbUnlink a b c)
  | |- context [fs_rmdir fs1 ?a ?b ?c _] => both (CbRmdir a b c)
  | |- context [fs_rename fs1 ?a ?b ?c ?d ?e ?f _] => both (CbRename a b c d e f)
  | |- context [fs_link fs1 ?a ?b ?c ?d _] => both (CbLink a b c d)
  | |- context [fs_readlink fs1 ?a ?b _] => both (CbReadlink a b)
  | |- context [fs_open fs1 ?a ?b ?c _] => both (CbOpen a b c)
  | |- context [fs_release fs1 ?a ?b ?c ?d _] => both (CbRelease a b c d)
  | |- context [fs_read fs1 ?a ?b ?c ?d ?e _] => both (CbRead a b c d e)
  | |- context [fs_write fs1 ?a ?b ?c ?d ?e _] => both (CbWrite a b c d e)
  | |- context [fs_fallocate fs1 ?a ?b ?c ?d ?e ?f _] => both (CbFallocate a b c d e f)
  | |- context [fs_statfs fs1 ?a ?b _] => both (CbStatfs a b)
  | |- context [fs_opendir fs1 ?a ?b _] => both (CbOpendir a b)
  | |- context [fs_releasedir fs1 ?a ?b ?c _] => both (CbReleasedir a b c)
  | |- context [fs_readdir fs1 ?a ?b ?c ?d ?e _] => both (CbReaddir a b c d e)
  | |- context [fs_getxattr fs1 ?a ?b ?c ?d _] => both (CbGetxattr a b c d)
  | |- context [fs_setxattr fs1 ?a ?b ?c ?d ?e _] => both (CbSetxattr a b c d e)
  | |- context [fs_listxattr fs1 ?a ?b ?c _] => both (CbListxattr a b c)
  | |- context [fs_removexattr fs1 ?a ?b ?c _] => both (CbRemovexattr a b c)
  end.

(** Walks through a handler on both sides. *)
Ltac sim_walk :=
  repeat match goal with
  | |- outcome_rel _ (Done _) (Done _) => split; [split; done|done]
  | |- outcome_rel _ (Fault _) (Fault _) => reflexivity
  | |- outcome_rel _ (obind ?e _) (obind ?e _) => destruct e; cbn [obind]
  | |- outcome_rel _ (if ?e then _ else _) (if ?e then _ else _) => destruct e
  | |- outcome_rel _ (let '(_, _) := ?e in _) (let '(_, _) := ?e in _) => destruct e
  | |- outcome_rel _ (match ?e with _ => _ end) (match ?e with _ => _ end) => destruct e
  | |- _ => sim_callback
  end.

Ltac sim_handler := intros h body [impl s1] [impl2 s2] r [Himpl HR]; cbn [w_impl w_fs] in Himpl, HR;
  subst impl2;
  unfold handle_init, handle_lookup_root, handle_lookupx, handle_forget, handle_batch_forget,
    handle_statx, handle_setstatx, handle_mkobjx, handle_unlink, handle_rename2, handle_link,
    handle_open, handle_release, handle_read, handle_write, handle_readlink, handle_statfs,
    handle_fallocate, handle_opendir, handle_releasedir, handle_readdir, handle_getxattr,
    handle_setxattr, handle_listxattr, handle_removexattr,
    reply_void, reply_statx, xattr_reply, fail, finish, set_fs;
  cbn [w_impl w_fs]; sim_walk.

Definition cases_rel (c1 : fuse_opcode * handler S1) (c2 : fuse_opcode * handler S2) : Prop :=
  fst c1 = fst c2 /\ handlers_rel (snd c1) (snd c2).

Lemma simple_handlers_rel rec1 rec2 :
  Forall2 cases_rel (removelast (handler_table fs1 rec1)) (removelast (handler_table fs2 rec2)).
Proof.
  unfold handler_table. cbn [removelast].
  repeat first [apply Forall2_nil_2 | apply Forall2_cons_2]; (split; [reflexivity|cbn [snd]]).
  all: sim_handler.
Qed.

(** ** Compound requests and the switch *)

Definition sub_rel (x : world S1 * bytes * Z * Z) (y : world S2 * bytes * Z * Z) : Prop :=
  let '(w1, out1, prod1, len1) := x in
  let '(w2, out2, prod2, len2) := y in
  world_rel w1 w2 /\ out1 = out2 /\ prod1 = prod2 /\ len1 = len2.

Lemma outcome_rel_bind {A1 A2 C1 C2} (P : A1 -> A2 -> Prop) (Q : C1 -> C2 -> Prop) o1 o2 k1 k2 :
  outcome_rel P o1 o2 -> (forall a1 a2, P a1 a2 -> outcome_rel Q (k1 a1) (k2 a2)) ->
  outcome_rel Q (obind o1 k1) (obind o2 k2).
Proof. destruct o1, o2; cbn; naive_solver. Qed.

Lemma outcome_rel_same {A C1 C2} (Q : C1 -> C2 -> Prop) (o : outcome A) k1 k2 :
  (forall a, outcome_rel Q (k1 a) (k2 a)) -> outcome_rel Q (obind o k1) (obind o k2).
Proof. destruct o; cbn; auto. Qed.

Lemma fail_rel w1 w2 r e : world_rel w1 w2 -> outcome_rel reply_rel (fail w1 r e) (fail w2 r e).
Proof. by split. Qed.

Lemma compound_sub_rel rec1 rec2 sub_req sub_h body out_p produced w1 w2 r :
  handlers_rel rec1 rec2 -> world_rel w1 w2 ->
  outcome_rel sub_rel (compound_sub rec1 sub_req sub_h body out_p produced w1 r)
    (compound_sub rec2 sub_req sub_h body out_p produced w2 r).
Proof.
  intros Hrec Hw. unfold compound_sub. apply outcome_rel_same. intros sub_out.
  eapply outcome_rel_bind; [case_match; [by apply fail_rel|by apply Hrec]|].
  intros [w1' r1] [w2' r2] [Hw' Hr]. cbn [fst snd] in *. subst r2.
  do 3 (apply outcome_rel_same; intros ?). by split.
Qed.

Lemma compound_loop_rel rec1 rec2 fuel body p out_p produced w1 w2 r :
  handlers_rel rec1 rec2 -> world_rel w1 w2 ->
  outcome_rel reply_rel (compound_loop rec1 fuel body p out_p produced w1 r)
    (compound_loop rec2 fuel body p out_p produced w2 r).
Proof.
  intros Hrec. revert p out_p produced w1 w2 r.
  induction fuel as [|fuel IH]; intros p out_p produced w1 w2 r Hw; cbn [compound_loop].
  { by case_if. }
  case_if; [by split|]. case_if; [by apply fail_rel|].
  do 2 (apply outcome_rel_same; intros ?). case_if; [by apply fail_rel|].
  apply outcome_rel_same. intros sub_body.
  eapply outcome_rel_bind; [by apply compound_sub_rel|].
  intros [[[w1' out1] prod1] len1] [[[w2' out2] prod2] len2] (Hw' & -> & -> & ->). by apply IH.
Qed.

Lemma handle_compound_rel rec1 rec2 :
  handlers_rel rec1 rec2 -> handlers_rel (handle_compound rec1) (handle_compound rec2).
Proof.
  intros Hrec h body w1 w2 r Hw. unfold handle_compound. case_if; [by apply fail_rel|].
  apply outcome_rel_same. intros out. by apply compound_loop_rel.
Qed.

Lemma handler_table_rel rec1 rec2 :
  handlers_rel rec1 rec2 ->
  Forall2 cases_rel (handler_table fs1 rec1) (handler_table fs2 rec2).
Proof.
  intros Hrec.
  change (handler_table fs1 rec1) with
    (removelast (handler_table fs1 rec1) ++ [(FUSE_COMPOUND, handle_compound rec1)]).
  change (handler_table fs2 rec2) with
    (removelast (handler_table fs2 rec2) ++ [(FUSE_COMPOUND, handle_compound rec2)]).
  apply Forall2_app; [apply simple_handlers_rel|]. repeat constructor.
  by apply handle_compound_rel.
Qed.

Lemma switch_rel cases1 cases2 h0 :
  Forall2 cases_rel cases1 cases2 -> handlers_rel (switch cases1 h0) (switch cases2 h0).
Proof.
  induction 1 as [|[o1 hd1] [o2 hd2] cases1 cases2 [Ho Hhd] _ IH]; intros h body w1 w2 r Hw.
  { by apply fail_rel. }
  cbn [fst snd] in *. subst o2. cbn [switch]. destruct (opcode_is h0 o1); [by apply Hhd|by apply IH].
Qed.

Lemma dispatch_depth_rel depth : handlers_rel (dispatch_depth fs1 depth) (dispatch_depth fs2 depth).
Proof.
  induction depth as [|depth IH]; intros h body w1 w2 r Hw; [reflexivity|].
  apply (switch_rel _ _ h); [|done]. by apply handler_table_rel.
Qed.

Lemma dispatch_rel : handlers_rel (dispatch fs1) (dispatch fs2).
Proof. apply dispatch_depth_rel. Qed.

(** ** Ring entries and workers *)

Definition entry_rel (x : Entry * world S1 * Z) (y : Entry * world S2 * Z) : Prop :=
  let '(e1, w1, n1) := x in
  let '(e2, w2, n2) := y in e1 = e2 /\ world_rel w1 w2 /\ n1 = n2.

Lemma handle_one_rel pb e w1 w2 :
  world_rel w1 w2 -> outcome_rel entry_rel (handle_one fs1 pb e w1) (handle_one fs2 pb e w2).
Proof.
  intros Hw. unfold handle_one. do 3 (apply outcome_rel_same; intros ?).
  case_if; [apply outcome_rel_same; intros ?; by split|].
  do 4 (apply outcome_rel_same; intros ?).
  eapply outcome_rel_bind; [by apply dispatch_rel|].
  intros [w1' r1] [w2' r2] [Hw' Hr]. cbn [fst snd] in *. subst r2.
  do 2 (apply outcome_rel_same; intros ?). by split.
Qed.

Definition worker_rel (x : RingWorker * world S1 * verdict) (y : RingWorker * world S2 * verdict) :
    Prop :=
  let '(k1, w1, v1) := x in
  let '(k2, w2, v2) := y in k1 = k2 /\ world_rel w1 w2 /\ v1 = v2.

Lemma slot_failed_rel k rg idx res ev w1 w2 :
  world_rel w1 w2 ->
  worker_rel (slot_failed k rg idx res ev w1) (slot_failed k rg idx res ev w2).
Proof.
  intros Hw. pose proof Hw as [Hi _]. unfold slot_failed. rewrite Hi.
  case_if; [by split|]. case_if; [|by split]. by case_match.
Qed.

Lemma serve_slot_rel k rg idx landed ev w1 w2 :
  world_rel w1 w2 ->
  outcome_rel worker_rel (serve_slot fs1 k rg idx landed ev w1)
    (serve_slot fs2 k rg idx landed ev w2).
Proof.
  intros Hw. unfold serve_slot. destruct (nth_error _ _) as [e|]; [|done].
  eapply outcome_rel_bind; [by apply handle_one_rel|].
  intros [[e1 w1'] n1] [[e2 w2'] n2] (-> & Hw' & ->). pose proof Hw' as [Hi _]. rewrite Hi.
  destruct (push_or_flush _ _ _); [|by split]. by case_if.
Qed.

Lemma iteration_rel k w1 w2 ev :
  world_rel w1 w2 -> outcome_rel worker_rel (iteration fs1 k w1 ev) (iteration fs2 k w2 ev).
Proof.
  intros Hw. unfold iteration. destruct (rw_ring k) as [rg|]; [|done].
  destruct (ev_wait ev); [by case_if|]. do 2 (case_if; [by split|]).
  case_if; [by apply slot_failed_rel|by apply serve_slot_rel].
Qed.

Lemma run_rel k w1 w2 evs :
  world_rel w1 w2 -> outcome_rel worker_rel (run fs1 k w1 evs) (run fs2 k w2 evs).
Proof.
  revert k w1 w2. induction evs as [|ev evs IH]; intros k w1 w2 Hw; cbn [run]; [by split|].
  eapply outcome_rel_bind; [by apply iteration_rel|].
  intros [[k1 w1'] v1] [[k2 w2'] v2] (-> & Hw' & ->). destruct v2; [by apply IH|by split].
Qed.
End Simulation.
