(* ===== verification/InodeTable.v ===== *)
(** * The inode table of the passthrough daemon (examples/passthrough.cpp)

    The table maps nodeids to inodes with a lookup count. The kernel counts the
    same references on its side: the theorems show that the table holds an
    inode exactly while the kernel has references to it, that the root stays,
    that batches are the same as single FORGETs, and that no descriptor leaks.
    Operations are taken one after the other, as the table's lock makes them:
    Interleaving.v shows that they behave so when threads share the table. *)

From S2P Require Import Prelude Memory Pod Abi Types DirentWriter Filesystem.
From stdpp Require Import gmap.
#[local] Open Scope Z_scope.

(** ** The table *)

Record Inode := { in_path_fd : Z; in_nlookup : Z }.

Abbreviation InodeTable := (gmap Z Inode).

Definition InodeTable_make (root_fd : Z) : InodeTable :=
  {[ (NodeId_root : Z) := {| in_path_fd := root_fd; in_nlookup := 1 |} ]}.

Definition get (t : InodeTable) (n : NodeId) : option Inode := t !! (n : Z).

(** [++nlookup] on a 64-bit counter. *)
Definition bump (i : Inode) : Inode :=
  {| in_path_fd := in_path_fd i; in_nlookup := wrapu 64 (in_nlookup i + 1) |}.

(** The table, the nodeid, and the descriptors closed: on a re-lookup the
    argument goes out of scope unused. *)
Definition insert_inode (t : InodeTable) (fd st_ino : Z) : InodeTable * NodeId * list Z :=
  match t !! st_ino with
  | None => (<[st_ino := bump {| in_path_fd := fd; in_nlookup := 0 |}]> t, st_ino, [])
  | Some i => (<[st_ino := bump i]> t, st_ino, [fd])
  end.

(** The table and the descriptors closed: erasing an entry closes its fd. *)
Definition forget_locked (t : InodeTable) (key n : Z) : InodeTable * list Z :=
  match t !! key with
  | None => (t, [])
  | Some i =>
      let nl := if in_nlookup i <=? n then 0 else in_nlookup i - n in
      if nl =? 0 then (delete key t, [in_path_fd i])
      else (<[key := {| in_path_fd := in_path_fd i; in_nlookup := nl |}]> t, [])
  end.

Definition forget (t : InodeTable) (nid : NodeId) (n : Z) : InodeTable * list Z :=
  if nid =? NodeId_root then (t, []) else forget_locked t nid n.

Fixpoint forget_many (t : InodeTable) (items : list (NodeId * Z)) : InodeTable * list Z :=
  match items with
  | [] => (t, [])
  | (nid, n) :: items' =>
      if nid =? NodeId_root then forget_many t items' else
      let '(t, closed) := forget_locked t nid n in
      let '(t, closed') := forget_many t items' in
      (t, closed ++ closed')
  end.

(** ** Runs *)

Inductive op :=
| OpInsert (fd st_ino : Z)
| OpForget (n : NodeId) (nlookup : Z)
| OpForgetMany (items : list (NodeId * Z)).

(** One operation: the table and the descriptors it closed. *)
Definition apply_op (t : InodeTable) (o : op) : InodeTable * list Z :=
  match o with
  | OpInsert fd st_ino => let '(t, _, closed) := insert_inode t fd st_ino in (t, closed)
  | OpForget n k => forget t n k
  | OpForgetMany items => forget_many t items
  end.

Definition apply_ops (t : InodeTable) (ops : list op) : InodeTable * list Z :=
  fold_left (fun '(t, closed) o => let '(t', c) := apply_op t o in (t', closed ++ c)) ops (t, []).

(** ** The kernel's side: references taken by entry replies, dropped by
    FORGET. *)

(** What an operation adds to the kernel's count of node [n]. *)
Definition refs_of_items (n : NodeId) (items : list (NodeId * Z)) : Z :=
  foldr (fun '(m, k) acc => (if m =? n then k else 0) + acc) 0 items.

Definition refs_of_op (n : NodeId) (o : op) : Z :=
  match o with
  | OpInsert _ st_ino => if st_ino =? n then 1 else 0
  | OpForget m k => - (if m =? n then k else 0)
  | OpForgetMany items => - refs_of_items n items
  end.

Definition refs (n : NodeId) (ops : list op) : Z :=
  foldr (fun o acc => refs_of_op n o + acc) 0 ops.

(** A kernel that never drops more references than it has, and counts in 64
    bits: every prefix of the run has a count in range. *)
Definition balanced (ops : list op) : Prop :=
  forall pre post n, ops = pre ++ post -> n <> NodeId_root -> 0 <= refs n pre < 2 ^ 64.

(** Arguments of the C++ types; batches as the kernel sends them, dropping
    positive counts. *)
Definition op_ok (o : op) : Prop :=
  match o with
  | OpInsert _ _ => True
  | OpForget _ k => 0 <= k
  | OpForgetMany items => Forall (fun item => 0 <= snd item) items
  end.

(** ** Invariant *)

(** The table agrees with the kernel's counts [c]. *)
Definition counts (t : InodeTable) (c : NodeId -> Z) : Prop :=
  forall n : Z, n <> NodeId_root ->
    match t !! n with
    | Some i => in_nlookup i = c n /\ 0 < c n
    | None => c n = 0
    end.

Definition root_pinned (root_fd : Z) (t : InodeTable) : Prop :=
  exists i, t !! (NodeId_root : Z) = Some i /\ in_path_fd i = root_fd.

(** ** Lemmas *)

Lemma counts_ext t c c' : (forall n, c n = c' n) -> counts t c -> counts t c'.
Proof. intros Hc Ht n Hn. specialize (Ht n Hn). by rewrite <- Hc. Qed.

Lemma counts_forget_locked t c (n k : Z) :
  counts t c -> n <> NodeId_root -> 0 <= k <= c n ->
  counts (fst (forget_locked t n k)) (fun m => c m - (if n =? m then k else 0)).
Proof.
  intros Ht Hn Hk m Hm. pose proof (Ht n Hn) as Hcn. pose proof (Ht m Hm) as Hcm.
  unfold forget_locked. destruct (t !! n) as [i|] eqn:Ei.
  - destruct Hcn as [Hi Hpos]. set (nl := if in_nlookup i <=? k then 0 else in_nlookup i - k).
    assert (Hnl : nl = c n - k) by (subst nl; case_if; lia). clearbody nl.
    destruct (Z.eqb_spec n m) as [<-|Hne]; destruct (Z.eqb_spec nl 0); cbn [fst].
    + rewrite lookup_delete_eq. lia.
    + rewrite lookup_insert_eq. simpl. lia.
    + rewrite lookup_delete_ne by done. by rewrite Z.sub_0_r.
    + rewrite lookup_insert_ne by done. by rewrite Z.sub_0_r.
  - cbn [fst]. destruct (Z.eqb_spec n m) as [<-|Hne]; [|by rewrite Z.sub_0_r].
    rewrite Ei in *. lia.
Qed.

Lemma counts_insert t c (fd ino : Z) :
  counts t c -> (ino <> NodeId_root -> c ino + 1 < 2 ^ 64) ->
  counts (fst (fst (insert_inode t fd ino))) (fun m => c m + (if ino =? m then 1 else 0)).
Proof.
  intros Ht Hmax m Hm. pose proof (Ht m Hm) as Hcm. unfold insert_inode.
  destruct (Z.eqb_spec ino m) as [<-|Hne].
  - specialize (Hmax Hm). destruct (t !! ino) as [i|]; cbn [fst];
      rewrite lookup_insert_eq; cbn [bump in_nlookup]; rewrite wrapu_small; lia.
  - rewrite Z.add_0_r. destruct (t !! ino); cbn [fst]; by rewrite lookup_insert_ne.
Qed.

Lemma refs_of_items_nonneg n items :
  Forall (fun item => 0 <= snd item) items -> 0 <= refs_of_items n items.
Proof. induction 1 as [|[m k] items Hk _ IH]; simpl in *; [lia|]. case_if; lia. Qed.

Lemma refs_of_items_cons n m k items :
  refs_of_items n ((m, k) :: items) = (if m =? n then k else 0) + refs_of_items n items.
Proof. done. Qed.

Lemma counts_forget_many t c items :
  counts t c -> Forall (fun item => 0 <= snd item) items ->
  (forall n, n <> NodeId_root -> refs_of_items n items <= c n) ->
  counts (fst (forget_many t items)) (fun m => c m - refs_of_items m items).
Proof.
  intros Ht Hi. revert t c Ht. induction Hi as [|[nid k] items Hk Hi IH]; intros t c Ht Hle.
  { apply counts_ext with c; [|done]. intros. simpl. lia. }
  setoid_rewrite refs_of_items_cons in Hle. cbn [forget_many snd] in *.
  destruct (Z.eqb_spec nid NodeId_root) as [->|Hn].
  - intros m Hm. rewrite refs_of_items_cons.
    destruct (Z.eqb_spec NodeId_root m); [congruence|]. apply (IH t c Ht); [|done].
    intros j Hj. specialize (Hle j Hj). destruct (Z.eqb_spec NodeId_root j); [congruence|lia].
  - pose proof (Hle nid Hn) as Hkn. rewrite Z.eqb_refl in Hkn.
    pose proof (refs_of_items_nonneg nid items Hi).
    pose proof (counts_forget_locked t c nid k Ht Hn ltac:(lia)) as Hc1.
    destruct (forget_locked t nid k) as [t1 c1]. cbn [fst] in Hc1.
    specialize (IH t1 _ Hc1). destruct (forget_many t1 items) as [t2 c2]. cbn [fst] in *.
    eapply counts_ext; [|apply IH].
    + intros m. cbv beta. rewrite refs_of_items_cons. lia.
    + intros m Hm. specialize (Hle m Hm). cbv beta. lia.
Qed.

Lemma apply_ops_snoc t ops o :
  apply_ops t (ops ++ [o]) =
    let '(t1, c1) := apply_ops t ops in let '(t2, c2) := apply_op t1 o in (t2, c1 ++ c2).
Proof. unfold apply_ops. rewrite fold_left_app. by destruct (fold_left _ ops _). Qed.

Lemma refs_snoc n ops o : refs n (ops ++ [o]) = refs n ops + refs_of_op n o.
Proof. induction ops as [|o' ops IH]; simpl; [lia|]. rewrite IH. lia. Qed.

Lemma balanced_prefix ops o : balanced (ops ++ [o]) -> balanced ops.
Proof. intros Hb pre post n -> Hn. apply (Hb pre (post ++ [o])); [by rewrite <- app_assoc|done]. Qed.

Lemma balanced_all ops n : balanced ops -> n <> NodeId_root -> 0 <= refs n ops < 2 ^ 64.
Proof. intros Hb. apply (Hb ops []). by rewrite app_nil_r. Qed.

(** One operation of a balanced run. *)
Lemma counts_op t c o :
  counts t c -> op_ok o -> (forall n, n <> NodeId_root -> 0 <= c n + refs_of_op n o < 2 ^ 64) ->
  counts (fst (apply_op t o)) (fun m => c m + refs_of_op m o).
Proof.
  intros Ht Hok Hb. destruct o as [fd ino|n k|items]; cbn [apply_op refs_of_op op_ok] in *.
  - pose proof (counts_insert t c fd ino Ht) as Hc. destruct (insert_inode t fd ino) as [[t' ?] ?].
    apply Hc. intros Hi. specialize (Hb ino Hi). rewrite Z.eqb_refl in Hb. lia.
  - unfold forget. destruct (Z.eqb_spec n NodeId_root) as [->|Hn].
    + intros m Hm. destruct (Z.eqb_spec NodeId_root m); [congruence|].
      specialize (Ht m Hm). cbn [fst]. by rewrite Z.add_0_r.
    + eapply counts_ext; [|apply (counts_forget_locked t c n k Ht Hn)].
      * intros. cbv beta. lia.
      * specialize (Hb n Hn). rewrite Z.eqb_refl in Hb. lia.
  - eapply counts_ext; [|apply (counts_forget_many t c items Ht Hok)].
    + intros. cbv beta. lia.
    + intros n Hn. specialize (Hb n Hn). lia.
Qed.

Lemma counts_ops fd ops :
  Forall op_ok ops -> balanced ops ->
  counts (fst (apply_ops (InodeTable_make fd) ops)) (fun n => refs n ops).
Proof.
  induction ops as [|o ops IH] using rev_ind; intros Hok Hb.
  { intros n Hn. simpl. unfold InodeTable_make. by rewrite lookup_singleton_ne. }
  apply Forall_app in Hok as [Hok Ho]. apply Forall_inv in Ho.
  specialize (IH Hok (balanced_prefix _ _ Hb)). rewrite apply_ops_snoc.
  destruct (apply_ops (InodeTable_make fd) ops) as [t1 c1]. cbn [fst] in IH.
  pose proof (counts_op t1 _ o IH Ho) as Hc. destruct (apply_op t1 o) as [t2 c2]. cbn [fst] in *.
  eapply counts_ext; [|apply Hc].
  - intros. cbv beta. by rewrite refs_snoc.
  - intros n Hn. pose proof (balanced_all _ n Hb Hn). by rewrite <- refs_snoc.
Qed.

Lemma forget_locked_other t (key n m : Z) :
  key <> m -> fst (forget_locked t key n) !! m = t !! m.
Proof.
  intros Hne. unfold forget_locked. destruct (t !! key) as [i|]; [|done].
  destruct (_ =? 0); cbn [fst]; [by rewrite lookup_delete_ne | by rewrite lookup_insert_ne].
Qed.

Lemma forget_many_root t items :
  fst (forget_many t items) !! (NodeId_root : Z) = t !! (NodeId_root : Z).
Proof.
  revert t. induction items as [|[n k] items IH]; intros t; [done|]. cbn [forget_many].
  destruct (Z.eqb_spec n NodeId_root) as [->|Hn]; [apply IH|].
  pose proof (forget_locked_other t n k NodeId_root Hn) as Hr.
  destruct (forget_locked t n k) as [t1 ?]. specialize (IH t1).
  destruct (forget_many t1 items) as [t2 ?]. cbn [fst] in *. congruence.
Qed.

Lemma root_pinned_op root_fd t o :
  root_pinned root_fd t -> root_pinned root_fd (fst (apply_op t o)).
Proof.
  intros (i & Hi & Hfd). unfold root_pinned. destruct o as [fd ino|n k|items]; cbn [apply_op].
  - unfold insert_inode. destruct (decide (ino = NodeId_root)) as [->|Hne].
    + rewrite Hi. cbn [fst]. rewrite lookup_insert_eq. by eexists.
    + destruct (t !! ino); cbn [fst]; rewrite lookup_insert_ne by done; eauto.
  - unfold forget. destruct (Z.eqb_spec n NodeId_root); [eauto|].
    rewrite forget_locked_other by done. eauto.
  - rewrite forget_many_root. eauto.
Qed.

Lemma root_pinned_ops root_fd ops :
  root_pinned root_fd (fst (apply_ops (InodeTable_make root_fd) ops)).
Proof.
  induction ops as [|o ops IH] using rev_ind.
  { eexists. split; [apply lookup_singleton_eq|done]. }
  rewrite apply_ops_snoc. destruct (apply_ops (InodeTable_make root_fd) ops) as [t1 c1].
  cbn [fst] in IH. apply (root_pinned_op _ _ o) in IH. by destruct (apply_op t1 o) as [t2 c2].
Qed.

(** ** Descriptors *)

Definition inserted (ops : list op) : list Z :=
  flat_map (fun o => match o with OpInsert fd _ => [fd] | _ => [] end) ops.

(** The descriptors the table owns. *)
Definition table_fds (t : InodeTable) : list Z := map (fun x => in_path_fd (snd x)) (map_to_list t).

Lemma table_fds_insert_new t (k : Z) i :
  t !! k = None -> table_fds (<[k := i]> t) ≡ₚ in_path_fd i :: table_fds t.
Proof. intros. unfold table_fds. by rewrite map_to_list_insert by done. Qed.

Lemma table_fds_delete t (k : Z) i :
  t !! k = Some i -> table_fds t ≡ₚ in_path_fd i :: table_fds (delete k t).
Proof. intros. unfold table_fds. by rewrite <- (map_to_list_delete t k i) by done. Qed.

Lemma table_fds_update t (k : Z) i j :
  t !! k = Some i -> in_path_fd j = in_path_fd i -> table_fds (<[k := j]> t) ≡ₚ table_fds t.
Proof.
  intros Hk Hj. rewrite (table_fds_delete t k i) by done.
  rewrite <- insert_delete_eq, table_fds_insert_new by apply lookup_delete_eq. by rewrite Hj.
Qed.

Lemma forget_locked_fds t (k n : Z) :
  table_fds t ≡ₚ snd (forget_locked t k n) ++ table_fds (fst (forget_locked t k n)).
Proof.
  unfold forget_locked. destruct (t !! k) as [i|] eqn:Ei; [|done].
  destruct (_ =? 0); cbn [fst snd app].
  - by apply table_fds_delete.
  - by rewrite (table_fds_update t k i).
Qed.

Lemma forget_many_fds t items :
  table_fds t ≡ₚ snd (forget_many t items) ++ table_fds (fst (forget_many t items)).
Proof.
  revert t. induction items as [|[n k] items IH]; intros t; [done|]. cbn [forget_many].
  case_if; [apply IH|]. pose proof (forget_locked_fds t n k) as H1.
  destruct (forget_locked t n k) as [t1 c1]. specialize (IH t1).
  destruct (forget_many t1 items) as [t2 c2]. cbn [fst snd] in *.
  by rewrite H1, IH, app_assoc.
Qed.

Lemma apply_op_fds t o :
  inserted [o] ++ table_fds t ≡ₚ snd (apply_op t o) ++ table_fds (fst (apply_op t o)).
Proof.
  destruct o as [fd ino|n k|items]; cbn [apply_op inserted flat_map app].
  - unfold insert_inode. destruct (t !! ino) as [i|] eqn:Ei; cbn [fst snd app].
    + by rewrite (table_fds_update t ino i).
    + by rewrite table_fds_insert_new.
  - unfold forget. case_if; [done|]. apply forget_locked_fds.
  - apply forget_many_fds.
Qed.

Lemma apply_ops_fds root_fd ops :
  root_fd :: inserted ops ≡ₚ
    snd (apply_ops (InodeTable_make root_fd) ops)
    ++ table_fds (fst (apply_ops (InodeTable_make root_fd) ops)).
Proof.
  induction ops as [|o ops IH] using rev_ind.
  { unfold table_fds, InodeTable_make. cbn [fst snd app apply_ops fold_left].
    by rewrite map_to_list_singleton. }
  unfold inserted in *. rewrite flat_map_app, apply_ops_snoc.
  destruct (apply_ops (InodeTable_make root_fd) ops) as [t1 c1]. cbn [fst snd] in IH.
  pose proof (apply_op_fds t1 o) as Ho. unfold inserted in Ho.
  destruct (apply_op t1 o) as [t2 c2]. cbn [fst snd] in *.
  rewrite <- app_assoc, <- Ho, app_comm_cons, IH.
  rewrite <- app_assoc. apply Permutation_app_head. apply Permutation_app_comm.
Qed.

(** ** Theorems *)

(** The table holds what the kernel references. For every sequence of
    lookups and FORGETs of a kernel that drops no more references than it was
    given, a nodeid other than the root is in the table exactly while the
    kernel's count for it is positive, and the table's count is the kernel's;
    the root keeps the descriptor it was created with. *)
Theorem table_tracks_kernel root_fd ops :
  Forall op_ok ops -> balanced ops ->
  let t := fst (apply_ops (InodeTable_make root_fd) ops) in
  (forall n, n <> NodeId_root ->
     (0 < refs n ops -> exists i, get t n = Some i /\ in_nlookup i = refs n ops) /\
     (refs n ops = 0 -> get t n = None)) /\
  root_pinned root_fd t.
Proof.
  intros Hok Hb t. pose proof (counts_ops root_fd ops Hok Hb) as Hc. fold t in Hc.
  split; [|apply root_pinned_ops]. intros n Hn. specialize (Hc n Hn). unfold get.
  destruct (t !! (n : Z)) as [i|].
  - destruct Hc as [Hi Hpos]. split; [eauto|lia].
  - split; [lia|done].
Qed.

(** Descriptors neither leak nor close twice. After any sequence of lookups
    and FORGETs, well behaved or not, the descriptors handed to the table (the
    root's included) are, each exactly once, either closed or owned by an entry
    of the table. *)
Theorem table_owns_descriptors root_fd ops :
  let '(t, closed) := apply_ops (InodeTable_make root_fd) ops in
  root_fd :: inserted ops ≡ₚ closed ++ table_fds t.
Proof.
  pose proof (apply_ops_fds root_fd ops) as Hf.
  by destruct (apply_ops (InodeTable_make root_fd) ops).
Qed.

(** BATCH_FORGET is the FORGETs one by one. The override that takes the lock
    once leaves the table the default implementation of the interface would
    leave by calling [forget] for each item. *)
Theorem forget_many_default t items :
  fst (forget_many t items) =
  default_forget_multi (fun n k t => fst (forget t n k)) items t.
Proof.
  revert t. induction items as [|[n k] items IH]; intros t; [done|].
  cbn [forget_many default_forget_multi fold_left fst snd]. unfold forget at 2.
  case_if; [apply IH|]. destruct (forget_locked t n k) as [t1 c1]. specialize (IH t1).
  destruct (forget_many t1 items) as [t2 c2]. exact IH.
Qed.

(** Inode number 1 is the root's nodeid. Looking up a file whose inode number
    is 1 in the backing filesystem gives it the identity of the root: the reply
    names the root's nodeid, the table keeps the root's descriptor, and the
    descriptor of the file is closed. *)
Theorem inode_one_is_root t fd root_fd :
  root_pinned root_fd t ->
  exists t', insert_inode t fd 1 = (t', NodeId_root, [fd]) /\ root_pinned root_fd t'.
Proof.
  intros (i & Hi & Hfd). unfold insert_inode. change 1 with (NodeId_root : Z). rewrite Hi.
  eexists. split; [done|]. eexists. split; [apply lookup_insert_eq|done].
Qed.

(** ** Examples *)

Definition demo_ops : list op := [OpInsert 7 42; OpInsert 8 42; OpInsert 9 43; OpForget 42 2].

Lemma demo_ops_balanced : balanced demo_ops.
Proof.
  intros pre post n Heq Hn. unfold demo_ops in Heq.
  destruct pre as [|? [|? [|? [|? [|? pre]]]]]; cbn [app] in Heq; simplify_eq;
    cbn [refs foldr refs_of_op]; repeat case_if; lia.
Qed.

Lemma table_tracks_kernel_witness :
  get (fst (apply_ops (InodeTable_make 3) demo_ops)) 42 = None /\
  (exists i, get (fst (apply_ops (InodeTable_make 3) demo_ops)) 43 = Some i /\ in_nlookup i = 1).
Proof.
  destruct (table_tracks_kernel 3 demo_ops) as [Ht _].
  - repeat constructor; simpl; lia.
  - exact demo_ops_balanced.
  - split.
    + apply (Ht 42); [discriminate|reflexivity].
    + apply (Ht 43); [discriminate|reflexivity].
Defined.

Lemma inode_one_is_root_witness :
  exists t', insert_inode (InodeTable_make 3) 9 1 = (t', NodeId_root, [9]) /\ root_pinned 3 t'.
Proof.
  apply (inode_one_is_root (InodeTable_make 3) 9 3). eexists. split; reflexivity.
Defined.
