(* ===== verification/Passthrough.v ===== *)
(** * The passthrough daemon (examples/passthrough.cpp: PassthroughFs)

    Every callback runs system calls of the backing filesystem against the
    descriptors of the inode table. The system calls are outside: a call is a
    value of [syscall], and [sys] says what it returns and how it changes the
    outside world. Callbacks are written in a small monad of that state and
    errors; a descriptor that goes out of scope is closed where its destructor
    runs. A callback is one function here, without the locks; ThreadedDaemon.v
    has the same callbacks step by step under the locks, and ThreadedEquiv.v
    shows that they agree. Tracing is not modelled. *)

From S2P Require Import Prelude Memory Pod Abi Types DirentWriter Filesystem Replier Handlers.
From S2P Require Import InodeTable.
From stdpp Require Import gmap.
#[local] Open Scope Z_scope.

(** ** The C library *)

Record timespec := { tv_sec : Z; tv_nsec : Z }.

Record stat := {
  st_dev : Z; st_ino : Z; st_mode : Z; st_nlink : Z; st_uid : Z; st_gid : Z; st_rdev : Z;
  st_size : Z; st_blksize : Z; st_blocks : Z;
  st_atim : timespec; st_mtim : timespec; st_ctim : timespec;
}.

Record statvfs := {
  f_bsize : Z; f_frsize : Z; f_blocks : Z; f_bfree : Z; f_bavail : Z; f_files : Z;
  f_ffree : Z; f_namemax : Z;
}.

Record dirent := { d_name : bytes; d_ino : Z; d_type : Z }.

Definition ENOENT : Z := 2.
Definition EPERM : Z := 1.

Definition O_RDONLY : Z := 0.
Definition O_WRONLY : Z := 1.
Definition O_RDWR : Z := 2.
Definition O_ACCMODE : Z := 3.
Definition O_APPEND : Z := 0x400.
Definition O_NONBLOCK : Z := 0x800.
Definition O_DIRECT : Z := 0x4000.
Definition O_DIRECTORY : Z := 0x10000.
Definition O_NOFOLLOW : Z := 0x20000.
Definition O_NOATIME : Z := 0x40000.
Definition O_CLOEXEC : Z := 0x80000.
Definition O_PATH : Z := 0x200000.
Definition O_TMPFILE : Z := 0x410000.
Definition S_IFSOCK : Z := 0xc000.
Definition S_IFREG : Z := 0x8000.
Definition S_IFBLK : Z := 0x6000.
Definition S_IFDIR : Z := 0x4000.
Definition S_IFCHR : Z := 0x2000.
Definition S_IFIFO : Z := 0x1000.
Definition AT_REMOVEDIR : Z := 0x200.
Definition UTIME_OMIT : Z := 0x3ffffffe.

(** glibc's device numbers: 12+20 bits of major, 8+24 bits of minor. *)
Definition major (dev : Z) : Z :=
  cast U32 (Z.lor (Z.shiftr (Z.land dev 0xfff00) 8) (Z.shiftr (Z.land dev 0xfffff00000000000) 32)).
Definition minor (dev : Z) : Z :=
  cast U32 (Z.lor (Z.land dev 0xff) (Z.shiftr (Z.land dev 0xffffff00000) 12)).
Definition makedev (ma mi : Z) : Z :=
  Z.lor (Z.lor (Z.shiftl (Z.land ma 0xfff) 8) (Z.shiftl (Z.land ma 0xfffff000) 32))
    (Z.lor (Z.land mi 0xff) (Z.shiftl (Z.land mi 0xffffff00) 12)).

(** The path [/proc/self/fd/<fd>]. *)
Inductive path := ProcFd (fd : Z).

(** The system and library calls, each with the type of its result. [fstatat]
    and the [*xattr] calls are the forms the daemon uses: an empty path with
    AT_EMPTY_PATH and AT_SYMLINK_NOFOLLOW, and the variants that do not follow
    links. *)
Inductive syscall : Type -> Type :=
| SysOpenat (dir : Z) (name : bytes) (flags mode : Z) : syscall Z
| SysOpen (p : path) (flags : Z) : syscall Z
| SysClose (fd : Z) : syscall unit
| SysFstatat (fd : Z) : syscall stat
| SysFstat (fd : Z) : syscall stat
| SysFchmod (fd mode : Z) : syscall unit
| SysChmod (p : path) (mode : Z) : syscall unit
| SysFchown (fd uid gid : Z) : syscall unit
| SysLchown (p : path) (uid gid : Z) : syscall unit
| SysFtruncate (fd size : Z) : syscall unit
| SysTruncate (p : path) (size : Z) : syscall unit
| SysFutimens (fd : Z) (atime mtime : timespec) : syscall unit
| SysUtimensat (p : path) (atime mtime : timespec) : syscall unit
| SysMknodat (dir : Z) (name : bytes) (mode dev : Z) : syscall unit
| SysMkdirat (dir : Z) (name : bytes) (mode : Z) : syscall unit
| SysSymlinkat (target : bytes) (dir : Z) (name : bytes) : syscall unit
| SysFchownat (dir : Z) (name : bytes) (uid gid : Z) : syscall unit
| SysUnlinkat (dir : Z) (name : bytes) (flags : Z) : syscall unit
| SysRenameat2 (olddir : Z) (old : bytes) (newdir : Z) (new : bytes) (flags : Z) : syscall unit
| SysLinkat (fd newdir : Z) (name : bytes) : syscall unit
| SysReadlinkat (fd size : Z) : syscall bytes
| SysPread (fd count offset : Z) : syscall bytes
| SysPwrite (fd : Z) (data : bytes) (offset : Z) : syscall Z
| SysFstatvfs (fd : Z) : syscall statvfs
| SysFallocate (fd mode offset len : Z) : syscall unit
| SysFdopendir (fd : Z) : syscall Z
| SysClosedir (d : Z) : syscall unit
| SysSeekdir (d off : Z) : syscall unit
| SysTelldir (d : Z) : syscall Z
| SysReaddir (d : Z) : syscall (option dirent)
| SysLgetxattr (p : path) (name : bytes) (size : Z) : syscall (Z * bytes)
| SysLsetxattr (p : path) (name value : bytes) (flags : Z) : syscall unit
| SysLlistxattr (p : path) (size : Z) : syscall (Z * bytes)
| SysLremovexattr (p : path) (name : bytes) : syscall unit.

(** [std::string nm{name}; nm.c_str()]: a C string ends at its first NUL. *)
Fixpoint c_str (name : bytes) : bytes :=
  match name with
  | [] => []
  | b :: name' => if is_nul b then [] else b :: c_str name'
  end.

(** ** State and monad *)

Record PassthroughFs (B : Type) := {
  pt_table : InodeTable;
  pt_files : gmap Z Z;
  pt_file_id : Z;
  pt_dirs : gmap Z Z;
  pt_dir_id : Z;
  pt_sys : B;
}.
Arguments pt_table {B} _.
Arguments pt_files {B} _.
Arguments pt_file_id {B} _.
Arguments pt_dirs {B} _.
Arguments pt_dir_id {B} _.
Arguments pt_sys {B} _.

Definition PassthroughFs_make {B} (backing : Z) (b : B) : PassthroughFs B := {|
  pt_table := InodeTable_make backing; pt_files := ∅; pt_file_id := 0; pt_dirs := ∅;
  pt_dir_id := 0; pt_sys := b |}.

Definition with_table {B} (s : PassthroughFs B) (t : InodeTable) : PassthroughFs B := {|
  pt_table := t; pt_files := pt_files s; pt_file_id := pt_file_id s; pt_dirs := pt_dirs s;
  pt_dir_id := pt_dir_id s; pt_sys := pt_sys s |}.

Definition with_files {B} (s : PassthroughFs B) (fs : gmap Z Z) (id : Z) : PassthroughFs B := {|
  pt_table := pt_table s; pt_files := fs; pt_file_id := id; pt_dirs := pt_dirs s;
  pt_dir_id := pt_dir_id s; pt_sys := pt_sys s |}.

Definition with_dirs {B} (s : PassthroughFs B) (ds : gmap Z Z) (id : Z) : PassthroughFs B := {|
  pt_table := pt_table s; pt_files := pt_files s; pt_file_id := pt_file_id s; pt_dirs := ds;
  pt_dir_id := id; pt_sys := pt_sys s |}.

Definition with_sys {B} (s : PassthroughFs B) (b : B) : PassthroughFs B := {|
  pt_table := pt_table s; pt_files := pt_files s; pt_file_id := pt_file_id s;
  pt_dirs := pt_dirs s; pt_dir_id := pt_dir_id s; pt_sys := b |}.

Definition M (B A : Type) : Type := PassthroughFs B -> expected A * PassthroughFs B.

Definition pret {B A} (a : A) : M B A := fun s => (Value a, s).
Definition pfail {B A} (e : Errc) : M B A := fun s => (Unexpected e, s).
Definition pbind {B A C} (m : M B A) (k : A -> M B C) : M B C := fun s =>
  let '(r, s) := m s in
  match r with
  | Value a => k a s
  | Unexpected e => (Unexpected e, s)
  end.
(** Runs [m] and hands on its result, an error included. *)
Definition ptry {B A C} (m : M B A) (k : expected A -> M B C) : M B C := fun s =>
  let '(r, s) := m s in k r s.
Definition of_result {B A} (r : expected A) : M B A := fun s => (r, s).

Declare Scope daemon_scope.
Delimit Scope daemon_scope with daemon.
Notation "'let?' x ':=' e 'in' k" := (pbind e (fun x => k))
  (at level 10, x pattern, e at level 200, k at level 200) : daemon_scope.
Notation "'attempt' x ':=' e 'in' k" := (ptry e (fun x => k))
  (at level 10, x pattern, e at level 200, k at level 200) : daemon_scope.
#[local] Open Scope daemon_scope.

(** ** The callbacks *)

Section Callbacks.
Context {B : Type} (sys : forall A, syscall A -> B -> expected A * B).

(** A call; [if (r < 0) return wrap_errno();] is its error. *)
Definition call {A} (c : syscall A) : M B A := fun s =>
  let '(r, b) := sys A c (pt_sys s) in (r, with_sys s b).

(** A destructor: the result of [close] is ignored. *)
Definition drop_fd (fd : Z) : M B unit := attempt _ := call (SysClose fd) in pret tt.

Fixpoint drop_fds (fds : list Z) : M B unit :=
  match fds with
  | [] => pret tt
  | fd :: fds' => let? _ := drop_fd fd in drop_fds fds'
  end.

(** [close(fd); return wrap_errno();] after a call that failed with [e]: a
    close that fails replaces errno. *)
Definition close_and_fail {A} (fd : Z) (e : Errc) : M B A :=
  attempt r := call (SysClose fd) in
  match r with
  | Value _ => pfail e
  | Unexpected e' => pfail e'
  end.

(** [auto in = table_.get(n); if (!in) return stale();]. *)
Definition node (n : NodeId) : M B Inode := fun s =>
  match get (pt_table s) n with
  | Some i => (Value i, s)
  | None => (Unexpected ESTALE, s)
  end.

(** [table_.insert(Fd{fd}, st_ino)]. *)
Definition table_insert (fd st_ino : Z) : M B NodeId := fun s =>
  let '(t, n, closed) := insert_inode (pt_table s) fd st_ino in
  (let? _ := drop_fds closed in pret n) (with_table s t).

Definition entry_for (n : NodeId) : EntryOut :=
  {| eo_nodeid := n; eo_entry_valid := seconds 1; eo_negative := false |}.

Definition pt_init (info : InitInfo) (s : PassthroughFs B) :
    expected unit * InitInfo * PassthroughFs B := (Value tt, info, s).

Definition pt_lookup_root (_ : Context) : M B EntryOut := pret (entry_for NodeId_root).

Definition pt_lookupx (_ : Context) (parent : NodeId) (name : bytes) : M B EntryOut :=
  let? p := node parent in
  attempt r := call (SysOpenat (in_path_fd p) (c_str name) (Z.lor (Z.lor O_PATH O_NOFOLLOW) O_CLOEXEC) 0) in
  match r with
  | Unexpected e =>
      if e =? ENOENT
      then pret {| eo_nodeid := NodeId_invalid; eo_entry_valid := 0; eo_negative := true |}
      else pfail e
  | Value cfd =>
      attempt st := call (SysFstatat cfd) in
      match st with
      | Unexpected e => let? _ := drop_fd cfd in pfail e
      | Value st => let? n := table_insert cfd (st_ino st) in pret (entry_for n)
      end
  end.

(** The descriptors a FORGET drops are closed with their entries. *)
Definition pt_forget (n : NodeId) (nlookup : Z) (s : PassthroughFs B) : PassthroughFs B :=
  let '(t, closed) := forget (pt_table s) n nlookup in
  snd (drop_fds closed (with_table s t)).

Definition pt_forget_multi (items : list (NodeId * Z)) (s : PassthroughFs B) : PassthroughFs B :=
  let '(t, closed) := forget_many (pt_table s) items in
  snd (drop_fds closed (with_table s t)).

Definition fill_time (t : timespec) : Timespec :=
  {| ts_sec := tv_sec t; ts_nsec := cast U32 (tv_nsec t) |}.

(** [fill_statx] on a default-initialised [StatxOut]. *)
Definition fill_statx (st : stat) : StatxOut := {|
  so_mask := foldr Z.lor 0 [statx_bits.type; statx_bits.mode; statx_bits.nlink; statx_bits.uid;
    statx_bits.gid; statx_bits.atime; statx_bits.mtime; statx_bits.ctime; statx_bits.ino;
    statx_bits.size; statx_bits.blocks];
  so_blksize := cast U32 (st_blksize st);
  so_attributes := 0;
  so_nlink := cast U32 (st_nlink st);
  so_uid := st_uid st;
  so_gid := st_gid st;
  so_mode := cast U16 (st_mode st);
  so_ino := st_ino st;
  so_size := cast U64 (st_size st);
  so_blocks := cast U64 (st_blocks st);
  so_attributes_mask := 0;
  so_atime := fill_time (st_atim st);
  so_btime := Timespec_zero;
  so_ctime := fill_time (st_ctim st);
  so_mtime := fill_time (st_mtim st);
  so_rdev_major := major (st_rdev st);
  so_rdev_minor := minor (st_rdev st);
  so_dev_major := major (st_dev st);
  so_dev_minor := minor (st_dev st) |}.

Definition pt_statx (_ : Context) (n : NodeId) : M B StatxOut :=
  let? i := node n in
  let? st := call (SysFstatat (in_path_fd i)) in
  pret (fill_statx st).

(** [file_fd]: the descriptor of an open file, -1 for none. *)
Definition file_fd (s : PassthroughFs B) (fh : FileHandle) : Z :=
  if fh =? 0 then -1 else default (-1) (pt_files s !! (fh : Z)).

(** [if (in.mask & bits)]. *)
Definition asks (i : SetStatxIn) (bits : Z) : bool := negb (Z.land (si_mask i) bits =? 0).

(** A step of [setstatx] that runs when the mask asks for it, on the open
    descriptor or on the path. *)
Definition when (b : bool) (m : M B unit) : M B unit := if b then m else pret tt.

Definition on_target (fd : Z) (at_fd at_path : syscall unit) : M B unit :=
  call (if 0 <=? fd then at_fd else at_path).

Definition set_time (i : SetStatxIn) (bit : Z) (t : Timespec) : timespec :=
  if asks i bit then {| tv_sec := ts_sec t; tv_nsec := ts_nsec t |}
  else {| tv_sec := 0; tv_nsec := UTIME_OMIT |}.

Definition pt_setstatx (_ : Context) (n : NodeId) (fh : FileHandle) (i : SetStatxIn) :
    M B StatxOut := fun s =>
  let fd := file_fd s fh in
  (let? p := (if fd <? 0 then let? inode := node n in pret (ProcFd (in_path_fd inode))
              else pret (ProcFd (-1))) in
   let? _ := when (asks i statx_bits.mode)
               (on_target fd (SysFchmod fd (si_mode i)) (SysChmod p (si_mode i))) in
   let? _ := when (asks i (Z.lor statx_bits.uid statx_bits.gid))
               (let u := if asks i statx_bits.uid then si_uid i else 2 ^ 32 - 1 in
                let g := if asks i statx_bits.gid then si_gid i else 2 ^ 32 - 1 in
                on_target fd (SysFchown fd u g) (SysLchown p u g)) in
   let? _ := when (asks i statx_bits.size)
               (on_target fd (SysFtruncate fd (cast I64 (si_size i)))
                  (SysTruncate p (cast I64 (si_size i)))) in
   let? _ := when (asks i (Z.lor statx_bits.atime statx_bits.mtime))
               (let ta := set_time i statx_bits.atime (si_atime i) in
                let tm := set_time i statx_bits.mtime (si_mtime i) in
                on_target fd (SysFutimens fd ta tm) (SysUtimensat p ta tm)) in
   pt_statx {| ctx_uid := 0; ctx_gid := 0; ctx_pid := 0; ctx_nodeid := NodeId_invalid;
               ctx_unique := 0 |} n) s.

(** An unnamed file in the parent directory. *)
Definition mkobjx_tmpfile (p : Inode) (mode : Z) : M B EntryOut :=
  let? fd := call (SysOpenat (in_path_fd p) [Byte.x2e]
                     (Z.lor (Z.lor O_TMPFILE O_RDWR) O_CLOEXEC) (Z.land mode 0xfff)) in
  attempt st := call (SysFstat fd) in
  match st with
  | Unexpected e => close_and_fail fd e
  | Value st =>
      attempt pfd := call (SysOpen (ProcFd fd) (Z.lor O_PATH O_CLOEXEC)) in
      match pfd with
      | Unexpected e => close_and_fail fd e
      | Value pfd =>
          let? _ := drop_fd fd in
          let? n := table_insert pfd (st_ino st) in
          pret (entry_for n)
      end
  end.

(** The creating call for each kind of object. *)
Definition mkobjx_create (p : Inode) (mi : MkobjxIn) : M B unit :=
  let mode := so_mode (mi_stat mi) in
  let kind := Z.land mode S_IFMT in
  let dir := in_path_fd p in
  if kind =? S_IFREG then call (SysMknodat dir (c_str (mi_name mi)) mode 0)
  else if kind =? S_IFDIR then call (SysMkdirat dir (c_str (mi_name mi)) (Z.land mode 0xfff))
  else if kind =? S_IFLNK then call (SysSymlinkat (c_str (mi_link_target mi)) dir (c_str (mi_name mi)))
  else if (kind =? S_IFCHR) || (kind =? S_IFBLK) || (kind =? S_IFIFO) || (kind =? S_IFSOCK)
  then call (SysMknodat dir (c_str (mi_name mi)) mode
               (makedev (so_rdev_major (mi_stat mi)) (so_rdev_minor (mi_stat mi))))
  else pfail EINVAL.

(** Best-effort ownership; only EPERM is ignored. *)
Definition mkobjx_chown (p : Inode) (mi : MkobjxIn) : M B unit :=
  if Z.land (so_mode (mi_stat mi)) S_IFMT =? S_IFLNK then pret tt else
  attempt r := call (SysFchownat (in_path_fd p) (c_str (mi_name mi))
                       (so_uid (mi_stat mi)) (so_gid (mi_stat mi))) in
  match r with
  | Value _ => pret tt
  | Unexpected e => if e =? EPERM then pret tt else pfail e
  end.

Definition pt_mkobjx (_ : Context) (parent : NodeId) (mi : MkobjxIn) : M B EntryOut :=
  let? p := node parent in
  if negb (Z.land (mi_flags mi) kMkobjxTmpfile =? 0)
  then mkobjx_tmpfile p (so_mode (mi_stat mi)) else
  let? _ := mkobjx_create p mi in
  let? _ := mkobjx_chown p mi in
  let? cfd := call (SysOpenat (in_path_fd p) (c_str (mi_name mi))
                      (Z.lor (Z.lor O_PATH O_NOFOLLOW) O_CLOEXEC) 0) in
  attempt st := call (SysFstatat cfd) in
  match st with
  | Unexpected e => close_and_fail cfd e
  | Value st => let? n := table_insert cfd (st_ino st) in pret (entry_for n)
  end.

Definition pt_unlink (_ : Context) (parent : NodeId) (name : bytes) : M B unit :=
  let? p := node parent in call (SysUnlinkat (in_path_fd p) (c_str name) 0).

Definition pt_rmdir (_ : Context) (parent : NodeId) (name : bytes) : M B unit :=
  let? p := node parent in call (SysUnlinkat (in_path_fd p) (c_str name) AT_REMOVEDIR).

Definition pt_rename (_ : Context) (od : NodeId) (on : bytes) (nd : NodeId) (nn : bytes)
    (flags : Z) : M B unit :=
  let? o := node od in
  let? n := node nd in
  call (SysRenameat2 (in_path_fd o) (c_str on) (in_path_fd n) (c_str nn) flags).

Definition pt_link (_ : Context) (oldnodeid newparent : NodeId) (newname : bytes) : M B unit :=
  let? src := node oldnodeid in
  let? dst := node newparent in
  call (SysLinkat (in_path_fd src) (in_path_fd dst) (c_str newname)).

Definition pt_readlink (_ : Context) (n : NodeId) : M B bytes :=
  let? i := node n in call (SysReadlinkat (in_path_fd i) 4096).

(** [io_fd]: a descriptor for I/O and the one to close afterwards, if any. *)
Definition io_fd (n : NodeId) (fh : FileHandle) (mode : Z) : M B (Z * option Z) := fun s =>
  let fd := file_fd s fh in
  (if 0 <=? fd then pret (fd, None) else
   let? i := node n in
   let? t := call (SysOpen (ProcFd (in_path_fd i)) (Z.lor mode O_CLOEXEC)) in
   pret (t, Some t)) s.

(** The body of an I/O callback; the owner of a re-opened descriptor goes out of
    scope at its end. *)
Definition with_io {A} (n : NodeId) (fh : FileHandle) (mode : Z) (c : Z -> syscall A) : M B A :=
  let? (fd, owner) := io_fd n fh mode in
  attempt r := call (c fd) in
  let? _ := drop_fds (option_list owner) in
  of_result r.

(** What [pread] and [l*xattr] store at the start of the span. *)
Definition fill_span (out data : bytes) : bytes := data ++ drop (length data) out.

Definition pt_read (_ : Context) (n : NodeId) (fh : FileHandle) (off : Z) (out : bytes)
    (s : PassthroughFs B) : expected Z * bytes * PassthroughFs B :=
  let '(r, s) := with_io n fh O_RDONLY (fun fd => SysPread fd (zlen out) (cast I64 off)) s in
  match r with
  | Value data => (Value (zlen data), fill_span out data, s)
  | Unexpected e => (Unexpected e, out, s)
  end.

Definition pt_write (_ : Context) (n : NodeId) (fh : FileHandle) (off : Z) (data : bytes) : M B Z :=
  with_io n fh O_WRONLY (fun fd => SysPwrite fd data (cast I64 off)).

Definition fill_statfs (sv : statvfs) : StatfsOut := {|
  sf_blocks := f_blocks sv; sf_bfree := f_bfree sv; sf_bavail := f_bavail sv;
  sf_files := f_files sv; sf_ffree := f_ffree sv; sf_bsize := cast U32 (f_bsize sv);
  sf_namelen := cast U32 (f_namemax sv); sf_frsize := cast U32 (f_frsize sv) |}.

Definition pt_statfs (_ : Context) (n : NodeId) : M B StatfsOut :=
  let? i := node n in
  let? sv := call (SysFstatvfs (in_path_fd i)) in
  pret (fill_statfs sv).

Definition pt_fallocate (_ : Context) (n : NodeId) (fh : FileHandle) (mode off len : Z) : M B unit :=
  with_io n fh O_WRONLY (fun fd => SysFallocate fd (cast I32 mode) (cast I64 off) (cast I64 len)).

(** *** Open files *)

Definition kPersistent : Z :=
  Z.lor (Z.lor (Z.lor (Z.lor O_ACCMODE O_APPEND) O_NONBLOCK) O_DIRECT) O_NOATIME.

(** [++file_id_] and [files_.emplace]: an existing key keeps its value and the
    new descriptor is closed. *)
Definition add_file (fd : Z) : M B FileHandle := fun s =>
  let handle := wrapu 64 (pt_file_id s + 1) in
  match pt_files s !! handle with
  | None => (Value handle, with_files s (<[handle := fd]> (pt_files s)) handle)
  | Some _ => (let? _ := drop_fd fd in pret handle) (with_files s (pt_files s) handle)
  end.

Definition pt_open (_ : Context) (n : NodeId) (flags : Z) : M B OpenOut :=
  let? i := node n in
  let? fd := call (SysOpen (ProcFd (in_path_fd i)) (Z.lor (Z.land (cast I32 flags) kPersistent) O_CLOEXEC)) in
  let? h := add_file fd in
  pret {| oo_fh := h; oo_open_flags := 0 |}.

Definition pt_release (_ : Context) (n : NodeId) (fh : FileHandle) (flags : Z) : M B unit := fun s =>
  drop_fds (option_list (pt_files s !! (fh : Z)))
    (with_files s (delete (fh : Z) (pt_files s)) (pt_file_id s)).

(** *** Open directories *)

Definition add_dir (d : Z) : M B FileHandle := fun s =>
  let fh := wrapu 64 (pt_dir_id s + 1) in
  (Value fh, with_dirs s (<[fh := d]> (pt_dirs s)) fh).

Definition pt_opendir (_ : Context) (n : NodeId) : M B OpenOut :=
  let? i := node n in
  let? fd := call (SysOpen (ProcFd (in_path_fd i)) (Z.lor (Z.lor O_DIRECTORY O_RDONLY) O_CLOEXEC)) in
  attempt d := call (SysFdopendir fd) in
  match d with
  | Unexpected e => close_and_fail fd e
  | Value d => let? fh := add_dir d in pret {| oo_fh := fh; oo_open_flags := 0 |}
  end.

Definition pt_releasedir (_ : Context) (n : NodeId) (fh : FileHandle) : M B unit := fun s =>
  match pt_dirs s !! (fh : Z) with
  | None => (Value tt, s)
  | Some d =>
      (attempt _ := call (SysClosedir d) in pret tt)
        (with_dirs s (delete (fh : Z) (pt_dirs s)) (pt_dir_id s))
  end.

(** The loop of [readdir]: [off] is the position of the next entry to pack.
    Every entry packed takes at least 24 bytes of the buffer, so its length is
    fuel enough; the fuel's end and a fault of [add] are never reached. *)
Fixpoint readdir_loop (fuel : nat) (d off : Z) (out : DirentWriter) (s : PassthroughFs B) :
    expected unit * DirentWriter * PassthroughFs B :=
  match fuel with
  | O => (Unexpected EIO, out, s)
  | S fuel' =>
      let '(de, s) := call (SysReaddir d) s in
      match de with
      | Unexpected e => (Unexpected e, out, s)
      | Value None => (Value tt, out, s)
      | Value (Some de) =>
          let '(next, s) := call (SysTelldir d) s in
          let next := match next with Value p => cast U64 p | Unexpected _ => 2 ^ 64 - 1 end in
          match add out {| de_name := d_name de; de_ino := d_ino de; de_off := next;
                           de_type := d_type de |} with
          | Fault _ => (Unexpected EIO, out, s)
          | Done (false, out) =>
              let '(_, s) := call (SysSeekdir d (cast I64 off)) s in (Value tt, out, s)
          | Done (true, out) => readdir_loop fuel' d next out s
          end
      end
  end.

Definition pt_readdir (_ : Context) (n : NodeId) (fh : FileHandle) (off : Z) (out : DirentWriter)
    (s : PassthroughFs B) : expected unit * DirentWriter * PassthroughFs B :=
  match pt_dirs s !! (fh : Z) with
  | None => (Unexpected EBADF, out, s)
  | Some d =>
      let '(_, s) := call (SysSeekdir d (cast I64 off)) s in
      readdir_loop (S (length (dw_buf out))) d off out s
  end.

(** *** Extended attributes *)

(** The count a call returned and the span with what it stored. *)
Definition span_result (out : bytes) (r : expected (Z * bytes)) (s : PassthroughFs B) :
    expected Z * bytes * PassthroughFs B :=
  match r with
  | Value (n, data) => (Value n, fill_span out data, s)
  | Unexpected e => (Unexpected e, out, s)
  end.

Definition pt_getxattr (_ : Context) (n : NodeId) (name out : bytes) (s : PassthroughFs B) :
    expected Z * bytes * PassthroughFs B :=
  let '(r, s) := (let? i := node n in
                  call (SysLgetxattr (ProcFd (in_path_fd i)) (c_str name) (zlen out))) s in
  span_result out r s.

Definition pt_setxattr (_ : Context) (n : NodeId) (name value : bytes) (flags : Z) : M B unit :=
  let? i := node n in
  call (SysLsetxattr (ProcFd (in_path_fd i)) (c_str name) value (cast I32 flags)).

Definition pt_listxattr (_ : Context) (n : NodeId) (out : bytes) (s : PassthroughFs B) :
    expected Z * bytes * PassthroughFs B :=
  let '(r, s) := (let? i := node n in
                  call (SysLlistxattr (ProcFd (in_path_fd i)) (zlen out))) s in
  span_result out r s.

Definition pt_removexattr (_ : Context) (n : NodeId) (name : bytes) : M B unit :=
  let? i := node n in call (SysLremovexattr (ProcFd (in_path_fd i)) (c_str name)).

(** The daemon as a filesystem of the library; [destroy] is the default. *)
Definition passthrough : Filesystem (PassthroughFs B) := {|
  fs_init := pt_init;
  fs_destroy := default_destroy;
  fs_lookup_root := pt_lookup_root;
  fs_lookupx := pt_lookupx;
  fs_forget := pt_forget;
  fs_forget_multi := pt_forget_multi;
  fs_statx := pt_statx;
  fs_setstatx := pt_setstatx;
  fs_mkobjx := pt_mkobjx;
  fs_unlink := pt_unlink;
  fs_rmdir := pt_rmdir;
  fs_rename := pt_rename;
  fs_link := pt_link;
  fs_readlink := pt_readlink;
  fs_open := pt_open;
  fs_release := pt_release;
  fs_read := pt_read;
  fs_write := pt_write;
  fs_fallocate := pt_fallocate;
  fs_statfs := pt_statfs;
  fs_opendir := pt_opendir;
  fs_releasedir := pt_releasedir;
  fs_readdir := pt_readdir;
  fs_getxattr := pt_getxattr;
  fs_setxattr := pt_setxattr;
  fs_listxattr := pt_listxattr;
  fs_removexattr := pt_removexattr |}.
End Callbacks.
