(* ===== verification/PassthroughSafety.v ===== *)
(** * The passthrough daemon keeps the library's contract and its descriptors

    Two results on [passthrough], both against any backing system. Given what
    the manual pages promise of [pread] and the [*xattr] calls, the daemon is a
    lawful [Filesystem], so the safety results of the library apply to it. And
    with the system calls booked in a ledger of live descriptors and directory
    streams, every request leaves alive exactly what the daemon's tables hold:
    nothing leaks and nothing is closed twice. *)

From S2P Require Import Prelude Memory Pod Abi Types DirentWriter Filesystem Replier Handlers.
From S2P Require Import HandlerSafety Callbacks Request UringEntry UringWorker InodeTable.
From S2P Require Import Passthrough.
From stdpp Require Import gmap.
#[local] Open Scope Z_scope.
#[local] Open Scope daemon_scope.

(** ** The system calls *)

(** [open] returns a descriptor, never negative; [pread] stores at most [count] bytes; [lgetxattr] and [llistxattr] return
    the length of the value and store at most [size] bytes (none when the size
    is zero). *)
Class SysLaws {B} (sys : forall A, syscall A -> B -> expected A * B) : Prop := {
  open_fd : forall p flags b fd b', sys _ (SysOpen p flags) b = (Value fd, b') -> 0 <= fd;
  pread_len : forall fd count off b data b', 0 <= count ->
    sys _ (SysPread fd count off) b = (Value data, b') -> zlen data <= count;
  lgetxattr_len : forall p name size b n data b', 0 <= size ->
    sys _ (SysLgetxattr p name size) b = (Value (n, data), b') -> 0 <= n /\ zlen data <= size;
  llistxattr_len : forall p size b n data b', 0 <= size ->
    sys _ (SysLlistxattr p size) b = (Value (n, data), b') -> 0 <= n /\ zlen data <= size;
}.

(** ** The contract of the library *)

Section Lawful.
Context {B : Type} (sys : forall A, syscall A -> B -> expected A * B).

Lemma call_inv {A} (c : syscall A) s r s' :
  call sys c s = (r, s') -> exists b, sys A c (pt_sys s) = (r, b) /\ s' = with_sys s b.
Proof. unfold call. destruct (sys A c (pt_sys s)) as [r0 b]. intros [= <- <-]. by exists b. Qed.

Lemma pbind_inv {A C} (m : M B A) (k : A -> M B C) s r s' :
  pbind m k s = (r, s') ->
  (exists e, m s = (Unexpected e, s') /\ r = Unexpected e) \/
  (exists a s1, m s = (Value a, s1) /\ k a s1 = (r, s')).
Proof.
  unfold pbind. destruct (m s) as [[a|e] s1].
  - intros H. right. by exists a, s1.
  - intros [= <- <-]. left. by exists e.
Qed.

Lemma drop_fd_value fd s r s' : drop_fd sys fd s = (r, s') -> r = Value tt.
Proof. unfold drop_fd, ptry. destruct (call _ _ s). by intros [= <- _]. Qed.

Lemma drop_fds_value fds s r s' : drop_fds sys fds s = (r, s') -> r = Value tt.
Proof.
  revert s. induction fds as [|fd fds IH]; intros s H; simpl in H; [by injection H as <- _|].
  apply pbind_inv in H as [(e & H & _)|([] & s1 & _ & H)]; [|eauto].
  by apply drop_fd_value in H.
Qed.

(** What an I/O callback returns is what its call returned. *)
Lemma with_io_value {A} n fh mode (c : Z -> syscall A) s a s' :
  with_io sys n fh mode c s = (Value a, s') ->
  exists fd b b', sys A (c fd) b = (Value a, b').
Proof.
  intros H. unfold with_io in H.
  apply pbind_inv in H as [(e & _ & H)|([fd owner] & s1 & _ & H)]; [discriminate|].
  unfold ptry in H. destruct (call sys (c fd) s1) as [r s2] eqn:Hc.
  apply pbind_inv in H as [(e & _ & H)|(? & s3 & _ & H)]; [discriminate|].
  injection H as -> _. apply call_inv in Hc as (b & Hc & _). eauto.
Qed.

Lemma zlen_fill_span out data : zlen data <= zlen out -> zlen (fill_span out data) = zlen out.
Proof. unfold fill_span, zlen. rewrite length_app, length_drop. lia. Qed.

Lemma readdir_loop_adds fuel d off w s rv w' s' :
  readdir_loop sys fuel d off w s = (rv, w', s') -> exists es, adds w es w'.
Proof.
  revert off w s. induction fuel as [|fuel IH]; intros off w s H; simpl in H.
  { injection H as _ <- _. exists []. constructor. }
  destruct (call sys (SysReaddir d) s) as [[[de|]|e] s1];
    [|injection H as _ <- _; exists []; constructor..].
  destruct (call sys (SysTelldir d) s1) as [next s2].
  destruct (add w _) as [[[] w1]|] eqn:Ha.
  - apply IH in H as [es Hes]. eexists. by eapply adds_true.
  - destruct (call sys (SysSeekdir d _) s2). injection H as _ <- _. exists [].
    eapply adds_false; [eassumption|constructor].
  - injection H as _ <- _. exists []. constructor.
Qed.

(** A span-filling call, its error included. *)
Lemma span_result_ok out (r : expected (Z * bytes)) (s : PassthroughFs B) rv out' s' :
  (forall n data, r = Value (n, data) -> 0 <= n /\ zlen data <= zlen out) ->
  span_result out r s = (rv, out', s') ->
  zlen out' = zlen out /\ (forall v, rv = Value v -> 0 <= v).
Proof.
  intros Hr H. destruct r as [[n data]|e]; simpl in H; injection H as <- <- _.
  - destruct (Hr n data eq_refl). split; [by apply zlen_fill_span|]. by intros v [= <-].
  - split; [done|discriminate].
Qed.

Context `{!SysLaws sys}.

Lemma pt_read_ok ctx n fh off out s rv out' s' :
  pt_read sys ctx n fh off out s = (rv, out', s') ->
  zlen out' = zlen out /\ (forall v, rv = Value v -> 0 <= v).
Proof.
  unfold pt_read. destruct (with_io _ _ _ _ _ s) as [[data|e] s1] eqn:Hw; intros [= <- <- _].
  - apply with_io_value in Hw as (fd & b & b' & Hp). apply pread_len in Hp; [|apply zlen_nonneg].
    split; [by apply zlen_fill_span|]. intros v [= <-]. apply zlen_nonneg.
  - done.
Qed.

Lemma pt_getxattr_ok ctx n name out s rv out' s' :
  pt_getxattr sys ctx n name out s = (rv, out', s') ->
  zlen out' = zlen out /\ (forall v, rv = Value v -> 0 <= v).
Proof.
  unfold pt_getxattr. destruct (pbind _ _ s) as [r s1] eqn:Hb. apply span_result_ok.
  intros k data ->. apply pbind_inv in Hb as [(? & _ & ?)|(i & s2 & _ & Hc)]; [done|].
  apply call_inv in Hc as (b & Hc & _). eapply lgetxattr_len; [|exact Hc]. apply zlen_nonneg.
Qed.

Lemma pt_listxattr_ok ctx n out s rv out' s' :
  pt_listxattr sys ctx n out s = (rv, out', s') ->
  zlen out' = zlen out /\ (forall v, rv = Value v -> 0 <= v).
Proof.
  unfold pt_listxattr. destruct (pbind _ _ s) as [r s1] eqn:Hb. apply span_result_ok.
  intros k data ->. apply pbind_inv in Hb as [(? & _ & ?)|(i & s2 & _ & Hc)]; [done|].
  apply call_inv in Hc as (b & Hc & _). eapply llistxattr_len; [|exact Hc]. apply zlen_nonneg.
Qed.

#[export] Instance passthrough_lawful : LawfulFs (passthrough sys).
Proof.
  split; cbn; intros.
  - by eapply pt_read_ok.
  - by eapply pt_read_ok.
  - by eapply pt_getxattr_ok.
  - by eapply pt_getxattr_ok.
  - by eapply pt_listxattr_ok.
  - by eapply pt_listxattr_ok.
  - unfold pt_readdir in *. destruct (pt_dirs s !! _) as [d|].
    + destruct (call sys _ s). by eapply readdir_loop_adds.
    + simplify_eq. exists []. constructor.
Qed.
End Lawful.

(** ** The ledger *)

Inductive resource :=
| Fdesc (fd : Z)
| Stream (d : Z).

#[export] Instance resource_eq_dec : EqDecision resource.
Proof. solve_decision. Defined.

(** The system with what is alive in it: one entry per descriptor or stream
    open, whether something that was not alive has been closed, and the number
    of directory streams opened so far. *)
Record ledger (B : Type) := {
  lg_sys : B;
  lg_live : list resource;
  lg_bad : bool;
  lg_dirs : Z;
}.
Arguments lg_sys {B} _.
Arguments lg_live {B} _.
Arguments lg_bad {B} _.
Arguments lg_dirs {B} _.

Definition ledger_start {B} (b : B) (backing : Z) : ledger B :=
  {| lg_sys := b; lg_live := [Fdesc backing]; lg_bad := false; lg_dirs := 0 |}.

Definition acquire {B} (x : resource) (lg : ledger B) : ledger B := {|
  lg_sys := lg_sys lg; lg_live := x :: lg_live lg; lg_bad := lg_bad lg; lg_dirs := lg_dirs lg |}.

Definition discard {B} (x : resource) (lg : ledger B) : ledger B :=
  match take_out x (lg_live lg) with
  | Some l => {| lg_sys := lg_sys lg; lg_live := l; lg_bad := lg_bad lg; lg_dirs := lg_dirs lg |}
  | None => {| lg_sys := lg_sys lg; lg_live := lg_live lg; lg_bad := true; lg_dirs := lg_dirs lg |}
  end.

Definition count_dir {B} (lg : ledger B) : ledger B := {|
  lg_sys := lg_sys lg; lg_live := lg_live lg; lg_bad := lg_bad lg; lg_dirs := lg_dirs lg + 1 |}.

(** What a call does to the ledger: opening calls add what they return, closing
    calls remove their argument whatever they return, and [fdopendir] turns a
    descriptor into a stream. *)
Definition account {B A} (c : syscall A) : expected A -> ledger B -> ledger B :=
  match c in syscall A return expected A -> ledger B -> ledger B with
  | SysOpenat _ _ _ _ | SysOpen _ _ => fun r lg =>
      match r with Value fd => acquire (Fdesc fd) lg | Unexpected _ => lg end
  | SysClose fd => fun _ lg => discard (Fdesc fd) lg
  | SysFdopendir fd => fun r lg =>
      match r with
      | Value d => count_dir (acquire (Stream d) (discard (Fdesc fd) lg))
      | Unexpected _ => lg
      end
  | SysClosedir d => fun _ lg => discard (Stream d) lg
  | _ => fun _ lg => lg
  end.

Definition tracked {B} (sys : forall A, syscall A -> B -> expected A * B)
    (A : Type) (c : syscall A) (lg : ledger B) : expected A * ledger B :=
  let '(r, b) := sys A c (lg_sys lg) in
  (r, account c r {| lg_sys := b; lg_live := lg_live lg; lg_bad := lg_bad lg;
                     lg_dirs := lg_dirs lg |}).

#[export] Instance tracked_laws {B} (sys : forall A, syscall A -> B -> expected A * B) :
  SysLaws sys -> SysLaws (tracked sys).
Proof.
  intros Hs. split; unfold tracked; intros *; try (match goal with |- 0 <= _ -> _ => intros ? end);
    destruct (sys _ _ _) as [r b0] eqn:E; intros [= -> _]; revert E; by apply Hs.
Qed.

(** What the daemon's tables hold. *)
Definition owned {B} (s : PassthroughFs B) : list resource :=
  map Fdesc (table_fds (pt_table s)) ++
  map (fun x => Fdesc (snd x)) (map_to_list (pt_files s)) ++
  map (fun x => Stream (snd x)) (map_to_list (pt_dirs s)).

(** The books balance, with [X] in the hands of the running callback. A
    directory handle is a 64-bit counter: the books are kept for the first
    2^64 - 1 streams. *)
Definition balances {B} (X : list resource) (s : PassthroughFs (ledger B)) : Prop :=
  let lg := pt_sys s in
  0 <= lg_dirs lg /\
  (lg_dirs lg < 2 ^ 64 ->
   lg_bad lg = false /\ lg_live lg ≡ₚ X ++ owned s /\ pt_dir_id s = lg_dirs lg /\
   (forall k d, pt_dirs s !! k = Some d -> 0 < k <= pt_dir_id s)).

(** ** A small logic of callbacks

    [uses X m Q]: started with [X] in hand, [m] ends with [Q r] in hand, where
    [r] is its result, and the books balance. *)
Section Ledger.
Context {B : Type} (sys0 : forall A, syscall A -> B -> expected A * B).
#[local] Abbreviation sys := (tracked sys0).

Definition uses {A} (X : list resource) (m : M (ledger B) A) (Q : expected A -> list resource) :
    Prop := forall s r s', balances X s -> m s = (r, s') -> balances (Q r) s'.

Lemma balances_perm X Y (s : PassthroughFs (ledger B)) : X ≡ₚ Y -> balances X s -> balances Y s.
Proof.
  intros HXY [Hd H]. split; [done|]. intros Hb. destruct (H Hb) as (? & Hl & ?).
  split; [done|]. split; [by rewrite <- HXY|done].
Qed.

Lemma uses_ret {A} (a : A) Q : uses (Q (Value a)) (pret a) Q.
Proof. by intros s r s' Hs [= <- <-]. Qed.

Lemma uses_fail {A} e (Q : expected A -> _) : uses (Q (Unexpected e)) (pfail e) Q.
Proof. by intros s r s' Hs [= <- <-]. Qed.

Lemma uses_of_result {A} (r : expected A) Q : uses (Q r) (of_result r) Q.
Proof. by intros s r' s' Hs [= <- <-]. Qed.

Lemma uses_bind {A C} X (m : M _ A) (k : A -> M _ C) Y Q :
  uses X m (fun r => match r with Value a => Y a | Unexpected e => Q (Unexpected e) end) ->
  (forall a, uses (Y a) (k a) Q) -> uses X (pbind m k) Q.
Proof.
  intros Hm Hk s r s' Hs H. apply pbind_inv in H as [(e & H & ->)|(a & s1 & H & H')].
  - exact (Hm s _ s' Hs H).
  - exact (Hk a s1 r s' (Hm s _ s1 Hs H) H').
Qed.

Lemma uses_try {A C} X (m : M _ A) (k : expected A -> M _ C) Y Q :
  uses X m Y -> (forall r, uses (Y r) (k r) Q) -> uses X (ptry m k) Q.
Proof.
  intros Hm Hk s r s' Hs H. unfold ptry in H. destruct (m s) as [r1 s1] eqn:E.
  exact (Hk r1 s1 r s' (Hm s r1 s1 Hs E) H).
Qed.

(** The form most steps have: what is left in hand does not depend on the result. *)
Lemma uses_then {A C} X Y (m : M _ A) (k : A -> M _ C) :
  uses X m (fun _ => Y) -> (forall a, uses Y (k a) (fun _ => Y)) -> uses X (pbind m k) (fun _ => Y).
Proof.
  intros Hm Hk. apply (uses_bind _ _ _ (fun _ => Y)); [|done]. intros s [] s'; apply Hm.
Qed.

(** The calls that neither open nor close. *)
Definition plain {A} (c : syscall A) : bool :=
  match c with
  | SysOpenat _ _ _ _ | SysOpen _ _ | SysClose _ | SysFdopendir _ | SysClosedir _ => false
  | _ => true
  end.

Lemma uses_plain {A} X (c : syscall A) : plain c = true -> uses X (call sys c) (fun _ => X).
Proof.
  intros Hc s r s' [Hd Hs] H. apply call_inv in H as (b & H & ->). unfold tracked in H.
  destruct (sys0 A c _) as [r0 b0]. injection H as <- <-.
  destruct c; try discriminate Hc; done.
Qed.

(** What an opening call leaves in hand. *)
Definition opened (r : expected Z) : list resource :=
  match r with Value fd => [Fdesc fd] | Unexpected _ => [] end.

Lemma uses_opening X (c : syscall Z) :
  (forall r (lg : ledger B),
     account c r lg = match r with Value fd => acquire (Fdesc fd) lg | Unexpected _ => lg end) ->
  uses X (call sys c) (fun r => opened r ++ X).
Proof.
  intros Hc s r s' [Hd Hs] H. apply call_inv in H as (b & H & ->). unfold tracked in H.
  destruct (sys0 _ _ _) as [r0 b0]. injection H as <- <-. rewrite Hc.
  split; [by destruct r0|]. intros Hb.
  destruct r0; destruct (Hs Hb) as (? & Hl & ?); (split; [done|split; [|done]]);
    [by constructor|exact Hl].
Qed.

Lemma uses_openat X dir name flags mode :
  uses X (call sys (SysOpenat dir name flags mode)) (fun r => opened r ++ X).
Proof. by apply uses_opening. Qed.

Lemma uses_open X p flags : uses X (call sys (SysOpen p flags)) (fun r => opened r ++ X).
Proof. by apply uses_opening. Qed.

(** Removing what the books have in hand. *)
Lemma discard_ok (lg : ledger B) x l :
  lg_live lg ≡ₚ x :: l ->
  lg_live (discard x lg) ≡ₚ l /\ lg_bad (discard x lg) = lg_bad lg.
Proof.
  intros Hl. unfold discard. destruct (take_out_perm x _ l Hl) as (l1 & -> & Hp). by split.
Qed.

Lemma discard_dirs (lg : ledger B) x : lg_dirs (discard x lg) = lg_dirs lg.
Proof. unfold discard. by destruct (take_out x _). Qed.

Lemma uses_close X fd : uses (Fdesc fd :: X) (call sys (SysClose fd)) (fun _ => X).
Proof.
  intros s r s' [Hd Hs] H. apply call_inv in H as (b & H & ->). unfold tracked in H.
  destruct (sys0 _ _ _) as [r0 b0]. injection H as <- <-. cbn -[discard].
  unfold balances. cbn -[discard]. rewrite discard_dirs. cbn [lg_dirs]. split; [done|]. intros Hb.
  destruct (Hs Hb) as (Hbad & Hl & Hrest).
  edestruct (discard_ok {| lg_sys := b0; lg_live := lg_live (pt_sys s);
    lg_bad := lg_bad (pt_sys s); lg_dirs := lg_dirs (pt_sys s) |} (Fdesc fd)) as [H1 H2];
    [exact Hl|]. rewrite H1, H2. done.
Qed.

Lemma uses_drop_fd X fd : uses (Fdesc fd :: X) (drop_fd sys fd) (fun _ => X).
Proof. eapply uses_try; [apply uses_close|]. intros r. exact (uses_ret tt (fun _ => X)). Qed.

Lemma uses_drop_fds X fds : uses (map Fdesc fds ++ X) (drop_fds sys fds) (fun _ => X).
Proof.
  induction fds as [|fd fds IH]; [exact (uses_ret tt (fun _ => X))|]. simpl.
  intros s r s' Hs H. apply pbind_inv in H as [(e & H & _)|(a & s1 & H & H')].
  - by apply drop_fd_value in H.
  - exact (IH s1 r s' (uses_drop_fd _ fd s _ s1 Hs H) H').
Qed.

Lemma uses_perm {A} X Y (m : M _ A) Q : X ≡ₚ Y -> uses X m Q -> uses Y m Q.
Proof. intros HXY Hm s r s' Hs. apply Hm. by eapply balances_perm. Qed.

(** Destructors do not fail. *)
Lemma uses_drop_then {A} X fds (k : unit -> M _ A) Q :
  uses X (k tt) Q -> uses (map Fdesc fds ++ X) (pbind (drop_fds sys fds) k) Q.
Proof.
  intros Hk s r s' Hs H. apply pbind_inv in H as [(e & H & _)|([] & s1 & H & H')].
  - by apply drop_fds_value in H.
  - exact (Hk s1 r s' (uses_drop_fds X fds s _ s1 Hs H) H').
Qed.

Lemma uses_drop1_then {A} X fd (k : unit -> M _ A) Q :
  uses X (k tt) Q -> uses (Fdesc fd :: X) (pbind (drop_fd sys fd) k) Q.
Proof.
  intros Hk s r s' Hs H. apply pbind_inv in H as [(e & H & _)|([] & s1 & H & H')].
  - by apply drop_fd_value in H.
  - exact (Hk s1 r s' (uses_drop_fd X fd s _ s1 Hs H) H').
Qed.

Lemma uses_close_and_fail {A} X fd e :
  uses (Fdesc fd :: X) (close_and_fail (A := A) sys fd e) (fun _ => X).
Proof.
  eapply uses_try; [apply uses_close|]. intros [|e']; exact (uses_fail _ (fun _ => X)).
Qed.

Lemma uses_node X n : uses X (node (B := ledger B) n) (fun _ => X).
Proof. intros s r s' Hs. unfold node. by destruct (get _ n); intros [= <- <-]. Qed.

(** Moving descriptors between the inode table and the hand. *)
Lemma balances_table X Y (s : PassthroughFs (ledger B)) t :
  X ++ map Fdesc (table_fds (pt_table s)) ≡ₚ Y ++ map Fdesc (table_fds t) ->
  balances X s -> balances Y (with_table s t).
Proof.
  intros Hp [Hd Hs]. split; [done|]. intros Hb. destruct (Hs Hb) as (? & Hl & ?).
  split; [done|]. split; [|done]. cbn -[owned]. rewrite Hl. unfold owned. cbn.
  by rewrite !(app_assoc _ (map Fdesc _)), Hp.
Qed.

Lemma uses_table_insert X fd ino :
  uses (Fdesc fd :: X) (table_insert sys fd ino) (fun _ => X).
Proof.
  intros s r s' Hs H. unfold table_insert in H.
  pose proof (apply_op_fds (pt_table s) (OpInsert fd ino)) as Hf. cbn [apply_op] in Hf.
  destruct (insert_inode _ fd ino) as [[t n] closed]. cbn in Hf.
  refine (uses_then (map Fdesc closed ++ X) X _ _ (uses_drop_fds X closed) _ _ r s' _ H).
  - intros _. exact (uses_ret n (fun _ => X)).
  - eapply balances_table; [|exact Hs].
    rewrite (Permutation_app_comm _ X), <- app_assoc, <- map_app, <- Hf. simpl.
    by rewrite Permutation_middle.
Qed.

Lemma uses_open_then {A} X p flags (k : Z -> M _ A) :
  (forall fd, uses (Fdesc fd :: X) (k fd) (fun _ => X)) ->
  uses X (pbind (call sys (SysOpen p flags)) k) (fun _ => X).
Proof.
  intros Hk. apply (uses_bind _ _ _ (fun fd => Fdesc fd :: X)); [|done].
  intros s [] s'; apply uses_open.
Qed.

Lemma uses_openat_then {A} X dir name flags mode (k : Z -> M _ A) :
  (forall fd, uses (Fdesc fd :: X) (k fd) (fun _ => X)) ->
  uses X (pbind (call sys (SysOpenat dir name flags mode)) k) (fun _ => X).
Proof.
  intros Hk. apply (uses_bind _ _ _ (fun fd => Fdesc fd :: X)); [|done].
  intros s [] s'; apply uses_openat.
Qed.

Lemma uses_add_file X fd : uses (Fdesc fd :: X) (add_file sys fd) (fun _ => X).
Proof.
  intros s r s' Hs H. unfold add_file in H. destruct (pt_files s !! _) as [fd0|] eqn:Ef.
  - refine (uses_then (Fdesc fd :: X) X _ _ (uses_drop_fd X fd) _ _ r s' _ H); [|exact Hs].
    intros _. exact (uses_ret _ (fun _ => X)).
  - injection H as <- <-. destruct Hs as [Hd Hs]. split; [done|]. intros Hb.
    destruct (Hs Hb) as (? & Hl & ?). split; [done|]. split; [|done]. cbn -[owned]. rewrite Hl.
    unfold owned. cbn -[map_to_list]. rewrite map_to_list_insert by done. simpl.
    by rewrite <- !Permutation_middle.
Qed.

(** Steps through a callback. *)
Ltac books :=
  repeat first
  [ progress (intros)
  | exact (uses_ret _ (fun _ => _)) | exact (uses_fail _ (fun _ => _))
  | exact (uses_of_result _ (fun _ => _))
  | apply uses_close_and_fail | apply uses_node | by apply uses_plain
  | apply uses_table_insert | apply uses_add_file | apply uses_drop_fd
  | apply uses_drop1_then | apply uses_drop_then
  | apply uses_open_then | apply uses_openat_then
  | eapply uses_then; [first [apply uses_node | by apply uses_plain | apply uses_table_insert
                             | apply uses_add_file]|]
  | eapply uses_try; [by apply uses_plain|]
  | match goal with |- uses _ (if ?b then _ else _) _ => destruct b end
  | match goal with |- uses _ match ?r with _ => _ end _ => destruct r end ].

Lemma uses_lookupx ctx p name : uses [] (pt_lookupx sys ctx p name) (fun _ => []).
Proof.
  unfold pt_lookupx. eapply uses_then; [apply uses_node|]. intros i.
  eapply uses_try; [apply uses_openat|]. intros [cfd|e]; simpl; books.
Qed.

Lemma uses_statx ctx n : uses [] (pt_statx sys ctx n) (fun _ => []).
Proof. unfold pt_statx. books. Qed.

Lemma uses_mkobjx ctx p mi : uses [] (pt_mkobjx sys ctx p mi) (fun _ => []).
Proof.
  unfold pt_mkobjx. eapply uses_then; [apply uses_node|]. intros i. destruct (negb _).
  - unfold mkobjx_tmpfile. books. eapply uses_try; [apply uses_open|]. intros [pfd|e]; simpl.
    + eapply uses_perm; [apply Permutation_swap|]. books.
    + books.
  - eapply uses_then; [unfold mkobjx_create; books|]. intros _.
    eapply uses_then; [unfold mkobjx_chown; books|]. books.
Qed.

(** What [io_fd] hands to its caller: the re-opened descriptor, if any. *)
Definition io_owned (r : expected (Z * option Z)) : list resource :=
  match r with Value x => map Fdesc (option_list (snd x)) | Unexpected _ => [] end.

Lemma uses_io_fd n fh mode : uses [] (io_fd sys n fh mode) io_owned.
Proof.
  intros s r s' Hs H. unfold io_fd in H. destruct (0 <=? file_fd s fh).
  { by injection H as <- <-. }
  refine (uses_bind _ _ _ (fun _ => []) io_owned _ _ s r s' Hs H).
  - intros s1 [] s1'; apply uses_node.
  - intros i. apply (uses_bind _ _ _ (fun fd => [Fdesc fd])).
    + intros s1 [] s1'; apply uses_open.
    + intros t. exact (uses_ret (t, Some t) io_owned).
Qed.

Lemma uses_with_io {A} n fh mode (c : Z -> syscall A) :
  (forall fd, plain (c fd) = true) -> uses [] (with_io sys n fh mode c) (fun _ => []).
Proof.
  intros Hc. apply (uses_bind _ _ _ (fun x => map Fdesc (option_list (snd x)))).
  - intros s [] s'; apply uses_io_fd.
  - intros [fd owner]. eapply uses_try; [by apply uses_plain|]. intros r. cbn [snd].
    rewrite <- (app_nil_r (map _ _)). books.
Qed.

Lemma uses_setstatx ctx n fh i : uses [] (pt_setstatx sys ctx n fh i) (fun _ => []).
Proof.
  intros s r s' Hs. unfold pt_setstatx. set (fd := file_fd s fh). clearbody fd.
  match goal with |- ?m s = _ -> _ => assert (Hu : uses [] m (fun _ => [])) end; [|by apply Hu].
  eapply uses_then; [destruct (fd <? 0); books|]. intros p.
  repeat (eapply uses_then;
    [unfold when, on_target; destruct (asks _ _), (0 <=? fd); by first [apply uses_plain | books]|];
    intros _).
  apply uses_statx.
Qed.

(** Forgetting closes what leaves the table. *)
Lemma balances_forget (s : PassthroughFs (ledger B)) t closed :
  table_fds (pt_table s) ≡ₚ closed ++ table_fds t -> balances [] s ->
  balances [] (snd (drop_fds sys closed (with_table s t))).
Proof.
  intros Hf Hs. destruct (drop_fds sys closed _) as [r s'] eqn:E.
  refine (uses_drop_fds [] closed _ r s' _ E). eapply balances_table; [|exact Hs].
  by rewrite app_nil_r, <- map_app, <- Hf.
Qed.

Lemma balances_forget_multi s items :
  balances [] s -> balances [] (pt_forget_multi sys items s).
Proof.
  intros Hs. unfold pt_forget_multi. pose proof (forget_many_fds (pt_table s) items) as Hf.
  destruct (forget_many _ _) as [t closed]. by apply balances_forget.
Qed.

Lemma balances_pt_forget s n k : balances [] s -> balances [] (pt_forget sys n k s).
Proof.
  intros Hs. unfold pt_forget. pose proof (apply_op_fds (pt_table s) (OpForget n k)) as Hf.
  cbn [apply_op inserted flat_map app] in Hf. destruct (forget _ _ _) as [t closed].
  by apply balances_forget.
Qed.

Lemma uses_release ctx n fh flags : uses [] (pt_release sys ctx n fh flags) (fun _ => []).
Proof.
  intros s r s' Hs H. unfold pt_release in H.
  refine (uses_drop_fds [] _ _ r s' _ H). destruct Hs as [Hd Hs]. split; [done|]. intros Hb.
  destruct (Hs Hb) as (? & Hl & ?). split; [done|]. split; [|done]. cbn -[owned]. rewrite Hl.
  unfold owned. cbn -[map_to_list]. destruct (pt_files s !! _) as [fd|] eqn:Ef; simpl.
  - rewrite <- (map_to_list_delete (pt_files s) _ _ Ef). simpl. by rewrite <- !Permutation_middle.
  - by rewrite delete_id by done.
Qed.

(** A new stream: the handle is fresh as long as the counter has not wrapped. *)
Lemma uses_add_dir fd (k : FileHandle -> M _ OpenOut) :
  (forall h, uses [] (k h) (fun _ => [])) ->
  uses [Fdesc fd]
    (attempt d := call sys (SysFdopendir fd) in
     match d with
     | Unexpected e => close_and_fail sys fd e
     | Value d => let? fh := add_dir d in k fh
     end) (fun _ => []).
Proof.
  intros Hk s r s' [Hd Hs] H. unfold ptry in H. destruct (call sys _ s) as [r1 s1] eqn:E.
  apply call_inv in E as (b & E & ->). unfold tracked in E.
  destruct (sys0 _ _ _) as [r0 b0]. injection E as <- <-. destruct r0 as [d|e].
  2: { refine (uses_close_and_fail [] fd e _ r s' _ H). by split. }
  apply pbind_inv in H as [(e & H & _)|(h & s2 & H & H')]; [discriminate|].
  refine (Hk h s2 r s' _ H'). unfold add_dir in H. injection H as <- <-.
  unfold balances. cbn -[owned discard Z.add Z.pow]. rewrite discard_dirs. cbn [lg_dirs].
  split; [lia|]. intros Hb. destruct (Hs ltac:(lia)) as (Hbad & Hl & Hid & Hk').
  edestruct (discard_ok {| lg_sys := b0; lg_live := lg_live (pt_sys s);
    lg_bad := lg_bad (pt_sys s); lg_dirs := lg_dirs (pt_sys s) |} (Fdesc fd)) as [H1 H2];
    [exact Hl|].
  rewrite wrapu_small by lia. split; [by rewrite H2|]. split; [|split; [lia|]].
  - rewrite H1. unfold owned. cbn -[map_to_list].
    rewrite map_to_list_insert; [simpl; by rewrite <- !Permutation_middle|].
    destruct (pt_dirs s !! (pt_dir_id s + 1)) as [d'|] eqn:E; [|done].
    apply Hk' in E. lia.
  - intros k0 d0 [[<- _]|[_ Hk0]]%lookup_insert_Some; [lia|]. apply Hk' in Hk0. lia.
Qed.

Lemma uses_opendir ctx n : uses [] (pt_opendir sys ctx n) (fun _ => []).
Proof. unfold pt_opendir. books. apply uses_add_dir. books. Qed.

Lemma uses_releasedir ctx n fh : uses [] (pt_releasedir sys ctx n fh) (fun _ => []).
Proof.
  intros s r s' [Hd Hs] H. unfold pt_releasedir in H.
  destruct (pt_dirs s !! _) as [d|] eqn:Ed; [|by injection H as <- <-].
  unfold ptry in H. destruct (call sys _ _) as [r1 s1] eqn:E. injection H as <- <-.
  apply call_inv in E as (b & E & ->). unfold tracked in E. destruct (sys0 _ _ _) as [r0 b0].
  injection E as <- <-. unfold balances. cbn -[owned discard Z.pow]. rewrite discard_dirs.
  cbn [lg_dirs]. split; [done|]. intros Hb. destruct (Hs Hb) as (Hbad & Hl & Hid & Hk').
  edestruct (discard_ok {| lg_sys := b0; lg_live := lg_live (pt_sys s);
    lg_bad := lg_bad (pt_sys s); lg_dirs := lg_dirs (pt_sys s) |} (Stream d)) as [H1 H2].
  - cbn [lg_live]. rewrite Hl. unfold owned. rewrite <- (map_to_list_delete (pt_dirs s) _ _ Ed).
    simpl. rewrite <- !Permutation_middle. reflexivity.
  - rewrite H1, H2. split; [done|]. split; [done|]. split; [done|].
    intros k0 d0 [_ Hk0]%lookup_delete_Some. by eapply Hk'.
Qed.

Lemma balances_plain {A} X (c : syscall A) s :
  plain c = true -> balances X s -> balances X (snd (call sys c s)).
Proof.
  intros Hc Hs. destruct (call sys c s) as [r s'] eqn:E. by apply (uses_plain X c Hc s r s').
Qed.

Lemma balances_readdir_loop fuel d off w s :
  balances [] s -> balances [] (snd (readdir_loop sys fuel d off w s)).
Proof.
  revert off w s. induction fuel as [|fuel IH]; intros off w s Hs; [done|]. cbn [readdir_loop].
  apply (balances_plain _ (SysReaddir d)) in Hs; [|done].
  destruct (call sys (SysReaddir d) s) as [[[de|]|e] s1]; [|done..]. cbn [snd] in Hs.
  apply (balances_plain _ (SysTelldir d)) in Hs; [|done].
  destruct (call sys (SysTelldir d) s1) as [next s2]. cbn [snd] in Hs.
  destruct (add w _) as [[[] w1]|]; [by apply IH| |done].
  apply (balances_plain _ (SysSeekdir d (cast I64 off))) in Hs; [|done].
  by destruct (call sys (SysSeekdir d _) s2).
Qed.

Lemma uses_snd {A} X (m : M (ledger B) A) Q s :
  uses X m Q -> balances X s -> exists r, balances (Q r) (snd (m s)).
Proof. intros Hm Hs. destruct (m s) as [r s'] eqn:E. exists r. by apply (Hm s r s'). Qed.

(** Every callback of the daemon leaves the books balanced. *)
#[export] Instance passthrough_balances : FsInvariant (passthrough sys) (balances (B := B) []).
Proof.
  intros cb s Hs.
  assert (Hu : forall A (m : M (ledger B) A), uses [] m (fun _ => []) -> balances [] (snd (m s))).
  { intros A m Hm. by destruct (uses_snd [] m _ s Hm Hs). }
  destruct cb; cbn [invoke passthrough fs_init fs_destroy fs_lookup_root fs_lookupx fs_forget
    fs_forget_multi fs_statx fs_setstatx fs_mkobjx fs_unlink fs_rmdir fs_rename fs_link fs_readlink
    fs_open fs_release fs_read fs_write fs_fallocate fs_statfs fs_opendir fs_releasedir fs_readdir
    fs_getxattr fs_setxattr fs_listxattr fs_removexattr]; try exact Hs.
  - apply Hu, uses_lookupx.
  - by apply balances_pt_forget.
  - by apply balances_forget_multi.
  - apply Hu, uses_statx.
  - apply Hu, uses_setstatx.
  - apply Hu, uses_mkobjx.
  - apply Hu. unfold pt_unlink. books.
  - apply Hu. unfold pt_rmdir. books.
  - apply Hu. unfold pt_rename. books.
  - apply Hu. unfold pt_link. books.
  - apply Hu. unfold pt_readlink. books.
  - apply Hu. unfold pt_open. books.
  - apply Hu, uses_release.
  - unfold pt_read. edestruct (uses_snd [] (with_io sys n fh O_RDONLY
      (fun fd => SysPread fd (zlen out) (cast I64 off)))) as [r0 Hr];
      [by apply uses_with_io|exact Hs|]. by destruct (with_io _ _ _ _ _ s) as [[] ?].
  - apply Hu. by apply uses_with_io.
  - apply Hu. by apply uses_with_io.
  - apply Hu. unfold pt_statfs. books.
  - apply Hu, uses_opendir.
  - apply Hu, uses_releasedir.
  - unfold pt_readdir. destruct (pt_dirs s !! _) as [d|]; [|done].
    apply (balances_plain _ (SysSeekdir d (cast I64 off))) in Hs; [|done].
    destruct (call sys _ s) as [r1 s1]. by apply balances_readdir_loop.
  - unfold pt_getxattr. edestruct (uses_snd [] (let? i := node n in
      call sys (SysLgetxattr (ProcFd (in_path_fd i)) (c_str name) (zlen out)))) as [r0 Hr];
      [|exact Hs|]; [books|]. by destruct (pbind _ _ s) as [[[]|] ?].
  - apply Hu. unfold pt_setxattr. books.
  - unfold pt_listxattr. edestruct (uses_snd [] (let? i := node n in
      call sys (SysLlistxattr (ProcFd (in_path_fd i)) (zlen out)))) as [r0 Hr];
      [|exact Hs|]; [books|]. by destruct (pbind _ _ s) as [[[]|] ?].
  - apply Hu. unfold pt_removexattr. books.
Qed.
End Ledger.

(** The books of a new daemon. *)
Lemma balances_start {B} (b : B) backing :
  balances [] (PassthroughFs_make backing (ledger_start b backing)).
Proof.
  split; [done|]. intros _. split_and!; [done| |done|].
  - unfold owned, table_fds, PassthroughFs_make, InodeTable_make.
    cbn [pt_table pt_files pt_dirs pt_sys ledger_start lg_live].
    by rewrite map_to_list_singleton, !map_to_list_empty.
  - intros k d Hk. unfold PassthroughFs_make in Hk. cbn [pt_dirs] in Hk. by rewrite lookup_empty in Hk.
Qed.

(** ** Handles *)

(** File handles in use were given out by the counter. *)
Definition files_fresh {B} (s : PassthroughFs B) : Prop :=
  forall k fd, pt_files s !! k = Some fd -> 0 < k <= pt_file_id s.

Section Handles.
Context {B : Type} (sys : forall A, syscall A -> B -> expected A * B).

Lemma node_stale (s : PassthroughFs B) n : get (pt_table s) n = None -> node n s = (Unexpected ESTALE, s).
Proof. intros Hn. unfold node. by rewrite Hn. Qed.

Lemma pbind_stale {A} (k : Inode -> M B A) s n :
  get (pt_table s) n = None -> pbind (node n) k s = (Unexpected ESTALE, s).
Proof. intros Hn. unfold pbind. by rewrite node_stale. Qed.

Lemma with_io_stale {A} n fh mode (c : Z -> syscall A) s :
  get (pt_table s) n = None -> file_fd s fh < 0 ->
  with_io sys n fh mode c s = (Unexpected ESTALE, s).
Proof.
  intros Hn Hf. unfold with_io, pbind at 1, io_fd. case_if; [lia|]. by rewrite pbind_stale.
Qed.

(** I/O on an open handle is one call on its descriptor. *)
Lemma with_io_open {A} n fh mode (c : Z -> syscall A) s :
  0 <= file_fd s fh -> with_io sys n fh mode c s = call sys (c (file_fd s fh)) s.
Proof.
  intros Hf. unfold with_io, pbind at 1, io_fd. case_if; [|lia]. cbn. unfold ptry.
  by destruct (call sys _ s).
Qed.
End Handles.

(** ** Theorems *)

(** The passthrough daemon is a lawful filesystem: whatever the backing
    system does within its documented contract, the daemon stays inside the
    spans it is given, returns nonnegative counts and fills directory buffers
    through [DirentWriter::add] only. *)
Theorem passthrough_keeps_contract {B} (sys : forall A, syscall A -> B -> expected A * B) :
  SysLaws sys -> LawfulFs (passthrough sys).
Proof. intros Hs. by apply passthrough_lawful. Qed.

(** C22: no descriptor is leaked or closed twice. A worker that serves any
    sequence of requests the kernel can deliver to the passthrough daemon keeps
    running, and afterwards the descriptors and directory streams alive are
    exactly those in the daemon's inode, file and directory tables, and nothing
    was closed that was not alive (while fewer than 2^64 directories have been
    opened). Callbacks that fail half way are included. *)
Theorem passthrough_owns_descriptors {B} (sys : forall A, syscall A -> B -> expected A * B)
    (SL : SysLaws sys) b backing impl i env qid depth pb k evs :
  let fs := passthrough (tracked sys) in
  let w := {| w_impl := i; w_fs := PassthroughFs_make backing (ledger_start b backing) |} in
  0 <= pb < 2 ^ 32 - sizeof fuse_out_header -> 0 <= depth < 2 ^ 32 - 1 ->
  depth + 1 <= se_sq_entries env ->
  start impl env (RingWorker_make qid depth pb) = (k, 0) ->
  legit fs k w evs ->
  exists k' w' v, run fs k w evs = Done (k', w', v) /\
    (lg_dirs (pt_sys (w_fs w')) < 2 ^ 64 ->
     lg_bad (pt_sys (w_fs w')) = false /\ lg_live (pt_sys (w_fs w')) ≡ₚ owned (w_fs w')).
Proof.
  intros fs w Hpb Hd Hc Hs Hl.
  destruct (start_ok impl env qid depth pb k Hpb Hd Hc Hs) as (rg & Hok & _).
  destruct (run_ok fs evs k rg w Hok Hl) as (k' & w' & v & Hr & _).
  exists k', w', v. split; [done|]. intros Hb.
  assert (Hbal : balances [] (w_fs w')).
  { eapply (run_keeps fs (fun w => balances [] (w_fs w))); [|exact Hr]. apply balances_start. }
  destruct Hbal as [_ Hbal]. by destruct (Hbal Hb) as (? & ? & _).
Qed.

(** A nodeid the table does not hold is answered ESTALE, by every callback
    that works on a node, before any system call and with the state untouched;
    for the callbacks that prefer an open file this is so when the handle
    names none. *)
Theorem stale_nodeid_estale {B} (sys : forall A, syscall A -> B -> expected A * B)
    (s : PassthroughFs B) n ctx :
  get (pt_table s) n = None ->
  (forall name, pt_lookupx sys ctx n name s = (Unexpected ESTALE, s)) /\
  pt_statx sys ctx n s = (Unexpected ESTALE, s) /\
  (forall mi, pt_mkobjx sys ctx n mi s = (Unexpected ESTALE, s)) /\
  (forall name, pt_unlink sys ctx n name s = (Unexpected ESTALE, s)) /\
  (forall name, pt_rmdir sys ctx n name s = (Unexpected ESTALE, s)) /\
  (forall on nd nn fl, pt_rename sys ctx n on nd nn fl s = (Unexpected ESTALE, s)) /\
  (forall od on nn fl, pt_rename sys ctx od on n nn fl s = (Unexpected ESTALE, s)) /\
  (forall p name, pt_link sys ctx n p name s = (Unexpected ESTALE, s)) /\
  (forall o name, pt_link sys ctx o n name s = (Unexpected ESTALE, s)) /\
  pt_readlink sys ctx n s = (Unexpected ESTALE, s) /\
  pt_statfs sys ctx n s = (Unexpected ESTALE, s) /\
  (forall fl, pt_open sys ctx n fl s = (Unexpected ESTALE, s)) /\
  pt_opendir sys ctx n s = (Unexpected ESTALE, s) /\
  (forall name out, pt_getxattr sys ctx n name out s = (Unexpected ESTALE, out, s)) /\
  (forall name v fl, pt_setxattr sys ctx n name v fl s = (Unexpected ESTALE, s)) /\
  (forall out, pt_listxattr sys ctx n out s = (Unexpected ESTALE, out, s)) /\
  (forall name, pt_removexattr sys ctx n name s = (Unexpected ESTALE, s)) /\
  (forall fh, file_fd s fh < 0 ->
     (forall i, pt_setstatx sys ctx n fh i s = (Unexpected ESTALE, s)) /\
     (forall off out, pt_read sys ctx n fh off out s = (Unexpected ESTALE, out, s)) /\
     (forall off d, pt_write sys ctx n fh off d s = (Unexpected ESTALE, s)) /\
     (forall m off l, pt_fallocate sys ctx n fh m off l s = (Unexpected ESTALE, s))).
Proof.
  intros Hn.
  assert (Hsecond : forall A (k : Inode -> Inode -> M B A) o,
    pbind (node o) (fun a => pbind (node n) (k a)) s = (Unexpected ESTALE, s)).
  { intros A k o. unfold pbind at 1. unfold node at 1. destruct (get (pt_table s) o); [|done].
    by apply pbind_stale. }
  split_and!; try by (intros; first [by apply pbind_stale | apply Hsecond]).
  - intros. unfold pt_getxattr. by rewrite pbind_stale.
  - intros. unfold pt_listxattr. by rewrite pbind_stale.
  - intros fh Hf. split_and!; intros.
    + unfold pt_setstatx. case_if; [|lia]. unfold pbind at 1. by rewrite pbind_stale.
    + unfold pt_read. by rewrite with_io_stale.
    + by apply with_io_stale.
    + by apply with_io_stale.
Qed.

(** An open file is used through its own descriptor. A successful [open]
    opened the node's object with the persistent flags of the request, and the
    handle it returns is not zero and was not in use. As long as it is open,
    [read], [write] and [fallocate] on the handle are exactly one call on that
    descriptor, whatever nodeid comes with them; [release] closes exactly that
    descriptor and restores the table of open files. *)
Theorem open_handle_io {B} (sys : forall A, syscall A -> B -> expected A * B) (SL : SysLaws sys)
    s ctx n flags o s1 :
  files_fresh s -> 0 <= pt_file_id s -> pt_file_id s + 1 < 2 ^ 64 ->
  pt_open sys ctx n flags s = (Value o, s1) ->
  let fh := oo_fh o in
  exists i fd b, get (pt_table s) n = Some i /\
    sys _ (SysOpen (ProcFd (in_path_fd i)) (Z.lor (Z.land (cast I32 flags) kPersistent) O_CLOEXEC))
      (pt_sys s) = (Value fd, b) /\
    fh <> 0 /\ pt_files s !! (fh : Z) = None /\
    s1 = with_files (with_sys s b) (<[(fh : Z) := fd]> (pt_files s)) fh /\ files_fresh s1 /\
    (forall m off out, pt_read sys ctx m fh off out s1 =
       match call sys (SysPread fd (zlen out) (cast I64 off)) s1 with
       | (Value data, s2) => (Value (zlen data), fill_span out data, s2)
       | (Unexpected e, s2) => (Unexpected e, out, s2)
       end) /\
    (forall m off data, pt_write sys ctx m fh off data s1 =
       call sys (SysPwrite fd data (cast I64 off)) s1) /\
    (forall m mode off len, pt_fallocate sys ctx m fh mode off len s1 =
       call sys (SysFallocate fd (cast I32 mode) (cast I64 off) (cast I64 len)) s1) /\
    (forall m fl, pt_release sys ctx m fh fl s1 =
       (Value tt, snd (call sys (SysClose fd) (with_files s1 (pt_files s) fh)))).
Proof.
  intros Hf Hid Hw H fh. unfold pt_open in H.
  apply pbind_inv in H as [(e & _ & ?)|(i & s0 & Hn & H)]; [done|].
  unfold node in Hn. destruct (get (pt_table s) n) as [i0|] eqn:Hi; [|discriminate].
  injection Hn as -> <-.
  apply pbind_inv in H as [(e & _ & ?)|(fd & s2 & Ho & H)]; [done|].
  apply call_inv in Ho as (b & Ho & ->). pose proof (open_fd _ _ _ _ _ Ho) as Hfd.
  unfold pbind, add_file in H. cbn [pt_file_id pt_files with_sys] in H.
  rewrite wrapu_small in H by lia.
  assert (Hfree : pt_files s !! (pt_file_id s + 1) = None).
  { destruct (pt_files s !! _) as [fd0|] eqn:E; [|done]. apply Hf in E. lia. }
  rewrite Hfree in H. injection H as <- <-. subst fh. cbn [oo_fh].
  set (s1 := with_files _ _ _).
  assert (Hfile : file_fd s1 (pt_file_id s + 1) = fd).
  { unfold file_fd. case_if; [lia|]. cbn [s1 pt_files with_files]. by rewrite lookup_insert_eq. }
  exists i, fd, b. split_and!; try done; [lia|..].
  - intros k fd0. cbn [s1 pt_files pt_file_id with_files].
    intros [[<- _]|[_ Hk]]%lookup_insert_Some; [lia|]. apply Hf in Hk. lia.
  - intros m off out. unfold pt_read. rewrite with_io_open by lia. by rewrite Hfile.
  - intros m off data. unfold pt_write. rewrite with_io_open by lia. by rewrite Hfile.
  - intros m mode off len. unfold pt_fallocate. rewrite with_io_open by lia. by rewrite Hfile.
  - intros m fl. unfold pt_release. cbn [s1 pt_files with_files]. rewrite lookup_insert_eq.
    rewrite delete_insert_id by done. cbn. unfold pbind, drop_fd, ptry.
    by destruct (call sys (SysClose fd) _).
Qed.

(** ** Witnesses *)

(** A backing system with one directory tree: opens succeed with fresh
    descriptors counted from [b], every object has inode number 42. *)
Definition demo_backing_stat : stat := {|
  st_dev := 0; st_ino := 42; st_mode := 0x81a4; st_nlink := 1; st_uid := 0; st_gid := 0;
  st_rdev := 0; st_size := 0; st_blksize := 4096; st_blocks := 0;
  st_atim := {| tv_sec := 0; tv_nsec := 0 |}; st_mtim := {| tv_sec := 0; tv_nsec := 0 |};
  st_ctim := {| tv_sec := 0; tv_nsec := 0 |} |}.

Definition demo_sys (A : Type) (c : syscall A) (b : nat) : expected A * nat :=
  match c in syscall A return expected A * nat with
  | SysOpenat _ _ _ _ => (Value (Z.of_nat b), S b)
  | SysOpen _ _ => (Value (Z.of_nat b), S b)
  | SysFstatat _ => (Value demo_backing_stat, b)
  | SysClose _ => (Value tt, b)
  | SysPread _ count _ => (Value (zero_bytes (Z.min 1 count)), b)
  | _ => (Unexpected ENOSYS, b)
  end.

#[export] Instance demo_sys_laws : SysLaws demo_sys.
Proof.
  split; cbn; intros; simplify_eq; [lia|]. unfold zero_bytes, zlen. rewrite length_replicate.
  pose proof (Z.le_min_r 1 count). lia.
Qed.

Definition demo_daemon : PassthroughFs (ledger nat) := PassthroughFs_make 3 (ledger_start 4%nat 3).

Definition demo_pt_world : world (PassthroughFs (ledger nat)) :=
  {| w_impl := demo_impl; w_fs := demo_daemon |}.

Lemma passthrough_keeps_contract_witness : LawfulFs (passthrough demo_sys).
Proof. apply (passthrough_keeps_contract demo_sys demo_sys_laws). Defined.

(** A LOOKUPX of a name in the root. *)
Lemma passthrough_owns_descriptors_witness :
  exists k' w' v, run (passthrough (tracked demo_sys)) demo_worker demo_pt_world
      [demo_fetch 1 0 demo_lookup_view 1] = Done (k', w', v) /\
    (lg_dirs (pt_sys (w_fs w')) < 2 ^ 64 ->
     lg_bad (pt_sys (w_fs w')) = false /\ lg_live (pt_sys (w_fs w')) ≡ₚ owned (w_fs w')).
Proof.
  apply (passthrough_owns_descriptors demo_sys demo_sys_laws 4%nat 3 demo_impl demo_impl demo_env
    0 2 64).
  - vm_compute. split; congruence.
  - lia.
  - vm_compute. congruence.
  - reflexivity.
  - split; [|intros; exact I]. destruct demo_worker_ok as (rg & Hok & _ & Hpb & Ha).
    apply (demo_fetch_ok _ rg); [apply Hok| |done]. rewrite Ha. cbn. set_solver.
Defined.

Definition demo_ctx : Context :=
  {| ctx_uid := 0; ctx_gid := 0; ctx_pid := 0; ctx_nodeid := 7; ctx_unique := 1 |}.

Lemma stale_nodeid_estale_witness :
  pt_statx (tracked demo_sys) demo_ctx 7 demo_daemon = (Unexpected ESTALE, demo_daemon).
Proof. apply (stale_nodeid_estale (tracked demo_sys) demo_daemon 7 demo_ctx). reflexivity. Defined.

Lemma open_handle_io_witness :
  exists o s1 fd, pt_open (tracked demo_sys) demo_ctx 1 2 demo_daemon = (Value o, s1) /\
    pt_write (tracked demo_sys) demo_ctx 1 (oo_fh o) 0 [Byte.x61] s1 =
      call (tracked demo_sys) (SysPwrite fd [Byte.x61] 0) s1.
Proof.
  destruct (pt_open (tracked demo_sys) demo_ctx 1 2 demo_daemon) as [[o|e] s1] eqn:E;
    [|discriminate].
  edestruct (open_handle_io (tracked demo_sys) _ demo_daemon demo_ctx 1 2 o s1)
    as (i & fd & b & _ & _ & _ & _ & _ & _ & _ & Hw & _).
  - intros k fd Hk. discriminate.
  - done.
  - done.
  - exact E.
  - exists o, s1, fd. split; [done|]. apply Hw.
Defined.
