(* ===== verification/DirectoryListing.v ===== *)
(** * Listing a directory through the passthrough daemon

    [readdir] of the daemon works on a POSIX directory stream: it seeks to the
    offset of the request, packs entries until the buffer is full, and seeks
    back to the entry that did not fit. Against any stream that behaves as the
    manual pages say, the theorems show what one READDIR returns, and that a
    client that keeps asking, with the offset of the last entry it got, sees
    every entry of the directory exactly once and in order. *)

From S2P Require Import Prelude Memory Pod Abi Types DirentWriter Filesystem Replier Handlers.
From S2P Require Import InodeTable Passthrough PassthroughSafety.
From stdpp Require Import gmap.
#[local] Open Scope Z_scope.

(** ** Directory streams *)

(** The stream [d] lists [es]; [at_ b k] says that in the system state [b] it
    stands before entry [k], and [cookie k] is what [telldir] returns there. That it
    returns 0 at the start ([ds_start]) is not in the manual pages: the daemon relies
    on it, by seekdir(d, 0) for a READDIR from offset 0. *)
Class DirStream {B} (sys : forall A, syscall A -> B -> expected A * B) (d : Z) (es : list dirent)
    (cookie : nat -> Z) (at_ : B -> nat -> Prop) : Prop := {
  ds_seek : forall b j k, at_ b j -> (k <= length es)%nat ->
    exists b', sys _ (SysSeekdir d (cookie k)) b = (Value tt, b') /\ at_ b' k;
  ds_read : forall b k de, at_ b k -> es !! k = Some de ->
    exists b', sys _ (SysReaddir d) b = (Value (Some de), b') /\ at_ b' (S k);
  ds_end : forall b, at_ b (length es) ->
    exists b', sys _ (SysReaddir d) b = (Value None, b') /\ at_ b' (length es);
  ds_tell : forall b k, at_ b k ->
    exists b', sys _ (SysTelldir d) b = (Value (cookie k), b') /\ at_ b' k;
  ds_cookie : forall k, fits I64 (cookie k);
  ds_start : cookie O = 0;
}.

(** The entry a READDIR reply holds for entry [k]: its offset is the position
    after it. *)
Definition packed (cookie : nat -> Z) (k : nat) (de : dirent) : dir_entry := {|
  de_name := d_name de; de_ino := d_ino de; de_off := cast U64 (cookie (S k));
  de_type := d_type de |}.

Definition listing (cookie : nat -> Z) (es : list dirent) : list dir_entry := imap (packed cookie) es.

(** The fields of a [struct dirent]. *)
Definition dirent_ok (de : dirent) : Prop :=
  fits U64 (d_ino de) /\ fits U8 (d_type de) /\ zlen (d_name de) < 256.

(** The client: fresh buffers of [size] bytes, from offset [off] until a reply
    has no entries. *)
Section Client.
Context {B : Type} (sys : forall A, syscall A -> B -> expected A * B).

Fixpoint list_all (rounds : nat) (ctx : Context) (n : NodeId) (fh : FileHandle) (size off : Z)
    (s : PassthroughFs B) : option (list dir_entry) :=
  match rounds with
  | O => None
  | S rounds' =>
      let '(rv, w, s) := pt_readdir sys ctx n fh off (DirentWriter_make (zero_bytes size)) s in
      match rv, read_dirents (Z.to_nat size) (take (Z.to_nat (bytes_written w)) (dw_buf w)) with
      | Value _, Some page =>
          match last page with
          | None => Some []
          | Some e => app page <$> list_all rounds' ctx n fh size (de_off e) s
          end
      | _, _ => None
      end
  end.
End Client.

Section Listing.
Context {B : Type} (sys : forall A, syscall A -> B -> expected A * B).
Context (d : Z) (es : list dirent) (cookie : nat -> Z) (at_ : B -> nat -> Prop).
Context `{!DirStream sys d es cookie at_}.

Lemma cookie_cast k : cast I64 (cast U64 (cookie k)) = cookie k.
Proof.
  transitivity (cast I64 (cookie k)); [|apply cast_id, ds_cookie].
  unfold cast. f_equal. cbn. unfold wrapu. by rewrite Z.mod_mod.
Qed.

Lemma call_eq {A} (c : syscall A) s r b :
  sys A c (pt_sys s) = (r, b) -> call sys c s = (r, with_sys s b).
Proof. intros H. unfold call. by rewrite H. Qed.

Lemma with_sys_sys (s : PassthroughFs B) b b' : with_sys (with_sys s b) b' = with_sys s b'.
Proof. done. Qed.

(** Entries [k] to [j]. *)
Definition between (k j : nat) : list dir_entry := take (j - k) (drop k (listing cookie es)).

Lemma between_nil k : between k k = [].
Proof. unfold between. by rewrite Nat.sub_diag. Qed.

Lemma between_cons k j de :
  es !! k = Some de -> (S k <= j)%nat -> between k j = packed cookie k de :: between (S k) j.
Proof.
  intros Hk Hj. unfold between. rewrite (drop_S _ (packed cookie k de)).
  - by replace (j - k)%nat with (S (j - S k)) by lia.
  - unfold listing. by rewrite list_lookup_imap, Hk.
Qed.

(** The loop from entry [k]: it packs the entries that fit, in order, and
    leaves the stream before the first one that did not. *)
Lemma readdir_loop_page fuel k w s :
  at_ (pt_sys s) k -> (k <= length es)%nat -> dw_ok w ->
  zlen (dw_buf w) - dw_pos w < 24 * Z.of_nat fuel ->
  exists j w' b', readdir_loop sys fuel d (cast U64 (cookie k)) w s = (Value tt, w', with_sys s b') /\
    (k <= j <= length es)%nat /\ adds w (between k j) w' /\ at_ b' j /\
    (forall de, es !! j = Some de ->
       zlen (dw_buf w') - dw_pos w' < dirent_padded (packed cookie j de)).
Proof.
  revert k w s. induction fuel as [|fuel IH]; intros k w s Hat Hk Hok Hfuel.
  { destruct Hok as (? & _ & _). lia. }
  cbn [readdir_loop]. destruct (es !! k) as [de|] eqn:Ede.
  2: { assert (k = length es) as -> by (apply lookup_ge_None in Ede; lia).
       destruct (ds_end _ Hat) as (b' & Hr & Hat'). rewrite (call_eq _ _ _ _ Hr).
       exists (length es), w, b'. rewrite between_nil. split; [done|]. split; [lia|].
       split; [constructor|]. split; [done|].
       intros de Hde. congruence. }
  destruct (ds_read _ _ _ Hat Ede) as (b1 & Hr & Hat1). rewrite (call_eq _ _ _ _ Hr).
  destruct (ds_tell b1 _ Hat1) as (b2 & Ht & Hat2).
  rewrite (call_eq _ (with_sys s b1) _ _ Ht), with_sys_sys. fold (packed cookie k de).
  pose proof (add_spec w (packed cookie k de) Hok) as Ha. case_if_in Ha; rewrite Ha.
  - rewrite cookie_cast. destruct (ds_seek b2 (S k) k Hat2 Hk) as (b3 & Hs & Hat3).
    rewrite (call_eq _ (with_sys s b2) _ _ Hs), with_sys_sys.
    exists k, w, b3. rewrite between_nil. split; [done|]. split; [lia|].
    split; [constructor|]. split; [done|].
    intros de' Hde'. simplify_eq. lia.
  - pose proof (dirent_padded_bounds (packed cookie k de)) as (Hp & _ & Hraw).
    pose proof (lookup_lt_Some _ _ _ Ede) as Hlt.
    destruct (add_true_inv _ _ _ Hok Ha) as (Hok1 & Hl1 & _).
    destruct (IH (S k) _ (with_sys s b2) Hat2 Hlt Hok1) as (j & w' & b' & Hloop & Hj & Hadds & Hrest).
    { rewrite Hl1. cbn [dw_pos]. lia. }
    exists j, w', b'. rewrite Hloop, with_sys_sys. split; [done|]. split; [lia|].
    split; [|done]. rewrite (between_cons k j de) by (done || lia). by eapply adds_true.
Qed.

Lemma packed_ok k de : dirent_ok de -> entry_ok (packed cookie k de).
Proof.
  intros (Hi & Ht & Hn). unfold entry_ok. cbn [packed de_ino de_off de_type de_name].
  split; [done|]. split; [apply cast_fits|]. fits_lia.
Qed.

Lemma between_ok k j : Forall dirent_ok es -> Forall entry_ok (between k j).
Proof.
  intros He. apply Forall_take, Forall_drop, Forall_lookup. intros i e Hi.
  unfold listing in Hi. rewrite list_lookup_imap in Hi.
  destruct (es !! i) as [de|] eqn:E; [|discriminate]. injection Hi as <-.
  apply packed_ok. by eapply Forall_lookup_1.
Qed.

Lemma concat_records_length l : 24 * zlen l <= zlen (concat (map dirent_bytes l)).
Proof.
  induction l as [|e l IH]; [done|]. cbn [map concat]. rewrite zlen_app, zlen_dirent_bytes.
  pose proof (dirent_padded_bounds e). rewrite zlen_cons. lia.
Qed.

(** What a reply on a fresh buffer decodes to. *)
Lemma adds_decode size l w' fuel :
  0 <= size < 2 ^ 63 -> Forall entry_ok l ->
  adds (DirentWriter_make (zero_bytes size)) l w' -> size <= Z.of_nat fuel ->
  read_dirents fuel (take (Z.to_nat (bytes_written w')) (dw_buf w')) = Some l.
Proof.
  intros Hs Hl Ha Hf. apply adds_prefix in Ha as (Hok & Hz & Ht).
  - unfold bytes_written. rewrite Ht. cbn [DirentWriter_make dw_pos dw_buf] in *. simpl.
    apply read_dirents_concat; [done|]. pose proof (concat_records_length l) as Hc.
    apply (f_equal zlen) in Ht. simpl in Ht. rewrite <- Ht in Hc.
    destruct Hok as (Hp & _ & _). rewrite zlen_zero_bytes in Hz by lia.
    unfold zlen in *. rewrite length_take in Hc. lia.
  - unfold dw_ok. cbn. rewrite zlen_zero_bytes by lia. split_and!; (done || lia).
Qed.

Lemma readdir_page_core s ctx n fh k j0 size :
  pt_dirs s !! (fh : Z) = Some d -> at_ (pt_sys s) j0 -> (k <= length es)%nat ->
  0 <= size < 2 ^ 63 ->
  exists j w' b',
    pt_readdir sys ctx n fh (cast U64 (cookie k)) (DirentWriter_make (zero_bytes size)) s
      = (Value tt, w', with_sys s b') /\
    (k <= j <= length es)%nat /\
    adds (DirentWriter_make (zero_bytes size)) (between k j) w' /\ at_ b' j /\
    (forall de, es !! j = Some de ->
       size - bytes_written w' < dirent_padded (packed cookie j de)).
Proof.
  intros Hd Hat Hk Hs. unfold pt_readdir. rewrite Hd, cookie_cast.
  destruct (ds_seek _ j0 k Hat Hk) as (b1 & Hsk & Hat1). rewrite (call_eq _ _ _ _ Hsk).
  assert (Hok : dw_ok (DirentWriter_make (zero_bytes size))).
  { unfold dw_ok. cbn. rewrite zlen_zero_bytes by lia. split_and!; (done || lia). }
  edestruct (readdir_loop_page (S (length (zero_bytes size))) k
    (DirentWriter_make (zero_bytes size)) (with_sys s b1)) as (j & w' & b' & Hl & Hj & Ha & Hrest);
    [done|done|done| |].
  { cbn. unfold zlen. lia. }
  exists j, w', b'. cbn [DirentWriter_make dw_buf] in *. rewrite Hl. split; [done|]. split; [done|].
  split; [done|]. split; [apply Hrest|]. intros de Hde. destruct Hrest as [_ Hfit].
  apply Hfit in Hde. apply adds_prefix in Ha as (_ & Hz & _); [|done].
  cbn [DirentWriter_make dw_buf] in Hz. rewrite zlen_zero_bytes in Hz by lia.
  unfold bytes_written. lia.
Qed.

Lemma length_between k j : (j <= length es)%nat -> length (between k j) = (j - k)%nat.
Proof.
  intros Hj. unfold between, listing. rewrite length_take, length_drop, length_imap. lia.
Qed.

Lemma between_last k j :
  (k < j <= length es)%nat -> exists e, last (between k j) = Some e /\ de_off e = cast U64 (cookie j).
Proof.
  intros Hj. destruct j as [|j]; [lia|].
  destruct (lookup_lt_is_Some_2 es j) as [de Hde]; [lia|].
  exists (packed cookie j de). split; [|done]. rewrite last_lookup.
  rewrite length_between by lia. replace (Nat.pred _) with (j - k)%nat by lia.
  unfold between. rewrite lookup_take_lt, lookup_drop by lia.
  replace (k + (j - k))%nat with j by lia. unfold listing. by rewrite list_lookup_imap, Hde.
Qed.

Lemma between_app k j :
  (k <= j)%nat -> between k j ++ drop j (listing cookie es) = drop k (listing cookie es).
Proof.
  intros Hj. unfold between. rewrite <- (take_drop (j - k) (drop k (listing cookie es))) at 2.
  rewrite drop_drop. do 2 f_equal. lia.
Qed.

(** The client from entry [k] on. *)
Lemma list_all_from rounds s ctx n fh k j0 size :
  Forall dirent_ok es -> Forall (fun e => dirent_padded e <= size) (listing cookie es) ->
  0 <= size < 2 ^ 63 ->
  pt_dirs s !! (fh : Z) = Some d -> at_ (pt_sys s) j0 -> (k <= length es)%nat ->
  (length es - k < rounds)%nat ->
  list_all sys rounds ctx n fh size (cast U64 (cookie k)) s = Some (drop k (listing cookie es)).
Proof.
  intros He Hfit Hs. revert s k j0. induction rounds as [|rounds IH]; intros s k j0 Hd Hat Hk Hr; [lia|].
  destruct (readdir_page_core s ctx n fh k j0 size Hd Hat Hk Hs)
    as (j & w' & b' & Hp & Hj & Ha & Hat' & Hfull).
  cbn [list_all]. rewrite Hp, (adds_decode size (between k j)) by (done || lia || by apply between_ok).
  destruct (decide (j = k)) as [->|Hne].
  - rewrite between_nil. simpl. rewrite between_nil in Ha.
    destruct (es !! k) as [de|] eqn:Ede.
    + pose proof (Hfull de eq_refl) as Hnf. exfalso.
      assert (Hpos : bytes_written w' = 0).
      { apply adds_prefix in Ha as (Hok & _ & Ht).
        - apply (f_equal zlen) in Ht. simpl in Ht. destruct Hok as (Hb & _ & _).
          unfold zlen in Ht, Hb. rewrite length_take in Ht. simpl in Ht. unfold bytes_written. lia.
        - unfold dw_ok. cbn. rewrite zlen_zero_bytes by lia. split_and!; (done || lia). }
      eapply (Forall_lookup_1 _ _ k) in Hfit; [|unfold listing; by rewrite list_lookup_imap, Ede].
      cbn beta in Hfit. lia.
    + rewrite drop_ge; [done|]. unfold listing. rewrite length_imap. by apply lookup_ge_None.
  - destruct (between_last k j ltac:(lia)) as (e & -> & ->).
    rewrite (IH (with_sys s b') j j) by (done || lia). simpl. by rewrite between_app by lia.
Qed.
End Listing.

(** ** Theorems *)

(** One READDIR reply of the passthrough daemon. With the offset of an entry
    boundary, wherever the stream stands, the reply decodes to a run of
    directory entries that starts there, it holds as many as fit (the next
    entry's record is longer than the room left), and the stream ends up before
    the first entry that is not in the reply. *)
Theorem readdir_page {B} (sys : forall A, syscall A -> B -> expected A * B) d es cookie at_
    (DS : DirStream sys d es cookie at_) s ctx n fh k j0 size :
  Forall dirent_ok es -> pt_dirs s !! (fh : Z) = Some d -> at_ (pt_sys s) j0 ->
  (k <= length es)%nat -> 0 <= size < 2 ^ 63 ->
  exists j w' b',
    pt_readdir sys ctx n fh (cast U64 (cookie k)) (DirentWriter_make (zero_bytes size)) s
      = (Value tt, w', with_sys s b') /\
    (k <= j <= length es)%nat /\ at_ b' j /\
    read_dirents (Z.to_nat size) (take (Z.to_nat (bytes_written w')) (dw_buf w'))
      = Some (take (j - k) (drop k (listing cookie es))) /\
    (forall de, es !! j = Some de ->
       size - bytes_written w' < dirent_padded (packed cookie j de)).
Proof.
  intros He Hd Hat Hk Hs.
  destruct (readdir_page_core sys d es cookie at_ s ctx n fh k j0 size Hd Hat Hk Hs)
    as (j & w' & b' & Hp & Hj & Ha & Hat' & Hfull).
  exists j, w', b'. split; [done|]. split; [done|]. split; [done|]. split; [|done].
  apply (adds_decode size); [done|by apply between_ok|done|lia].
Qed.

(** C23: listing a directory is complete. A client that reads from offset 0 and
    goes on with the offset of the last entry it got, until a reply is empty,
    obtains every entry of the directory exactly once and in order, provided
    its buffers hold any single entry; it needs at most one READDIR more than
    there are entries. *)
Theorem readdir_lists_all {B} (sys : forall A, syscall A -> B -> expected A * B) d es cookie at_
    (DS : DirStream sys d es cookie at_) s ctx n fh j0 size rounds :
  Forall dirent_ok es -> Forall (fun e => dirent_padded e <= size) (listing cookie es) ->
  0 <= size < 2 ^ 63 -> pt_dirs s !! (fh : Z) = Some d -> at_ (pt_sys s) j0 ->
  (length es < rounds)%nat ->
  list_all sys rounds ctx n fh size 0 s = Some (listing cookie es).
Proof.
  intros He Hfit Hs Hd Hat Hr. replace 0 with (cast U64 (cookie O)) by (by rewrite ds_start).
  apply (list_all_from sys d es cookie at_ rounds s ctx n fh O j0 size); (done || lia).
Qed.

(** ** Witnesses *)

(** A directory of three entries; its stream, number 5, counts in steps of 10. *)
Definition demo_dir : list dirent :=
  [ {| d_name := [Byte.x2e]; d_ino := 2; d_type := 4 |};
    {| d_name := [Byte.x2e; Byte.x2e]; d_ino := 1; d_type := 4 |};
    {| d_name := [Byte.x61; Byte.x62]; d_ino := 9; d_type := 8 |} ].

Definition demo_cookie (k : nat) : Z := if (k <=? 3)%nat then 10 * Z.of_nat k else 30.

Definition demo_dir_sys (A : Type) (c : syscall A) (b : nat) : expected A * nat :=
  match c in syscall A return expected A * nat with
  | SysSeekdir _ off => (Value tt, Z.to_nat (off / 10))
  | SysReaddir _ =>
      match demo_dir !! b with
      | Some de => (Value (Some de), S b)
      | None => (Value None, b)
      end
  | SysTelldir _ => (Value (demo_cookie b), b)
  | _ => (Unexpected ENOSYS, b)
  end.

#[export] Instance demo_dir_stream : DirStream demo_dir_sys 5 demo_dir demo_cookie eq.
Proof.
  split.
  - intros b j k _ Hk. exists k. split; [|done]. simpl. unfold demo_cookie.
    simpl in Hk. destruct (Nat.leb_spec k 3); [|lia]. rewrite Z.mul_comm, Z.div_mul by lia.
    by rewrite Nat2Z.id.
  - intros b k de -> Hk. exists (S k). simpl. by rewrite Hk.
  - intros b ->. by exists 3%nat.
  - intros b k ->. by exists k.
  - intros k. unfold demo_cookie. destruct (Nat.leb_spec k 3); fits_lia.
  - done.
Qed.

Definition demo_reader : PassthroughFs nat := with_dirs (PassthroughFs_make 3 2%nat) {[ 1 := 5 ]} 1.

Lemma demo_dir_ok : Forall dirent_ok demo_dir.
Proof. repeat constructor; vm_compute; congruence. Qed.

(** From the second entry, with room for one. *)
Lemma readdir_page_witness :
  exists j w' b',
    pt_readdir demo_dir_sys demo_ctx 1 1 10 (DirentWriter_make (zero_bytes 40)) demo_reader
      = (Value tt, w', with_sys demo_reader b') /\ b' = j.
Proof.
  destruct (readdir_page demo_dir_sys 5 demo_dir demo_cookie eq _ demo_reader demo_ctx 1 1 1 2 40)
    as (j & w' & b' & Hp & _ & Hat & _).
  - apply demo_dir_ok.
  - reflexivity.
  - reflexivity.
  - vm_compute. lia.
  - lia.
  - exists j, w', b'. split; [exact Hp|exact Hat].
Defined.

Lemma readdir_lists_all_witness :
  list_all demo_dir_sys 4 demo_ctx 1 1 40 0 demo_reader = Some (listing demo_cookie demo_dir).
Proof.
  apply (readdir_lists_all demo_dir_sys 5 demo_dir demo_cookie eq _ demo_reader demo_ctx 1 1 2 40 4).
  - apply demo_dir_ok.
  - repeat constructor; vm_compute; congruence.
  - lia.
  - reflexivity.
  - reflexivity.
  - vm_compute. lia.
Defined.
