(* ===== verification/DaemonTrace.v ===== *)
(** * The trace of the example daemon (examples/passthrough.cpp: trace, usage)

    With FEX_DEBUG set every callback of the daemon prints a line when it is
    entered. [printf] interprets the format strings of the source on arguments
    that carry their C types; a conversion without an argument of its type is
    undefined behaviour in C, and [None] here. The theorems: the formats and the
    arguments of all callbacks agree, each prints exactly one line, and nothing
    is printed without the variable. *)

From S2P Require Import Prelude Memory Pod Abi Types DirentWriter Filesystem Replier Handlers.
From S2P Require Import Callbacks Tracing InodeTable Passthrough.
From Stdlib Require Import Ascii String.
From stdpp Require Import strings pretty.
#[local] Open Scope string_scope.
#[local] Open Scope list_scope.
#[local] Open Scope Z_scope.

(** ** printf *)

(** A variadic argument with its type; a pointer to characters is the bytes from
    there on, as far as they may be read. *)
Inductive arg :=
| Unsigned (n : Z)
| ULongLong (n : Z)
| Size (n : Z)
| Int (n : Z)
| Chars (s : bytes).

(** Digits in base 8 or 16, most significant first, of numbers below 2^64. *)
Fixpoint digits (fuel : nat) (base n : Z) (acc : string) : string :=
  match fuel with
  | O => acc
  | Datatypes.S fuel =>
      let d := Z.to_nat (n mod base) in
      let acc := String (Ascii.ascii_of_nat (if (d <? 10)%nat then 48 + d else 87 + d)) acc in
      if n <? base then acc else digits fuel base (n / base) acc
  end.

Definition octal (n : Z) : string := digits 22 8 n "".
Definition hex (n : Z) : string := digits 16 16 n "".

(** [%.*s]: at most [prec] bytes, up to a NUL; all of the argument must not be
    read if the precision is negative. *)
Definition text (prec : Z) (s : bytes) : option string :=
  if (prec <? 0) || (zlen s <? prec) then None
  else Some (string_of_list_byte (c_str (take (Z.to_nat prec) s))).

Fixpoint printf (fmt : string) (args : list arg) : option string :=
  match fmt with
  | EmptyString => match args with [] => Some "" | _ => None end
  | String "%" (String "l" (String "l" (String "u" fmt))) =>
      match args with ULongLong n :: args => (fun r => pretty n +:+ r) <$> printf fmt args | _ => None end
  | String "%" (String "l" (String "l" (String "x" fmt))) =>
      match args with ULongLong n :: args => (fun r => hex n +:+ r) <$> printf fmt args | _ => None end
  | String "%" (String "z" (String "u" fmt)) =>
      match args with Size n :: args => (fun r => pretty n +:+ r) <$> printf fmt args | _ => None end
  | String "%" (String "u" fmt) =>
      match args with Unsigned n :: args => (fun r => pretty n +:+ r) <$> printf fmt args | _ => None end
  | String "%" (String "o" fmt) =>
      match args with Unsigned n :: args => (fun r => octal n +:+ r) <$> printf fmt args | _ => None end
  | String "%" (String "x" fmt) =>
      match args with Unsigned n :: args => (fun r => hex n +:+ r) <$> printf fmt args | _ => None end
  | String "%" (String "." (String "*" (String "s" fmt))) =>
      match args with
      | Int prec :: Chars s :: args =>
          match text prec s with
          | Some t => (fun r => t +:+ r) <$> printf fmt args
          | None => None
          end
      | _ => None
      end
  | String "%" (String "s" fmt) =>
      match args with
      | Chars s :: args => (fun r => string_of_list_byte (c_str s) +:+ r) <$> printf fmt args
      | _ => None
      end
  | String "%" _ => None
  | String c fmt => (fun r => String c r) <$> printf fmt args
  end.

(** ** trace *)

Definition u64 (n : Z) : arg := ULongLong n.

(** [(int)name.size(), name.data()]. *)
Definition chars_of (name : bytes) : list arg := [Int (cast I32 (zlen name)); Chars name].

(** The variable is read once, when the program starts. *)
Definition kFexDebug (FEX_DEBUG : option string) : bool := debug_enabled FEX_DEBUG.

(** [trace]: without arguments the format is printed as it is. *)
Definition trace_line (debug : bool) (fmt : string) (args : list arg) : option string :=
  if negb debug then Some "" else
  match args with [] => Some fmt | _ => printf fmt args end.

(** The line of each callback; [init] prints in any case. [setstatx] calls
    [statx], which prints its own. *)
Definition traced (debug : bool) (cb : callback) : option string :=
  let trace fmt args := trace_line debug (fmt +:+ newline) args in
  match cb with
  | CbInit i =>
      printf ("fex passthrough: kernel %u.%u flags=0x%llx max_ra=%u" +:+ newline)
        [Unsigned (ii_kernel_major i); Unsigned (ii_kernel_minor i); ULongLong (ii_kernel_flags i);
         Unsigned (ii_max_readahead i)]
  | CbDestroy => Some ""
  | CbLookupRoot _ => trace "[fex] lookup_root" []
  | CbLookupx _ parent name => trace "[fex] lookupx parent=%llu name=%.*s" (u64 parent :: chars_of name)
  | CbForget n nlookup => trace "[fex] forget node=%llu n=%llu" [u64 n; ULongLong nlookup]
  | CbForgetMulti items => trace "[fex] batch_forget count=%zu" [Size (zlen items)]
  | CbStatx _ n => trace "[fex] statx node=%llu" [u64 n]
  | CbSetstatx _ n fh i =>
      trace "[fex] setstatx node=%llu fh=%llu mask=0x%x mode=0%o size=%llu"
        [u64 n; u64 fh; Unsigned (si_mask i); Unsigned (si_mode i); ULongLong (si_size i)]
  | CbMkobjx _ parent mi =>
      trace "[fex] mkobjx parent=%llu mode=0%o flags=0x%x name=%.*s"
        (u64 parent :: Unsigned (so_mode (mi_stat mi)) :: Unsigned (mi_flags mi) :: chars_of (mi_name mi))
  | CbUnlink _ parent name => trace "[fex] unlink parent=%llu name=%.*s" (u64 parent :: chars_of name)
  | CbRmdir _ parent name => trace "[fex] rmdir parent=%llu name=%.*s" (u64 parent :: chars_of name)
  | CbRename _ od on nd nn flags =>
      trace "[fex] rename %llu/%.*s -> %llu/%.*s flags=0x%x"
        (u64 od :: chars_of on ++ u64 nd :: chars_of nn ++ [Unsigned flags])
  | CbLink _ old newparent newname =>
      trace "[fex] link old=%llu newparent=%llu name=%.*s" (u64 old :: u64 newparent :: chars_of newname)
  | CbReadlink _ n => trace "[fex] readlink node=%llu" [u64 n]
  | CbOpen _ n flags => trace "[fex] open node=%llu flags=0x%x" [u64 n; Unsigned flags]
  | CbRelease _ n fh flags =>
      trace "[fex] release node=%llu fh=%llu flags=0x%x" [u64 n; u64 fh; Unsigned flags]
  | CbRead _ n fh off out =>
      trace "[fex] read node=%llu fh=%llu off=%llu size=%zu" [u64 n; u64 fh; ULongLong off; Size (zlen out)]
  | CbWrite _ n fh off data =>
      trace "[fex] write node=%llu fh=%llu off=%llu size=%zu" [u64 n; u64 fh; ULongLong off; Size (zlen data)]
  | CbFallocate _ n fh mode off len =>
      trace "[fex] fallocate node=%llu fh=%llu mode=0x%x off=%llu len=%llu"
        [u64 n; u64 fh; Unsigned mode; ULongLong off; ULongLong len]
  | CbStatfs _ n => trace "[fex] statfs node=%llu" [u64 n]
  | CbOpendir _ n => trace "[fex] opendir node=%llu" [u64 n]
  | CbReleasedir _ n fh => trace "[fex] releasedir node=%llu fh=%llu" [u64 n; u64 fh]
  | CbReaddir _ n fh off _ =>
      trace "[fex] readdir node=%llu fh=%llu off=%llu" [u64 n; u64 fh; ULongLong off]
  | CbGetxattr _ n name out =>
      trace "[fex] getxattr node=%llu name=%.*s size=%zu" (u64 n :: chars_of name ++ [Size (zlen out)])
  | CbSetxattr _ n name value flags =>
      trace "[fex] setxattr node=%llu name=%.*s vsize=%zu flags=0x%x"
        (u64 n :: chars_of name ++ [Size (zlen value); Unsigned flags])
  | CbListxattr _ n out => trace "[fex] listxattr node=%llu size=%zu" [u64 n; Size (zlen out)]
  | CbRemovexattr _ n name => trace "[fex] removexattr node=%llu name=%.*s" (u64 n :: chars_of name)
  end.

(** ** usage *)

Definition lines (l : list string) : string := foldr (fun x r => x +:+ newline +:+ r) "" l.

Definition usage (argv0 : bytes) : option string :=
  printf (lines
    ["usage: %s [-f|--foreground] [--source NAME] <backing_dir> <mountpoint>";
     "";
     "Mounts a fusex filesystem at <mountpoint> that mirrors the";
     "contents of <backing_dir>. Requires the fusex kernel module to";
     "be loaded.";
     "";
     "  -f, --foreground   stay in foreground (do not daemonize)";
     "  --source NAME      override the SOURCE field in /proc/mounts";
     "                     (default: realpath(<backing_dir>)). Lets a";
     "                     mount(8) helper preserve the device-arg the";
     "                     caller used, matching libfuse passthrough_ll.";
     "  -h, --help         this help";
     "";
     "Default is to fork into the background once the mount is live,";
     "so the command can be used from /etc/fstab or as a mount helper."]) [Chars argv0].

(** ** Formats and arguments agree *)

(** The names a callback prints. *)
Definition names_of (cb : callback) : list bytes :=
  match cb with
  | CbLookupx _ _ name | CbUnlink _ _ name | CbRmdir _ _ name | CbLink _ _ _ name
  | CbGetxattr _ _ name _ | CbSetxattr _ _ name _ _ | CbRemovexattr _ _ name => [name]
  | CbMkobjx _ _ mi => [mi_name mi]
  | CbRename _ _ on _ nn _ => [on; nn]
  | _ => []
  end.

Lemma text_name name :
  zlen name < 2 ^ 31 -> text (cast I32 (zlen name)) name = Some (string_of_list_byte (c_str name)).
Proof.
  intros H. pose proof (zlen_nonneg name). unfold text. rewrite cast_id by fits_lia.
  replace (zlen name <? 0) with false by lia. rewrite Z.ltb_irrefl. cbn [orb].
  by rewrite take_ge by (unfold zlen; lia).
Qed.

Definition ends_line (s : string) : Prop := exists l, s = l +:+ newline.

Lemma ends_newline : ends_line newline.
Proof. by exists "". Qed.

Lemma ends_cons c s : ends_line s -> ends_line (String c s).
Proof. intros [l ->]. by exists (String c l). Qed.

Lemma ends_app a s : ends_line s -> ends_line (a +:+ s).
Proof. intros H. induction a as [|c a IH]; [done|]. by apply ends_cons. Qed.

Create HintDb line.
#[local] Hint Resolve ends_newline ends_cons ends_app : line.

(** A format on its arguments, up to the conversions. *)
Ltac print_line :=
  unfold chars_of, u64; cbn [app];
  change newline with (String "010"%char "");
  lazy beta iota zeta delta [printf String.append fmap option_fmap option_map];
  rewrite ?text_name by assumption;
  lazy beta iota zeta delta [printf String.append fmap option_fmap option_map].

(** With the variable set each callback prints a line, and without it only [init]
    does; no conversion lacks an argument of its type. *)
Theorem traces_agree debug cb :
  Forall (fun name => zlen name < 2 ^ 31) (names_of cb) ->
  exists line, traced debug cb = Some line /\
    match cb with
    | CbInit _ => ends_line line
    | CbDestroy => line = ""
    | _ => if debug then ends_line line else line = ""
    end.
Proof.
  intros Hn. destruct debug; destruct cb; cbn [names_of] in Hn;
    rewrite ?Forall_cons in Hn; destruct_and?; cbn [traced trace_line negb].
  all: try print_line; eexists; (split; [reflexivity|]); first [reflexivity | auto 200 with line nocore].
Qed.

Theorem usage_prints argv0 : exists t, usage argv0 = Some t /\ ends_line t.
Proof.
  unfold usage, lines. cbn [foldr]. print_line. eexists. split; [reflexivity|].
  auto 2000 with line nocore.
Qed.

(** Two lines of a session. *)
Example traced_lookupx :
  traced true (CbLookupx {| ctx_uid := 0; ctx_gid := 0; ctx_pid := 0; ctx_nodeid := NodeId_root; ctx_unique := 0 |}
    NodeId_root (list_byte_of_string "a")) = Some ("[fex] lookupx parent=1 name=a" +:+ newline) /\
  traced true (CbOpen {| ctx_uid := 0; ctx_gid := 0; ctx_pid := 0; ctx_nodeid := NodeId_root; ctx_unique := 0 |}
    42 0x8001) = Some ("[fex] open node=42 flags=0x8001" +:+ newline).
Proof. by vm_compute. Qed.
