(* ===== verification/Backing.v ===== *)
(** * The backing filesystem below its descriptors

    The passthrough daemon names files by descriptors. Here is the same
    filesystem without them: an [objcall] is a system call on the places
    descriptors stand for (a file as [openat] found it, an open file, a
    directory stream), and [osys] what it does to the files. [Descriptors]
    states what the manual pages say of descriptors: a call on an open
    descriptor is the call on its place, and so is a call on its link in
    /proc/self/fd (which then follows the link, or is about the link); opening
    yields a descriptor that was free; closing forgets it and changes no file.
    The descriptor table is taken to be large enough. *)

From S2P Require Import Prelude Memory Pod Abi Types DirentWriter Filesystem Replier Handlers.
From S2P Require Import InodeTable Passthrough.
From stdpp Require Import gmap.
#[local] Open Scope Z_scope.

(** ** Calls on places *)

Section Objects.
Context {P D : Type}.

(** The calls of [syscall] but for [close] and [closedir]. A path
    [/proc/self/fd/<fd>] is a symbolic link to the place of the descriptor:
    [open], [chmod], [truncate] and [utimensat] follow it and work on the place;
    [lchown] and the [l*xattr] calls do not, and work on the link of the place. *)
Inductive objcall : Type -> Type :=
| ObjOpenat (dir : P) (name : bytes) (flags mode : Z) : objcall P
| ObjOpen (p : P) (flags : Z) : objcall P
| ObjFstatat (p : P) : objcall stat
| ObjFstat (p : P) : objcall stat
| ObjFchmod (p : P) (mode : Z) : objcall unit
| ObjChmod (p : P) (mode : Z) : objcall unit
| ObjFchown (p : P) (uid gid : Z) : objcall unit
| ObjLchown (p : P) (uid gid : Z) : objcall unit
| ObjFtruncate (p : P) (size : Z) : objcall unit
| ObjTruncate (p : P) (size : Z) : objcall unit
| ObjFutimens (p : P) (atime mtime : timespec) : objcall unit
| ObjUtimensat (p : P) (atime mtime : timespec) : objcall unit
| ObjMknodat (dir : P) (name : bytes) (mode dev : Z) : objcall unit
| ObjMkdirat (dir : P) (name : bytes) (mode : Z) : objcall unit
| ObjSymlinkat (target : bytes) (dir : P) (name : bytes) : objcall unit
| ObjFchownat (dir : P) (name : bytes) (uid gid : Z) : objcall unit
| ObjUnlinkat (dir : P) (name : bytes) (flags : Z) : objcall unit
| ObjRenameat2 (olddir : P) (old : bytes) (newdir : P) (new : bytes) (flags : Z) : objcall unit
| ObjLinkat (p newdir : P) (name : bytes) : objcall unit
| ObjReadlinkat (p : P) (size : Z) : objcall bytes
| ObjPread (p : P) (count offset : Z) : objcall bytes
| ObjPwrite (p : P) (data : bytes) (offset : Z) : objcall Z
| ObjFstatvfs (p : P) : objcall statvfs
| ObjFallocate (p : P) (mode offset len : Z) : objcall unit
| ObjFdopendir (p : P) : objcall D
| ObjSeekdir (d : D) (off : Z) : objcall unit
| ObjTelldir (d : D) : objcall Z
| ObjReaddir (d : D) : objcall (option dirent)
| ObjLgetxattr (p : P) (name : bytes) (size : Z) : objcall (Z * bytes)
| ObjLsetxattr (p : P) (name value : bytes) (flags : Z) : objcall unit
| ObjLlistxattr (p : P) (size : Z) : objcall (Z * bytes)
| ObjLremovexattr (p : P) (name : bytes) : objcall unit.

(** The calls that work on a link. *)
Definition on_link {A} (c : objcall A) : bool :=
  match c with
  | ObjLchown _ _ _ | ObjLgetxattr _ _ _ | ObjLsetxattr _ _ _ _ | ObjLlistxattr _ _
  | ObjLremovexattr _ _ => true
  | _ => false
  end.

(** The place a path is the link of. *)
Definition at_path (fds : gmap Z P) (p : path) : option P := let 'ProcFd fd := p in fds !! fd.

(** A call that neither opens nor closes, on the places of its descriptors;
    [None] if one is not open. *)
Definition translate (fds : gmap Z P) (dirs : gmap Z D) {A} (c : syscall A) : option (objcall A) :=
  match c in syscall A return option (objcall A) with
  | SysFstatat fd => ObjFstatat <$> fds !! fd
  | SysFstat fd => ObjFstat <$> fds !! fd
  | SysFchmod fd mode => (fun p => ObjFchmod p mode) <$> fds !! fd
  | SysChmod pa mode => (fun p => ObjChmod p mode) <$> at_path fds pa
  | SysFchown fd uid gid => (fun p => ObjFchown p uid gid) <$> fds !! fd
  | SysLchown pa uid gid => (fun p => ObjLchown p uid gid) <$> at_path fds pa
  | SysFtruncate fd size => (fun p => ObjFtruncate p size) <$> fds !! fd
  | SysTruncate pa size => (fun p => ObjTruncate p size) <$> at_path fds pa
  | SysFutimens fd a m => (fun p => ObjFutimens p a m) <$> fds !! fd
  | SysUtimensat pa a m => (fun p => ObjUtimensat p a m) <$> at_path fds pa
  | SysMknodat fd name mode dev => (fun p => ObjMknodat p name mode dev) <$> fds !! fd
  | SysMkdirat fd name mode => (fun p => ObjMkdirat p name mode) <$> fds !! fd
  | SysSymlinkat target fd name => (fun p => ObjSymlinkat target p name) <$> fds !! fd
  | SysFchownat fd name uid gid => (fun p => ObjFchownat p name uid gid) <$> fds !! fd
  | SysUnlinkat fd name flags => (fun p => ObjUnlinkat p name flags) <$> fds !! fd
  | SysRenameat2 fd old fd' new flags =>
      match fds !! fd, fds !! fd' with
      | Some p, Some p' => Some (ObjRenameat2 p old p' new flags)
      | _, _ => None
      end
  | SysLinkat fd fd' name =>
      match fds !! fd, fds !! fd' with Some p, Some p' => Some (ObjLinkat p p' name) | _, _ => None end
  | SysReadlinkat fd size => (fun p => ObjReadlinkat p size) <$> fds !! fd
  | SysPread fd count off => (fun p => ObjPread p count off) <$> fds !! fd
  | SysPwrite fd data off => (fun p => ObjPwrite p data off) <$> fds !! fd
  | SysFstatvfs fd => ObjFstatvfs <$> fds !! fd
  | SysFallocate fd mode off len => (fun p => ObjFallocate p mode off len) <$> fds !! fd
  | SysSeekdir d off => (fun s => ObjSeekdir s off) <$> dirs !! d
  | SysTelldir d => ObjTelldir <$> dirs !! d
  | SysReaddir d => ObjReaddir <$> dirs !! d
  | SysLgetxattr pa name size => (fun p => ObjLgetxattr p name size) <$> at_path fds pa
  | SysLsetxattr pa name value flags => (fun p => ObjLsetxattr p name value flags) <$> at_path fds pa
  | SysLlistxattr pa size => (fun p => ObjLlistxattr p size) <$> at_path fds pa
  | SysLremovexattr pa name => (fun p => ObjLremovexattr p name) <$> at_path fds pa
  | SysOpenat _ _ _ _ | SysOpen _ _ | SysClose _ | SysFdopendir _ | SysClosedir _ => None
  end.

(** More open descriptors do not change what a call is. *)
Lemma translate_mono (fds fds' : gmap Z P) (dirs dirs' : gmap Z D) {A} (c : syscall A) oc :
  fds ⊆ fds' -> dirs ⊆ dirs' -> translate fds dirs c = Some oc -> translate fds' dirs' c = Some oc.
Proof.
  intros Hf Hd.
  assert (Hl : forall i p, fds !! i = Some p -> fds' !! i = Some p) by (intros; by eapply lookup_weaken).
  assert (Hs : forall i p, dirs !! i = Some p -> dirs' !! i = Some p) by (intros; by eapply lookup_weaken).
  destruct c; cbn [translate]; try destruct p as [?]; cbn [at_path]; try done;
    repeat match goal with
    | |- context [fds !! ?i] => let E := fresh in destruct (fds !! i) eqn:E; [apply Hl in E; rewrite E|done]
    | |- context [dirs !! ?i] => let E := fresh in destruct (dirs !! i) eqn:E; [apply Hs in E; rewrite E|done]
    end; done.
Qed.
End Objects.
Arguments objcall P D : clear implicits.

(** ** Descriptors *)

Section Descriptors.
Context {B F P D : Type}.
Context (sys : forall A, syscall A -> B -> expected A * B).
Context (osys : forall A, objcall P D A -> F -> expected A * F).

(** What the process sees of the system [b]: the files, and the tables of its
    open descriptors and streams. *)
Record view := {
  vw_files : F;
  vw_fds : gmap Z P;
  vw_dirs : gmap Z D;
}.

(** A call that opens: the call on the place decides; if it succeeds the place
    gets a descriptor that was free. *)
Definition opens (see : B -> view) (oc : objcall P D P) (b : B) (x : expected Z * B) : Prop :=
  let '(r, b') := x in
  let '(ro, f) := osys P oc (vw_files (see b)) in
  vw_files (see b') = f /\ vw_dirs (see b') = vw_dirs (see b) /\
  match ro with
  | Value p => exists fd, r = Value fd /\ 0 <= fd /\ vw_fds (see b) !! fd = None /\
      vw_fds (see b') = <[fd := p]> (vw_fds (see b))
  | Unexpected e => r = Unexpected e /\ vw_fds (see b') = vw_fds (see b)
  end.

(** The manual pages, for a process that has not reached its limit of descriptors
    and whose closes do not fail. *)
Class Descriptors (see : B -> view) : Prop := {
  call_on_place : forall A (c : syscall A) oc b r b',
    translate (vw_fds (see b)) (vw_dirs (see b)) c = Some oc -> sys A c b = (r, b') ->
    osys A oc (vw_files (see b)) = (r, vw_files (see b')) /\
    vw_fds (see b') = vw_fds (see b) /\ vw_dirs (see b') = vw_dirs (see b);
  openat_place : forall fd p name flags mode b, vw_fds (see b) !! fd = Some p ->
    opens see (ObjOpenat p name flags mode) b (sys _ (SysOpenat fd name flags mode) b);
  open_place : forall fd p flags b, vw_fds (see b) !! fd = Some p ->
    opens see (ObjOpen p flags) b (sys _ (SysOpen (ProcFd fd) flags) b);
  close_place : forall fd p b, vw_fds (see b) !! fd = Some p ->
    exists b', sys _ (SysClose fd) b = (Value tt, b') /\
      see b' = {| vw_files := vw_files (see b); vw_fds := delete fd (vw_fds (see b));
                  vw_dirs := vw_dirs (see b) |};
  fdopendir_place : forall fd p b r b', vw_fds (see b) !! fd = Some p ->
    sys _ (SysFdopendir fd) b = (r, b') ->
    let '(ro, f) := osys _ (ObjFdopendir p) (vw_files (see b)) in
    match ro with
    | Value s => exists d, r = Value d /\ vw_dirs (see b) !! d = None /\
        see b' = {| vw_files := f; vw_fds := delete fd (vw_fds (see b));
                    vw_dirs := <[d := s]> (vw_dirs (see b)) |}
    | Unexpected e => r = Unexpected e /\
        see b' = {| vw_files := f; vw_fds := vw_fds (see b); vw_dirs := vw_dirs (see b) |}
    end;
  closedir_place : forall d s b r b', vw_dirs (see b) !! d = Some s ->
    sys _ (SysClosedir d) b = (r, b') ->
    see b' = {| vw_files := vw_files (see b); vw_fds := vw_fds (see b);
                vw_dirs := delete d (vw_dirs (see b)) |};
}.
End Descriptors.
Arguments view F P D : clear implicits.
Arguments call_on_place {B F P D sys osys see _} A c oc b r b' _ _.
Arguments openat_place {B F P D sys osys see _} fd p name flags mode b _.
Arguments open_place {B F P D sys osys see _} fd p flags b _.
Arguments close_place {B F P D sys osys see _} fd p b _.
Arguments fdopendir_place {B F P D sys osys see _} fd p b r b' _ _.
Arguments closedir_place {B F P D sys osys see _} d s b r b' _ _.

(** ** A process's tables over any filesystem *)

(** Descriptors as a process has them over the files of [osys]: places by
    number, new numbers past all others. *)
Section Table.
Context {F P D : Type} (osys : forall A, objcall P D A -> F -> expected A * F).

Definition fresh_key {V} (t : gmap Z V) : Z := map_fold (fun k _ n => Z.max n (k + 1)) 3 t.

Definition with_files_of (b : view F P D) (f : F) : view F P D :=
  {| vw_files := f; vw_fds := vw_fds b; vw_dirs := vw_dirs b |}.

Definition open_with (oc : objcall P D P) (b : view F P D) : expected Z * view F P D :=
  let '(r, f) := osys P oc (vw_files b) in
  match r with
  | Value p =>
      let fd := fresh_key (vw_fds b) in
      (Value fd, {| vw_files := f; vw_fds := <[fd := p]> (vw_fds b); vw_dirs := vw_dirs b |})
  | Unexpected e => (Unexpected e, with_files_of b f)
  end.

Definition table_sys (A : Type) (c : syscall A) (b : view F P D) : expected A * view F P D :=
  match translate (vw_fds b) (vw_dirs b) c with
  | Some oc => let '(r, f) := osys A oc (vw_files b) in (r, with_files_of b f)
  | None =>
      match c in syscall A return expected A * view F P D with
      | SysOpenat fd name flags mode =>
          match vw_fds b !! fd with
          | Some p => open_with (ObjOpenat p name flags mode) b
          | None => (Unexpected EBADF, b)
          end
      | SysOpen p flags =>
          match at_path (vw_fds b) p with
          | Some p => open_with (ObjOpen p flags) b
          | None => (Unexpected ENOENT, b)
          end
      | SysClose fd =>
          match vw_fds b !! fd with
          | Some _ => (Value tt, {| vw_files := vw_files b; vw_fds := delete fd (vw_fds b);
                                    vw_dirs := vw_dirs b |})
          | None => (Unexpected EBADF, b)
          end
      | SysFdopendir fd =>
          match vw_fds b !! fd with
          | Some p =>
              let '(r, f) := osys D (ObjFdopendir p) (vw_files b) in
              match r with
              | Value s =>
                  let d := fresh_key (vw_dirs b) in
                  (Value d, {| vw_files := f; vw_fds := delete fd (vw_fds b);
                               vw_dirs := <[d := s]> (vw_dirs b) |})
              | Unexpected e => (Unexpected e, with_files_of b f)
              end
          | None => (Unexpected EBADF, b)
          end
      | SysClosedir d =>
          (Value tt, {| vw_files := vw_files b; vw_fds := vw_fds b; vw_dirs := delete d (vw_dirs b) |})
      | _ => (Unexpected EBADF, b)
      end
  end.

Lemma fresh_key_bound {V} (t : gmap Z V) :
  3 <= fresh_key t /\ forall k v, t !! k = Some v -> k < fresh_key t.
Proof.
  unfold fresh_key. apply (map_fold_weak_ind (fun n t => 3 <= n /\ forall k v, t !! k = Some v -> k < n)).
  - split; [done|]. intros k v H. by rewrite lookup_empty in H.
  - intros i x m r Hi [H3 IH]. split; [lia|]. intros k v [[<- _]|[_ Hk]]%lookup_insert_Some; [lia|].
    specialize (IH k v Hk). lia.
Qed.

Lemma fresh_key_free {V} (t : gmap Z V) : t !! fresh_key t = None.
Proof.
  destruct (t !! fresh_key t) as [v|] eqn:E; [|done].
  apply (proj2 (fresh_key_bound t)) in E. lia.
Qed.

Lemma open_with_opens oc b : opens osys (fun b => b) oc b (open_with oc b).
Proof.
  unfold opens, open_with. destruct (osys P oc _) as [[p|e] f]; [|done].
  split; [done|]. split; [done|]. exists (fresh_key (vw_fds b)).
  destruct (fresh_key_bound (vw_fds b)). split; [done|]. split; [lia|].
  split; [apply fresh_key_free|done].
Qed.

#[export] Instance table_descriptors : Descriptors table_sys osys (fun b => b).
Proof.
  split.
  - intros A c oc b r b' Ht Hs. unfold table_sys in Hs. rewrite Ht in Hs.
    destruct (osys A oc _) as [r0 f]. by injection Hs as <- <-.
  - intros fd p name flags mode b Hp. unfold table_sys. cbn [translate]. rewrite Hp.
    apply open_with_opens.
  - intros fd p flags b Hp. unfold table_sys. cbn [translate at_path]. rewrite Hp.
    apply open_with_opens.
  - intros fd p b Hp. unfold table_sys. cbn [translate]. rewrite Hp. by eexists.
  - intros fd p b r b' Hp Hs. unfold table_sys in Hs. cbn [translate] in Hs. rewrite Hp in Hs.
    destruct (osys D _ _) as [[s|e] f]; injection Hs as <- <-; [|done].
    exists (fresh_key (vw_dirs b)). split; [done|]. split; [apply fresh_key_free|done].
  - intros d s b r b' Hd Hs. unfold table_sys in Hs. cbn [translate] in Hs. by injection Hs as <- <-.
Qed.
End Table.

(** ** An example *)

(** The bytes [d] at offset [off] of a file, with zeros up to there. *)
Definition overwrite (c : bytes) (off : Z) (d : bytes) : bytes :=
  take (Z.to_nat off) c ++ replicate (Z.to_nat off - length c) Byte.x00 ++ d ++
  drop (Z.to_nat off + length d) c.

(** A small filesystem in memory: names in directories, contents of files and
    the next free number; files are their own places, with even inode numbers.
    Calls that no example makes are refused. *)
Record toy := {
  toy_names : list (Z * bytes * Z);
  toy_data : gmap Z bytes;
  toy_next : Z;
}.

Definition EEXIST : Z := 17.

Definition toy_find (l : list (Z * bytes * Z)) (d : Z) (name : bytes) : expected Z :=
  match head (filter (fun x => fst x = (d, name)) l) with
  | Some (_, i) => Value i
  | None => Unexpected ENOENT
  end.

Definition toy_resolve (f : toy) (d : Z) (name : bytes) : expected Z := toy_find (toy_names f) d name.

Definition toy_remove (d : Z) (name : bytes) (l : list (Z * bytes * Z)) : list (Z * bytes * Z) :=
  filter (fun x => fst x <> (d, name)) l.

Definition toy_content (f : toy) (i : Z) : bytes := default [] (toy_data f !! i).

Definition set_names (f : toy) (l : list (Z * bytes * Z)) (next : Z) : toy :=
  {| toy_names := l; toy_data := toy_data f; toy_next := next |}.

Definition toy_stat (f : toy) (p : Z) : stat := {|
  st_dev := 0; st_ino := 100 + 2 * p; st_mode := 0x81a4; st_nlink := 1; st_uid := 0; st_gid := 0;
  st_rdev := 0; st_size := zlen (toy_content f p); st_blksize := 4096; st_blocks := 0;
  st_atim := {| tv_sec := 0; tv_nsec := 0 |}; st_mtim := {| tv_sec := 0; tv_nsec := 0 |};
  st_ctim := {| tv_sec := 0; tv_nsec := 0 |} |}.

(** A name for the file [i], if it is free. *)
Definition toy_add (f : toy) (d : Z) (name : bytes) (i next : Z) : expected unit * toy :=
  match toy_resolve f d name with
  | Value _ => (Unexpected EEXIST, f)
  | Unexpected _ => (Value tt, set_names f ((d, name, i) :: toy_names f) next)
  end.

Definition toy_osys (A : Type) (c : objcall Z Z A) (f : toy) : expected A * toy :=
  match c in objcall _ _ A return expected A * toy with
  | ObjOpenat d name _ _ => (toy_resolve f d name, f)
  | ObjOpen p _ => (Value p, f)
  | ObjFstatat p | ObjFstat p => (Value (toy_stat f p), f)
  | ObjMknodat d name _ _ => toy_add f d name (toy_next f) (toy_next f + 1)
  | ObjFchownat _ _ _ _ => (Value tt, f)
  | ObjSymlinkat t d name =>
      if 4096 <=? zlen t then (Unexpected EINVAL, f) else
      let '(r, f') := toy_add f d name (toy_next f) (toy_next f + 1) in
      match r with
      | Value _ => (r, {| toy_names := toy_names f'; toy_next := toy_next f';
                          toy_data := <[toy_next f := t]> (toy_data f') |})
      | Unexpected _ => (r, f)
      end
  | ObjReadlinkat p size => (Value (take (Z.to_nat size) (toy_content f p)), f)
  | ObjLinkat p d name => toy_add f d name p (toy_next f)
  | ObjUnlinkat d name _ =>
      match toy_resolve f d name with
      | Value _ => (Value tt, set_names f (toy_remove d name (toy_names f)) (toy_next f))
      | Unexpected e => (Unexpected e, f)
      end
  | ObjRenameat2 d old d' new flags =>
      match toy_resolve f d old with
      | Value i =>
          if flags =? 0
          then (Value tt, set_names f ((d', new, i) :: toy_remove d' new (toy_remove d old (toy_names f)))
                            (toy_next f))
          else (Unexpected EINVAL, f)
      | Unexpected e => (Unexpected e, f)
      end
  | ObjPread p n off => (Value (take (Z.to_nat n) (drop (Z.to_nat off) (toy_content f p))), f)
  | ObjPwrite p data off =>
      (Value (zlen data), {| toy_names := toy_names f; toy_next := toy_next f;
         toy_data := <[p := overwrite (toy_content f p) off data]> (toy_data f) |})
  | _ => (Unexpected EPERM, f)
  end.

(** A directory 0 with a directory [a] with a file [b] of contents [x]. *)
Definition toy_files : toy := {|
  toy_names := [(0, [Byte.x61], 1); (1, [Byte.x62], 2)]; toy_data := {[ 2 := [Byte.x78] ]};
  toy_next := 3 |}.

(** A process with the directory open as descriptor 5. *)
Definition toy_process : view toy Z Z :=
  {| vw_files := toy_files; vw_fds := {[ 5 := 0 ]}; vw_dirs := ∅ |}.
