(* ===== verification/MirrorSpec.v ===== *)
(** * What the passthrough daemon promises

    A daemon that shows a backing filesystem without descriptors: its nodes,
    open files and open directories are places of that filesystem, each callback
    is a call on them, and there is nothing to close. Mirror.v shows that the
    passthrough daemon, with its tables of descriptors, cannot be told apart from
    it. *)

From S2P Require Import Prelude Memory Pod Abi Types DirentWriter Filesystem Replier Handlers.
From S2P Require Import InodeTable Passthrough Backing.
From stdpp Require Import gmap.
#[local] Open Scope Z_scope.

(** ** State *)

(** A node is its place and the number of lookups the kernel has to forget. *)
Record mirror (F P D : Type) := {
  mr_nodes : gmap Z (P * Z);
  mr_files : gmap Z P;
  mr_file_id : Z;
  mr_dirs : gmap Z D;
  mr_dir_id : Z;
  mr_backing : F;
}.
Arguments mr_nodes {F P D} _.
Arguments mr_files {F P D} _.
Arguments mr_file_id {F P D} _.
Arguments mr_dirs {F P D} _.
Arguments mr_dir_id {F P D} _.
Arguments mr_backing {F P D} _.

Section Mirror.
Context {F P D : Type} (osys : forall A, objcall P D A -> F -> expected A * F).
#[local] Abbreviation mirror := (mirror F P D).

Definition mirror_make (root : P) (f : F) : mirror := {|
  mr_nodes := {[ (NodeId_root : Z) := (root, 1) ]}; mr_files := ∅; mr_file_id := 0; mr_dirs := ∅;
  mr_dir_id := 0; mr_backing := f |}.

Definition set_nodes (m : mirror) (t : gmap Z (P * Z)) : mirror := {|
  mr_nodes := t; mr_files := mr_files m; mr_file_id := mr_file_id m; mr_dirs := mr_dirs m;
  mr_dir_id := mr_dir_id m; mr_backing := mr_backing m |}.

Definition set_files (m : mirror) (t : gmap Z P) (id : Z) : mirror := {|
  mr_nodes := mr_nodes m; mr_files := t; mr_file_id := id; mr_dirs := mr_dirs m;
  mr_dir_id := mr_dir_id m; mr_backing := mr_backing m |}.

Definition set_dirs (m : mirror) (t : gmap Z D) (id : Z) : mirror := {|
  mr_nodes := mr_nodes m; mr_files := mr_files m; mr_file_id := mr_file_id m; mr_dirs := t;
  mr_dir_id := id; mr_backing := mr_backing m |}.

Definition set_backing (m : mirror) (f : F) : mirror := {|
  mr_nodes := mr_nodes m; mr_files := mr_files m; mr_file_id := mr_file_id m;
  mr_dirs := mr_dirs m; mr_dir_id := mr_dir_id m; mr_backing := f |}.

(** ** Steps *)

Definition mirror_op (A : Type) : Type := mirror -> expected A * mirror.

Definition nret {A} (a : A) : mirror_op A := fun m => (Value a, m).
Definition nfail {A} (e : Errc) : mirror_op A := fun m => (Unexpected e, m).
Definition nbind {A C} (x : mirror_op A) (k : A -> mirror_op C) : mirror_op C := fun m =>
  let '(r, m) := x m in
  match r with
  | Value a => k a m
  | Unexpected e => (Unexpected e, m)
  end.
Definition ntry {A C} (x : mirror_op A) (k : expected A -> mirror_op C) : mirror_op C := fun m =>
  let '(r, m) := x m in k r m.

#[local] Notation "'see' x ':=' e 'in' k" := (nbind e (fun x => k))
  (at level 10, x pattern, e at level 200, k at level 200).

(** A call on the backing filesystem. *)
Definition on {A} (c : objcall P D A) : mirror_op A := fun m =>
  let '(r, f) := osys A c (mr_backing m) in (r, set_backing m f).

Definition place (n : NodeId) : mirror_op P := fun m =>
  match mr_nodes m !! (n : Z) with
  | Some (p, _) => (Value p, m)
  | None => (Unexpected ESTALE, m)
  end.

(** A place found in the backing filesystem is a node under its inode number;
    if there is such a node already it is looked up once more. *)
Definition remember (p : P) (st_ino : Z) : mirror_op NodeId := fun m =>
  let '(q, k) := default (p, 0) (mr_nodes m !! st_ino) in
  (Value (st_ino : NodeId), set_nodes m (<[st_ino := (q, wrapu 64 (k + 1))]> (mr_nodes m))).

Definition find_node (dir : P) (name : bytes) : mirror_op NodeId :=
  see p := on (ObjOpenat dir name (Z.lor (Z.lor O_PATH O_NOFOLLOW) O_CLOEXEC) 0) in
  see st := on (ObjFstatat p) in
  remember p (st_ino st).

(** Lookups taken back; the root stays. *)
Definition forget_lookups (t : gmap Z (P * Z)) (n : NodeId) (count : Z) : gmap Z (P * Z) :=
  if n =? NodeId_root then t else
  match t !! (n : Z) with
  | Some (p, k) => if k - count <=? 0 then delete (n : Z) t else <[(n : Z) := (p, k - count)]> t
  | None => t
  end.

Definition open_file (m : mirror) (fh : FileHandle) : option P :=
  if fh =? 0 then None else mr_files m !! (fh : Z).

(** The place for I/O: the open file, or the node opened for the occasion. *)
Definition io_place (n : NodeId) (fh : FileHandle) (mode : Z) : mirror_op P := fun m =>
  match open_file m fh with
  | Some p => (Value p, m)
  | None => (see p := place n in on (ObjOpen p (Z.lor mode O_CLOEXEC))) m
  end.

(** ** Callbacks *)

Definition mr_lookupx (_ : Context) (parent : NodeId) (name : bytes) : mirror_op EntryOut :=
  see dir := place parent in
  ntry (on (ObjOpenat dir (c_str name) (Z.lor (Z.lor O_PATH O_NOFOLLOW) O_CLOEXEC) 0)) (fun r =>
  match r with
  | Unexpected e =>
      if e =? ENOENT
      then nret {| eo_nodeid := NodeId_invalid; eo_entry_valid := 0; eo_negative := true |}
      else nfail e
  | Value p =>
      see st := on (ObjFstatat p) in
      see n := remember p (st_ino st) in
      nret (entry_for n)
  end).

Definition mr_statx (_ : Context) (n : NodeId) : mirror_op StatxOut :=
  see p := place n in
  see st := on (ObjFstatat p) in
  nret (fill_statx st).

Definition nwhen (b : bool) (x : mirror_op unit) : mirror_op unit := if b then x else nret tt.

(** Attributes are set through the open file if there is one. Without one the
    owner is set on the link of the place (Attributes.v shows what that does). *)
Definition mr_setstatx (ctx : Context) (n : NodeId) (fh : FileHandle) (i : SetStatxIn) :
    mirror_op StatxOut := fun m =>
  let u := if asks i statx_bits.uid then si_uid i else 2 ^ 32 - 1 in
  let g := if asks i statx_bits.gid then si_gid i else 2 ^ 32 - 1 in
  let size := cast I64 (si_size i) in
  let ta := set_time i statx_bits.atime (si_atime i) in
  let tm := set_time i statx_bits.mtime (si_mtime i) in
  let set (chmod chown truncate utimes : objcall P D unit) :=
    see _ := nwhen (asks i statx_bits.mode) (on chmod) in
    see _ := nwhen (asks i (Z.lor statx_bits.uid statx_bits.gid)) (on chown) in
    see _ := nwhen (asks i statx_bits.size) (on truncate) in
    see _ := nwhen (asks i (Z.lor statx_bits.atime statx_bits.mtime)) (on utimes) in
    mr_statx ctx n in
  match open_file m fh with
  | Some p => set (ObjFchmod p (si_mode i)) (ObjFchown p u g) (ObjFtruncate p size)
                (ObjFutimens p ta tm) m
  | None => (see p := place n in
             set (ObjChmod p (si_mode i)) (ObjLchown p u g) (ObjTruncate p size)
               (ObjUtimensat p ta tm)) m
  end.

Definition mr_tmpfile (dir : P) (mode : Z) : mirror_op EntryOut :=
  see f := on (ObjOpenat dir [Byte.x2e] (Z.lor (Z.lor O_TMPFILE O_RDWR) O_CLOEXEC)
                 (Z.land mode 0xfff)) in
  see st := on (ObjFstat f) in
  see p := on (ObjOpen f (Z.lor O_PATH O_CLOEXEC)) in
  see n := remember p (st_ino st) in
  nret (entry_for n).

Definition mr_create (dir : P) (x : MkobjxIn) : mirror_op unit :=
  let mode := so_mode (mi_stat x) in
  let kind := Z.land mode S_IFMT in
  let name := c_str (mi_name x) in
  if kind =? S_IFREG then on (ObjMknodat dir name mode 0)
  else if kind =? S_IFDIR then on (ObjMkdirat dir name (Z.land mode 0xfff))
  else if kind =? S_IFLNK then on (ObjSymlinkat (c_str (mi_link_target x)) dir name)
  else if (kind =? S_IFCHR) || (kind =? S_IFBLK) || (kind =? S_IFIFO) || (kind =? S_IFSOCK)
  then on (ObjMknodat dir name mode
             (makedev (so_rdev_major (mi_stat x)) (so_rdev_minor (mi_stat x))))
  else nfail EINVAL.

Definition mr_own (dir : P) (x : MkobjxIn) : mirror_op unit :=
  if Z.land (so_mode (mi_stat x)) S_IFMT =? S_IFLNK then nret tt else
  ntry (on (ObjFchownat dir (c_str (mi_name x)) (so_uid (mi_stat x)) (so_gid (mi_stat x)))) (fun r =>
  match r with
  | Value _ => nret tt
  | Unexpected e => if e =? EPERM then nret tt else nfail e
  end).

Definition mr_mkobjx (_ : Context) (parent : NodeId) (x : MkobjxIn) : mirror_op EntryOut :=
  see dir := place parent in
  if negb (Z.land (mi_flags x) kMkobjxTmpfile =? 0) then mr_tmpfile dir (so_mode (mi_stat x)) else
  see _ := mr_create dir x in
  see _ := mr_own dir x in
  see n := find_node dir (c_str (mi_name x)) in
  nret (entry_for n).

Definition mr_remove (flags : Z) (_ : Context) (parent : NodeId) (name : bytes) : mirror_op unit :=
  see dir := place parent in on (ObjUnlinkat dir (c_str name) flags).

Definition mr_rename (_ : Context) (od : NodeId) (old : bytes) (nd : NodeId) (new : bytes)
    (flags : Z) : mirror_op unit :=
  see o := place od in
  see n := place nd in
  on (ObjRenameat2 o (c_str old) n (c_str new) flags).

Definition mr_link (_ : Context) (old newparent : NodeId) (name : bytes) : mirror_op unit :=
  see p := place old in
  see dir := place newparent in
  on (ObjLinkat p dir (c_str name)).

Definition mr_readlink (_ : Context) (n : NodeId) : mirror_op bytes :=
  see p := place n in on (ObjReadlinkat p 4096).

Definition mr_open (_ : Context) (n : NodeId) (flags : Z) : mirror_op OpenOut :=
  see p := place n in
  see f := on (ObjOpen p (Z.lor (Z.land (cast I32 flags) kPersistent) O_CLOEXEC)) in
  fun m =>
    let h := wrapu 64 (mr_file_id m + 1) in
    (Value {| oo_fh := h; oo_open_flags := 0 |},
     set_files m (match mr_files m !! h with Some _ => mr_files m | None => <[h := f]> (mr_files m) end) h).

Definition mr_release (_ : Context) (n : NodeId) (fh : FileHandle) (flags : Z) : mirror_op unit := fun m =>
  (Value tt, set_files m (delete (fh : Z) (mr_files m)) (mr_file_id m)).

Definition mr_read (_ : Context) (n : NodeId) (fh : FileHandle) (off : Z) (out : bytes) (m : mirror) :
    expected Z * bytes * mirror :=
  let '(r, m) := (see p := io_place n fh O_RDONLY in on (ObjPread p (zlen out) (cast I64 off))) m in
  match r with
  | Value data => (Value (zlen data), fill_span out data, m)
  | Unexpected e => (Unexpected e, out, m)
  end.

Definition mr_write (_ : Context) (n : NodeId) (fh : FileHandle) (off : Z) (data : bytes) : mirror_op Z :=
  see p := io_place n fh O_WRONLY in on (ObjPwrite p data (cast I64 off)).

Definition mr_fallocate (_ : Context) (n : NodeId) (fh : FileHandle) (mode off len : Z) : mirror_op unit :=
  see p := io_place n fh O_WRONLY in
  on (ObjFallocate p (cast I32 mode) (cast I64 off) (cast I64 len)).

Definition mr_statfs (_ : Context) (n : NodeId) : mirror_op StatfsOut :=
  see p := place n in
  see sv := on (ObjFstatvfs p) in
  nret (fill_statfs sv).

Definition mr_opendir (_ : Context) (n : NodeId) : mirror_op OpenOut :=
  see p := place n in
  see f := on (ObjOpen p (Z.lor (Z.lor O_DIRECTORY O_RDONLY) O_CLOEXEC)) in
  see d := on (ObjFdopendir f) in
  fun m =>
    let h := wrapu 64 (mr_dir_id m + 1) in
    (Value {| oo_fh := h; oo_open_flags := 0 |}, set_dirs m (<[h := d]> (mr_dirs m)) h).

Definition mr_releasedir (_ : Context) (n : NodeId) (fh : FileHandle) : mirror_op unit := fun m =>
  (Value tt, set_dirs m (delete (fh : Z) (mr_dirs m)) (mr_dir_id m)).

(** Entries are packed while they fit; the stream is then put back before the
    first that did not. *)
Fixpoint mr_pack (fuel : nat) (d : D) (off : Z) (out : DirentWriter) (m : mirror) :
    expected unit * DirentWriter * mirror :=
  match fuel with
  | O => (Unexpected EIO, out, m)
  | S fuel' =>
      let '(de, m) := on (ObjReaddir d) m in
      match de with
      | Unexpected e => (Unexpected e, out, m)
      | Value None => (Value tt, out, m)
      | Value (Some de) =>
          let '(next, m) := on (ObjTelldir d) m in
          let next := match next with Value p => cast U64 p | Unexpected _ => 2 ^ 64 - 1 end in
          match add out {| de_name := d_name de; de_ino := d_ino de; de_off := next;
                           de_type := d_type de |} with
          | Fault _ => (Unexpected EIO, out, m)
          | Done (false, out) =>
              let '(_, m) := on (ObjSeekdir d (cast I64 off)) m in (Value tt, out, m)
          | Done (true, out) => mr_pack fuel' d next out m
          end
      end
  end.

Definition mr_readdir (_ : Context) (n : NodeId) (fh : FileHandle) (off : Z) (out : DirentWriter)
    (m : mirror) : expected unit * DirentWriter * mirror :=
  match mr_dirs m !! (fh : Z) with
  | None => (Unexpected EBADF, out, m)
  | Some d =>
      let '(_, m) := on (ObjSeekdir d (cast I64 off)) m in
      mr_pack (S (length (dw_buf out))) d off out m
  end.

Definition nspan (out : bytes) (x : expected (Z * bytes) * mirror) : expected Z * bytes * mirror :=
  match x with
  | (Value (k, data), m) => (Value k, fill_span out data, m)
  | (Unexpected e, m) => (Unexpected e, out, m)
  end.

Definition mr_getxattr (_ : Context) (n : NodeId) (name out : bytes) (m : mirror) :
    expected Z * bytes * mirror :=
  nspan out ((see p := place n in on (ObjLgetxattr p (c_str name) (zlen out))) m).

Definition mr_setxattr (_ : Context) (n : NodeId) (name value : bytes) (flags : Z) : mirror_op unit :=
  see p := place n in on (ObjLsetxattr p (c_str name) value (cast I32 flags)).

Definition mr_listxattr (_ : Context) (n : NodeId) (out : bytes) (m : mirror) :
    expected Z * bytes * mirror :=
  nspan out ((see p := place n in on (ObjLlistxattr p (zlen out))) m).

Definition mr_removexattr (_ : Context) (n : NodeId) (name : bytes) : mirror_op unit :=
  see p := place n in on (ObjLremovexattr p (c_str name)).

Definition mirrored : Filesystem mirror := {|
  fs_init := fun info m => (Value tt, info, m);
  fs_destroy := fun m => m;
  fs_lookup_root := fun _ => nret (entry_for NodeId_root);
  fs_lookupx := mr_lookupx;
  fs_forget := fun n k m => set_nodes m (forget_lookups (mr_nodes m) n k);
  fs_forget_multi := fun items m =>
    set_nodes m (fold_left (fun t '(n, k) => forget_lookups t n k) items (mr_nodes m));
  fs_statx := mr_statx;
  fs_setstatx := mr_setstatx;
  fs_mkobjx := mr_mkobjx;
  fs_unlink := mr_remove 0;
  fs_rmdir := mr_remove AT_REMOVEDIR;
  fs_rename := mr_rename;
  fs_link := mr_link;
  fs_readlink := mr_readlink;
  fs_open := mr_open;
  fs_release := mr_release;
  fs_read := mr_read;
  fs_write := mr_write;
  fs_fallocate := mr_fallocate;
  fs_statfs := mr_statfs;
  fs_opendir := mr_opendir;
  fs_releasedir := mr_releasedir;
  fs_readdir := mr_readdir;
  fs_getxattr := mr_getxattr;
  fs_setxattr := mr_setxattr;
  fs_listxattr := mr_listxattr;
  fs_removexattr := mr_removexattr |}.
End Mirror.
Arguments mirror_op F P D A : clear implicits.
