(* ===== verification/Mirror.v ===== *)
(** * The passthrough daemon mirrors its backing filesystem

    The daemon of Passthrough.v, over descriptors that behave as the manual
    pages say, cannot be told apart from the daemon of MirrorSpec.v, which holds
    the files themselves: every callback gives the same answer and leaves the
    same files, and so does every request through the dispatcher and the ring.
    A descriptor is never used for another file than the one it was opened for. *)

From S2P Require Import Prelude Memory Pod Abi Types DirentWriter Filesystem Replier Handlers.
From S2P Require Import Callbacks UringEntry UringWorker Simulation InodeTable Passthrough.
From S2P Require Import PassthroughSafety Backing MirrorSpec.
From stdpp Require Import gmap.
#[local] Open Scope Z_scope.
#[local] Open Scope daemon_scope.

Lemma option_Forall2_weaken {A C} (R R' : A -> C -> Prop) o o' :
  (forall a c, o = Some a -> R a c -> R' a c) -> option_Forall2 R o o' -> option_Forall2 R' o o'.
Proof. intros HR Ho. destruct Ho as [a c Hac|]; constructor. by apply HR. Qed.

(** ** The relation *)

(** Who owns a descriptor. *)
Inductive owner := ByNode (n : Z) | ByFile (h : Z).

Definition fd_of {B} (s : PassthroughFs B) (o : owner) : option Z :=
  match o with
  | ByNode n => in_path_fd <$> pt_table s !! n
  | ByFile h => pt_files s !! h
  end.

Create HintDb mirror.

Section Mirrors.
Context {B F P D : Type}.
Context (sys : forall A, syscall A -> B -> expected A * B).
Context (osys : forall A, objcall P D A -> F -> expected A * F).
Context (see : B -> view F P D) `{!Descriptors sys osys see}.

#[local] Abbreviation fds s := (vw_fds (see (pt_sys s))).
#[local] Abbreviation streams s := (vw_dirs (see (pt_sys s))).

(** The tables of [s] are those of [m], descriptor for place. While a callback
    runs it knows the places [K] of some descriptors and has those of [H] in
    hand, to keep or to close. *)
Record mirrors (K : gmap Z P) (H : gset Z) (s : PassthroughFs B) (m : mirror F P D) : Prop := {
  ms_known : K ⊆ fds s;
  ms_hand : forall fd, fd ∈ H -> is_Some (fds s !! fd) /\ forall o, fd_of s o <> Some fd;
  ms_nodes : forall n, option_Forall2
    (fun i x => fds s !! in_path_fd i = Some (fst x) /\ in_nlookup i = snd x)
    (pt_table s !! n) (mr_nodes m !! n);
  ms_files : forall h, option_Forall2 (fun fd p => fds s !! fd = Some p /\ 0 <= fd)
    (pt_files s !! h) (mr_files m !! h);
  ms_apart : forall o o' fd, fd_of s o = Some fd -> fd_of s o' = Some fd -> o = o';
  ms_dirs : forall h, option_Forall2 (fun d x => streams s !! d = Some x)
    (pt_dirs s !! h) (mr_dirs m !! h);
  ms_dirs_apart : forall h h' d, pt_dirs s !! h = Some d -> pt_dirs s !! h' = Some d -> h = h';
  ms_file_id : pt_file_id s = mr_file_id m;
  ms_dir_id : pt_dir_id s = mr_dir_id m;
  ms_backing : vw_files (see (pt_sys s)) = mr_backing m;
}.

Lemma fd_open K H s m o fd : mirrors K H s m -> fd_of s o = Some fd -> is_Some (fds s !! fd).
Proof.
  intros Hm Ho. destruct o as [n|h]; cbn in Ho.
  - pose proof (ms_nodes _ _ _ _ Hm n) as Hn. destruct (pt_table s !! n) as [i|]; [|done].
    injection Ho as <-. inversion Hn as [? x [Hx _]|]; subst. by eexists.
  - pose proof (ms_files _ _ _ _ Hm h) as Hh. rewrite Ho in Hh.
    inversion Hh as [? p [Hp _]|]; subst. by eexists.
Qed.

(** [sim K H x y Q]: [x] and [y], started from related states, end in related
    states, and [Q] holds of their results and of what is then known and in
    hand. *)
Definition sim {A C} (K : gmap Z P) (H : gset Z) (x : M B A) (y : mirror_op F P D C)
    (Q : expected A -> expected C -> gmap Z P -> gset Z -> Prop) : Prop :=
  forall s m, mirrors K H s m -> exists K' H',
    Q (fst (x s)) (fst (y m)) K' H' /\ mirrors K' H' (snd (x s)) (snd (y m)).

(** What a callback owes: the same result, and nothing left in hand. *)
Definition same {A} (r r' : expected A) (_ : gmap Z P) (H : gset Z) : Prop := r = r' /\ H = ∅.

(** The same result, and no change. *)
Definition still {A} (K : gmap Z P) (H : gset Z) (r r' : expected A) (K' : gmap Z P) (H' : gset Z) :
    Prop := r = r' /\ K' = K /\ H' = H.

(** ** Rules *)

Lemma sim_ret {A} K H (a : A) Q : Q (Value a) (Value a) K H -> sim K H (pret a) (nret a) Q.
Proof. intros HQ s m Hm. by exists K, H. Qed.

Lemma sim_fail {A C} K H e (Q : expected A -> expected C -> _) :
  Q (Unexpected e) (Unexpected e) K H -> sim K H (pfail e) (nfail e) Q.
Proof. intros HQ s m Hm. by exists K, H. Qed.

Lemma sim_try {A A' C C'} K H (x : M B A) (y : mirror_op F P D A') (k : expected A -> M B C)
    (k' : expected A' -> mirror_op F P D C') Q0 Q :
  sim K H x y Q0 ->
  (forall r r' K' H', Q0 r r' K' H' -> sim K' H' (k r) (k' r') Q) ->
  sim K H (ptry x k) (ntry y k') Q.
Proof.
  intros Hx Hk s m Hm. destruct (Hx s m Hm) as (K1 & H1 & HQ & Hm1).
  unfold ptry, ntry. destruct (x s), (y m). by apply (Hk _ _ _ _ HQ).
Qed.

(** A bind is an attempt that hands errors on. *)
Lemma sim_bind_l {A C C'} K H (x : M B A) (k : A -> M B C) (y : mirror_op F P D C') Q :
  sim K H (ptry x (fun r => match r with Value a => k a | Unexpected e => pfail e end)) y Q ->
  sim K H (pbind x k) y Q.
Proof.
  intros Hx s m Hm. destruct (Hx s m Hm) as (K' & H' & HQ & Hm'). exists K', H'.
  unfold ptry, pbind in *. destruct (x s) as [[] ?]; by split.
Qed.

Lemma sim_bind_r {A' C C'} K H (x : M B C) (y : mirror_op F P D A') (k : A' -> mirror_op F P D C') Q :
  sim K H x (ntry y (fun r => match r with Value a => k a | Unexpected e => nfail e end)) Q ->
  sim K H x (nbind y k) Q.
Proof.
  intros Hx s m Hm. destruct (Hx s m Hm) as (K' & H' & HQ & Hm'). exists K', H'.
  unfold ntry, nbind in *. destruct (y m) as [[] ?]; by split.
Qed.

Lemma sim_weaken_r {A C} K H (x : M B A) (y y' : mirror_op F P D C) Q :
  (forall m, y' m = y m) -> sim K H x y' Q -> sim K H x y Q.
Proof. intros Hy Hx s m Hm. specialize (Hx s m Hm). by rewrite Hy in Hx. Qed.

Lemma sim_pret {A C C'} K H (a : A) (k : A -> M B C) (y : mirror_op F P D C') Q :
  sim K H (k a) y Q -> sim K H (pbind (pret a) k) y Q.
Proof. done. Qed.

Lemma sim_bind_assoc {A A' C C'} K H (x : M B A) (k : A -> M B A') (l : A' -> M B C)
    (y : mirror_op F P D C') Q :
  sim K H (pbind x (fun a => pbind (k a) l)) y Q -> sim K H (pbind (pbind x k) l) y Q.
Proof.
  intros Hx s m Hm. specialize (Hx s m Hm). unfold pbind in *. by destruct (x s) as [[] ?].
Qed.

(** Calls change the system and the files alone. *)
Lemma mirrors_sys K H K' H' s m b' f' :
  mirrors K H s m ->
  vw_files (see b') = f' ->
  (forall fd o, fd_of s o = Some fd -> vw_fds (see b') !! fd = fds s !! fd) ->
  (forall d h, pt_dirs s !! h = Some d -> vw_dirs (see b') !! d = streams s !! d) ->
  K' ⊆ vw_fds (see b') ->
  (forall fd, fd ∈ H' -> is_Some (vw_fds (see b') !! fd) /\ forall o, fd_of s o <> Some fd) ->
  mirrors K' H' (with_sys s b') (set_backing m f').
Proof.
  intros [] Hf Hfd Hd HK HH. split; try done.
  - intros n. eapply option_Forall2_weaken; [|exact (ms_nodes0 n)]. intros i x Hi [Hx Hk].
    cbn. cbn in Hi. rewrite (Hfd _ (ByNode n)); [done|]. cbn. by rewrite Hi.
  - intros h. eapply option_Forall2_weaken; [|exact (ms_files0 h)]. intros fd p Hfile [Hp H0].
    cbn. by rewrite (Hfd _ (ByFile h)).
  - intros h. eapply option_Forall2_weaken; [|exact (ms_dirs0 h)]. intros d x Hdir Hx.
    cbn. by rewrite (Hd d h).
Qed.

Lemma sim_call {A} K H (c : syscall A) oc :
  translate K ∅ c = Some oc -> sim K H (call sys c) (on osys oc) (still K H).
Proof.
  intros Hc s m Hm. unfold call, on. destruct (sys A c (pt_sys s)) as [r b'] eqn:E.
  destruct (call_on_place A c oc (pt_sys s) r b' (translate_mono _ _ _ (streams s) c oc (ms_known _ _ _ _ Hm)
    (map_empty_subseteq _) Hc) E) as (Ho & Hf & Hd).
  rewrite <- (ms_backing _ _ _ _ Hm), Ho. cbn [fst snd]. exists K, H. split; [done|].
  eapply mirrors_sys; [exact Hm|done|by rewrite Hf|by rewrite Hd| |].
  - rewrite Hf. apply Hm.
  - rewrite Hf. apply Hm.
Qed.

(** The result of an opening call: its descriptor in hand. *)
Definition got (K : gmap Z P) (H : gset Z) (r : expected Z) (r' : expected P) (K' : gmap Z P)
    (H' : gset Z) : Prop :=
  match r, r' with
  | Value fd, Value p =>
      0 <= fd /\ (fd ∉ H) /\ K ⊆ K' /\ K' !! fd = Some p /\ H' = {[fd]} ∪ H
  | Unexpected e, Unexpected e' => e = e' /\ K' = K /\ H' = H
  | _, _ => False
  end.

Lemma sim_opens K H c oc :
  (forall b, K ⊆ vw_fds (see b) -> opens osys see oc b (sys Z c b)) ->
  sim K H (call sys c) (on osys oc) (got K H).
Proof.
  intros Hc s m Hm. unfold call, on. specialize (Hc (pt_sys s) (ms_known _ _ _ _ Hm)).
  unfold opens in Hc. rewrite <- (ms_backing _ _ _ _ Hm).
  destruct (sys Z c (pt_sys s)) as [r b']. destruct (osys P oc _) as [ro f].
  destruct Hc as (Hf & Hd & Hr). cbn [fst snd]. destruct ro as [p|e].
  - destruct Hr as (fd & -> & H0 & Hfree & Hfds). exists (<[fd := p]> K), ({[fd]} ∪ H).
    assert (Hown : forall o fd', fd_of s o = Some fd' -> fd <> fd').
    { intros o fd' Ho ->. apply (fd_open _ _ _ _ _ _ Hm) in Ho. rewrite Hfree in Ho. by destruct Ho. }
    split.
    + split; [done|]. split; [|split; [|split; [apply lookup_insert_eq|done]]].
      * intros [Hin _]%(ms_hand _ _ _ _ Hm). rewrite Hfree in Hin. by destruct Hin.
      * apply insert_subseteq. destruct (K !! fd) as [q|] eqn:E; [|done].
        pose proof (lookup_weaken _ _ _ _ E (ms_known _ _ _ _ Hm)). congruence.
    + eapply mirrors_sys; [exact Hm|done| |by rewrite Hd| |].
      * intros fd' o Ho. rewrite Hfds, lookup_insert_ne; [done|]. by eapply Hown.
      * rewrite Hfds. apply insert_mono, Hm.
      * rewrite Hfds. intros fd' [->%elem_of_singleton|Hin]%elem_of_union.
        -- rewrite lookup_insert_eq. split; [by eexists|]. intros o Ho. by apply (Hown o fd).
        -- destruct (ms_hand _ _ _ _ Hm fd' Hin) as [Hop Ho]. split; [|done].
           destruct (decide (fd = fd')) as [->|]; [rewrite Hfree in Hop; by destruct Hop|].
           by rewrite lookup_insert_ne.
  - destruct Hr as [-> Hfds]. exists K, H. split; [done|].
    eapply mirrors_sys; [exact Hm|done|by rewrite Hfds|by rewrite Hd|rewrite Hfds; apply Hm..].
Qed.

Lemma sim_openat K H fd p name flags mode :
  K !! fd = Some p ->
  sim K H (call sys (SysOpenat fd name flags mode)) (on osys (ObjOpenat p name flags mode)) (got K H).
Proof. intros Hp. apply sim_opens. intros b HK. apply openat_place. by eapply lookup_weaken. Qed.

Lemma sim_open K H fd p flags :
  K !! fd = Some p ->
  sim K H (call sys (SysOpen (ProcFd fd) flags)) (on osys (ObjOpen p flags)) (got K H).
Proof. intros Hp. apply sim_opens. intros b HK. apply open_place. by eapply lookup_weaken. Qed.

(** Closing what is in hand: the mirror does nothing. *)
Lemma close_in_hand K H s m fd :
  mirrors K H s m -> fd ∈ H ->
  fst (call sys (SysClose fd) s) = Value tt /\
  mirrors (delete fd K) (H ∖ {[fd]}) (snd (call sys (SysClose fd) s)) m.
Proof.
  intros Hm Hin. destruct (ms_hand _ _ _ _ Hm fd Hin) as [[p Hp] Hfree].
  destruct (close_place fd p (pt_sys s) Hp) as (b' & E & Hsee). unfold call. rewrite E.
  split; [done|]. cbn [snd].
  replace m with (set_backing m (vw_files (see b'))).
  2: { rewrite Hsee. cbn. rewrite (ms_backing _ _ _ _ Hm). by destruct m. }
  eapply mirrors_sys; [exact Hm|done|..]; rewrite Hsee; cbn.
  - intros fd' o Ho. rewrite lookup_delete_ne; [done|]. intros ->. by apply (Hfree o).
  - done.
  - apply delete_mono, Hm.
  - intros fd' [Hin' Hne]%elem_of_difference. apply not_elem_of_singleton in Hne.
    rewrite lookup_delete_ne by done. by apply Hm.
Qed.

Lemma sim_drop {C C'} K H fd (k : unit -> M B C) (y : mirror_op F P D C') Q :
  fd ∈ H -> sim (delete fd K) (H ∖ {[fd]}) (k tt) y Q -> sim K H (pbind (drop_fd sys fd) k) y Q.
Proof.
  intros Hin Hk s m Hm. destruct (close_in_hand K H s m fd Hm Hin) as [_ Hm'].
  unfold pbind, drop_fd, ptry. destruct (call sys (SysClose fd) s) as [r s'].
  exact (Hk s' m Hm').
Qed.

Lemma sim_close_and_fail {A C} K H fd e (Q : expected A -> expected C -> _) :
  fd ∈ H -> Q (Unexpected e) (Unexpected e) (delete fd K) (H ∖ {[fd]}) ->
  sim K H (close_and_fail sys fd e) (nfail e) Q.
Proof.
  intros Hin HQ s m Hm. destruct (close_in_hand K H s m fd Hm Hin) as [Hr Hm'].
  unfold close_and_fail, ptry. destruct (call sys (SysClose fd) s) as [r s']. cbn in Hr. subst r.
  by eexists _, _.
Qed.

(** A node found: its place is known. *)
Definition found (K : gmap Z P) (H : gset Z) (r : expected Inode) (r' : expected P) (K' : gmap Z P)
    (H' : gset Z) : Prop :=
  match r, r' with
  | Value i, Value p => K ⊆ K' /\ K' !! in_path_fd i = Some p /\ H' = H
  | Unexpected e, Unexpected e' => e = e' /\ K' = K /\ H' = H
  | _, _ => False
  end.

Lemma mirrors_known K K' H s m : mirrors K H s m -> K' ⊆ fds s -> mirrors K' H s m.
Proof. intros [] HK. by split. Qed.

Lemma sim_node K H n : sim K H (node n) (place n) (found K H).
Proof.
  intros s m Hm. unfold node, place, get. pose proof (ms_nodes _ _ _ _ Hm n) as Hn.
  destruct Hn as [i [p k] [Hp _]|]; cbn [fst snd].
  - exists (fds s), H. split; [by split; [apply Hm|]|]. by eapply mirrors_known.
  - by exists K, H.
Qed.

(** ** The inode table *)

(** The table changes alone. *)
Lemma mirrors_table K H K' H' s m t' nodes' :
  mirrors K H s m -> K' ⊆ fds s ->
  (forall n, option_Forall2
    (fun i x => fds s !! in_path_fd i = Some (fst x) /\ in_nlookup i = snd x) (t' !! n) (nodes' !! n)) ->
  (forall o o' fd, fd_of (with_table s t') o = Some fd -> fd_of (with_table s t') o' = Some fd ->
    o = o') ->
  (forall fd, fd ∈ H' -> is_Some (fds s !! fd) /\ forall o, fd_of (with_table s t') o <> Some fd) ->
  mirrors K' H' (with_table s t') (set_nodes m nodes').
Proof. intros [] HK Hn Ha HH. by split. Qed.

(** An entry's count changes. *)
Lemma mirrors_count K H s m n i p k k' :
  mirrors K H s m -> pt_table s !! n = Some i -> mr_nodes m !! n = Some (p, k) ->
  mirrors K H (with_table s (<[n := {| in_path_fd := in_path_fd i; in_nlookup := k' |}]> (pt_table s)))
    (set_nodes m (<[n := (p, k')]> (mr_nodes m))).
Proof.
  intros Hm Hi Hp. pose proof (ms_nodes _ _ _ _ Hm n) as Hn. rewrite Hi, Hp in Hn.
  inversion Hn as [? ? [Hfd _]|]; subst.
  assert (Ho : forall o, fd_of (with_table s (<[n := {| in_path_fd := in_path_fd i;
    in_nlookup := k' |}]> (pt_table s))) o = fd_of s o).
  { intros [n'|h]; [|done]. cbn. destruct (decide (n = n')) as [<-|].
    - by rewrite lookup_insert_eq, Hi.
    - by rewrite lookup_insert_ne. }
  eapply mirrors_table; [exact Hm|apply Hm| | |].
  - intros n'. destruct (decide (n = n')) as [<-|].
    + rewrite !lookup_insert_eq. by constructor.
    + rewrite !lookup_insert_ne by done. apply Hm.
  - intros o o' fd. rewrite !Ho. apply Hm.
  - intros fd Hin. destruct (ms_hand _ _ _ _ Hm fd Hin). split; [done|]. intros o. by rewrite Ho.
Qed.

(** A new entry takes its descriptor out of the hand. *)
Lemma mirrors_new K H s m ino fd p k :
  mirrors K H s m -> fd ∈ H -> fds s !! fd = Some p -> pt_table s !! ino = None ->
  mirrors (delete fd K) (H ∖ {[fd]})
    (with_table s (<[ino := {| in_path_fd := fd; in_nlookup := k |}]> (pt_table s)))
    (set_nodes m (<[ino := (p, k)]> (mr_nodes m))).
Proof.
  intros Hm Hin Hp Hnew. destruct (ms_hand _ _ _ _ Hm fd Hin) as [_ Hfree].
  assert (Ho : forall o fd', fd_of (with_table s (<[ino := {| in_path_fd := fd;
    in_nlookup := k |}]> (pt_table s))) o = Some fd' ->
    (o = ByNode ino /\ fd' = fd) \/ fd_of s o = Some fd').
  { intros [n'|h] fd'; [|auto]. cbn. destruct (decide (ino = n')) as [<-|].
    - rewrite lookup_insert_eq. intros [= <-]. by left.
    - rewrite lookup_insert_ne by done. auto. }
  eapply mirrors_table; [exact Hm| | | |].
  - etrans; [apply delete_subseteq|apply Hm].
  - intros n'. destruct (decide (ino = n')) as [<-|].
    + rewrite !lookup_insert_eq. by constructor.
    + rewrite !lookup_insert_ne by done. apply Hm.
  - intros o o' fd' [[-> ->]|H1]%Ho [[-> E]|H2]%Ho; [done| | |by eapply Hm].
    + by apply Hfree in H2.
    + subst fd'. by apply Hfree in H1.
  - intros fd' [Hin' Hne]%elem_of_difference. apply not_elem_of_singleton in Hne.
    destruct (ms_hand _ _ _ _ Hm fd' Hin') as [Hop Hfr]. split; [done|].
    intros o [[_ ->]|H1]%Ho; [done|]. by apply Hfr in H1.
Qed.

(** A table insertion spends the descriptor in hand. *)
Lemma sim_insert K H fd p ino :
  fd ∈ H -> K !! fd = Some p ->
  sim K H (table_insert sys fd ino) (remember p ino) (fun r r' K' H' =>
    r = Value ino /\ r' = Value ino /\ K' = delete fd K /\ H' = H ∖ {[fd]}).
Proof.
  intros Hin Hp s m Hm. exists (delete fd K), (H ∖ {[fd]}).
  assert (Hfd : fds s !! fd = Some p) by (eapply lookup_weaken; [exact Hp|apply Hm]).
  unfold table_insert, remember, insert_inode. pose proof (ms_nodes _ _ _ _ Hm ino) as Hn.
  destruct (pt_table s !! ino) as [i|] eqn:Et; inversion Hn as [? [q k] [Hq Hk]|]; subst.
  - cbn [default fst snd] in *. cbv beta iota.
    match goal with E : _ = mr_nodes m !! ino |- _ => rename E into Em end.
    pose proof (mirrors_count _ _ _ _ _ _ _ _ (wrapu 64 (in_nlookup i + 1)) Hm Et (eq_sym Em)) as Hm1.
    destruct (close_in_hand K H _ _ fd Hm1 Hin) as [_ Hm2]. cbn [drop_fds].
    unfold pbind, drop_fd, ptry, pret, bump in *. destruct (call sys (SysClose fd) _) as [r s'].
    cbn [fst snd] in *. unfold id. subst k. by split.
  - cbn [default drop_fds]. split; [done|]. by apply mirrors_new.
Qed.

(** What a FORGET takes out of the table is in hand. *)
Lemma mirrors_gone H s m n i :
  mirrors ∅ H s m -> pt_table s !! n = Some i ->
  (in_path_fd i ∉ H) /\
  mirrors ∅ ({[in_path_fd i]} ∪ H) (with_table s (delete n (pt_table s)))
    (set_nodes m (delete n (mr_nodes m))).
Proof.
  intros Hm Hi.
  assert (Hown : fd_of s (ByNode n) = Some (in_path_fd i)) by (cbn; by rewrite Hi).
  assert (Ho : forall o fd, fd_of (with_table s (delete n (pt_table s))) o = Some fd ->
    o <> ByNode n /\ fd_of s o = Some fd).
  { intros [n'|h] fd; [|done]. cbn. intros Hn'.
    destruct (decide (n = n')) as [<-|]; [by rewrite lookup_delete_eq in Hn'|].
    rewrite lookup_delete_ne in Hn' by done. split; [congruence|done]. }
  split; [intros [_ Hf]%(ms_hand _ _ _ _ Hm); by apply Hf in Hown|].
  eapply mirrors_table; [exact Hm|apply map_empty_subseteq| | |].
  - intros n'. destruct (decide (n = n')) as [<-|]; [rewrite !lookup_delete_eq; constructor|].
    rewrite !lookup_delete_ne by done. apply Hm.
  - intros o o' fd [_ H1]%Ho [_ H2]%Ho. by eapply Hm.
  - intros fd [->%elem_of_singleton|Hin]%elem_of_union.
    + split; [by eapply fd_open|]. intros o [Hne H1]%Ho. by pose proof (ms_apart _ _ _ _ Hm _ _ _ H1 Hown).
    + destruct (ms_hand _ _ _ _ Hm fd Hin) as [? Hf]. split; [done|]. intros o [_ H1]%Ho. by apply Hf in H1.
Qed.

Lemma mirrors_forget H s m n k t closed :
  mirrors ∅ H s m -> (n =? NodeId_root) = false -> forget_locked (pt_table s) n k = (t, closed) ->
  NoDup closed /\ (forall fd, fd ∈ closed -> fd ∉ H) /\
  mirrors ∅ (list_to_set closed ∪ H) (with_table s t) (set_nodes m (forget_lookups (mr_nodes m) n k)).
Proof.
  intros Hm Hroot Hf. unfold forget_locked in Hf. unfold forget_lookups. rewrite Hroot.
  pose proof (ms_nodes _ _ _ _ Hm n) as Hn.
  destruct (pt_table s !! n) as [i|] eqn:Ei; inversion Hn as [? [p c] [Hp Hc]|E1 E2]; subst;
    cbn [fst snd] in *.
  2: { injection Hf as <- <-. split; [constructor|]. split; [by intros ? ?%not_elem_of_nil|].
       rewrite list_to_set_nil, union_empty_l_L. destruct s, m. exact Hm. }
  case_if_in Hf; case_if_in Hf; try lia; injection Hf as <- <-.
  - destruct (_ <=? 0) eqn:E1; [|lia]. destruct (mirrors_gone H s m n i Hm Ei) as [Hni Hm'].
    split; [apply NoDup_singleton|]. split; [by intros fd ->%list_elem_of_singleton|].
    by rewrite list_to_set_singleton_L.
  - destruct (_ <=? 0) eqn:E1; [lia|]. split; [constructor|]. split; [by intros ? ?%not_elem_of_nil|].
    rewrite list_to_set_nil, union_empty_l_L. subst c. by eapply mirrors_count.
Qed.

Lemma with_table_twice (s : PassthroughFs B) t t' : with_table (with_table s t) t' = with_table s t'.
Proof. done. Qed.

Lemma mirrors_forget_many items : forall H s m t closed,
  mirrors ∅ H s m -> forget_many (pt_table s) items = (t, closed) ->
  NoDup closed /\ (forall fd, fd ∈ closed -> fd ∉ H) /\
  mirrors ∅ (list_to_set closed ∪ H) (with_table s t)
    (set_nodes m (fold_left (fun t '(n, k) => forget_lookups t n k) items (mr_nodes m))).
Proof.
  induction items as [|[n k] items IH]; intros H s m t closed Hm Hf; cbn [forget_many fold_left] in *.
  { injection Hf as <- <-. split; [constructor|]. split; [by intros ? ?%not_elem_of_nil|].
    rewrite list_to_set_nil, union_empty_l_L. destruct s, m. exact Hm. }
  destruct (n =? NodeId_root) eqn:Er.
  { replace (forget_lookups (mr_nodes m) n k) with (mr_nodes m) by (unfold forget_lookups; by rewrite Er).
    by apply IH. }
  destruct (forget_locked (pt_table s) n k) as [t1 c1] eqn:E1.
  destruct (forget_many t1 items) as [t2 c2] eqn:E2. injection Hf as <- <-.
  destruct (mirrors_forget H s m n k t1 c1 Hm Er E1) as (Hn1 & Hd1 & Hm1).
  destruct (IH _ _ _ t2 c2 Hm1 E2) as (Hn2 & Hd2 & Hm2). split; [|split].
  - apply NoDup_app. split; [done|]. split; [|done]. intros fd Hin1 Hin2. apply (Hd2 fd Hin2).
    apply elem_of_union_l. by apply elem_of_list_to_set.
  - intros fd [Hin|Hin]%elem_of_app; [by apply Hd1|]. specialize (Hd2 fd Hin).
    by apply not_elem_of_union in Hd2 as [_ ?].
  - rewrite list_to_set_app_L, (union_comm_L (list_to_set c1)), <- union_assoc_L. exact Hm2.
Qed.

(** Closing a list of descriptors in hand. *)
Lemma drop_in_hand closed : forall H s m,
  NoDup closed -> (forall fd, fd ∈ closed -> fd ∉ H) -> mirrors ∅ (list_to_set closed ∪ H) s m ->
  mirrors ∅ H (snd (drop_fds sys closed s)) m.
Proof.
  induction closed as [|fd closed IH]; intros H s m Hn Hd Hm; cbn [drop_fds].
  { by rewrite list_to_set_nil, union_empty_l_L in Hm. }
  apply NoDup_cons in Hn as [Hni Hn]. rewrite list_to_set_cons in Hm.
  destruct (close_in_hand _ _ s m fd Hm) as [_ Hm1];
    [by apply elem_of_union_l, elem_of_union_l, elem_of_singleton|].
  unfold pbind, drop_fd, ptry, pret in *. destruct (call sys (SysClose fd) s) as [r s1].
  cbn [snd] in Hm1. rewrite delete_empty in Hm1.
  apply IH; [done|intros fd' Hin; apply Hd; by right|].
  replace (list_to_set closed ∪ H) with (({[fd]} ∪ list_to_set closed ∪ H) ∖ {[fd]}); [done|].
  specialize (Hd fd (list_elem_of_here _ _)). apply set_eq. intros x.
  rewrite elem_of_difference, !elem_of_union, elem_of_singleton, elem_of_list_to_set.
  split; [tauto|]. intros [Hx|Hx]; (split; [tauto|]); by intros ->.
Qed.

Lemma sim_forget n k s m :
  mirrors ∅ ∅ s m ->
  mirrors ∅ ∅ (pt_forget sys n k s) (set_nodes m (forget_lookups (mr_nodes m) n k)).
Proof.
  intros Hm. unfold pt_forget, forget. destruct (n =? NodeId_root) eqn:Er.
  { unfold forget_lookups. rewrite Er. destruct s, m. exact Hm. }
  destruct (forget_locked _ n k) as [t closed] eqn:E.
  destruct (mirrors_forget ∅ s m n k t closed Hm Er E) as (Hn & Hd & Hm'). by apply drop_in_hand.
Qed.

Lemma sim_forget_multi items s m :
  mirrors ∅ ∅ s m ->
  mirrors ∅ ∅ (pt_forget_multi sys items s)
    (set_nodes m (fold_left (fun t '(n, k) => forget_lookups t n k) items (mr_nodes m))).
Proof.
  intros Hm. unfold pt_forget_multi. destruct (forget_many _ items) as [t closed] eqn:E.
  destruct (mirrors_forget_many items ∅ s m t closed Hm E) as (Hn & Hd & Hm').
  by apply drop_in_hand.
Qed.

(** ** Open files and directories *)

Lemma mirrors_new_file K H s m h fd p :
  mirrors K H s m -> fd ∈ H -> fds s !! fd = Some p -> 0 <= fd -> pt_files s !! h = None ->
  mirrors (delete fd K) (H ∖ {[fd]}) (with_files s (<[h := fd]> (pt_files s)) h)
    (set_files m (<[h := p]> (mr_files m)) h).
Proof.
  intros Hm Hin Hp H0 Hnew. destruct (ms_hand _ _ _ _ Hm fd Hin) as [_ Hfree].
  assert (Ho : forall o fd', fd_of (with_files s (<[h := fd]> (pt_files s)) h) o = Some fd' ->
    (o = ByFile h /\ fd' = fd) \/ fd_of s o = Some fd').
  { intros [n|h'] fd'; [auto|]. cbn. destruct (decide (h = h')) as [<-|].
    - rewrite lookup_insert_eq. intros [= <-]. by left.
    - rewrite lookup_insert_ne by done. auto. }
  pose proof Hm as []. split; try done.
  - etrans; [apply delete_subseteq|done].
  - intros fd' [Hin' Hne]%elem_of_difference. apply not_elem_of_singleton in Hne.
    destruct (ms_hand0 fd' Hin') as [Hop Hfr]. split; [done|].
    intros o [[_ ->]|H1]%Ho; [done|]. by apply Hfr in H1.
  - intros h'. cbn. destruct (decide (h = h')) as [<-|].
    + rewrite !lookup_insert_eq. by constructor.
    + rewrite !lookup_insert_ne by done. apply ms_files0.
  - intros o o' fd' [[-> ->]|H1]%Ho [[-> E]|H2]%Ho; [done| | |by eapply ms_apart0].
    + by apply Hfree in H2.
    + subst fd'. by apply Hfree in H1.
Qed.

Lemma sim_add_file K H fd p :
  fd ∈ H -> K !! fd = Some p -> 0 <= fd ->
  sim K H (let? h := add_file sys fd in pret {| oo_fh := h; oo_open_flags := 0 |})
    (fun m => let h := wrapu 64 (mr_file_id m + 1) in
       (Value {| oo_fh := h; oo_open_flags := 0 |},
        set_files m (match mr_files m !! h with Some _ => mr_files m | None => <[h := p]> (mr_files m) end) h))
    (fun r r' K' H' => r = r' /\ H' = H ∖ {[fd]}).
Proof.
  intros Hin Hp H0 s m Hm. exists (delete fd K), (H ∖ {[fd]}).
  assert (Hfd : fds s !! fd = Some p) by (eapply lookup_weaken; [exact Hp|apply Hm]).
  unfold pbind, add_file. rewrite <- (ms_file_id _ _ _ _ Hm). set (h := wrapu 64 _).
  pose proof (ms_files _ _ _ _ Hm h) as Hh.
  destruct (pt_files s !! h) as [fd0|] eqn:Ef; inversion Hh as [? q Hq E|]; subst.
  - assert (Hm1 : mirrors K H (with_files s (pt_files s) h) (set_files m (mr_files m) h)).
    { destruct Hm. by split. }
    destruct (close_in_hand K H _ _ fd Hm1 Hin) as [_ Hm2].
    unfold pbind, drop_fd, ptry, pret in *.
    destruct (call sys (SysClose fd) _) as [r s1]. by split.
  - split; [done|]. by apply mirrors_new_file.
Qed.

(** A handle given back: its descriptor is closed. *)
Lemma mirrors_release H s m h fd :
  mirrors ∅ H s m -> pt_files s !! h = Some fd ->
  (fd ∉ H) /\
  mirrors ∅ ({[fd]} ∪ H) (with_files s (delete h (pt_files s)) (pt_file_id s))
    (set_files m (delete h (mr_files m)) (mr_file_id m)).
Proof.
  intros Hm Hh. pose proof (Hh : fd_of s (ByFile h) = Some fd) as Hown.
  assert (Ho : forall o fd', fd_of (with_files s (delete h (pt_files s)) (pt_file_id s)) o = Some fd' ->
    o <> ByFile h /\ fd_of s o = Some fd').
  { intros [n|h'] fd'; [by split|]. cbn. intros Hn'.
    destruct (decide (h = h')) as [<-|]; [by rewrite lookup_delete_eq in Hn'|].
    rewrite lookup_delete_ne in Hn' by done. split; [congruence|done]. }
  split; [intros [_ Hf]%(ms_hand _ _ _ _ Hm); by apply Hf in Hown|].
  pose proof Hm as []. split; try done.
  - intros fd' [->%elem_of_singleton|Hin]%elem_of_union.
    + split; [exact (fd_open _ _ s m _ fd Hm Hown)|]. intros o [Hne H1]%Ho.
      by pose proof (ms_apart0 _ _ _ H1 Hown).
    + destruct (ms_hand0 fd' Hin) as [? Hf]. split; [done|]. intros o [_ H1]%Ho. by apply Hf in H1.
  - intros h'. cbn. destruct (decide (h = h')) as [<-|]; [rewrite !lookup_delete_eq; constructor|].
    rewrite !lookup_delete_ne by done. apply ms_files0.
  - intros o o' fd' [_ H1]%Ho [_ H2]%Ho. by eapply ms_apart0.
Qed.

Lemma sim_release ctx n fh flags :
  sim ∅ ∅ (pt_release sys ctx n fh flags) (mr_release ctx n fh flags) same.
Proof.
  intros s m Hm. exists ∅, ∅. unfold pt_release, mr_release.
  destruct (pt_files s !! (fh : Z)) as [fd|] eqn:Ef.
  - destruct (mirrors_release ∅ s m fh fd Hm Ef) as [_ Hm1].
    destruct (close_in_hand ∅ _ _ _ fd Hm1) as [_ Hm2]; [by apply elem_of_union_l, elem_of_singleton|].
    change (option_list (Some fd)) with [fd]. cbn [drop_fds].
    unfold pbind, drop_fd, ptry, pret in *. destruct (call sys (SysClose fd) _) as [r s1].
    split; [by split|]. cbn [snd] in *. rewrite delete_empty, union_empty_r_L, difference_diag_L in Hm2.
    exact Hm2.
  - split; [done|]. pose proof (ms_files _ _ _ _ Hm fh) as Hh. rewrite Ef in Hh.
    inversion Hh as [|Hn]; subst. cbn. rewrite !delete_id by done. destruct s, m. exact Hm.
Qed.

Lemma dir_open K H s m h d : mirrors K H s m -> pt_dirs s !! h = Some d -> is_Some (streams s !! d).
Proof.
  intros Hm Hd. pose proof (ms_dirs _ _ _ _ Hm h) as Hh. rewrite Hd in Hh.
  inversion Hh as [? x Hx|]; subst. by eexists.
Qed.

Lemma mirrors_new_dir K H s m h d x :
  mirrors K H s m -> streams s !! d = Some x -> (forall h, pt_dirs s !! h <> Some d) ->
  mirrors K H (with_dirs s (<[h := d]> (pt_dirs s)) h) (set_dirs m (<[h := x]> (mr_dirs m)) h).
Proof.
  intros Hm Hx Hnew. pose proof Hm as []. split; try done.
  - intros h'. cbn. destruct (decide (h = h')) as [<-|].
    + rewrite !lookup_insert_eq. by constructor.
    + rewrite !lookup_insert_ne by done. apply ms_dirs0.
  - intros h1 h2 d'. cbn. intros [[<- <-]|[_ H1]]%lookup_insert_Some [[<- E]|[_ H2]]%lookup_insert_Some;
      [done|by apply Hnew in H2|subst; by apply Hnew in H1|by eapply ms_dirs_apart0].
Qed.

Lemma sim_open_dir K H fd p :
  fd ∈ H -> K !! fd = Some p ->
  sim K H
    (attempt d := call sys (SysFdopendir fd) in
     match d with
     | Unexpected e => close_and_fail sys fd e
     | Value d => let? fh := add_dir d in pret {| oo_fh := fh; oo_open_flags := 0 |}
     end)
    (nbind (on osys (ObjFdopendir p)) (fun d m =>
       let h := wrapu 64 (mr_dir_id m + 1) in
       (Value {| oo_fh := h; oo_open_flags := 0 |}, set_dirs m (<[h := d]> (mr_dirs m)) h)))
    (fun r r' K' H' => r = r' /\ H' = H ∖ {[fd]}).
Proof.
  intros Hin Hp s m Hm. exists (delete fd K), (H ∖ {[fd]}).
  assert (Hfd : fds s !! fd = Some p) by (eapply lookup_weaken; [exact Hp|apply Hm]).
  destruct (ms_hand _ _ _ _ Hm fd Hin) as [_ Hfree].
  unfold ptry, nbind, on. unfold call at 1 2. rewrite <- (ms_backing _ _ _ _ Hm).
  destruct (sys _ (SysFdopendir fd) (pt_sys s)) as [r b'] eqn:E.
  pose proof (fdopendir_place fd p (pt_sys s) r b' Hfd E) as Ho.
  destruct (osys D (ObjFdopendir p) _) as [[x|e] f].
  - destruct Ho as (d & -> & Hnew & Hsee).
    assert (Hm1 : mirrors (delete fd K) (H ∖ {[fd]}) (with_sys s b') (set_backing m f)).
    { eapply mirrors_sys; [exact Hm|by rewrite Hsee|..]; rewrite Hsee; cbn.
      - intros fd' o Ho. rewrite lookup_delete_ne; [done|]. intros ->. by apply (Hfree o).
      - intros d' h Hd. rewrite lookup_insert_ne; [done|]. intros ->.
        destruct (dir_open _ _ _ _ _ _ Hm Hd). congruence.
      - apply delete_mono, Hm.
      - intros fd' [Hin' Hne]%elem_of_difference. apply not_elem_of_singleton in Hne.
        rewrite lookup_delete_ne by done. by apply Hm. }
    cbn [fst snd pbind add_dir pret]. unfold pbind, add_dir, pret.
    rewrite <- (ms_dir_id _ _ _ _ Hm1). split; [done|]. apply mirrors_new_dir; [done| |].
    + cbn. rewrite Hsee. apply lookup_insert_eq.
    + intros h Hd. destruct (dir_open _ _ _ _ _ _ Hm Hd). congruence.
  - destruct Ho as [-> Hsee].
    assert (Hm1 : mirrors K H (with_sys s b') (set_backing m f)).
    { eapply mirrors_sys; [exact Hm|by rewrite Hsee|..]; rewrite Hsee; [done..|apply Hm|apply Hm]. }
    destruct (close_in_hand _ _ _ _ fd Hm1 Hin) as [Hr Hm2].
    unfold close_and_fail, ptry, pfail. destruct (call sys (SysClose fd) _) as [r s1].
    cbn [fst snd] in *. by subst r.
Qed.

Lemma sim_releasedir ctx n fh : sim ∅ ∅ (pt_releasedir sys ctx n fh) (mr_releasedir ctx n fh) same.
Proof.
  intros s m Hm. exists ∅, ∅. unfold pt_releasedir, mr_releasedir.
  pose proof (ms_dirs _ _ _ _ Hm fh) as Hh.
  destruct (pt_dirs s !! (fh : Z)) as [d|] eqn:Ed; inversion Hh as [? x Hx|]; subst.
  - unfold ptry, call. cbn [pt_sys with_dirs]. destruct (sys _ (SysClosedir d) (pt_sys s)) as [r b'] eqn:E.
    pose proof (closedir_place d x (pt_sys s) r b' Hx E) as Hsee. split; [by split|]. cbn [snd pret].
    pose proof Hm as []. split; cbn; rewrite ?Hsee; cbn; try assumption.
    + intros h. destruct (decide ((fh : Z) = h)) as [<-|Hne].
      * rewrite !lookup_delete_eq. constructor.
      * rewrite !lookup_delete_ne by done. eapply option_Forall2_weaken; [|exact (ms_dirs0 h)].
        intros d' y Hd' Hy. cbn. rewrite lookup_delete_ne; [done|]. intros ->.
        by apply Hne, (ms_dirs_apart0 _ _ d').
    + intros h h' d'. cbn. intros [_ H1]%lookup_delete_Some [_ H2]%lookup_delete_Some.
      by eapply ms_dirs_apart0.
  - split; [by split|]. cbn. rewrite delete_id by done. destruct s, m. exact Hm.
Qed.

(** ** Steps of callbacks *)

Section Steps.
Context {A A' C : Type} (K : gmap Z P) (H : gset Z).
Implicit Types Q : expected C -> expected C -> gmap Z P -> gset Z -> Prop.

Lemma sim_last (c : syscall C) oc Q :
  translate K ∅ c = Some oc -> (forall r, Q r r K H) -> sim K H (call sys c) (on osys oc) Q.
Proof.
  intros Hc HQ s m Hm. destruct (sim_call K H c oc Hc s m Hm) as (K' & H' & (Hr & -> & ->) & Hm').
  exists K, H. rewrite Hr. by split.
Qed.

Lemma sim_call_then (c : syscall A) oc (k : A -> M B C) k' Q :
  translate K ∅ c = Some oc -> (forall e, Q (Unexpected e) (Unexpected e) K H) ->
  (forall a, sim K H (k a) (k' a) Q) -> sim K H (pbind (call sys c) k) (nbind (on osys oc) k') Q.
Proof.
  intros Hc He Hk. apply sim_bind_l, sim_bind_r. eapply sim_try; [by apply sim_call|].
  intros r r' K' H' (<- & -> & ->). destruct r; [done|by apply sim_fail].
Qed.

Lemma sim_call_try (c : syscall A) oc (k : expected A -> M B C) k' Q :
  translate K ∅ c = Some oc -> (forall r, sim K H (k r) (k' r) Q) ->
  sim K H (ptry (call sys c) k) (ntry (on osys oc) k') Q.
Proof.
  intros Hc Hk. eapply sim_try; [by apply sim_call|]. by intros r r' K' H' (<- & -> & ->).
Qed.

(** The code looks at the error, the mirror hands it on. *)
Lemma sim_call_check (c : syscall A) oc (k : expected A -> M B C) k' Q :
  translate K ∅ c = Some oc -> (forall e, sim K H (k (Unexpected e)) (nfail e) Q) ->
  (forall a, sim K H (k (Value a)) (k' a) Q) ->
  sim K H (ptry (call sys c) k) (nbind (on osys oc) k') Q.
Proof. intros Hc He Hk. apply sim_bind_r, sim_call_try; [done|]. by intros []. Qed.

Lemma sim_node_then n (k : Inode -> M B C) k' Q :
  (forall e, Q (Unexpected e) (Unexpected e) K H) ->
  (forall i p K', K ⊆ K' -> K' !! in_path_fd i = Some p -> sim K' H (k i) (k' p) Q) ->
  sim K H (pbind (node n) k) (nbind (place n) k') Q.
Proof.
  intros He Hk. apply sim_bind_l, sim_bind_r. eapply sim_try; [apply sim_node|].
  intros r r' K' H' HQ. destruct r, r'; cbn in HQ; try done.
  - destruct HQ as (? & ? & ->). by apply Hk.
  - destruct HQ as (-> & -> & ->). by apply sim_fail.
Qed.

(** A step that opens, its result looked at by the code. *)
Lemma sim_open_check (c : syscall Z) oc (k : expected Z -> M B C) k' Q :
  sim K H (call sys c) (on osys oc) (got K H) ->
  (forall e, sim K H (k (Unexpected e)) (nfail e) Q) ->
  (forall fd p K', 0 <= fd -> fd ∉ H -> K ⊆ K' -> K' !! fd = Some p ->
     sim K' ({[fd]} ∪ H) (k (Value fd)) (k' p) Q) ->
  sim K H (ptry (call sys c) k) (nbind (on osys oc) k') Q.
Proof.
  intros Hc He Hk. apply sim_bind_r. eapply sim_try; [exact Hc|].
  intros r r' K' H' HQ. destruct r, r'; cbn in HQ; try done.
  - destruct HQ as (? & ? & ? & ? & ->). by apply Hk.
  - destruct HQ as (-> & -> & ->). apply He.
Qed.

Lemma sim_open_then (c : syscall Z) oc (k : Z -> M B C) k' Q :
  sim K H (call sys c) (on osys oc) (got K H) ->
  (forall e, Q (Unexpected e) (Unexpected e) K H) ->
  (forall fd p K', 0 <= fd -> fd ∉ H -> K ⊆ K' -> K' !! fd = Some p ->
     sim K' ({[fd]} ∪ H) (k fd) (k' p) Q) ->
  sim K H (pbind (call sys c) k) (nbind (on osys oc) k') Q.
Proof.
  intros Hc He Hk. apply sim_bind_l, sim_open_check; [done| |done]. intros e. by apply sim_fail.
Qed.

(** A node entered into the table, and its entry returned. *)
Lemma sim_enter fd p ino (Q : expected EntryOut -> expected EntryOut -> _ -> _ -> Prop) :
  fd ∈ H -> K !! fd = Some p ->
  (forall r, Q r r (delete fd K) (H ∖ {[fd]})) ->
  sim K H (let? n := table_insert sys fd ino in pret (entry_for n))
    (nbind (remember p ino) (fun n => nret (entry_for n))) Q.
Proof.
  intros Hin Hp HQ. apply sim_bind_l, sim_bind_r. eapply sim_try; [by apply sim_insert|].
  intros r r' K' H' (-> & -> & -> & ->). by apply sim_ret.
Qed.
End Steps.

(** ** Callbacks *)

(** What is known stays known. *)
Ltac lift_known :=
  repeat match goal with
  | HK : ?K ⊆ ?K', Hx : ?K !! ?i = Some ?p |- _ =>
      lazymatch goal with
      | _ : K' !! i = Some p |- _ => fail
      | |- _ => pose proof (lookup_weaken _ _ _ _ Hx HK)
      end
  end.

Ltac translated :=
  cbn [translate at_path];
  repeat match goal with Hx : ?K !! ?i = Some ?p |- context [?K !! ?i] => rewrite Hx end; reflexivity.

Lemma in_hand fd (H : gset Z) : fd ∈ {[fd]} ∪ H.
Proof. by apply elem_of_union_l, elem_of_singleton. Qed.

Lemma hand_empty fd : ({[fd]} ∪ ∅) ∖ {[fd]} = (∅ : gset Z).
Proof. by rewrite union_empty_r_L, difference_diag_L. Qed.

Lemma hand_swap fd fd' : fd' <> fd -> ({[fd']} ∪ ({[fd]} ∪ ∅)) ∖ {[fd]} = ({[fd']} ∪ ∅ : gset Z).
Proof.
  intros Hne. rewrite difference_union_distr_l_L, hand_empty.
  f_equal. apply difference_disjoint_L. by apply disjoint_singleton_l, not_elem_of_singleton.
Qed.

Lemma nbind_assoc {A A' C} (x : mirror_op F P D A) (k : A -> mirror_op F P D A')
    (l : A' -> mirror_op F P D C) m :
  nbind (nbind x k) l m = nbind x (fun a => nbind (k a) l) m.
Proof. unfold nbind. by destruct (x m) as [[] ?]. Qed.

Ltac sim_step :=
  lift_known;
  first
  [ apply sim_node_then; [by intros|intros ? ? ? ? ?]
  | apply sim_call_then; [translated|by intros|intros ?]
  | apply sim_call_check; [translated|intros ?|intros ?]
  | apply sim_call_try; [translated|intros ?]
  | eapply sim_open_then; [first [eapply sim_openat | eapply sim_open]; eassumption
    |by intros|intros ? ? ? ? ? ? ?]
  | eapply sim_open_check; [first [eapply sim_openat | eapply sim_open]; eassumption
    |intros ?|intros ? ? ? ? ? ? ?]
  | apply sim_last; [translated|by intros]
  | apply sim_ret; by split
  | apply sim_fail; by split
  | match goal with |- sim _ _ (if ?b then _ else _) (if ?b then _ else _) _ => destruct b end
  | match goal with |- sim _ _ (match ?r with _ => _ end) (match ?r with _ => _ end) _ => destruct r end ].

Lemma sim_statx K ctx ctx' n : sim K ∅ (pt_statx sys ctx n) (mr_statx osys ctx' n) same.
Proof. unfold pt_statx, mr_statx. repeat sim_step. Qed.

Lemma sim_remove ctx n name flags :
  sim ∅ ∅ (let? p := node n in call sys (SysUnlinkat (in_path_fd p) (c_str name) flags))
    (mr_remove osys flags ctx n name) same.
Proof. unfold mr_remove. repeat sim_step. Qed.

Lemma sim_rename ctx od old nd new flags :
  sim ∅ ∅ (pt_rename sys ctx od old nd new flags) (mr_rename osys ctx od old nd new flags) same.
Proof. unfold pt_rename, mr_rename. repeat sim_step. Qed.

Lemma sim_lookupx ctx n name : sim ∅ ∅ (pt_lookupx sys ctx n name) (mr_lookupx osys ctx n name) same.
Proof.
  unfold pt_lookupx, mr_lookupx. sim_step. eapply sim_try; [by apply sim_openat|].
  intros r r' K1 H1 HQ. destruct r as [fd|e], r' as [q|e']; cbn in HQ; try done.
  - destruct HQ as (? & ? & ? & ? & ->). sim_step.
    + apply sim_drop; [apply in_hand|]. apply sim_fail. split; [done|apply hand_empty].
    + apply sim_enter; [apply in_hand|done|]. intros r. split; [done|apply hand_empty].
  - destruct HQ as (-> & -> & ->). repeat sim_step.
Qed.

Lemma sim_when {C} K b (c : syscall unit) oc (k : unit -> M B C) k' :
  translate K ∅ c = Some oc -> sim K ∅ (k tt) (k' tt) same ->
  sim K ∅ (pbind (when b (call sys c)) k) (nbind (nwhen b (on osys oc)) k') same.
Proof.
  intros Hc Hk. destruct b; [|exact Hk]. apply sim_call_then; [done|done|by intros []].
Qed.

(** What is known of the tables. *)
Lemma sim_known {A C} K K' H (x : M B A) (y : mirror_op F P D C) Q s m :
  sim K' H x y Q -> mirrors K H s m -> K' ⊆ fds s ->
  exists K' H', Q (fst (x s)) (fst (y m)) K' H' /\ mirrors K' H' (snd (x s)) (snd (y m)).
Proof. intros Hx Hm HK. apply Hx. by eapply mirrors_known. Qed.

(** An open file, on both sides. *)
Lemma open_file_rel K H s m fh :
  mirrors K H s m ->
  match open_file m fh with
  | Some p => exists fd, file_fd s fh = fd /\ 0 <= fd /\ fds s !! fd = Some p
  | None => file_fd s fh < 0
  end.
Proof.
  intros Hm. unfold open_file, file_fd. destruct (fh =? 0); [lia|].
  pose proof (ms_files _ _ _ _ Hm fh) as Hh.
  destruct (pt_files s !! (fh : Z)) as [fd|]; inversion Hh as [? p [Hp H0]|]; subst; [|cbn; lia].
  by exists fd.
Qed.

Lemma sim_setstatx ctx n fh i :
  sim ∅ ∅ (pt_setstatx sys ctx n fh i) (mr_setstatx osys ctx n fh i) same.
Proof.
  intros s m Hm. unfold pt_setstatx, mr_setstatx. pose proof (open_file_rel _ _ s m fh Hm) as Hf.
  destruct (open_file m fh) as [p|].
  - destruct Hf as (fd & -> & H0 & Hp). destruct (Z.ltb_spec fd 0); [lia|].
    unfold on_target. destruct (Z.leb_spec 0 fd); [|lia].
    eapply (sim_known _ {[fd := p]}); [|exact Hm|by apply map_singleton_subseteq_l].
    pose proof (lookup_singleton_eq fd p) as Hk. apply sim_pret.
    repeat (apply sim_when; [translated|]). apply sim_statx.
  - destruct (Z.ltb_spec (file_fd s fh) 0); [|lia]. unfold on_target.
    destruct (Z.leb_spec 0 (file_fd s fh)); [lia|].
    eapply sim_known; [|exact Hm|apply map_empty_subseteq]. apply sim_bind_assoc. sim_step.
    apply sim_pret. repeat (apply sim_when; [translated|]). apply sim_statx.
Qed.

Lemma sim_link ctx old nd name : sim ∅ ∅ (pt_link sys ctx old nd name) (mr_link osys ctx old nd name) same.
Proof. unfold pt_link, mr_link. repeat sim_step. Qed.

Lemma sim_readlink ctx n : sim ∅ ∅ (pt_readlink sys ctx n) (mr_readlink osys ctx n) same.
Proof. unfold pt_readlink, mr_readlink. repeat sim_step. Qed.

Lemma sim_statfs ctx n : sim ∅ ∅ (pt_statfs sys ctx n) (mr_statfs osys ctx n) same.
Proof. unfold pt_statfs, mr_statfs. repeat sim_step. Qed.

Lemma sim_setxattr ctx n name value flags :
  sim ∅ ∅ (pt_setxattr sys ctx n name value flags) (mr_setxattr osys ctx n name value flags) same.
Proof. unfold pt_setxattr, mr_setxattr. repeat sim_step. Qed.

Lemma sim_removexattr ctx n name :
  sim ∅ ∅ (pt_removexattr sys ctx n name) (mr_removexattr osys ctx n name) same.
Proof. unfold pt_removexattr, mr_removexattr. repeat sim_step. Qed.

Lemma sim_open_file ctx n flags : sim ∅ ∅ (pt_open sys ctx n flags) (mr_open osys ctx n flags) same.
Proof.
  unfold pt_open, mr_open. do 2 sim_step. intros s m Hm.
  edestruct sim_add_file as (Ka & Ha & [Hr ->] & Hma); [..|exact Hm|];
    [apply in_hand|eassumption|done|].
  rewrite hand_empty in Hma. by exists Ka, ∅.
Qed.

Lemma sim_opendir ctx n : sim ∅ ∅ (pt_opendir sys ctx n) (mr_opendir osys ctx n) same.
Proof.
  unfold pt_opendir, mr_opendir. do 2 sim_step. intros s m Hm.
  edestruct sim_open_dir as (Ka & Ha & [Hr ->] & Hma); [..|exact Hm|];
    [apply in_hand|eassumption|].
  rewrite hand_empty in Hma. by exists Ka, ∅.
Qed.

(** The node opened for one call. *)
Lemma sim_reopen {A} n flags (c : Z -> syscall A) oc :
  (forall K fd p, K !! fd = Some p -> translate K ∅ (c fd) = Some (oc p)) ->
  sim ∅ ∅
    (let? i := node n in
     let? t := call sys (SysOpen (ProcFd (in_path_fd i)) flags) in
     attempt r := call sys (c t) in
     let? _ := drop_fd sys t in of_result r)
    (nbind (place n) (fun p => nbind (on osys (ObjOpen p flags)) (fun q => on osys (oc q)))) same.
Proof.
  intros Hc. do 2 sim_step. eapply sim_weaken_r; [|apply sim_call_try; [by apply Hc|]].
  - intros m. unfold ntry. by destruct (on osys _ m).
  - intros r. apply sim_drop; [apply in_hand|]. intros s m Hm. rewrite hand_empty in Hm. by eexists _, _.
Qed.

Lemma with_io_reopen {A} n fh mode (c : Z -> syscall A) s :
  file_fd s fh < 0 ->
  with_io sys n fh mode c s =
    (let? i := node n in
     let? t := call sys (SysOpen (ProcFd (in_path_fd i)) (Z.lor mode O_CLOEXEC)) in
     attempt r := call sys (c t) in
     let? _ := drop_fd sys t in of_result r) s.
Proof.
  intros Hf. unfold with_io, io_fd, pbind, ptry. destruct (Z.leb_spec 0 (file_fd s fh)); [lia|].
  destruct (node n s) as [[i|e] s1]; [|done].
  destruct (call sys (SysOpen _ _) s1) as [[t|e] s2]; [|done]. cbn [pret].
  destruct (call sys (c t) s2) as [r s3]. change (option_list (Some t)) with [t].
  cbn [drop_fds]. unfold pbind. by destruct (drop_fd sys t s3) as [[] ?].
Qed.

(** I/O on an open file, or on the node opened for it. *)
Lemma sim_with_io {A} n fh mode (c : Z -> syscall A) oc :
  (forall K fd p, K !! fd = Some p -> translate K ∅ (c fd) = Some (oc p)) ->
  sim ∅ ∅ (with_io sys n fh mode c) (nbind (io_place osys n fh mode) (fun p => on osys (oc p))) same.
Proof.
  intros Hc s m Hm. pose proof (open_file_rel _ _ s m fh Hm) as Hf.
  destruct (open_file m fh) as [p|] eqn:Ef.
  - destruct Hf as (fd & Hfd & H0 & Hp).
    destruct (sim_known ∅ {[fd := p]} ∅ (call sys (c fd)) (on osys (oc p)) (still {[fd := p]} ∅) s m)
      as (K1 & H1 & (Hr & -> & ->) & Hm1); [by apply sim_call, Hc, lookup_singleton_eq|done| |].
    { by apply map_singleton_subseteq_l. }
    unfold with_io, io_place, nbind, pbind, io_fd, ptry. rewrite Ef, Hfd.
    destruct (Z.leb_spec 0 fd); [|lia]. cbn [pret].
    destruct (call sys (c fd) s) as [r s1], (on osys (oc p) m) as [r' m1].
    cbn in Hr, Hm1. subst r'. by eexists _, _.
  - rewrite (with_io_reopen n fh mode c s) by done.
    replace (nbind (io_place osys n fh mode) (fun p => on osys (oc p)) m) with
      (nbind (place n) (fun p => nbind (on osys (ObjOpen p (Z.lor mode O_CLOEXEC)))
                                   (fun q => on osys (oc q))) m); [by apply sim_reopen|].
    unfold io_place, nbind. rewrite Ef. by destruct (place n m) as [[] ?].
Qed.

Lemma sim_tmpfile K p i mode :
  K !! in_path_fd i = Some p ->
  sim K ∅ (mkobjx_tmpfile sys i mode) (mr_tmpfile osys p mode) same.
Proof.
  intros Hp. unfold mkobjx_tmpfile, mr_tmpfile. do 2 sim_step.
  { apply sim_close_and_fail; [apply in_hand|]. split; [done|apply hand_empty]. }
  sim_step. { apply sim_close_and_fail; [apply in_hand|]. split; [done|apply hand_empty]. }
  apply sim_drop; [apply elem_of_union_r, in_hand|].
  match goal with Hn : _ ∉ {[_]} ∪ ∅ |- _ =>
    apply not_elem_of_union in Hn as [Hn%not_elem_of_singleton _]; rewrite hand_swap by done end.
  apply sim_enter; [apply in_hand|by rewrite lookup_delete_ne|].
  intros r. split; [done|apply hand_empty].
Qed.

(** The steps before the new object is looked up leave nothing in hand. *)
Lemma sim_create K p i mi :
  K !! in_path_fd i = Some p -> sim K ∅ (mkobjx_create sys i mi) (mr_create osys p mi) (still K ∅).
Proof. intros Hp. unfold mkobjx_create, mr_create. repeat sim_step. Qed.

Lemma sim_own K p i mi :
  K !! in_path_fd i = Some p -> sim K ∅ (mkobjx_chown sys i mi) (mr_own osys p mi) (still K ∅).
Proof. intros Hp. unfold mkobjx_chown, mr_own. repeat sim_step. Qed.

Lemma sim_still_then {A C} K (x : M B A) y (k : A -> M B C) k' :
  sim K ∅ x y (still K ∅) -> (forall a, sim K ∅ (k a) (k' a) same) ->
  sim K ∅ (pbind x k) (nbind y k') same.
Proof.
  intros Hx Hk. apply sim_bind_l, sim_bind_r. eapply sim_try; [exact Hx|].
  intros r r' K' H' (<- & -> & ->). destruct r; [done|by apply sim_fail].
Qed.

Lemma sim_mkobjx ctx n mi : sim ∅ ∅ (pt_mkobjx sys ctx n mi) (mr_mkobjx osys ctx n mi) same.
Proof.
  unfold pt_mkobjx, mr_mkobjx. sim_step. destruct (negb _); [by apply sim_tmpfile|].
  apply sim_still_then; [by apply sim_create|]. intros _.
  apply sim_still_then; [by apply sim_own|]. intros _. unfold find_node.
  eapply sim_weaken_r; [intros m; symmetry; apply nbind_assoc|]. sim_step.
  eapply sim_weaken_r; [intros m; symmetry; apply nbind_assoc|]. sim_step.
  - apply sim_close_and_fail; [apply in_hand|]. split; [done|apply hand_empty].
  - apply sim_enter; [apply in_hand|done|]. intros r. split; [done|apply hand_empty].
Qed.

(** ** Reading directories *)

Lemma stream_call {A} s m (c : syscall A) oc :
  mirrors ∅ ∅ s m -> translate ∅ (streams s) c = Some oc ->
  fst (call sys c s) = fst (on osys oc m) /\
  mirrors ∅ ∅ (snd (call sys c s)) (snd (on osys oc m)) /\
  streams (snd (call sys c s)) = streams s.
Proof.
  intros Hm Hc. unfold call, on. destruct (sys A c (pt_sys s)) as [r b'] eqn:E.
  destruct (call_on_place A c oc (pt_sys s) r b' (translate_mono _ _ _ _ c oc
    (map_empty_subseteq _) (reflexivity _) Hc) E) as (Ho & Hf & Hd).
  rewrite <- (ms_backing _ _ _ _ Hm), Ho. cbn [fst snd]. split; [done|]. split; [|done].
  eapply mirrors_sys; [exact Hm|done|by rewrite Hf|by rewrite Hd|apply map_empty_subseteq|].
  intros fd Hin. by apply not_elem_of_empty in Hin.
Qed.

Lemma sim_readdir_loop fuel d x : forall off out s m,
  mirrors ∅ ∅ s m -> streams s !! d = Some x ->
  fst (readdir_loop sys fuel d off out s) = fst (mr_pack osys fuel x off out m) /\
  mirrors ∅ ∅ (snd (readdir_loop sys fuel d off out s)) (snd (mr_pack osys fuel x off out m)).
Proof.
  induction fuel as [|fuel IH]; intros off out s m Hm Hx; [done|]. cbn [readdir_loop mr_pack].
  destruct (stream_call s m (SysReaddir d) (ObjReaddir x) Hm) as (Hr & Hm1 & Hs1);
    [cbn [translate]; by rewrite Hx|]. rewrite <- Hs1 in Hx.
  destruct (call sys (SysReaddir d) s) as [r s1], (on osys (ObjReaddir x) m) as [r' m1].
  cbn [fst snd] in Hr, Hm1, Hx. subst r'. destruct r as [[de|]|e]; [|done|done].
  destruct (stream_call s1 m1 (SysTelldir d) (ObjTelldir x) Hm1) as (Hr & Hm2 & Hs2);
    [cbn [translate]; by rewrite Hx|]. rewrite <- Hs2 in Hx.
  destruct (call sys (SysTelldir d) s1) as [r s2], (on osys (ObjTelldir x) m1) as [r' m2].
  cbn [fst snd] in Hr, Hm2, Hx. subst r'. destruct (add _ _) as [[[] out']|]; [by apply IH| |done].
  destruct (stream_call s2 m2 (SysSeekdir d (cast I64 off)) (ObjSeekdir x (cast I64 off)) Hm2)
    as (Hr & Hm3 & Hs3); [cbn [translate]; by rewrite Hx|].
  destruct (call sys (SysSeekdir _ _) s2), (on osys (ObjSeekdir _ _) m2). done.
Qed.

Lemma sim_readdir ctx n fh off out s m :
  mirrors ∅ ∅ s m ->
  fst (pt_readdir sys ctx n fh off out s) = fst (mr_readdir osys ctx n fh off out m) /\
  mirrors ∅ ∅ (snd (pt_readdir sys ctx n fh off out s)) (snd (mr_readdir osys ctx n fh off out m)).
Proof.
  intros Hm. unfold pt_readdir, mr_readdir. pose proof (ms_dirs _ _ _ _ Hm fh) as Hd.
  destruct (pt_dirs s !! (fh : Z)) as [d|]; inversion Hd as [? x Hx|]; subst; [|done].
  destruct (stream_call s m (SysSeekdir d (cast I64 off)) (ObjSeekdir x (cast I64 off)) Hm)
    as (Hr & Hm1 & Hs1); [cbn [translate]; by rewrite Hx|]. rewrite <- Hs1 in Hx.
  destruct (call sys (SysSeekdir _ _) s), (on osys (ObjSeekdir _ _) m).
  by apply sim_readdir_loop.
Qed.

(** ** Every callback *)

Lemma sim_same {A} K (x : M B A) y s m :
  sim K ∅ x y same -> mirrors K ∅ s m ->
  fst (x s) = fst (y m) /\ mirrors ∅ ∅ (snd (x s)) (snd (y m)).
Proof.
  intros Hx Hm. destruct (Hx s m Hm) as (K' & H' & [Hr ->] & Hm'). split; [done|].
  eapply mirrors_known; [exact Hm'|apply map_empty_subseteq].
Qed.

(** An answer computed from the result. *)
Lemma sim_answer {A} (x : M B A) y s m (f : expected A -> answer) :
  sim ∅ ∅ x y same -> mirrors ∅ ∅ s m ->
  fst (let '(r, s) := x s in (f r, s)) = fst (let '(r, m) := y m in (f r, m)) /\
  mirrors ∅ ∅ (snd (let '(r, s) := x s in (f r, s))) (snd (let '(r, m) := y m in (f r, m))).
Proof.
  intros Hx Hm. destruct (sim_same _ _ _ s m Hx Hm) as [Hr Hm'].
  destruct (x s), (y m). cbn in *. by subst.
Qed.

Lemma sim_read ctx n fh off out s m :
  mirrors ∅ ∅ s m ->
  fst (pt_read sys ctx n fh off out s) = fst (mr_read osys ctx n fh off out m) /\
  mirrors ∅ ∅ (snd (pt_read sys ctx n fh off out s)) (snd (mr_read osys ctx n fh off out m)).
Proof.
  intros Hm. unfold pt_read, mr_read.
  destruct (sim_same _ _ _ s m (sim_with_io n fh O_RDONLY
    (fun fd => SysPread fd (zlen out) (cast I64 off))
    (fun p => ObjPread p (zlen out) (cast I64 off)) ltac:(intros; translated)) Hm) as [Hr Hm'].
  destruct (with_io _ _ _ _ _ s) as [r s'], (nbind _ _ m) as [r' m'].
  cbn [fst snd] in Hr, Hm'. subst r'. by destruct r.
Qed.

(** A call on a node that fills a span. *)
Lemma sim_node_span n out (c : Z -> syscall (Z * bytes)) oc s m :
  (forall K fd p, K !! fd = Some p -> translate K ∅ (c fd) = Some (oc p)) -> mirrors ∅ ∅ s m ->
  let x := let '(r, s) := (let? i := node n in call sys (c (in_path_fd i))) s in span_result out r s in
  let y := nspan out (nbind (place n) (fun p => on osys (oc p)) m) in
  fst x = fst y /\ mirrors ∅ ∅ (snd x) (snd y).
Proof.
  intros Hc Hm. cbv zeta.
  destruct (sim_same ∅ (let? i := node n in call sys (c (in_path_fd i)))
    (nbind (place n) (fun p => on osys (oc p))) s m) as [Hr Hm']; [|done|].
  { sim_step. apply sim_last; [by apply Hc|done]. }
  destruct (pbind _ _ s) as [r s'], (nbind _ _ m) as [r' m'].
  cbn [fst snd] in Hr, Hm'. subst r'. by destruct r as [[]|].
Qed.

Lemma sim_write ctx n fh off data :
  sim ∅ ∅ (pt_write sys ctx n fh off data) (mr_write osys ctx n fh off data) same.
Proof. apply (sim_with_io n fh _ _ (fun p => ObjPwrite p data (cast I64 off))). intros; translated. Qed.

Lemma sim_fallocate ctx n fh mode off len :
  sim ∅ ∅ (pt_fallocate sys ctx n fh mode off len) (mr_fallocate osys ctx n fh mode off len) same.
Proof.
  apply (sim_with_io n fh _ _ (fun p => ObjFallocate p (cast I32 mode) (cast I64 off) (cast I64 len))).
  intros; translated.
Qed.

Lemma sim_lookup_root ctx : sim ∅ ∅ (pt_lookup_root ctx) (nret (entry_for NodeId_root)) same.
Proof. by apply sim_ret. Qed.

Lemma sim_unlink ctx n name : sim ∅ ∅ (pt_unlink sys ctx n name) (mr_remove osys 0 ctx n name) same.
Proof. apply sim_remove. Qed.

Lemma sim_rmdir ctx n name :
  sim ∅ ∅ (pt_rmdir sys ctx n name) (mr_remove osys AT_REMOVEDIR ctx n name) same.
Proof. apply sim_remove. Qed.

(** The answer of a callback that also stores through an argument. *)
Lemma sim_answer_out {A O} (f : A -> O -> answer) (x : A * O * PassthroughFs B) (y : A * O * mirror F P D) :
  fst x = fst y /\ mirrors ∅ ∅ (snd x) (snd y) ->
  fst (let '(r, o, s) := x in (f r o, s)) = fst (let '(r, o, m) := y in (f r o, m)) /\
  mirrors ∅ ∅ (snd (let '(r, o, s) := x in (f r o, s))) (snd (let '(r, o, m) := y in (f r o, m))).
Proof. destruct x as [[r o] s], y as [[r' o'] m]. intros [Hr Hm]. by injection Hr as <- <-. Qed.

#[local] Hint Resolve sim_lookup_root sim_lookupx sim_statx sim_setstatx sim_mkobjx sim_unlink
  sim_rmdir sim_rename sim_link sim_readlink sim_open_file sim_release sim_write sim_fallocate
  sim_statfs sim_opendir sim_releasedir sim_setxattr sim_removexattr : mirror.

(** No callback tells the two daemons apart. *)
#[export] Instance passthrough_mirrored :
  FsSimulation (passthrough sys) (mirrored osys) (mirrors ∅ ∅).
Proof.
  intros cb s m Hm.
  destruct cb; cbn [ask passthrough mirrored fs_init fs_destroy fs_lookup_root
    fs_lookupx fs_forget fs_forget_multi fs_statx fs_setstatx fs_mkobjx fs_unlink fs_rmdir fs_rename
    fs_link fs_readlink fs_open fs_release fs_read fs_write fs_fallocate fs_statfs fs_opendir
    fs_releasedir fs_readdir fs_getxattr fs_setxattr fs_listxattr fs_removexattr];
  try (apply sim_answer; [by auto with mirror|exact Hm]); try done.
  - split; [done|by apply sim_forget].
  - split; [done|by apply sim_forget_multi].
  - by apply sim_answer_out, sim_read.
  - by apply sim_answer_out, sim_readdir.
  - apply sim_answer_out, (sim_node_span n out (fun fd => SysLgetxattr (ProcFd fd) (c_str name) (zlen out))
      (fun p => ObjLgetxattr p (c_str name) (zlen out))); [intros; translated|done].
  - apply sim_answer_out, (sim_node_span n out (fun fd => SysLlistxattr (ProcFd fd) (zlen out))
      (fun p => ObjLlistxattr p (zlen out))); [intros; translated|done].
Qed.

(** The daemon as the session constructs it. *)
Lemma mirrors_make backing b root :
  vw_fds (see b) !! backing = Some root ->
  mirrors ∅ ∅ (PassthroughFs_make backing b) (mirror_make root (vw_files (see b))).
Proof.
  intros Hb. assert (Hn : forall n fd, fd_of (PassthroughFs_make backing b) n = Some fd ->
    n = ByNode NodeId_root /\ fd = backing).
  { intros [n|h] fd; cbn [fd_of PassthroughFs_make pt_table pt_files];
      [|by rewrite lookup_empty]. unfold InodeTable_make.
    destruct (decide (n = NodeId_root)) as [->|Hne]; [by rewrite lookup_singleton_eq; intros [= <-]|].
    by rewrite lookup_singleton_ne by done. }
  split; cbn [PassthroughFs_make mirror_make pt_table pt_files pt_dirs pt_file_id pt_dir_id pt_sys
    mr_nodes mr_files mr_dirs mr_file_id mr_dir_id mr_backing]; try done.
  - apply map_empty_subseteq.
  - intros n. unfold InodeTable_make. destruct (decide (n = NodeId_root)) as [->|Hne].
    + rewrite !lookup_singleton_eq. by constructor.
    + rewrite !lookup_singleton_ne by done. constructor.
  - intros h. rewrite !lookup_empty. constructor.
  - intros o o' fd [-> _]%Hn [-> _]%Hn. done.
  - intros h. rewrite !lookup_empty. constructor.
Qed.
End Mirrors.

(** ** The theorem *)

(** Whatever requests a worker finds in its ring, the passthrough daemon,
    with the backing directory open on descriptor [backing], replies the same
    bytes as the daemon that holds places instead of descriptors (MirrorSpec.v),
    reaches the same verdict and leaves the same files: a descriptor is never
    used for another file than the one it was opened for, none is used after
    it was closed, and opening and closing them cannot be observed. *)
Theorem passthrough_mirrors_backing {B F P D} sys osys (see : B -> view F P D)
    `{!Descriptors sys osys see} backing b root impl k evs :
  vw_fds (see b) !! backing = Some root ->
  outcome_rel (fun '(k1, w1, v1) '(k2, w2, v2) =>
      k1 = k2 /\ v1 = v2 /\ w_impl w1 = w_impl w2 /\
      vw_files (see (pt_sys (w_fs w1))) = mr_backing (w_fs w2))
    (run (passthrough sys) k {| w_impl := impl; w_fs := PassthroughFs_make backing b |} evs)
    (run (mirrored osys) k {| w_impl := impl; w_fs := mirror_make root (vw_files (see b)) |} evs).
Proof.
  intros Hb. eapply outcome_rel_impl; [|eapply (run_rel _ _ (mirrors see ∅ ∅))].
  - intros [[k1 w1] v1] [[k2 w2] v2] (-> & [Hi Hm] & ->). by destruct Hm.
  - split; [done|by apply mirrors_make].
Qed.

Lemma passthrough_mirrors_backing_witness :
  outcome_rel (fun '(k1, w1, v1) '(k2, w2, v2) =>
      k1 = k2 /\ v1 = v2 /\ w_impl w1 = w_impl w2 /\
      vw_files (pt_sys (w_fs w1)) = mr_backing (w_fs w2))
    (run (passthrough (table_sys toy_osys)) demo_worker
       {| w_impl := demo_impl; w_fs := PassthroughFs_make 5 toy_process |}
       [demo_fetch 1 0 demo_lookup_view 1])
    (run (mirrored toy_osys) demo_worker
       {| w_impl := demo_impl; w_fs := mirror_make 0 toy_files |}
       [demo_fetch 1 0 demo_lookup_view 1]).
Proof.
  by apply (passthrough_mirrors_backing (table_sys toy_osys) toy_osys (fun b => b) 5
    toy_process).
Defined.
