(* ===== verification/PathWalk.v ===== *)
(** * A path through the mount leads to the backing file

    The kernel walks a path by one LOOKUPX per name, from nodeid 1. In whatever
    state the passthrough daemon is, the walk arrives at the node of the file
    the same names lead to in the backing directory: the node's descriptor is
    open on that file, and STATX answers its attributes. The daemon identifies
    files by inode number; that this is right rests on the kernel not using the
    number of a file again while a descriptor to it is open, and on no file
    having number 1, which the daemon gives to the root. *)

From S2P Require Import Prelude Memory Pod Abi Types DirentWriter Filesystem Replier Handlers.
From S2P Require Import Callbacks UringEntry UringWorker Simulation InodeTable Passthrough.
From S2P Require Import PassthroughSafety Backing MirrorSpec Mirror.
From stdpp Require Import gmap.
#[local] Open Scope Z_scope.
#[local] Open Scope daemon_scope.

(** ** Files and their numbers *)

Definition path_flags : Z := Z.lor (Z.lor O_PATH O_NOFOLLOW) O_CLOEXEC.

(** [x] is the result [y], [f] of it. *)
Definition result_of {A C} (f : A -> C) (x : expected A) (y : expected C) : Prop :=
  match x, y with
  | Value a, Value c => f a = c
  | Unexpected e, Unexpected e' => e = e'
  | _, _ => False
  end.

Section Inodes.
Context {B F P D I : Type}.
Context (sys : forall A, syscall A -> B -> expected A * B).
Context (osys : forall A, objcall P D A -> F -> expected A * F).
Context (see : B -> view F P D).

(** [obj] is the file at a place; [resolve] what a name in a directory leads to
    and [attr] the attributes of a file, in given files; [ino] its number.
    Looking at files does not change them. *)
Class Inodes (obj : P -> I) (ino : I -> Z) (resolve : F -> I -> bytes -> expected I)
    (attr : F -> I -> expected stat) : Prop := {
  openat_resolves : forall p name f, exists r,
    osys P (ObjOpenat p name path_flags 0) f = (r, f) /\ result_of obj r (resolve f (obj p) name);
  fstatat_attr : forall p f, osys stat (ObjFstatat p) f = (attr f (obj p), f);
  fstat_attr : forall p f, osys stat (ObjFstat p) f = (attr f (obj p), f);
  reopen_same : forall p f flags q f', osys P (ObjOpen p flags) f = (Value q, f') -> obj q = obj p;
  attr_ino : forall f i st, attr f i = Value st -> st_ino st = ino i;
  ino_not_root : forall i, ino i <> NodeId_root;
  (** No number is used twice among open files. *)
  ino_held : forall b fd p name flags mode fd' b' q fd0 p0, vw_fds (see b) !! fd = Some p ->
    sys Z (SysOpenat fd name flags mode) b = (Value fd', b') -> vw_fds (see b') !! fd' = Some q ->
    vw_fds (see b) !! fd0 = Some p0 -> ino (obj q) = ino (obj p0) -> obj q = obj p0;
}.
End Inodes.
Arguments openat_resolves {B F P D I sys osys see obj ino resolve attr _} p name f.
Arguments fstatat_attr {B F P D I sys osys see obj ino resolve attr _} p f.
Arguments fstat_attr {B F P D I sys osys see obj ino resolve attr _} p f.
Arguments reopen_same {B F P D I sys osys see obj ino resolve attr _} p f flags q f' _.
Arguments attr_ino {B F P D I sys osys see obj ino resolve attr _} f i st _.
Arguments ino_not_root {B F P D I sys osys see obj ino resolve attr _} i.
Arguments ino_held {B F P D I sys osys see obj ino resolve attr _}
  b fd p name flags mode fd' b' q fd0 p0 _ _ _ _ _.

(** ** Walks *)

(** One LOOKUPX per name. *)
Fixpoint walk {S} (fs : Filesystem S) (ctx : Context) (n : NodeId) (names : list bytes) (s : S) :
    expected NodeId * S :=
  match names with
  | [] => (Value n, s)
  | name :: names =>
      let '(r, s) := fs_lookupx fs ctx n name s in
      match r with
      | Value e => if eo_negative e then (Unexpected ENOENT, s) else walk fs ctx (eo_nodeid e) names s
      | Unexpected e => (Unexpected e, s)
      end
  end.

Section Paths.
Context {B F P D I : Type}.
Context (sys : forall A, syscall A -> B -> expected A * B).
Context (osys : forall A, objcall P D A -> F -> expected A * F).
Context (see : B -> view F P D) `{!Descriptors sys osys see}.
Context (obj : P -> I) (ino : I -> Z) (resolve : F -> I -> bytes -> expected I).
Context (attr : F -> I -> expected stat) `{!Inodes sys osys see obj ino resolve attr}.
Context (root : P).

(** Where the names lead, without the daemon. *)
Fixpoint resolve_path (f : F) (i : I) (names : list bytes) : expected I :=
  match names with
  | [] => Value i
  | name :: names =>
      match resolve f i (c_str name) with
      | Value j =>
          match attr f j with
          | Value _ => resolve_path f j names
          | Unexpected e => Unexpected e
          end
      | Unexpected e => Unexpected e
      end
  end.

(** Nodes are under the numbers of their files; node 1 is the root. *)
Definition named_in (t : gmap Z (P * Z)) : Prop :=
  is_Some (t !! (NodeId_root : Z)) /\
  forall n p k, t !! n = Some (p, k) ->
    if decide (n = NodeId_root) then obj p = obj root else ino (obj p) = n.

Definition named (m : mirror F P D) : Prop := named_in (mr_nodes m).

Definition kept {A} (x : mirror_op F P D A) : Prop := forall m, named m -> named (snd (x m)).

Lemma kept_ret {A} (a : A) : kept (nret a).
Proof. by intros m Hm. Qed.

Lemma kept_fail {A} e : kept (nfail (A := A) e).
Proof. by intros m Hm. Qed.

Lemma kept_on {A} (c : objcall P D A) : kept (on osys c).
Proof. intros m Hm. unfold on. by destruct (osys A c _). Qed.

Lemma kept_place n : kept (place n).
Proof. intros m Hm. unfold place. by destruct (mr_nodes m !! (n : Z)) as [[]|]. Qed.

Lemma kept_bind {A C} (x : mirror_op F P D A) (k : A -> mirror_op F P D C) :
  kept x -> (forall a, kept (k a)) -> kept (nbind x k).
Proof.
  intros Hx Hk m Hm. specialize (Hx m Hm). unfold nbind.
  destruct (x m) as [[a|e] m']; [by apply Hk|done].
Qed.

Lemma kept_try {A C} (x : mirror_op F P D A) (k : expected A -> mirror_op F P D C) :
  kept x -> (forall r, kept (k r)) -> kept (ntry x k).
Proof. intros Hx Hk m Hm. specialize (Hx m Hm). unfold ntry. destruct (x m). by apply Hk. Qed.

Lemma named_insert t n p k :
  named_in t -> (if decide (n = NodeId_root) then obj p = obj root else ino (obj p) = n) ->
  named_in (<[n := (p, k)]> t).
Proof.
  intros [Hr Ht] Hp. split.
  - destruct (decide (n = NodeId_root)) as [->|Hne]; [by rewrite lookup_insert_eq|].
    by rewrite lookup_insert_ne.
  - intros n' p' k' [[<- [= <- <-]]|[_ Hl]]%lookup_insert_Some; [done|by apply (Ht n' p' k')].
Qed.

Lemma kept_remember p n : ino (obj p) = n -> kept (remember p n).
Proof.
  intros Hp m Hm. unfold remember, named.
  destruct (mr_nodes m !! n) as [[q k]|] eqn:E; cbn; apply named_insert; [done| |done|].
  - by apply (proj2 Hm n q k).
  - pose proof (ino_not_root (obj p)). by rewrite decide_False by congruence.
Qed.

(** A call, and what is known of its result. *)
Lemma kept_call {A C} (c : objcall P D A) (k : A -> mirror_op F P D C) :
  (forall f a f', osys A c f = (Value a, f') -> kept (k a)) -> kept (nbind (on osys c) k).
Proof.
  intros Hk m Hm. unfold nbind, on. destruct (osys A c (mr_backing m)) as [[a|e] f'] eqn:E; [|done].
  by apply (Hk _ _ _ E).
Qed.

Lemma fstatat_ino p f st f' : osys stat (ObjFstatat p) f = (Value st, f') -> st_ino st = ino (obj p).
Proof. rewrite fstatat_attr. intros [= E _]. by eapply attr_ino. Qed.

Lemma fstat_ino p f st f' : osys stat (ObjFstat p) f = (Value st, f') -> st_ino st = ino (obj p).
Proof. rewrite fstat_attr. intros [= E _]. by eapply attr_ino. Qed.

Create HintDb kept.
#[local] Hint Resolve kept_ret kept_fail kept_on kept_place kept_bind kept_try : kept.

Ltac kept_step :=
  first
  [ apply kept_call; intros ? ? ? ?
  | apply kept_bind; [|intros ?]
  | apply kept_try; [|intros ?]
  | match goal with
    | |- kept (if ?b then _ else _) => destruct b
    | |- kept (match ?r with _ => _ end) => destruct r
    end
  | by auto with kept ].

Lemma kept_found p f st f' : osys stat (ObjFstatat p) f = (Value st, f') -> kept (remember p (st_ino st)).
Proof. intros E%fstatat_ino. by apply kept_remember. Qed.
#[local] Hint Resolve kept_found : kept.

Lemma kept_lookupx ctx n name : kept (mr_lookupx osys ctx n name).
Proof. unfold mr_lookupx. repeat kept_step. eauto with kept. Qed.

Lemma kept_tmpfile d mode : kept (mr_tmpfile osys d mode).
Proof.
  unfold mr_tmpfile. apply kept_call; intros ? a ? _. apply kept_call; intros ? st ? Hst%fstat_ino.
  apply kept_call; intros ? p ? Hp%reopen_same. repeat kept_step. apply kept_remember. congruence.
Qed.

Lemma kept_mkobjx ctx n mi : kept (mr_mkobjx osys ctx n mi).
Proof.
  unfold mr_mkobjx. apply kept_bind; [apply kept_place|]. intros d.
  case_if; [apply kept_tmpfile|]. unfold mr_create, mr_own, find_node. repeat kept_step. eauto with kept.
Qed.

Lemma kept_statx ctx n : kept (mr_statx osys ctx n).
Proof. unfold mr_statx. repeat kept_step. Qed.

Lemma kept_when b x : kept x -> kept (nwhen b x).
Proof. intros Hx. destruct b; [exact Hx|apply kept_ret]. Qed.
#[local] Hint Resolve kept_statx kept_when : kept.

Lemma kept_setstatx ctx n fh i : kept (mr_setstatx osys ctx n fh i).
Proof.
  intros m Hm. unfold mr_setstatx. destruct (open_file m fh) as [p|].
  - apply (kept_bind (nwhen _ _)); [by auto with kept| |done]. intros _. repeat kept_step.
  - apply (kept_bind (place n)); [by auto with kept| |done]. intros p. repeat kept_step.
Qed.

Lemma kept_io {A} n fh mode (c : P -> objcall P D A) :
  kept (nbind (io_place osys n fh mode) (fun p => on osys (c p))).
Proof.
  apply kept_bind; [|auto with kept]. intros m Hm. unfold io_place.
  destruct (open_file m fh); [done|]. by apply (kept_bind (place n)); auto with kept.
Qed.

Lemma named_forget t n k : named_in t -> named_in (forget_lookups t n k).
Proof.
  intros Ht. unfold forget_lookups. case_if; [done|]. apply Z.eqb_neq in E.
  destruct (t !! (n : Z)) as [[p k0]|] eqn:El; [|done].
  case_if; [|by apply named_insert, (proj2 Ht n p k0)]. split.
  - by rewrite lookup_delete_ne; [apply Ht|].
  - intros n' p' k' [_ Hl]%lookup_delete_Some. by apply (proj2 Ht n' p' k').
Qed.

Lemma named_forget_multi items : forall t, named_in t ->
  named_in (fold_left (fun t '(n, k) => forget_lookups t n k) items t).
Proof. induction items as [|[n k] items IH]; intros t Ht; [done|]. by apply IH, named_forget. Qed.

Lemma kept_pack fuel d : forall off out m, named m -> named (snd (mr_pack osys fuel d off out m)).
Proof.
  induction fuel as [|fuel IH]; intros off out m Hm; [done|]. cbn [mr_pack].
  pose proof (kept_on (ObjReaddir d) m Hm) as H1. destruct (on osys _ m) as [[[de|]|e] m1]; try done.
  pose proof (kept_on (ObjTelldir d) m1 H1) as H2. destruct (on osys _ m1) as [r m2].
  destruct (add _ _) as [[[] out']|]; [by apply IH| |done].
  pose proof (kept_on (ObjSeekdir d (cast I64 off)) m2 H2) as H3. by destruct (on osys _ m2).
Qed.

(** What changes other tables. *)
Lemma kept_other {A} (r : mirror F P D -> expected A) g :
  (forall m, mr_nodes (g m) = mr_nodes m) -> kept (fun m => (r m, g m)).
Proof. intros Hg m Hm. unfold named. cbn [snd]. by rewrite Hg. Qed.

Lemma kept_at {A} (x : mirror_op F P D A) m : kept x -> named m -> named (snd (x m)).
Proof. intros Hx. apply Hx. Qed.

Lemma kept_open ctx n flags : kept (mr_open osys ctx n flags).
Proof. unfold mr_open. repeat kept_step. by apply kept_other. Qed.

Lemma kept_opendir ctx n : kept (mr_opendir osys ctx n).
Proof. unfold mr_opendir. repeat kept_step. by apply kept_other. Qed.

#[local] Hint Resolve kept_lookupx kept_mkobjx kept_setstatx kept_open kept_opendir : kept.
#[local] Hint Unfold mr_remove mr_rename mr_link mr_readlink mr_write mr_fallocate mr_statfs
  mr_setxattr mr_removexattr : kept.

#[export] Instance mirrored_named : FsInvariant (mirrored osys) named.
Proof.
  intros cb m Hm. destruct cb; cbn [invoke mirrored fs_init fs_destroy fs_lookup_root
    fs_lookupx fs_forget fs_forget_multi fs_statx fs_setstatx fs_mkobjx fs_unlink fs_rmdir fs_rename
    fs_link fs_readlink fs_open fs_release fs_read fs_write fs_fallocate fs_statfs fs_opendir
    fs_releasedir fs_readdir fs_getxattr fs_setxattr fs_listxattr fs_removexattr]; try done;
  try (apply kept_at; [|exact Hm]; solve [auto with kept | autounfold with kept; apply kept_io
    | autounfold with kept; repeat kept_step]).
  - by apply named_forget.
  - by apply named_forget_multi.
  - unfold mr_read. pose proof (kept_io n fh O_RDONLY (fun p => ObjPread p (zlen out) (cast I64 off)) m Hm).
    by destruct (nbind _ _ m) as [[] ?].
  - unfold mr_readdir. destruct (mr_dirs m !! (fh : Z)) as [d|]; [|done].
    pose proof (kept_on (ObjSeekdir d (cast I64 off)) m Hm). destruct (on osys _ m). by apply kept_pack.
  - unfold mr_getxattr. assert (Hk : kept (nbind (place n)
      (fun p => on osys (ObjLgetxattr p (c_str name) (zlen out))))) by repeat kept_step.
    specialize (Hk m Hm). by destruct (nbind _ _ m) as [[[]|] ?].
  - unfold mr_listxattr. assert (Hk : kept (nbind (place n)
      (fun p => on osys (ObjLlistxattr p (zlen out))))) by repeat kept_step.
    specialize (Hk m Hm). by destruct (nbind _ _ m) as [[[]|] ?].
Qed.

(** ** Lookups *)

(** A node's descriptor is open on its place. *)
Lemma node_place s m n p k :
  mirrors see ∅ ∅ s m -> mr_nodes m !! n = Some (p, k) ->
  exists node, pt_table s !! n = Some node /\ vw_fds (see (pt_sys s)) !! in_path_fd node = Some p.
Proof.
  intros Hm Hn. pose proof (ms_nodes _ _ _ _ _ Hm n) as Hd. rewrite Hn in Hd.
  destruct (pt_table s !! n) as [i|]; inversion Hd as [? ? [Hfd _]|]; subst. by exists i.
Qed.

(** A file found that has the number of a node is the file of that node, whose
    descriptor is open. *)
Lemma found_is_node s m n d k name p f' n0 q k0 :
  mirrors see ∅ ∅ s m -> mr_nodes m !! n = Some (d, k) ->
  osys P (ObjOpenat d name path_flags 0) (mr_backing m) = (Value p, f') ->
  mr_nodes m !! n0 = Some (q, k0) -> ino (obj p) = ino (obj q) -> obj p = obj q.
Proof.
  intros Hm Hn Ho Hn0 Hi.
  destruct (node_place s m n d k Hm Hn) as (i & _ & Hfd).
  destruct (node_place s m n0 q k0 Hm Hn0) as (j & _ & Hfq).
  pose proof (openat_place (sys := sys) _ _ name path_flags 0 _ Hfd) as Hop. unfold opens in Hop.
  destruct (sys Z _ _) as [r b'] eqn:Es. rewrite (ms_backing _ _ _ _ _ Hm), Ho in Hop.
  destruct Hop as (_ & _ & fd' & -> & _ & _ & Hb').
  eapply ino_held; [exact Hfd|exact Es|by rewrite Hb', lookup_insert_eq|exact Hfq|exact Hi].
Qed.

Definition negative_entry : EntryOut :=
  {| eo_nodeid := NodeId_invalid; eo_entry_valid := 0; eo_negative := true |}.

(** What a lookup in the directory at [d] answers, from the files alone. *)
Definition lookup_result (f : F) (d : I) (name : bytes) : expected EntryOut :=
  match resolve f d (c_str name) with
  | Value i => match attr f i with Value _ => Value (entry_for (ino i)) | Unexpected e => Unexpected e end
  | Unexpected e => if e =? ENOENT then Value negative_entry else Unexpected e
  end.

Lemma set_backing_same (m : mirror F P D) : set_backing m (mr_backing m) = m.
Proof. by destruct m. Qed.

Lemma on_stat p m : on osys (ObjFstatat p) m = (attr (mr_backing m) (obj p), m).
Proof. unfold on. by rewrite fstatat_attr, set_backing_same. Qed.

Lemma mirror_lookup ctx n name m d k :
  mr_nodes m !! (n : Z) = Some (d, k) ->
  let x := mr_lookupx osys ctx n name m in
  fst x = lookup_result (mr_backing m) (obj d) name /\ mr_backing (snd x) = mr_backing m /\
  forall i st, resolve (mr_backing m) (obj d) (c_str name) = Value i ->
    attr (mr_backing m) i = Value st -> exists p k' f',
    osys P (ObjOpenat d (c_str name) path_flags 0) (mr_backing m) = (Value p, f') /\ obj p = i /\
    mr_nodes (snd x) !! ino i = Some (fst (default (p, 0) (mr_nodes m !! ino i)), k').
Proof.
  intros Hn. cbv zeta. unfold mr_lookupx, nbind, place, lookup_result. rewrite Hn.
  destruct (openat_resolves d (c_str name) (mr_backing m)) as (r & Ho & Hr).
  assert (Hon : on osys (ObjOpenat d (c_str name) path_flags 0) m = (r, m)).
  { unfold on. by rewrite Ho, set_backing_same. }
  unfold ntry. change (Z.lor (Z.lor O_PATH O_NOFOLLOW) O_CLOEXEC) with path_flags. rewrite Hon.
  destruct r as [p|e], (resolve _ _ _) as [i|e']; cbn [result_of] in Hr; try done; subst.
  - rewrite on_stat. destruct (attr _ _) as [st|e] eqn:Ea.
    2: { split_and!; [done|done|]. intros i st [= <-]. by rewrite Ea. }
    rewrite (attr_ino _ _ _ Ea). unfold remember.
    destruct (default (p, 0) (mr_nodes m !! ino (obj p))) as [q k'] eqn:Ed. split; [done|].
    split; [done|]. intros i st' [= <-] _. eexists _, _, _. split; [done|]. split; [done|].
    rewrite Ed. apply lookup_insert_eq.
  - case_if; by split_and!.
Qed.

(** A lookup by the daemon: the node it answers is the file the name leads to. *)
Lemma lookup_step s m ctx n name d k :
  mirrors see ∅ ∅ s m -> named m -> mr_nodes m !! (n : Z) = Some (d, k) ->
  let x := pt_lookupx sys ctx n name s in
  fst x = lookup_result (mr_backing m) (obj d) name /\
  exists m', mirrors see ∅ ∅ (snd x) m' /\ named m' /\ mr_backing m' = mr_backing m /\
  forall i st, resolve (mr_backing m) (obj d) (c_str name) = Value i ->
    attr (mr_backing m) i = Value st ->
    exists p k', mr_nodes m' !! ino i = Some (p, k') /\ obj p = i.
Proof.
  intros Hm Hnm Hn. cbv zeta.
  destruct (mirror_lookup ctx n name m d k Hn) as (Hr & Hf & Hi).
  destruct (sim_same see _ _ _ s m (sim_lookupx sys osys see ctx n name) Hm) as [Hr' Hm'].
  split; [by rewrite Hr'|]. exists (snd (mr_lookupx osys ctx n name m)).
  split; [done|]. split; [by apply kept_lookupx|]. split; [done|]. intros i st Hres Ha.
  destruct (Hi i st Hres Ha) as (p & k' & f' & Ho & Hp & Hl). eexists _, _. split; [exact Hl|].
  destruct (mr_nodes m !! ino i) as [[q k0]|] eqn:E; [|done]. cbn.
  pose proof (proj2 Hnm _ _ _ E) as Hq. rewrite decide_False in Hq by apply ino_not_root.
  rewrite <- Hp. symmetry. eapply (found_is_node s m n d k (c_str name) p f' _ q k0); try done.
  by rewrite Hp, Hq.
Qed.

Lemma walk_resolves ctx names : forall s m n d k,
  mirrors see ∅ ∅ s m -> named m -> mr_nodes m !! (n : Z) = Some (d, k) ->
  let x := walk (passthrough sys) ctx n names s in
  exists m', mirrors see ∅ ∅ (snd x) m' /\ named m' /\ mr_backing m' = mr_backing m /\
  match resolve_path (mr_backing m) (obj d) names with
  | Value i => exists n' p k', fst x = Value n' /\ mr_nodes m' !! (n' : Z) = Some (p, k') /\ obj p = i /\
      (names = [] \/ n' = ino i)
  | Unexpected e => fst x = Unexpected e
  end.
Proof.
  induction names as [|name names IH]; intros s m n d k Hm Hnm Hn; cbn [walk resolve_path].
  { exists m. split_and!; try done. exists n, d, k. by split_and!; [..|left]. }
  destruct (lookup_step s m ctx n name d k Hm Hnm Hn) as (Hr & m1 & Hm1 & Hnm1 & Hf & Hi).
  change (fs_lookupx (passthrough sys)) with (pt_lookupx sys).
  destruct (pt_lookupx sys ctx n name s) as [r s1]. cbn [fst snd] in Hr, Hm1. subst r.
  unfold lookup_result. destruct (resolve _ _ _) as [i|e].
  - destruct (attr _ i) as [st|e] eqn:Ea; [|by exists m1].
    destruct (Hi i st eq_refl Ea) as (p & k' & Hp & Hobj). cbn [entry_for eo_negative eo_nodeid].
    destruct (IH s1 m1 (ino i) p k' Hm1 Hnm1 Hp) as (m2 & Hm2 & Hnm2 & Hf2 & Hend).
    exists m2. split; [done|]. split; [done|]. split; [congruence|]. rewrite Hf, Hobj in Hend.
    destruct (resolve_path _ _ _) as [j|e]; [|done].
    destruct Hend as (n' & q & k'' & Hx & Hl & Hq & Hn'). exists n', q, k''. split_and!; try done.
    right. destruct Hn' as [-> | ->]; [|done]. cbn in Hx. injection Hx as <-.
    pose proof (proj2 Hnm2 _ _ _ Hl) as Hino. rewrite decide_False in Hino by apply ino_not_root.
    congruence.
  - destruct (Z.eqb_spec e ENOENT) as [->|]; by exists m1.
Qed.

(** Any state the daemon gets into. *)
Lemma callbacks_named cbs : forall s m,
  mirrors see ∅ ∅ s m -> named m -> exists m',
  mirrors see ∅ ∅ (fold_left (fun s cb => invoke (passthrough sys) cb s) cbs s) m' /\ named m'.
Proof.
  induction cbs as [|cb cbs IH]; intros s m Hm Hnm; cbn [fold_left]; [by exists m|].
  apply (IH _ (invoke (mirrored osys) cb m)); [|by apply mirrored_named].
  rewrite <- !ask_invoke. exact (proj2 (passthrough_mirrored sys osys see cb s m Hm)).
Qed.

Lemma named_make f : named (mirror_make root f).
Proof.
  split; cbn [mirror_make mr_nodes]; [by rewrite lookup_singleton_eq|].
  intros n p k [<- [= <- <-]]%lookup_singleton_Some. by rewrite decide_True.
Qed.

Lemma node_statx s m ctx n p k :
  mirrors see ∅ ∅ s m -> mr_nodes m !! (n : Z) = Some (p, k) ->
  fst (pt_statx sys ctx n s) = fst (nbind (on osys (ObjFstatat p)) (fun st => nret (fill_statx st)) m).
Proof.
  intros Hm Hp. destruct (sim_same see _ _ _ s m (sim_statx sys osys see ∅ ctx ctx n) Hm) as [-> _].
  unfold mr_statx, nbind, place. by rewrite Hp.
Qed.
End Paths.

(** ** The theorem *)

(** C5: After any callbacks whatever, a walk of LOOKUPXes from nodeid 1 along
    [names] gives the error that resolving the names in the backing directory
    gives, or else a node whose descriptor is open on the very file they
    resolve to; the nodeid is the number of that file, so two paths get the same
    nodeid exactly when they lead to the same file; STATX of it answers the
    attributes of the file; and the walk changes no file. *)
Theorem path_reaches_file {B F P D I} sys osys (see : B -> view F P D) `{!Descriptors sys osys see}
    (obj : P -> I) ino resolve attr `{!Inodes sys osys see obj ino resolve attr}
    backing b root cbs ctx names :
  vw_fds (see b) !! backing = Some root ->
  let s := fold_left (fun s cb => invoke (passthrough sys) cb s) cbs (PassthroughFs_make backing b) in
  let f := vw_files (see (pt_sys s)) in
  let '(r, s') := walk (passthrough sys) ctx NodeId_root names s in
  vw_files (see (pt_sys s')) = f /\
  match resolve_path resolve attr f (obj root) names with
  | Value i => exists n node p, r = Value n /\ pt_table s' !! (n : Z) = Some node /\
      vw_fds (see (pt_sys s')) !! in_path_fd node = Some p /\ obj p = i /\
      (names = [] \/ n = ino i) /\
      result_of fill_statx (attr f i) (fst (fs_statx (passthrough sys) ctx n s'))
  | Unexpected e => r = Unexpected e
  end.
Proof.
  intros Hb s f.
  destruct (callbacks_named sys osys see obj ino resolve attr root cbs _ _
    (mirrors_make see backing b root Hb) (named_make obj ino root _)) as (m & Hm & Hnm).
  destruct (proj1 Hnm) as [[d k] Hd]. pose proof (proj2 Hnm _ _ _ Hd) as Hobj.
  rewrite decide_True in Hobj by done.
  pose proof (walk_resolves sys osys see obj ino resolve attr root ctx names s m NodeId_root d k
    Hm Hnm Hd) as Hw.
  cbv zeta in Hw. destruct (walk _ _ _ _ s) as [r s']. cbn [fst snd] in Hw.
  destruct Hw as (m' & Hm' & Hnm' & Hf & Hend). pose proof (ms_backing _ _ _ _ _ Hm') as Hf'.
  assert (Hf0 : mr_backing m = f) by (symmetry; exact (ms_backing _ _ _ _ _ Hm)).
  rewrite Hf, Hf0 in Hf'. split; [exact Hf'|]. rewrite Hf0, Hobj in Hend. rewrite Hf0 in Hf.
  clearbody f. destruct (resolve_path _ _ _ _ _) as [i|e]; [|done].
  destruct Hend as (n & p & k' & -> & Hl & Hp & Hn).
  destruct (node_place see s' m' n p k' Hm' Hl) as (node & Ht & Hfd). exists n, node, p. split_and!; try done.
  change (fs_statx (passthrough sys)) with (pt_statx sys).
  rewrite (node_statx sys osys see s' m' ctx n p k' Hm' Hl).
  unfold nbind. rewrite (on_stat sys osys see obj ino resolve attr), Hf, Hp. by destruct (attr f i).
Qed.

(** What [ino_not_root] excludes. A file in the backing directory with inode
    number 1 is answered as nodeid 1, and the node of that number stays the
    root: every further request on the file goes to the root directory. *)
Theorem inode_one_answered_as_root {B F P D} sys osys (see : B -> view F P D) `{!Descriptors sys osys see}
    backing b root ctx name p f1 st f2 :
  vw_fds (see b) !! backing = Some root ->
  osys P (ObjOpenat root (c_str name) path_flags 0) (vw_files (see b)) = (Value p, f1) ->
  osys stat (ObjFstatat p) f1 = (Value st, f2) -> st_ino st = 1 ->
  let '(r, s') := pt_lookupx sys ctx NodeId_root name (PassthroughFs_make backing b) in
  r = Value (entry_for NodeId_root) /\
  exists node, pt_table s' !! (NodeId_root : Z) = Some node /\
    vw_fds (see (pt_sys s')) !! in_path_fd node = Some root.
Proof.
  intros Hb Ho Hs Hino. pose proof (mirrors_make see backing b root Hb) as Hm.
  destruct (sim_same see _ _ _ _ _ (sim_lookupx sys osys see ctx NodeId_root name) Hm) as [Hr Hm'].
  assert (Hx : exists m', mr_lookupx osys ctx NodeId_root name (mirror_make root (vw_files (see b)))
    = (Value (entry_for NodeId_root), m') /\ mr_nodes m' !! (NodeId_root : Z) = Some (root, 2)).
  { unfold mr_lookupx, nbind, ntry, place, on. cbn [mirror_make mr_nodes mr_backing].
    rewrite lookup_singleton_eq. cbn [mirror_make mr_backing].
    change (Z.lor (Z.lor O_PATH O_NOFOLLOW) O_CLOEXEC) with path_flags. rewrite Ho.
    cbn [set_backing mr_backing]. rewrite Hs, Hino. eexists. by split. }
  destruct Hx as (m' & Hx & Hn). rewrite Hx in Hr, Hm'. destruct (pt_lookupx _ _ _ _ _) as [r s'].
  split; [exact Hr|]. by eapply node_place.
Qed.

#[export] Instance toy_inodes :
  Inodes (table_sys toy_osys) toy_osys (fun b => b) (fun p : Z => p) (fun i => 100 + 2 * i)
    toy_resolve (fun f p => Value (toy_stat f p)).
Proof.
  split.
  - intros p name f. exists (toy_resolve f p name). split; [done|]. by destruct (toy_resolve f p name).
  - done.
  - done.
  - intros p f flags q f' H. by injection H.
  - intros f i st H. by injection H as <-.
  - intros i. unfold NodeId_root. lia.
  - intros. lia.
Qed.

Definition toy_ctx : Context :=
  {| ctx_uid := 0; ctx_gid := 0; ctx_pid := 0; ctx_nodeid := NodeId_root;
     ctx_unique := 0 |}.

Lemma path_reaches_file_witness :
  exists s', walk (passthrough (table_sys toy_osys)) toy_ctx NodeId_root [[Byte.x61]; [Byte.x62]]
      (PassthroughFs_make 5 toy_process) = (Value 104, s') /\
    fst (fs_statx (passthrough (table_sys toy_osys)) toy_ctx 104 s')
      = Value (fill_statx (toy_stat toy_files 2)).
Proof.
  pose proof (path_reaches_file (table_sys toy_osys) toy_osys (fun b => b) (fun p : Z => p)
    (fun i => 100 + 2 * i) toy_resolve (fun f p => Value (toy_stat f p)) 5
    toy_process 0 [] toy_ctx [[Byte.x61]; [Byte.x62]] eq_refl) as H.
  cbv zeta in H. cbn [fold_left] in H. destruct (walk _ _ _ _ _) as [r s'].
  destruct H as [_ (n & node & p & -> & _ & _ & _ & [Hn|Hn] & Hs)]; [discriminate Hn|].
  cbn in Hn. subst n. exists s'. split; [done|]. unfold result_of in Hs.
  destruct (fst (fs_statx _ _ _ _)); [by rewrite <- Hs|done].
Defined.
