(* ===== verification/Visible.v ===== *)
(** * Changes through the mount are seen through the mount

    What a client relies on: a name created, linked or renamed is found by the
    next LOOKUPX, under the nodeid of its file; a name removed is not found; and
    what it writes, in as many requests as it takes ([write_all]), it reads back
    ([read_all]). The files obey the manual pages ([Names],
    [Contents]); that the daemon puts the right descriptors and names into the
    right calls is what is shown. *)

From S2P Require Import Prelude Memory Pod Abi Types DirentWriter Filesystem Replier Handlers.
From S2P Require Import Callbacks UringEntry UringWorker Simulation InodeTable Passthrough.
From S2P Require Import PassthroughSafety Backing MirrorSpec Mirror PathWalk.
From stdpp Require Import gmap.
#[local] Open Scope Z_scope.
#[local] Open Scope daemon_scope.

(** ** What the manual pages say *)

Section Laws.
Context {F P D I : Type} (osys : forall A, objcall P D A -> F -> expected A * F).
Context (obj : P -> I) (resolve : F -> I -> bytes -> expected I).

(** unlinkat, renameat2 and linkat. *)
Class Names : Prop := {
  unlinkat_removes : forall d name flags f f',
    osys unit (ObjUnlinkat d name flags) f = (Value tt, f') ->
    resolve f' (obj d) name = Unexpected ENOENT;
  renameat2_moves : forall d old d' new flags f f',
    osys unit (ObjRenameat2 d old d' new flags) f = (Value tt, f') ->
    resolve f' (obj d') new = resolve f (obj d) old;
  renameat2_clears : forall d old d' new f f',
    osys unit (ObjRenameat2 d old d' new 0) f = (Value tt, f') ->
    resolve f (obj d) old <> resolve f (obj d') new -> resolve f' (obj d) old = Unexpected ENOENT;
  linkat_links : forall p d name f f',
    osys unit (ObjLinkat p d name) f = (Value tt, f') -> resolve f' (obj d) name = Value (obj p);
}.

(** symlinkat and readlinkat; [target] is what a symbolic link says. *)
Class Symlinks (target : F -> I -> bytes) : Prop := {
  symlinkat_makes : forall t d name f f',
    osys unit (ObjSymlinkat t d name) f = (Value tt, f') ->
    zlen t < 4096 /\ exists i, resolve f' (obj d) name = Value i /\ target f' i = t;
  readlinkat_reads : forall p size f t f',
    osys bytes (ObjReadlinkat p size) f = (Value t, f') -> t = take (Z.to_nat size) (target f (obj p));
}.

(** open, pwrite and pread on regular files. [appends] tells the descriptors opened
    with O_APPEND, on which pwrite appends whatever the offset (pwrite(2), BUGS). A
    write of some bytes stores at least one or fails, and a read finds nothing only
    at the end of the file. *)
Class Contents (content : F -> I -> bytes) (appends : P -> bool) : Prop := {
  open_write_plain : forall p f q f',
    osys P (ObjOpen p (Z.lor O_WRONLY O_CLOEXEC)) f = (Value q, f') -> appends q = false;
  open_keeps_content : forall p mode f r f' i, mode = O_RDONLY \/ mode = O_WRONLY ->
    osys P (ObjOpen p (Z.lor mode O_CLOEXEC)) f = (r, f') -> content f' i = content f i;
  pwrite_stores : forall p data off f k f', 0 <= off ->
    osys Z (ObjPwrite p data off) f = (Value k, f') ->
    0 <= k <= zlen data /\ (data <> [] -> 0 < k) /\
    content f' (obj p) = overwrite (content f (obj p))
      (if appends p then zlen (content f (obj p)) else off) (take (Z.to_nat k) data);
  pread_reads : forall p n off f data f', 0 <= off ->
    osys bytes (ObjPread p n off) f = (Value data, f') ->
    data `prefix_of` take (Z.to_nat n) (drop (Z.to_nat off) (content f (obj p))) /\
    (0 < n -> off < zlen (content f (obj p)) -> data <> []) /\
    content f' (obj p) = content f (obj p);
}.
End Laws.
Arguments unlinkat_removes {F P D I osys obj resolve _} d name flags f f' _.
Arguments renameat2_moves {F P D I osys obj resolve _} d old d' new flags f f' _.
Arguments renameat2_clears {F P D I osys obj resolve _} d old d' new f f' _ _.
Arguments linkat_links {F P D I osys obj resolve _} p d name f f' _.
Arguments symlinkat_makes {F P D I osys obj resolve target _} t d name f f' _.
Arguments readlinkat_reads {F P D I osys obj resolve target _} p size f t f' _.
Arguments open_write_plain {F P D I osys obj content appends _} p f q f' _.
Arguments open_keeps_content {F P D I osys obj content appends _} p mode f r f' i _ _.
Arguments pwrite_stores {F P D I osys obj content appends _} p data off f k f' _ _.
Arguments pread_reads {F P D I osys obj content appends _} p n off f data f' _ _.

(** ** A client that writes and reads all *)

Section Client.
Context {S : Type} (write : Z -> bytes -> S -> expected Z * S) (read : Z -> bytes -> S -> expected Z * bytes * S).

(** Writes [data] from [off] on, in as many rounds as [fuel]; what is left. *)
Fixpoint write_all (fuel : nat) (off : Z) (data : bytes) (s : S) : expected bytes * S :=
  match fuel with
  | 0%nat => (Value data, s)
  | Datatypes.S fuel =>
      match data with
      | [] => (Value [], s)
      | _ =>
          let '(r, s) := write off data s in
          match r with
          | Value k => write_all fuel (off + k) (drop (Z.to_nat k) data) s
          | Unexpected e => (Unexpected e, s)
          end
      end
  end.

(** Reads [len] bytes from [off] on, or up to the end of the file, in as many
    rounds as [fuel]. *)
Fixpoint read_all (fuel : nat) (off : Z) (len : nat) (s : S) : expected bytes * S :=
  match fuel with
  | 0%nat => (Value [], s)
  | Datatypes.S fuel =>
      let '(r, buf, s) := read off (replicate len Byte.x00) s in
      match r with
      | Unexpected e => (Unexpected e, s)
      | Value k =>
          if k =? 0 then (Value [], s) else
          let '(rest, s) := read_all fuel (off + k) (len - Z.to_nat k) s in
          (match rest with
           | Value rest => Value (take (Z.to_nat k) buf ++ rest)
           | Unexpected e => Unexpected e
           end, s)
      end
  end.
End Client.

(** The bytes [w] are in the file at [pos]. *)
Definition stored (c : bytes) (pos : Z) (w : bytes) : Prop :=
  w = [] \/ exists pre post, c = pre ++ w ++ post /\ zlen pre = pos.

Lemma stored_extends c pos w d : 0 <= pos -> stored c pos w ->
  stored (overwrite c (pos + zlen w) d) pos (w ++ d).
Proof.
  intros Hpos [->|(pre & post & -> & <-)]; right; unfold overwrite, zlen in *.
  - exists (take (Z.to_nat pos) c ++ replicate (Z.to_nat pos - length c) Byte.x00).
    exists (drop (Z.to_nat pos + length d) c). cbn [length app]. rewrite Z.add_0_r, <- app_assoc.
    split; [done|]. rewrite length_app, length_take, length_replicate. lia.
  - rewrite <- Nat2Z.inj_add, Nat2Z.id. eexists pre, _. split; [|reflexivity].
    rewrite <- (length_app pre w), (app_assoc pre w post), take_app_length, (length_app (pre ++ w) post).
    replace (length (pre ++ w) - (length (pre ++ w) + length post))%nat with 0%nat by lia.
    cbn [replicate app]. by rewrite <- !app_assoc.
Qed.

Lemma overwrite_end c d : overwrite c (zlen c) d = c ++ d.
Proof.
  unfold overwrite, zlen. rewrite Nat2Z.id, take_ge, Nat.sub_diag, drop_ge by lia. cbn. by rewrite app_nil_r.
Qed.

(** What is read of the bytes held. *)
Lemma stored_drop c pos w : w <> [] -> stored c pos w ->
  take (length w) (drop (Z.to_nat pos) c) = w /\ pos < zlen c.
Proof.
  intros Hw [->|(pre & post & -> & <-)]; [done|]. unfold zlen. rewrite Nat2Z.id, drop_app_length, take_app_length.
  split; [done|]. rewrite !length_app. destruct w; [done|]. cbn. lia.
Qed.

Lemma stored_later c pos w1 w2 : stored c pos (w1 ++ w2) -> stored c (pos + zlen w1) w2.
Proof.
  intros [[_ ->]%app_nil|(pre & post & -> & <-)]; [by left|]. right. exists (pre ++ w1), post.
  split; [by rewrite <- !app_assoc|]. unfold zlen. rewrite length_app. lia.
Qed.

Section Changes.
Context {B F P D I : Type}.
Context (sys : forall A, syscall A -> B -> expected A * B).
Context (osys : forall A, objcall P D A -> F -> expected A * F).
Context (see : B -> view F P D) `{!Descriptors sys osys see}.
Context (obj : P -> I) (ino : I -> Z) (resolve : F -> I -> bytes -> expected I).
Context (attr : F -> I -> expected stat) `{!Inodes sys osys see obj ino resolve attr}.
Context `{!Names osys obj resolve}.
Context (root : P).

#[local] Abbreviation files s := (vw_files (see (pt_sys s))).
#[local] Abbreviation related s m := (mirrors see ∅ ∅ s m /\ named obj ino root m).
#[local] Abbreviation lookup_result := (lookup_result ino resolve attr).

(** The file of a node: the one its descriptor is open on. *)
Definition node_file (s : PassthroughFs B) (n : NodeId) (i : I) : Prop := exists node p,
  pt_table s !! (n : Z) = Some node /\ vw_fds (see (pt_sys s)) !! in_path_fd node = Some p /\ obj p = i.

(** What LOOKUPX answers for the file [i]. *)
Definition entry_of (f : F) (i : I) : expected EntryOut :=
  match attr f i with Value _ => Value (entry_for (ino i)) | Unexpected e => Unexpected e end.

Lemma node_file_place s m n p k i :
  mirrors see ∅ ∅ s m -> mr_nodes m !! (n : Z) = Some (p, k) -> node_file s n i -> obj p = i.
Proof.
  intros Hm Hn (node & q & Ht & Hfd & Hq). destruct (node_place see s m n p k Hm Hn) as (node' & Ht' & Hfd').
  congruence.
Qed.

Lemma place_then {A} n (g : P -> mirror_op F P D A) m a m' :
  nbind (place n) g m = (Value a, m') ->
  exists d k, mr_nodes m !! (n : Z) = Some (d, k) /\ g d m = (Value a, m').
Proof.
  unfold nbind, place. destruct (mr_nodes m !! (n : Z)) as [[d k]|]; [|done]. intros H. by exists d, k.
Qed.

Lemma on_value {A} (c : objcall P D A) m a m' :
  on osys c m = (Value a, m') -> osys A c (mr_backing m) = (Value a, mr_backing m') /\
  mr_nodes m' = mr_nodes m /\ mr_files m' = mr_files m.
Proof. unfold on. destruct (osys A c _) as [r f]. intros H. by injection H as -> <-. Qed.

(** A callback that succeeded, in the mirror. *)
Lemma mirror_value {A} (x : M B A) y s m a s' :
  sim see ∅ ∅ x y (same (P := P)) -> related s m -> x s = (Value a, s') ->
  exists m', y m = (Value a, m') /\ mirrors see ∅ ∅ s' m' /\ files s' = mr_backing m' /\
    files s = mr_backing m.
Proof.
  intros Hsim [Hm _] Hx. destruct (sim_same see _ _ _ s m Hsim Hm) as [Hr Hm'].
  rewrite Hx in Hr, Hm'. destruct (y m) as [r m']. cbn [fst snd] in *. subst r.
  exists m'. split_and!; [done|done|apply Hm'|apply Hm].
Qed.

Lemma lookup_answer s m ctx n d k name :
  mirrors see ∅ ∅ s m -> named obj ino root m -> mr_nodes m !! (n : Z) = Some (d, k) ->
  fst (pt_lookupx sys ctx n name s) = lookup_result (files s) (obj d) name.
Proof.
  intros Hm Hnm Hn. rewrite (ms_backing _ _ _ _ _ Hm).
  apply (lookup_step sys osys see obj ino resolve attr root s m ctx n name d k Hm Hnm Hn).
Qed.

Lemma named_same (m m' : mirror F P D) :
  mr_nodes m' = mr_nodes m -> named obj ino root m -> named obj ino root m'.
Proof. unfold named. by intros ->. Qed.

Lemma removed_gone (x : M B unit) flags s m s' ctx n name :
  sim see ∅ ∅ x (mr_remove osys flags ctx n name) (same (P := P)) -> related s m -> x s = (Value tt, s') ->
  fst (pt_lookupx sys ctx n name s') = Value negative_entry.
Proof.
  intros Hsim Hrel Hx. destruct (mirror_value x _ s m tt s' Hsim Hrel Hx) as (m' & Ey & Hm' & Hf & _).
  apply place_then in Ey as (d & k & Hn & (Ho & Hno & _)%on_value).
  rewrite (lookup_answer s' m' ctx n d k name Hm'); [|by eapply named_same, Hrel|by rewrite Hno].
  unfold PathWalk.lookup_result. by rewrite Hf, (unlinkat_removes _ _ _ _ _ Ho).
Qed.

Lemma renamed_found s m s' ctx od old nd new flags i d :
  related s m -> pt_rename sys ctx od old nd new flags s = (Value tt, s') ->
  node_file s od d -> resolve (files s) d (c_str old) = Value i ->
  fst (pt_lookupx sys ctx nd new s') = entry_of (files s') i /\
  (flags = 0 -> forall d', node_file s nd d' -> resolve (files s) d' (c_str new) <> Value i ->
   fst (pt_lookupx sys ctx od old s') = Value negative_entry).
Proof.
  intros Hrel Hx Hd Hi.
  destruct (mirror_value _ _ s m tt s' (sim_rename sys osys see ctx od old nd new flags) Hrel Hx)
    as (m' & Ey & Hm' & Hf & Hf0).
  apply place_then in Ey as (o & ko & Hno & (p & kn & Hnn & (Ho & Hnodes & _)%on_value)%place_then).
  pose proof (named_same m m' Hnodes (proj2 Hrel)) as Hnm'.
  assert (Ho' : obj o = d) by (eapply node_file_place; [apply Hrel|done|done]).
  rewrite <- Hf0, <- Hf in Ho. split.
  - rewrite (lookup_answer s' m' ctx nd p kn new Hm' Hnm') by by rewrite Hnodes.
    unfold PathWalk.lookup_result, entry_of.
    by rewrite (renameat2_moves _ _ _ _ _ _ _ Ho), Ho', Hi.
  - intros -> d' Hd' Hne. assert (Hp : obj p = d') by (eapply node_file_place; [apply Hrel|done|done]).
    rewrite (lookup_answer s' m' ctx od o ko old Hm' Hnm') by by rewrite Hnodes.
    unfold PathWalk.lookup_result. rewrite (renameat2_clears _ _ _ _ _ _ Ho); [done|].
    rewrite Ho', Hp, Hi. congruence.
Qed.

Lemma linked_found s m s' ctx n nd name i :
  related s m -> pt_link sys ctx n nd name s = (Value tt, s') -> node_file s n i ->
  fst (pt_lookupx sys ctx nd name s') = entry_of (files s') i.
Proof.
  intros Hrel Hx Hi.
  destruct (mirror_value _ _ s m tt s' (sim_link sys osys see ctx n nd name) Hrel Hx)
    as (m' & Ey & Hm' & Hf & _).
  apply place_then in Ey as (p & kp & Hnp & (d & kd & Hnd & (Ho & Hnodes & _)%on_value)%place_then).
  assert (Hp : obj p = i) by (eapply node_file_place; [apply Hrel|done|done]).
  rewrite (lookup_answer s' m' ctx nd d kd name Hm'); [|by eapply named_same, Hrel|by rewrite Hnodes].
  unfold PathWalk.lookup_result, entry_of. by rewrite Hf, (linkat_links _ _ _ _ _ Ho), Hp.
Qed.

Lemma bind_value {A C} (x : mirror_op F P D A) (k : A -> mirror_op F P D C) m c m' :
  nbind x k m = (Value c, m') -> exists a m1, x m = (Value a, m1) /\ k a m1 = (Value c, m').
Proof. unfold nbind. destruct (x m) as [[a|e] m1]; [|done]. intros H. by exists a, m1. Qed.

Lemma create_nodes d mi m : mr_nodes (snd (mr_create osys d mi m)) = mr_nodes m.
Proof.
  unfold mr_create. repeat case_if; try done; unfold on; by destruct (osys _ _ _).
Qed.

Lemma own_nodes d mi m : mr_nodes (snd (mr_own osys d mi m)) = mr_nodes m.
Proof.
  unfold mr_own. case_if; [done|]. unfold ntry, on. destruct (osys _ _ _) as [[|e] f]; [done|]. by case_if.
Qed.

(** A node made from a name: what a lookup of the name then answers. *)
Lemma find_node_value d name m n m' :
  find_node osys d name m = (Value n, m') ->
  mr_backing m' = mr_backing m /\
  (exists i st, resolve (mr_backing m) (obj d) name = Value i /\ attr (mr_backing m) i = Value st /\
     n = ino i /\ is_Some (mr_nodes m' !! (n : Z))) /\
  forall n0 d0 k, mr_nodes m !! n0 = Some (d0, k) -> exists k', mr_nodes m' !! n0 = Some (d0, k').
Proof.
  unfold find_node. intros (p & m1 & Ho & (st & m2 & Hs & Hr)%bind_value)%bind_value.
  destruct (openat_resolves d name (mr_backing m)) as (r & Ho' & Hres).
  unfold on in Ho. change (Z.lor (Z.lor O_PATH O_NOFOLLOW) O_CLOEXEC) with path_flags in Ho.
  rewrite Ho', set_backing_same in Ho. injection Ho as -> <-.
  rewrite (on_stat sys osys see obj ino resolve attr) in Hs. injection Hs as Ha <-.
  unfold remember in Hr. destruct (default (p, 0) (mr_nodes m !! st_ino st)) as [q k0] eqn:Ed.
  injection Hr as <- <-. destruct (resolve _ _ _) as [i|e] eqn:Er; cbn in Hres; [|done]. subst i.
  split; [done|]. split; [exists (obj p), st; split_and!; [done|done|by eapply attr_ino|]|].
  { cbn. by rewrite lookup_insert_eq. }
  intros n0 d0 k Hn0. cbn. destruct (decide (st_ino st = n0)) as [<-|Hne].
  - rewrite Hn0 in Ed. cbn in Ed. injection Ed as <- <-. rewrite lookup_insert_eq. by eexists.
  - rewrite lookup_insert_ne by done. by exists k.
Qed.

(** A new object is answered as the next lookup answers it. *)
Lemma created_found s m s' ctx n mi e :
  related s m -> pt_mkobjx sys ctx n mi s = (Value e, s') -> Z.land (mi_flags mi) kMkobjxTmpfile = 0 ->
  fst (pt_lookupx sys ctx n (mi_name mi) s') = Value e.
Proof.
  intros Hrel Hx Hfl.
  destruct (mirror_value _ _ s m e s' (sim_mkobjx sys osys see ctx n mi) Hrel Hx)
    as (m' & Ey & Hm' & Hf & _).
  pose proof (kept_mkobjx sys osys see obj ino resolve attr root ctx n mi m (proj2 Hrel)) as Hnm'.
  rewrite Ey in Hnm'. cbn [snd] in Hnm'.
  apply place_then in Ey as (d & k & Hn & Hy). rewrite Hfl in Hy. cbn [Z.eqb negb] in Hy.
  apply bind_value in Hy as (? & m1 & Hc & (? & m2 & Ho & (n' & m3 & Hfn & He)%bind_value)%bind_value).
  pose proof (create_nodes d mi m) as H1. rewrite Hc in H1. cbn [snd] in H1.
  pose proof (own_nodes d mi m1) as H2. rewrite Ho in H2. cbn [snd] in H2.
  injection He as <- <-. apply find_node_value in Hfn as (Hb & (i & st & Hres & Ha & -> & _) & Hk).
  destruct (Hk n d k) as [k' Hn']; [by rewrite H2, H1|].
  rewrite (lookup_answer s' m3 ctx n d k' (mi_name mi) Hm' Hnm' Hn').
  unfold PathWalk.lookup_result. by rewrite Hf, Hb, Hres, Ha.
Qed.

(** The node under the number of a file found by a name is that file. *)
Lemma name_node s m n d k name i q kq :
  mirrors see ∅ ∅ s m -> named obj ino root m -> mr_nodes m !! (n : Z) = Some (d, k) ->
  resolve (mr_backing m) (obj d) name = Value i -> mr_nodes m !! ino i = Some (q, kq) -> obj q = i.
Proof.
  intros Hm Hnm Hn Hi Hq. destruct (openat_resolves d name (mr_backing m)) as (r & Ho & Hr).
  rewrite Hi in Hr. destruct r as [p|]; [|done]. cbn in Hr. subst i.
  pose proof (proj2 Hnm _ _ _ Hq) as Hino. rewrite decide_False in Hino by apply ino_not_root.
  symmetry. by eapply (found_is_node sys osys see obj ino resolve attr s m n d k name p).
Qed.

(** A new symbolic link says what it was made to say. *)
Lemma symlink_read (target : F -> I -> bytes) `{!Symlinks osys obj resolve target} s m s' s'' ctx n mi e t :
  related s m -> pt_mkobjx sys ctx n mi s = (Value e, s') -> Z.land (mi_flags mi) kMkobjxTmpfile = 0 ->
  Z.land (so_mode (mi_stat mi)) S_IFMT = S_IFLNK ->
  pt_readlink sys ctx (eo_nodeid e) s' = (Value t, s'') -> t = c_str (mi_link_target mi).
Proof.
  intros Hrel Hx Hfl Hkind Hread.
  destruct (mirror_value _ _ s m e s' (sim_mkobjx sys osys see ctx n mi) Hrel Hx) as (m' & Ey & Hm' & _ & _).
  pose proof (kept_mkobjx sys osys see obj ino resolve attr root ctx n mi m (proj2 Hrel)) as Hnm'.
  rewrite Ey in Hnm'. cbn [snd] in Hnm'.
  destruct (mirror_value _ _ s' m' t s'' (sim_readlink sys osys see ctx _) (conj Hm' Hnm') Hread)
    as (m'' & Er & _).
  apply place_then in Ey as (d & k & Hn & Hy). rewrite Hfl in Hy. cbn [Z.eqb negb] in Hy.
  apply bind_value in Hy as ([] & m1 & Hc & ([] & m2 & Ho & (n' & m3 & Hfn & He)%bind_value)%bind_value).
  unfold mr_own in Ho. rewrite Hkind in Ho. injection Ho as <-.
  unfold mr_create in Hc. rewrite Hkind in Hc. apply on_value in Hc as (Hc & Hn1 & _).
  destruct (symlinkat_makes _ _ _ _ _ Hc) as (Hlen & i & Hi & Ht).
  injection He as <- <-. apply find_node_value in Hfn as (Hb & (j & st & Hj & _ & -> & _) & Hk).
  assert (j = i) as -> by congruence. rewrite <- Hb in Hi.
  destruct (Hk n d k ltac:(by rewrite Hn1)) as [k' Hd].
  apply place_then in Er as (q & kq & Hq & (Er & _)%on_value). cbn [eo_nodeid entry_for] in Hq.
  rewrite (readlinkat_reads _ _ _ _ _ Er), (name_node s' m3 n d k' _ i q kq Hm' Hnm' Hd Hi Hq), Hb, Ht.
  apply take_ge. unfold zlen in Hlen. lia.
Qed.

(** ** Contents *)

Section Handles.
Context (allowed : P -> Prop).

(** The file that I/O on node [n] with handle [fh] goes to: the one the handle
    was opened on, as far as it is [allowed], or the node's. *)
Definition io_file (s : PassthroughFs B) (n : NodeId) (fh : FileHandle) (i : I) : Prop :=
  match (if fh =? 0 then None else pt_files s !! (fh : Z)) with
  | Some fd => exists p, vw_fds (see (pt_sys s)) !! fd = Some p /\ allowed p /\ obj p = i
  | None => node_file s n i
  end.

(** The same of the mirror. *)
Definition io_at (m : mirror F P D) (n : NodeId) (fh : FileHandle) (i : I) : Prop :=
  match open_file m fh with
  | Some p => allowed p /\ obj p = i
  | None => exists p k, mr_nodes m !! (n : Z) = Some (p, k) /\ obj p = i
  end.

Lemma io_file_at s m n fh i : mirrors see ∅ ∅ s m -> io_file s n fh i -> io_at m n fh i.
Proof.
  intros Hm. unfold io_file, io_at, open_file.
  assert (Hnode : node_file s n i -> exists p k, mr_nodes m !! (n : Z) = Some (p, k) /\ obj p = i).
  { intros (node & p & Ht & Hfd & Hp). pose proof (ms_nodes _ _ _ _ _ Hm n) as Hx. rewrite Ht in Hx.
    inversion Hx as [? [q k] [Hq _]|]; subst. cbn in Hq. exists q, k. split; [done|congruence]. }
  destruct (fh =? 0); [done|]. pose proof (ms_files _ _ _ _ _ Hm fh) as Hx.
  destruct (pt_files s !! (fh : Z)) as [fd|]; inversion Hx as [? q [Hq _]|]; subst; [|done].
  intros (p & Hp & Hpl & <-). by simplify_eq.
Qed.
End Handles.

Section Data.
Context (content : F -> I -> bytes) (appends : P -> bool) `{!Contents osys obj content appends}.

(** Where the next WRITE at [off] on the node or handle goes: the file and the
    position in it, which on a handle opened for appending is its end. *)
Definition writes_to (s : PassthroughFs B) (n : NodeId) (fh : FileHandle) (off : Z) (i : I) (pos : Z) : Prop :=
  io_file (fun p => pos = if appends p then zlen (content (files s) i) else off) s n fh i /\
  ((if fh =? 0 then None else pt_files s !! (fh : Z)) = None -> pos = off).

(** The same of the mirror. *)
Definition writes_at (m : mirror F P D) (n : NodeId) (fh : FileHandle) (off : Z) (i : I) (pos : Z) : Prop :=
  io_at (fun p => pos = if appends p then zlen (content (mr_backing m) i) else off) m n fh i /\
  (open_file m fh = None -> pos = off).

Lemma writes_to_at s m n fh off i pos :
  mirrors see ∅ ∅ s m -> writes_to s n fh off i pos -> writes_at m n fh off i pos.
Proof.
  intros Hm [Hio Hnone]. assert (Hf : files s = mr_backing m) by apply Hm. rewrite Hf in Hio.
  split; [by eapply io_file_at|]. intros Ho. apply Hnone. revert Ho. unfold open_file.
  destruct (fh =? 0); [done|]. pose proof (ms_files _ _ _ _ _ Hm fh) as Hx. intros Ho. rewrite Ho in Hx.
  by inversion Hx.
Qed.

(** A call of the backing filesystem that does I/O on the file [i] fails with [e]. *)
Inductive io_error (i : I) (e : Errc) : Prop :=
| open_error p flags f f' : obj p = i -> osys P (ObjOpen p flags) f = (Unexpected e, f') -> io_error i e
| pread_error p n off f f' : obj p = i -> osys bytes (ObjPread p n off) f = (Unexpected e, f') -> io_error i e
| pwrite_error p d off f f' : obj p = i -> osys Z (ObjPwrite p d off) f = (Unexpected e, f') -> io_error i e.

(** The place I/O is done on. *)
Lemma io_place_spec allowed m n fh mode i :
  io_at allowed m n fh i -> mode = O_RDONLY \/ mode = O_WRONLY ->
  let '(r, m1) := io_place osys n fh mode m in
  content (mr_backing m1) i = content (mr_backing m) i /\ mr_nodes m1 = mr_nodes m /\ mr_files m1 = mr_files m /\
  match r with
  | Value p => obj p = i /\ (open_file m fh = Some p /\ allowed p \/
                              open_file m fh = None /\ (mode = O_WRONLY -> appends p = false))
  | Unexpected e => io_error i e
  end.
Proof.
  unfold io_at, io_place. intros Hat Hmode. destruct (open_file m fh) as [q|]; [by destruct Hat; auto 10|].
  destruct Hat as (d & k & Hn & Hd). unfold nbind, place. rewrite Hn. unfold on.
  destruct (osys P _ _) as [r f'] eqn:E. split; [by eapply open_keeps_content|]. do 2 (split; [done|]).
  destruct r as [q|e]; [|by eapply open_error].
  split; [by rewrite (reopen_same (obj := obj) _ _ _ _ _ E)|]. right. split; [done|]. intros ->.
  by eapply open_write_plain.
Qed.

Lemma io_at_same allowed m m' n fh i :
  mr_nodes m' = mr_nodes m -> mr_files m' = mr_files m -> io_at allowed m n fh i -> io_at allowed m' n fh i.
Proof. unfold io_at, open_file. by intros -> ->. Qed.

(** One WRITE. *)
Lemma write_step m ctx n fh off data i pos :
  writes_at m n fh off i pos -> 0 <= off < 2 ^ 63 ->
  let '(r, m1) := mr_write osys ctx n fh off data m in
  mr_nodes m1 = mr_nodes m /\ mr_files m1 = mr_files m /\
  match r with
  | Value k => 0 <= k <= zlen data /\ (data <> [] -> 0 < k) /\ writes_at m1 n fh (off + k) i (pos + k) /\
      content (mr_backing m1) i = overwrite (content (mr_backing m) i) pos (take (Z.to_nat k) data)
  | Unexpected e => io_error i e
  end.
Proof.
  intros [Hat Hnone] Hoff. unfold mr_write, nbind.
  pose proof (io_place_spec _ m n fh O_WRONLY i Hat ltac:(by right)) as Hp.
  destruct (io_place osys n fh O_WRONLY m) as [[p|e] m0]; destruct Hp as (Hc & Hn & Hf & Hp); [|done].
  rewrite (cast_id I64 off) by fits_lia. unfold on. destruct (osys Z _ _) as [r f1] eqn:E.
  cbn [set_backing mr_nodes mr_files mr_backing]. do 2 (split; [done|]). destruct Hp as [Hobj Hp].
  destruct r as [k|e]; [|by eapply pwrite_error].
  destruct (pwrite_stores p data off _ k f1 ltac:(lia) E) as (Hk & Hpos & Hst). rewrite Hobj, Hc in Hst.
  assert (Hat' : pos = if appends p then zlen (content (mr_backing m) i) else off).
  { destruct Hp as [[_ ?]|[Ho Hw]]; [done|]. by rewrite (Hw eq_refl), Hnone. }
  rewrite <- Hat' in Hst. split; [done|]. split; [done|]. split; [|done]. split.
  - eapply (io_at_same _ m); [done..|]. revert Hat Hp. unfold io_at.
    destruct (open_file m fh) as [q|]; [|done]. intros [Hq _] [[[= ->] _]|[? _]]; [|done].
    split; [|done]. cbn [set_backing mr_backing]. rewrite Hst, Hq. destruct (appends p); [|done].
    rewrite overwrite_end. unfold zlen in *. rewrite length_app, length_take. lia.
  - intros Ho. rewrite Hnone; [done|]. revert Ho. unfold open_file. cbn. by rewrite Hf.
Qed.

(** One READ. *)
Lemma read_step m ctx n fh off out i :
  io_at (fun _ => True) m n fh i -> 0 <= off < 2 ^ 63 ->
  let '(r, buf, m1) := mr_read osys ctx n fh off out m in
  mr_nodes m1 = mr_nodes m /\ mr_files m1 = mr_files m /\
  match r with
  | Value k => exists got, k = zlen got /\ take (Z.to_nat k) buf = got /\
      got `prefix_of` take (length out) (drop (Z.to_nat off) (content (mr_backing m) i)) /\
      (0 < zlen out -> off < zlen (content (mr_backing m) i) -> got <> []) /\
      content (mr_backing m1) i = content (mr_backing m) i
  | Unexpected e => io_error i e
  end.
Proof.
  intros Hat Hoff. unfold mr_read, nbind.
  pose proof (io_place_spec _ m n fh O_RDONLY i Hat ltac:(by left)) as Hp.
  destruct (io_place osys n fh O_RDONLY m) as [[p|e] m0]; destruct Hp as (Hc & Hn & Hf & Hp); [|done].
  rewrite (cast_id I64 off) by fits_lia. unfold on. destruct (osys bytes _ _) as [r f1] eqn:E.
  destruct Hp as [Hobj _]. destruct r as [got|e]; do 2 (split; [done|]); [|by eapply pread_error].
  destruct (pread_reads p _ off _ got f1 ltac:(lia) E) as (Hpre & Hsome & Hkeep).
  rewrite Hobj, Hc in Hpre, Hsome, Hkeep. exists got. split; [done|].
  unfold zlen in Hpre |- *. rewrite Nat2Z.id in Hpre |- *. unfold fill_span. by rewrite take_app_length.
Qed.

(** The loops, of the daemon. *)
Lemma write_all_stores ctx n fh i fuel : forall s m off data pos w,
  mirrors see ∅ ∅ s m -> writes_at m n fh off i pos -> 0 <= pos - zlen w ->
  0 <= off -> off + zlen data < 2 ^ 63 -> (length data <= fuel)%nat ->
  stored (content (mr_backing m) i) (pos - zlen w) w ->
  let '(r, s1) := write_all (pt_write sys ctx n fh) fuel off data s in
  match r with
  | Value rest => rest = [] /\ exists m1, mirrors see ∅ ∅ s1 m1 /\
      mr_nodes m1 = mr_nodes m /\ mr_files m1 = mr_files m /\
      stored (content (mr_backing m1) i) (pos - zlen w) (w ++ data)
  | Unexpected e => io_error i e
  end.
Proof.
  induction fuel as [|fuel IH]; intros s m off data pos w Hm Hat Hpos Hoff Hmax Hfuel Hw; cbn [write_all].
  { destruct data; [|cbn in Hfuel; lia]. split; [done|]. exists m. by rewrite app_nil_r. }
  destruct data as [|x data']; [split; [done|]; exists m; by rewrite app_nil_r|].
  set (data := x :: data') in *. assert (Hne : data <> []) by done. clearbody data. clear x data'.
  assert (Hlen : 0 < zlen data) by (destruct data; [done|unfold zlen; cbn; lia]).
  destruct (sim_same see _ _ _ s m (sim_write sys osys see ctx n fh off data) Hm) as [Hr Hm'].
  pose proof (write_step m ctx n fh off data i pos Hat ltac:(lia)) as Hstep.
  destruct (pt_write sys ctx n fh off data s) as [r s1], (mr_write osys ctx n fh off data m) as [r' m1].
  cbn [fst snd] in Hr, Hm'. subst r'. destruct Hstep as (Hn & Hf & Hstep). destruct r as [k|e]; [|done].
  destruct Hstep as (Hk & Hk0 & Hat1 & Hc). specialize (Hk0 Hne).
  set (w1 := take (Z.to_nat k) data) in *.
  assert (Hw1 : length w1 = Z.to_nat k) by (unfold w1, zlen in *; rewrite length_take; lia).
  assert (Hpw : pos + k - zlen (w ++ w1) = pos - zlen w) by (unfold zlen; rewrite length_app; lia).
  specialize (IH s1 m1 (off + k) (drop (Z.to_nat k) data) (pos + k) (w ++ w1) Hm' Hat1).
  rewrite Hpw, <- app_assoc in IH. unfold w1 in IH. rewrite take_drop in IH. fold w1 in IH.
  assert (Hrest : zlen (drop (Z.to_nat k) data) = zlen data - k) by (unfold zlen in *; rewrite length_drop; lia).
  rewrite Hrest, length_drop in IH. ospecialize (IH _ _ _ _ _); [lia..| |].
  { rewrite Hc. replace pos with (pos - zlen w + zlen w) at 1 by lia. by apply stored_extends. }
  destruct (write_all _ _ _ _ s1) as [[rest|e] s2]; [|done]. destruct IH as (-> & m2 & Hm2 & Hn2 & Hf2 & Hh).
  split; [done|]. exists m2. split_and!; [done|congruence|congruence|done].
Qed.

Lemma read_all_reads ctx n fh i fuel : forall s m pos w,
  mirrors see ∅ ∅ s m -> io_at (fun _ => True) m n fh i -> 0 <= pos -> pos + zlen w < 2 ^ 63 ->
  (length w <= fuel)%nat -> stored (content (mr_backing m) i) pos w ->
  let '(r, _) := read_all (pt_read sys ctx n fh) fuel pos (length w) s in
  match r with Value got => got = w | Unexpected e => io_error i e end.
Proof.
  induction fuel as [|fuel IH]; intros s m pos w Hm Hat Hpos Hmax Hfuel Hw; cbn [read_all].
  { destruct w; [done|cbn in Hfuel; lia]. }
  set (out := replicate (length w) Byte.x00).
  assert (Hout : length out = length w) by apply length_replicate.
  destruct (sim_read sys osys see ctx n fh pos out s m Hm) as [Hr Hm'].
  pose proof (read_step m ctx n fh pos out i Hat ltac:(pose proof (zlen_nonneg w); lia)) as Hstep.
  destruct (pt_read sys ctx n fh pos out s) as [[r buf] s1], (mr_read osys ctx n fh pos out m) as [[r' buf'] m1].
  cbn [fst snd] in Hr, Hm'. injection Hr as <- <-. destruct Hstep as (Hn & Hf & Hstep).
  destruct r as [k|e]; [|done]. destruct Hstep as (got & -> & Hgot & Hpre & Hsome & Hc). rewrite Hout in Hpre.
  destruct (decide (w = [])) as [->|Hne].
  { apply prefix_nil_inv in Hpre as ->. done. }
  destruct (stored_drop _ _ _ Hne Hw) as [Htake Hlt]. rewrite Htake in Hpre. destruct Hpre as [w' ->].
  assert (Hsome' : got <> []). { apply Hsome; [|done]. unfold zlen. rewrite Hout. destruct got, w'; cbn; try done; lia. }
  destruct (Z.eqb_spec (zlen got) 0) as [H0|H0]; [by destruct got|]. rewrite Hgot.
  specialize (IH s1 m1 (pos + zlen got) w' Hm' (io_at_same _ _ _ _ _ _ Hn Hf Hat)).
  unfold zlen in IH, Hmax |- *. rewrite Nat2Z.id. rewrite !length_app in Hmax, Hfuel |- *.
  replace (length got + length w' - length got)%nat with (length w') by lia.
  assert (length got <> 0%nat) by by destruct got.
  ospecialize (IH _ _ _ _); [lia..| |].
  { rewrite Hc. by apply (stored_later _ pos got w'). }
  destruct (read_all _ _ _ _ s1) as [[rest|e] s2]; [by subst|done].
Qed.
End Data.
End Changes.

(** ** Theorems *)

(** C6: What a client changes it sees. In whatever state the daemon is: after a
    successful UNLINK or RMDIR the name is not found; after a RENAME2 the new
    name is found as the file the old one was, under that file's nodeid, and
    the old name is not found (unless both named that file before); after a LINK
    the name is found as the file linked to; after a MKOBJX the name is found with
    the entry MKOBJX answered, and if it made a symbolic link, READLINK of the
    node answered gives the target. *)
Theorem changes_are_visible {B F P D I} sys osys (see : B -> view F P D) `{!Descriptors sys osys see}
    (obj : P -> I) ino resolve attr `{!Inodes sys osys see obj ino resolve attr}
    `{!Names osys obj resolve} target `{!Symlinks osys obj resolve target} backing b root cbs ctx :
  vw_fds (see b) !! backing = Some root ->
  let s := fold_left (fun s cb => invoke (passthrough sys) cb s) cbs (PassthroughFs_make backing b) in
  let files s := vw_files (see (pt_sys s)) in
  let found n name s := fst (fs_lookupx (passthrough sys) ctx n name s) in
  (forall n name s', fs_unlink (passthrough sys) ctx n name s = (Value tt, s') \/
     fs_rmdir (passthrough sys) ctx n name s = (Value tt, s') -> found n name s' = Value negative_entry) /\
  (forall od old nd new flags s' d i, fs_rename (passthrough sys) ctx od old nd new flags s = (Value tt, s') ->
     node_file see obj s od d -> resolve (files s) d (c_str old) = Value i ->
     found nd new s' = entry_of ino attr (files s') i /\
     (flags = 0 -> forall d', node_file see obj s nd d' -> resolve (files s) d' (c_str new) <> Value i ->
      found od old s' = Value negative_entry)) /\
  (forall n nd name s' i, fs_link (passthrough sys) ctx n nd name s = (Value tt, s') ->
     node_file see obj s n i -> found nd name s' = entry_of ino attr (files s') i) /\
  (forall n mi s' e, fs_mkobjx (passthrough sys) ctx n mi s = (Value e, s') ->
     Z.land (mi_flags mi) kMkobjxTmpfile = 0 -> found n (mi_name mi) s' = Value e /\
     (Z.land (so_mode (mi_stat mi)) S_IFMT = S_IFLNK ->
      forall t s'', fs_readlink (passthrough sys) ctx (eo_nodeid e) s' = (Value t, s'') ->
      t = c_str (mi_link_target mi))).
Proof.
  intros Hb s files found.
  destruct (callbacks_named sys osys see obj ino resolve attr root cbs _ _
    (mirrors_make see backing b root Hb) (named_make obj ino root _)) as (m & Hrel).
  fold s in Hrel. split_and!.
  - intros n name s' [H|H].
    + exact (removed_gone sys osys see obj ino resolve attr root _ 0 s m s' ctx n name
        (sim_unlink sys osys see ctx n name) Hrel H).
    + exact (removed_gone sys osys see obj ino resolve attr root _ AT_REMOVEDIR s m s' ctx n name
        (sim_rmdir sys osys see ctx n name) Hrel H).
  - intros od old nd new flags s' d i H Hd Hi. by eapply (renamed_found sys osys see obj ino resolve attr root).
  - intros n nd name s' i H Hi.
    exact (linked_found sys osys see obj ino resolve attr root s m s' ctx n nd name i Hrel H Hi).
  - intros n mi s' e H Hfl. split.
    + exact (created_found sys osys see obj ino resolve attr root s m s' ctx n mi e Hrel H Hfl).
    + intros Hkind t s'' Hread. exact (symlink_read sys osys see obj ino resolve attr root target s m s' s''
        ctx n mi e t Hrel H Hfl Hkind Hread).
Qed.

(** C7: What a client writes it reads back, all of it. In whatever state the daemon
    is, and through whatever handles of the file or none: a client that repeats WRITE
    until no data is left gets it all stored in at most one round per byte, or an
    error with which a call of the backing filesystem on that file failed; and one
    that then repeats READ from the place the data went to gets exactly the data, or
    such an error. The place is the offset of the WRITE, and on a handle opened for
    appending the end of the file. *)
Theorem write_read_roundtrip {B F P D I} sys osys (see : B -> view F P D) `{!Descriptors sys osys see}
    (obj : P -> I) ino resolve attr `{!Inodes sys osys see obj ino resolve attr}
    content appends `{!Contents osys obj content appends}
    backing b root cbs ctx ctx' n n' fh fh' off data i pos :
  vw_fds (see b) !! backing = Some root ->
  let s := fold_left (fun s cb => invoke (passthrough sys) cb s) cbs (PassthroughFs_make backing b) in
  writes_to see obj content appends s n fh off i pos -> io_file see obj (fun _ => True) s n' fh' i ->
  0 <= off -> 0 <= pos -> off + zlen data < 2 ^ 63 -> pos + zlen data < 2 ^ 63 ->
  let '(w, s1) := write_all (fs_write (passthrough sys) ctx n fh) (length data) off data s in
  match w with
  | Unexpected e => io_error osys obj i e
  | Value rest => rest = [] /\
      let '(got, _) := read_all (fs_read (passthrough sys) ctx' n' fh') (length data) pos (length data) s1 in
      match got with Unexpected e => io_error osys obj i e | Value got => got = data end
  end.
Proof.
  intros Hb s Hw Hi Hoff Hpos Hmax Hmax'.
  destruct (callbacks_named sys osys see obj ino resolve attr root cbs _ _
    (mirrors_make see backing b root Hb) (named_make obj ino root _)) as (m & Hm & _). fold s in Hm.
  pose proof (write_all_stores sys osys see obj ino resolve attr content appends ctx n fh i (length data) s m
    off data pos [] Hm (writes_to_at see obj content appends s m n fh off i pos Hm Hw)) as Hws.
  change (zlen []) with 0 in Hws. rewrite Z.sub_0_r in Hws.
  specialize (Hws Hpos Hoff Hmax (Nat.le_refl _) (or_introl eq_refl)). cbn [app] in Hws.
  cbn [fs_write fs_read passthrough] in *. destruct (write_all _ _ _ _ s) as [[rest|e] s1]; [|done].
  destruct Hws as (-> & m1 & Hm1 & Hn1 & Hf1 & Hh). split; [done|].
  apply (read_all_reads sys osys see obj ino resolve attr content appends ctx' n' fh' i _ s1 m1); try done.
  by eapply io_at_same, io_file_at.
Qed.

(** ** Examples *)

Lemma toy_find_cons d name i l d' name' :
  toy_find ((d, name, i) :: l) d' name' =
    if decide ((d, name) = (d', name')) then Value i else toy_find l d' name'.
Proof. unfold toy_find. rewrite filter_cons. cbn [fst]. by case_decide. Qed.

Lemma toy_find_remove d name l d' name' :
  toy_find (toy_remove d name l) d' name' =
    if decide ((d, name) = (d', name')) then Unexpected ENOENT else toy_find l d' name'.
Proof.
  unfold toy_remove. induction l as [|[[d0 n0] i0] l IH]; [by case_decide|].
  rewrite filter_cons. cbn [fst]. destruct (decide ((d0, n0) <> (d, name))) as [Hne|He].
  - rewrite toy_find_cons, IH, toy_find_cons. destruct (decide ((d0, n0) = (d', name'))) as [Hx|]; [|done].
    by rewrite decide_False by congruence.
  - apply dec_stable in He. rewrite IH, toy_find_cons. case_decide; [done|].
    by rewrite decide_False by congruence.
Qed.

#[local] Instance toy_names_laws : Names toy_osys (fun p : Z => p) toy_resolve.
Proof.
  split.
  - intros d name flags f f' H. cbn in H. destruct (toy_resolve f d name); [|done]. injection H as <-.
    unfold toy_resolve. cbn. by rewrite toy_find_remove, decide_True.
  - intros d old d' new flags f f' H. cbn in H. destruct (toy_resolve f d old) as [i|]; [|done].
    destruct (flags =? 0); [|done]. injection H as <-. unfold toy_resolve. cbn.
    by rewrite toy_find_cons, decide_True.
  - intros d old d' new f f' H Hne. cbn in H. destruct (toy_resolve f d old) as [i|] eqn:E; [|done].
    injection H as <-. unfold toy_resolve. cbn. rewrite toy_find_cons.
    destruct (decide ((d', new) = (d, old))) as [[= -> ->]|Hn]; [congruence|].
    by rewrite toy_find_remove, decide_False, toy_find_remove, decide_True.
  - intros p d name f f' H. cbn in H. unfold toy_add in H.
    destruct (toy_resolve f d name); [done|]. injection H as <-. unfold toy_resolve. cbn.
    by rewrite toy_find_cons, decide_True.
Qed.

#[local] Instance toy_symlinks_laws : Symlinks toy_osys (fun p : Z => p) toy_resolve toy_content.
Proof.
  split.
  - intros t d name f f' H. cbn in H. unfold toy_add in H. destruct (Z.leb_spec 4096 (zlen t)); [done|].
    destruct (toy_resolve f d name); [done|]. injection H as <-. split; [done|].
    exists (toy_next f). unfold toy_resolve, toy_content. cbn.
    by rewrite toy_find_cons, decide_True, lookup_insert_eq.
  - intros p size f t f' H. cbn in H. by injection H as <- _.
Qed.

#[local] Instance toy_contents_laws : Contents toy_osys (fun p : Z => p) toy_content (fun _ => false).
Proof.
  split.
  - done.
  - intros p mode f r f' i _ H. by injection H as _ <-.
  - intros p data off f k f' Ho H. cbn in H. injection H as <- <-.
    split; [pose proof (zlen_nonneg data); lia|].
    split; [intros Hne; destruct data; [done|unfold zlen; cbn; lia]|].
    unfold toy_content at 1. cbn. rewrite lookup_insert_eq. unfold zlen. rewrite Nat2Z.id.
    by rewrite take_ge by lia.
  - intros p n off f data f' Ho H. cbn in H. injection H as <- <-. split; [done|]. split; [|done].
    unfold zlen. intros Hn Hlt Hnil. apply (f_equal length) in Hnil. rewrite length_take, length_drop in Hnil.
    cbn in Hnil. lia.
Qed.

Definition toy_daemon : PassthroughFs (view toy Z Z) := PassthroughFs_make 5 toy_process.

(** [a] renamed to [c] is found under the nodeid it had. *)
Lemma changes_are_visible_witness :
  exists s', fs_rename (passthrough (table_sys toy_osys)) toy_ctx NodeId_root [Byte.x61] NodeId_root
      [Byte.x63] 0 toy_daemon = (Value tt, s') /\
    fst (fs_lookupx (passthrough (table_sys toy_osys)) toy_ctx NodeId_root [Byte.x63] s')
      = Value (entry_for 102).
Proof.
  destruct (fs_rename (passthrough (table_sys toy_osys)) toy_ctx NodeId_root [Byte.x61] NodeId_root
    [Byte.x63] 0 toy_daemon) as [r s'] eqn:E.
  destruct (changes_are_visible (table_sys toy_osys) toy_osys (fun b => b) (fun p : Z => p)
    (fun i => 100 + 2 * i) toy_resolve (fun f p => Value (toy_stat f p)) toy_content 5 toy_process 0 []
    toy_ctx eq_refl) as (_ & Hren & _).
  assert (r = Value tt) as -> by (vm_compute in E; injection E; congruence).
  exists s'. split; [done|].
  apply (Hren NodeId_root [Byte.x61] NodeId_root [Byte.x63] 0 s' 0 1 E); [|by vm_compute].
  exists {| in_path_fd := 5; in_nlookup := 1 |}, 0. by vm_compute.
Defined.

(** Two bytes written to a file with no handle are read back. *)
Lemma write_read_roundtrip_witness :
  exists s1 s2,
    write_all (fs_write (passthrough (table_sys toy_osys)) toy_ctx NodeId_root 0) 2 3 [Byte.x79; Byte.x7a]
      toy_daemon = (Value [], s1) /\
    read_all (fs_read (passthrough (table_sys toy_osys)) toy_ctx NodeId_root 0) 2 3 2 s1
      = (Value [Byte.x79; Byte.x7a], s2).
Proof.
  assert (Hi : node_file (fun b => b) (fun p : Z => p) toy_daemon NodeId_root 0).
  { exists {| in_path_fd := 5; in_nlookup := 1 |}, 0. by vm_compute. }
  pose proof (write_read_roundtrip (table_sys toy_osys) toy_osys (fun b => b) (fun p : Z => p)
    (fun i => 100 + 2 * i) toy_resolve (fun f p => Value (toy_stat f p)) toy_content (fun _ => false) 5
    toy_process 0 [] toy_ctx toy_ctx NodeId_root NodeId_root 0 0 3 [Byte.x79; Byte.x7a] 0 3 eq_refl
    (conj Hi (fun _ => eq_refl)) Hi ltac:(lia) ltac:(lia) ltac:(done) ltac:(done)) as H.
  cbn [fold_left length] in H. fold toy_daemon in H. revert H.
  destruct (write_all _ 2 3 _ toy_daemon) as [w s1] eqn:Ew. intros H.
  assert (w = Value []) as -> by (vm_compute in Ew; injection Ew; congruence). destruct H as [_ H].
  destruct (read_all _ 2 3 2 s1) as [g s2] eqn:Eg. exists s1, s2. split; [reflexivity|].
  destruct g as [got|e]; [by subst got|].
  vm_compute in Ew. injection Ew as <-. vm_compute in Eg. discriminate Eg.
Defined.
