(* ===== verification/Attributes.v ===== *)
(** * Attributes through the mount

    What a client relies on when it changes attributes: after a SETSTATX the file
    has what was asked for, keeps what was not, and the answer is what STATX says
    from then on. The daemon sets the owner of a file that is not open, and all
    extended attributes, by calls that do not follow symbolic links, on
    /proc/self/fd/<fd>, which is one; these requests never reach the file.
    [Attrs] and [Links] are the manual pages of the calls. *)

From S2P Require Import Prelude Memory Pod Abi Types DirentWriter Filesystem Replier Handlers.
From S2P Require Import Callbacks UringEntry UringWorker Simulation InodeTable Passthrough.
From S2P Require Import PassthroughSafety Backing MirrorSpec Mirror PathWalk Visible.
From stdpp Require Import gmap.
#[local] Open Scope Z_scope.
#[local] Open Scope daemon_scope.

(** ** What the manual pages say *)

(** The attributes a client can set; of the mode the permission bits, since the
    kernel may clear the others. *)
Record attributes := {
  at_perm : Z;
  at_uid : Z;
  at_gid : Z;
  at_size : Z;
  at_atime : timespec;
  at_mtime : timespec;
}.

Definition permissions (mode : Z) : Z := Z.land mode 0x1ff.

Definition with_perm (a : attributes) (mode : Z) : attributes := {|
  at_perm := permissions mode; at_uid := at_uid a; at_gid := at_gid a; at_size := at_size a;
  at_atime := at_atime a; at_mtime := at_mtime a |}.

(** -1 leaves an owner as it is. *)
Definition new_owner (old asked : Z) : Z := if asked =? 2 ^ 32 - 1 then old else asked.

Definition with_owner (a : attributes) (uid gid : Z) : attributes := {|
  at_perm := at_perm a; at_uid := new_owner (at_uid a) uid; at_gid := new_owner (at_gid a) gid;
  at_size := at_size a; at_atime := at_atime a; at_mtime := at_mtime a |}.

Definition with_size (a : attributes) (size : Z) (mtime : timespec) : attributes := {|
  at_perm := at_perm a; at_uid := at_uid a; at_gid := at_gid a; at_size := size;
  at_atime := at_atime a; at_mtime := mtime |}.

Definition with_times (a : attributes) (atime mtime : timespec) : attributes := {|
  at_perm := at_perm a; at_uid := at_uid a; at_gid := at_gid a; at_size := at_size a;
  at_atime := atime; at_mtime := mtime |}.

(** What [fstat] tells of them. *)
Definition stat_attributes (st : stat) : attributes := {|
  at_perm := permissions (st_mode st); at_uid := st_uid st; at_gid := st_gid st;
  at_size := st_size st; at_atime := st_atim st; at_mtime := st_mtim st |}.

(** An argument of [utimensat] that is a time, or leaves the time as it is. *)
Definition time_arg (t : timespec) : Prop := 0 <= tv_nsec t < 1000000000 \/ tv_nsec t = UTIME_OMIT.

Section Laws.
Context {F P D I : Type} (osys : forall A, objcall P D A -> F -> expected A * F).
Context (obj : P -> I) (attr : F -> I -> expected stat).

(** [stamp]: a time as the filesystem of a file can keep it. *)
Definition new_time (stamp : I -> timespec -> timespec) (i : I) (old t : timespec) : timespec :=
  if tv_nsec t =? UTIME_OMIT then old else stamp i t.

(** chmod, fchown, truncate, utimensat, and those on descriptors. *)
Class Attrs (attrs : F -> I -> attributes) (stamp : I -> timespec -> timespec) : Prop := {
  attr_attributes : forall f i st, attr f i = Value st -> stat_attributes st = attrs f i;
  chmod_sets : forall p mode f f' c, c = ObjChmod p mode \/ c = ObjFchmod p mode ->
    osys unit c f = (Value tt, f') -> attrs f' (obj p) = with_perm (attrs f (obj p)) mode;
  fchown_sets : forall p u g f f', osys unit (ObjFchown p u g) f = (Value tt, f') ->
    attrs f' (obj p) = with_owner (attrs f (obj p)) u g;
  truncate_sets : forall p size f f' c, c = ObjTruncate p size \/ c = ObjFtruncate p size ->
    0 <= size -> osys unit c f = (Value tt, f') ->
    exists mtime, attrs f' (obj p) = with_size (attrs f (obj p)) size mtime;
  utimens_sets : forall p ta tm f f' c, c = ObjUtimensat p ta tm \/ c = ObjFutimens p ta tm ->
    time_arg ta -> time_arg tm -> osys unit c f = (Value tt, f') ->
    let a := attrs f (obj p) in
    attrs f' (obj p) = with_times a (new_time stamp (obj p) (at_atime a) ta)
                         (new_time stamp (obj p) (at_mtime a) tm);
}.

(** A link is not its file: calls on it change no file's attributes, and a link
    has no attributes in the class [user] (xattr(7)). *)
Class Links (attrs : F -> I -> attributes) (xattrs : F -> I -> bytes -> option bytes)
    (user : bytes -> Prop) : Prop := {
  link_changes_no_file : forall A (c : objcall P D A) f r f' i, on_link c = true ->
    osys A c f = (r, f') -> attrs f' i = attrs f i /\ xattrs f' i = xattrs f i;
  link_no_user_xattr : forall p name f, user name ->
    (forall value flags, fst (osys unit (ObjLsetxattr p name value flags) f) <> Value tt) /\
    (forall size x, fst (osys _ (ObjLgetxattr p name size) f) <> Value x) /\
    fst (osys unit (ObjLremovexattr p name) f) <> Value tt;
}.
End Laws.
Arguments attr_attributes {F P D I osys obj attr attrs stamp _} f i st _.
Arguments chmod_sets {F P D I osys obj attr attrs stamp _} p mode f f' c _ _.
Arguments fchown_sets {F P D I osys obj attr attrs stamp _} p u g f f' _.
Arguments truncate_sets {F P D I osys obj attr attrs stamp _} p size f f' c _ _ _.
Arguments utimens_sets {F P D I osys obj attr attrs stamp _} p ta tm f f' c _ _ _ _.
Arguments link_changes_no_file {F P D I osys attrs xattrs user _} A c f r f' i _ _.
Arguments link_no_user_xattr {F P D I osys attrs xattrs user _} p name f _.

(** ** SETSTATX *)

(** The attributes after a SETSTATX, with an open file or without. [t] is the
    time of the change of size. *)
Definition changed {I} (stamp : I -> timespec -> timespec) (i : I) (held : bool) (x : SetStatxIn)
    (t : timespec) (a : attributes) : attributes :=
  let a := if asks x statx_bits.mode then with_perm a (si_mode x) else a in
  let a := if held then
             with_owner a (if asks x statx_bits.uid then si_uid x else 2 ^ 32 - 1)
               (if asks x statx_bits.gid then si_gid x else 2 ^ 32 - 1)
           else a in
  let a := if asks x statx_bits.size then with_size a (si_size x) t else a in
  with_times a (new_time stamp i (at_atime a) (set_time x statx_bits.atime (si_atime x)))
    (new_time stamp i (at_mtime a) (set_time x statx_bits.mtime (si_mtime x))).

(** A request of the kernel: times in range, a size that is one. *)
Definition setstatx_ok (x : SetStatxIn) : Prop :=
  0 <= si_size x < 2 ^ 63 /\ 0 <= ts_nsec (si_atime x) < 1000000000 /\
  0 <= ts_nsec (si_mtime x) < 1000000000.

Lemma set_time_arg x bit t : 0 <= ts_nsec t < 1000000000 -> time_arg (set_time x bit t).
Proof. intros H. unfold set_time, time_arg. case_if; [by left|by right]. Qed.

Lemma asks_lor x a b : asks x (Z.lor a b) = asks x a || asks x b.
Proof.
  unfold asks. rewrite Z.land_lor_distr_r, <- negb_andb. f_equal.
  apply eq_true_iff_eq. rewrite andb_true_iff, !Z.eqb_eq. apply Z.lor_eq_0_iff.
Qed.

Section SetAttributes.
Context {B F P D I : Type}.
Context (sys : forall A, syscall A -> B -> expected A * B).
Context (osys : forall A, objcall P D A -> F -> expected A * F).
Context (see : B -> view F P D) `{!Descriptors sys osys see}.
Context (obj : P -> I) (ino : I -> Z) (resolve : F -> I -> bytes -> expected I).
Context (attr : F -> I -> expected stat) `{!Inodes sys osys see obj ino resolve attr}.
Context (attrs : F -> I -> attributes) (stamp : I -> timespec -> timespec).
Context (xattrs : F -> I -> bytes -> option bytes) (user : bytes -> Prop).
Context `{!Attrs osys obj attr attrs stamp} `{!Links osys attrs xattrs user}.

#[local] Abbreviation files s := (vw_files (see (pt_sys s))).

(** A step of SETSTATX that succeeded. *)
Lemma when_value {A} (b : bool) c (k : unit -> mirror_op F P D A) m a m' :
  nbind (nwhen b (on osys c)) k m = (Value a, m') ->
  exists m1, k tt m1 = (Value a, m') /\ mr_nodes m1 = mr_nodes m /\
    if b then osys unit c (mr_backing m) = (Value tt, mr_backing m1) else mr_backing m1 = mr_backing m.
Proof.
  intros ([] & m1 & Hx & Hk)%bind_value. exists m1. split; [done|]. unfold nwhen in Hx. destruct b.
  - by apply on_value in Hx as (? & ? & _).
  - by injection Hx as <-.
Qed.

Lemma when_attrs (b : bool) c i (R : attributes -> attributes -> Prop) (f f' : F) :
  (osys unit c f = (Value tt, f') -> R (attrs f i) (attrs f' i)) ->
  (if b then osys unit c f = (Value tt, f') else f' = f) ->
  if b then R (attrs f i) (attrs f' i) else attrs f' i = attrs f i.
Proof. destruct b; [auto|by intros _ ->]. Qed.

Lemma owner_unasked a x :
  asks x (Z.lor statx_bits.uid statx_bits.gid) = false ->
  with_owner a (if asks x statx_bits.uid then si_uid x else 2 ^ 32 - 1)
    (if asks x statx_bits.gid then si_gid x else 2 ^ 32 - 1) = a.
Proof. rewrite asks_lor. intros [-> ->]%orb_false_iff. by destruct a. Qed.

Lemma times_unasked i a x :
  asks x (Z.lor statx_bits.atime statx_bits.mtime) = false ->
  with_times a (new_time stamp i (at_atime a) (set_time x statx_bits.atime (si_atime x)))
    (new_time stamp i (at_mtime a) (set_time x statx_bits.mtime (si_mtime x))) = a.
Proof. rewrite asks_lor. unfold set_time. intros [-> ->]%orb_false_iff. by destruct a. Qed.

(** The steps of SETSTATX that were asked for, one after the other. *)
Lemma changed_steps (held : bool) x i a a1 a2 a3 a4 :
  (if asks x statx_bits.mode then a1 = with_perm a (si_mode x) else a1 = a) ->
  (if asks x (Z.lor statx_bits.uid statx_bits.gid) then
     a2 = if held then with_owner a1 (if asks x statx_bits.uid then si_uid x else 2 ^ 32 - 1)
                         (if asks x statx_bits.gid then si_gid x else 2 ^ 32 - 1) else a1
   else a2 = a1) ->
  (if asks x statx_bits.size then exists t, a3 = with_size a2 (si_size x) t else a3 = a2) ->
  (if asks x (Z.lor statx_bits.atime statx_bits.mtime) then
     a4 = with_times a3 (new_time stamp i (at_atime a3) (set_time x statx_bits.atime (si_atime x)))
            (new_time stamp i (at_mtime a3) (set_time x statx_bits.mtime (si_mtime x)))
   else a4 = a3) ->
  exists t, a4 = changed stamp i held x t a.
Proof.
  intros S1 S2 S3 S4.
  assert (exists t, a3 = if asks x statx_bits.size then with_size a2 (si_size x) t else a2) as [t Ht].
  { destruct (asks x statx_bits.size); [done|]. by exists {| tv_sec := 0; tv_nsec := 0 |}. }
  exists t. unfold changed.
  replace (if asks x statx_bits.mode then _ else _) with a1 by by destruct (asks x statx_bits.mode).
  replace (if held then _ else a1) with a2.
  2: { destruct (asks x (Z.lor statx_bits.uid _)) eqn:E; [done|]. rewrite S2.
       destruct held; [by rewrite owner_unasked|done]. }
  rewrite <- Ht. destruct (asks x (Z.lor statx_bits.atime _)) eqn:E; [done|].
  by rewrite times_unasked.
Qed.

Lemma statx_looks ctx n m out m' : mr_statx osys ctx n m = (Value out, m') -> m' = m.
Proof.
  intros (d & k & _ & (st & m1 & Ho & Hr)%bind_value)%place_then.
  rewrite (on_stat sys osys see obj ino resolve attr) in Ho. injection Ho as _ <-. by injection Hr as _ <-.
Qed.

(** The calls at a place. *)
Lemma set_steps (held : bool) p x ctx n chmod chown truncate utimes m out m' :
  let u := if asks x statx_bits.uid then si_uid x else 2 ^ 32 - 1 in
  let g := if asks x statx_bits.gid then si_gid x else 2 ^ 32 - 1 in
  let ta := set_time x statx_bits.atime (si_atime x) in
  let tm := set_time x statx_bits.mtime (si_mtime x) in
  setstatx_ok x ->
  chmod = ObjChmod p (si_mode x) \/ chmod = ObjFchmod p (si_mode x) ->
  chown = (if held then ObjFchown p u g else ObjLchown p u g) ->
  truncate = ObjTruncate p (si_size x) \/ truncate = ObjFtruncate p (si_size x) ->
  utimes = ObjUtimensat p ta tm \/ utimes = ObjFutimens p ta tm ->
  nbind (nwhen (asks x statx_bits.mode) (on osys chmod)) (fun _ =>
  nbind (nwhen (asks x (Z.lor statx_bits.uid statx_bits.gid)) (on osys chown)) (fun _ =>
  nbind (nwhen (asks x statx_bits.size) (on osys truncate)) (fun _ =>
  nbind (nwhen (asks x (Z.lor statx_bits.atime statx_bits.mtime)) (on osys utimes)) (fun _ =>
  mr_statx osys ctx n)))) m = (Value out, m') ->
  (exists t, attrs (mr_backing m') (obj p) = changed stamp (obj p) held x t (attrs (mr_backing m) (obj p))) /\
  mr_nodes m' = mr_nodes m /\ mr_statx osys ctx n m' = (Value out, m').
Proof.
  cbv zeta. intros (Hz & Ha & Hm) Hc1 Hc2 Hc3 Hc4
    (m1 & (m2 & (m3 & (m4 & Hs & N4 & S4)%when_value & N3 & S3)%when_value & N2 & S2)%when_value & N1
     & S1)%when_value.
  pose proof (statx_looks _ _ _ _ _ Hs) as ->. split; [|split; [congruence|done]].
  eapply changed_steps.
  - apply (when_attrs _ _ (obj p) (fun a a' => a' = with_perm a _) _ _ (chmod_sets _ _ _ _ _ Hc1) S1).
  - refine (when_attrs _ _ (obj p) (fun a a' => a' = if held then with_owner a _ _ else a) _ _ _ S2).
    rewrite Hc2. destruct held; [apply fchown_sets|].
    intros H. exact (proj1 (link_changes_no_file unit (ObjLchown p _ _) _ _ _ (obj p) eq_refl H)).
  - refine (when_attrs _ _ (obj p) (fun a a' => exists t, a' = with_size a _ t) _ _ _ S3).
    apply (truncate_sets _ _ _ _ _ Hc3). lia.
  - refine (when_attrs _ _ (obj p) (fun a a' => a' = with_times a _ _) _ _ _ S4).
    apply (utimens_sets _ _ _ _ _ _ Hc4); by apply set_time_arg.
Qed.

Context (root : P).
#[local] Abbreviation related s m := (mirrors see ∅ ∅ s m /\ named obj ino root m).

(** The place SETSTATX works on. *)
Lemma setstatx_place s m ctx n fh x i out m' :
  mirrors see ∅ ∅ s m -> io_file see obj (fun _ => True) s n fh i -> setstatx_ok x ->
  mr_setstatx osys ctx n fh x m = (Value out, m') ->
  (exists t, attrs (mr_backing m') i = changed stamp i (0 <=? file_fd s fh) x t (attrs (mr_backing m) i)) /\
  mr_nodes m' = mr_nodes m /\ mr_statx osys ctx n m' = (Value out, m').
Proof.
  intros Hm Hio Hx H. pose proof (io_file_at see obj (fun _ => True) s m n fh i Hm Hio) as Hat.
  pose proof (open_file_rel see _ _ s m fh Hm) as Hfd. unfold io_at in Hat. unfold mr_setstatx in H.
  rewrite (cast_id I64) in H by (unfold setstatx_ok in Hx; fits_lia).
  destruct (open_file m fh) as [p|].
  - destruct Hat as [_ <-]. destruct Hfd as (fd & -> & H0 & _).
    rewrite (proj2 (Z.leb_le 0 fd) H0). by eapply set_steps in H; try done; auto.
  - destruct Hat as (p & k & Hn & <-). apply place_then in H as (p' & k' & Hn' & H). simplify_eq.
    rewrite (proj2 (Z.leb_gt 0 _) Hfd). by eapply set_steps in H; try done; auto.
Qed.

Lemma setstatx_done s m s' ctx n fh x i out :
  related s m -> node_file see obj s n i -> io_file see obj (fun _ => True) s n fh i -> setstatx_ok x ->
  pt_setstatx sys ctx n fh x s = (Value out, s') ->
  (exists t, attrs (files s') i = changed stamp i (0 <=? file_fd s fh) x t (attrs (files s) i)) /\
  (exists st, attr (files s') i = Value st /\ stat_attributes st = attrs (files s') i /\ out = fill_statx st) /\
  forall ctx', fst (pt_statx sys ctx' n s') = Value out.
Proof.
  intros Hrel Hn Hio Hx H.
  destruct (mirror_value see obj ino root _ _ s m out s' (sim_setstatx sys osys see ctx n fh x) Hrel H)
    as (m' & Ey & Hm' & Hf & Hf0).
  destruct (setstatx_place s m ctx n fh x i out m' (proj1 Hrel) Hio Hx Ey) as (Hc & Hnodes & Hs).
  rewrite Hf, Hf0. split; [done|]. split.
  - apply place_then in Hs as (d & k & Hd & (st & m1 & Ho & Hr)%bind_value).
    rewrite Hnodes in Hd. rewrite (on_stat sys osys see obj ino resolve attr) in Ho.
    rewrite (node_file_place see obj s m n d k i (proj1 Hrel) Hd Hn) in Ho. injection Ho as Ho _.
    injection Hr as <- _. exists st. split; [done|]. split; [by apply attr_attributes|done].
  - intros ctx'. destruct (sim_same see _ _ _ s' m' (sim_statx sys osys see ∅ ctx' ctx n) Hm') as [-> _].
    by rewrite Hs.
Qed.

(** ** Calls on links *)

(** A request that makes one call, on the link of a node. *)
Lemma link_request {A} (x : M B A) (oc : P -> objcall P D A) n s m :
  sim see ∅ ∅ x (nbind (place n) (fun p => on osys (oc p))) (same (P := P)) ->
  (forall p, on_link (oc p) = true) -> mirrors see ∅ ∅ s m ->
  (forall i, attrs (files (snd (x s))) i = attrs (files s) i /\
             xattrs (files (snd (x s))) i = xattrs (files s) i) /\
  forall a, fst (x s) = Value a -> exists p, fst (osys A (oc p) (files s)) = Value a.
Proof.
  intros Hsim Hoc Hm. destruct (sim_same see _ _ _ s m Hsim Hm) as [Hr Hm'].
  rewrite Hr, (ms_backing _ _ _ _ _ Hm'), (ms_backing _ _ _ _ _ Hm).
  unfold nbind, place, on. destruct (mr_nodes m !! (n : Z)) as [[p k]|]; [|by split].
  destruct (osys A (oc p) (mr_backing m)) as [r f'] eqn:E. cbn. split.
  - intros i. by eapply link_changes_no_file.
  - intros a ->. exists p. by rewrite E.
Qed.

(** A change of owner alone, of a file that is not open. *)
Lemma owner_request s m ctx n fh x i :
  mirrors see ∅ ∅ s m -> file_fd s fh < 0 ->
  asks x (Z.lor statx_bits.mode (Z.lor statx_bits.size (Z.lor statx_bits.atime statx_bits.mtime))) = false ->
  attrs (files (snd (pt_setstatx sys ctx n fh x s))) i = attrs (files s) i.
Proof.
  intros Hm Hfd. rewrite !asks_lor. intros [Ha [Hb [Hc Hd]%orb_false_iff]%orb_false_iff]%orb_false_iff.
  destruct (sim_same see _ _ _ s m (sim_setstatx sys osys see ctx n fh x) Hm) as [_ Hm'].
  rewrite (ms_backing _ _ _ _ _ Hm'), (ms_backing _ _ _ _ _ Hm). unfold mr_setstatx.
  pose proof (open_file_rel see _ _ s m fh Hm) as Hof. destruct (open_file m fh) as [p|].
  { destruct Hof as (fd & <- & H0 & _). lia. }
  rewrite !asks_lor, Ha, Hb, Hc, Hd. cbn [orb nwhen].
  unfold nbind, nret, place, nwhen. destruct (mr_nodes m !! (n : Z)) as [[p k]|] eqn:En; [|done].
  assert (Hst : forall m, mr_backing (snd (mr_statx osys ctx n m)) = mr_backing m).
  { intros m1. unfold mr_statx, nbind, place. destruct (mr_nodes m1 !! (n : Z)) as [[q k1]|]; [|done].
    rewrite (on_stat sys osys see obj ino resolve attr). by destruct (attr _ _). }
  destruct (_ || _); [|cbn [nret]; by rewrite Hst]. unfold on.
  destruct (osys unit (ObjLchown p _ _) (mr_backing m)) as [r f'] eqn:E.
  pose proof (link_changes_no_file _ (ObjLchown p _ _) _ _ _ i eq_refl E) as [Hk _].
  destruct r; [by rewrite Hst|done].
Qed.

Lemma user_getxattr s m ctx n name out v :
  mirrors see ∅ ∅ s m -> user (c_str name) -> fst (fst (pt_getxattr sys ctx n name out s)) <> Value v.
Proof.
  intros Hm Hu.
  destruct (sim_node_span sys osys see n out (fun fd => SysLgetxattr (ProcFd fd) (c_str name) (zlen out))
    (fun p => ObjLgetxattr p (c_str name) (zlen out)) s m) as [Hr _]; [|done|].
  { intros K fd p Hp. cbn [translate at_path]. by rewrite Hp. }
  unfold pt_getxattr. cbv zeta in Hr. rewrite Hr. unfold nbind, place, on.
  destruct (mr_nodes m !! (n : Z)) as [[p k]|]; [|done].
  destruct (link_no_user_xattr p (c_str name) (mr_backing m) Hu) as (_ & Hg & _).
  destruct (osys _ _ _) as [[[k' data]|e] f'] eqn:E; [|done]. cbn. intros _.
  by apply (Hg (zlen out) (k', data)); rewrite E.
Qed.
End SetAttributes.

(** ** Theorems *)

(** C8: A change of attributes is done and reported. In whatever state the daemon
    is, a SETSTATX that succeeds on a node, through a handle of its file or none,
    leaves the file with what was asked for and otherwise as it was: permissions,
    size and times in any case, the owner if the file is open. The answer is the
    attributes the file has then, and every STATX answers the same. *)
Theorem setstatx_visible {B F P D I} sys osys (see : B -> view F P D) `{!Descriptors sys osys see}
    (obj : P -> I) ino resolve attr `{!Inodes sys osys see obj ino resolve attr} attrs stamp xattrs user
    `{!Attrs osys obj attr attrs stamp} `{!Links osys attrs xattrs user}
    backing b root cbs ctx n fh x i out s' :
  vw_fds (see b) !! backing = Some root ->
  let s := fold_left (fun s cb => invoke (passthrough sys) cb s) cbs (PassthroughFs_make backing b) in
  let files s := vw_files (see (pt_sys s)) in
  node_file see obj s n i -> io_file see obj (fun _ => True) s n fh i -> setstatx_ok x ->
  fs_setstatx (passthrough sys) ctx n fh x s = (Value out, s') ->
  (exists t, attrs (files s') i = changed stamp i (0 <=? file_fd s fh) x t (attrs (files s) i)) /\
  (exists st, attr (files s') i = Value st /\ stat_attributes st = attrs (files s') i /\
     out = fill_statx st) /\
  forall ctx', fst (fs_statx (passthrough sys) ctx' n s') = Value out.
Proof.
  intros Hb s files Hn Hio Hx H.
  destruct (callbacks_named sys osys see obj ino resolve attr root cbs _ _
    (mirrors_make see backing b root Hb) (named_make obj ino root _)) as (m & Hrel).
  exact (setstatx_done sys osys see obj ino resolve attr attrs stamp xattrs user root s m s' ctx n fh x i out
    Hrel Hn Hio Hx H).
Qed.

(** C37: Requests that miss their file. The daemon changes the owner of a file that
    is not open by lchown, and extended attributes by lsetxattr and the like, on
    /proc/self/fd/<fd>; these calls do not follow that link. So a SETSTATX of the
    owner without a handle changes no file, even when it succeeds; no SETXATTR or
    REMOVEXATTR changes a file; and requests on user attributes never succeed,
    whatever attributes the file has. *)
Theorem link_requests_miss_file {B F P D I} sys osys (see : B -> view F P D) `{!Descriptors sys osys see}
    (obj : P -> I) ino resolve attr `{!Inodes sys osys see obj ino resolve attr}
    (attrs : F -> I -> attributes) xattrs user `{!Links osys attrs xattrs user} backing b root cbs ctx n :
  vw_fds (see b) !! backing = Some root ->
  let s := fold_left (fun s cb => invoke (passthrough sys) cb s) cbs (PassthroughFs_make backing b) in
  let files s := vw_files (see (pt_sys s)) in
  (forall fh x i, file_fd s fh < 0 ->
     asks x (Z.lor statx_bits.mode (Z.lor statx_bits.size (Z.lor statx_bits.atime statx_bits.mtime))) = false ->
     attrs (files (snd (fs_setstatx (passthrough sys) ctx n fh x s))) i = attrs (files s) i) /\
  (forall name value flags, let r := fs_setxattr (passthrough sys) ctx n name value flags s in
     (forall i, xattrs (files (snd r)) i = xattrs (files s) i) /\ (user (c_str name) -> fst r <> Value tt)) /\
  (forall name, let r := fs_removexattr (passthrough sys) ctx n name s in
     (forall i, xattrs (files (snd r)) i = xattrs (files s) i) /\ (user (c_str name) -> fst r <> Value tt)) /\
  (forall name out k, user (c_str name) ->
     fst (fst (fs_getxattr (passthrough sys) ctx n name out s)) <> Value k).
Proof.
  intros Hb s files.
  destruct (callbacks_named sys osys see obj ino resolve attr root cbs _ _
    (mirrors_make see backing b root Hb) (named_make obj ino root _)) as (m & Hm & _).
  fold s in Hm. split_and!.
  - intros fh x i Hfd Hx.
    exact (owner_request sys osys see obj ino resolve attr attrs xattrs user s m ctx n fh x i Hm Hfd Hx).
  - intros name value flags.
    destruct (link_request osys see attrs xattrs user _
      (fun p => ObjLsetxattr p (c_str name) value (cast I32 flags)) n s m
      (sim_setxattr sys osys see ctx n name value flags) (fun _ => eq_refl) Hm) as [Hk Hv].
    split; [intros i; apply Hk|]. intros Hu H. destruct (Hv tt H) as [p Hp].
    by apply (link_no_user_xattr p (c_str name) _ Hu) in Hp.
  - intros name.
    destruct (link_request osys see attrs xattrs user _ (fun p => ObjLremovexattr p (c_str name)) n s m
      (sim_removexattr sys osys see ctx n name) (fun _ => eq_refl) Hm) as [Hk Hv].
    split; [intros i; apply Hk|]. intros Hu H. destruct (Hv tt H) as [p Hp].
    by apply (link_no_user_xattr p (c_str name) _ Hu) in Hp.
  - intros name out k Hu. by eapply user_getxattr.
Qed.

(** ** Examples *)

(** Files that are their own places: attributes, with times in seconds. Links can
    be given away, and have no extended attributes. *)
#[local] Abbreviation meta := (gmap Z attributes).

Definition meta_attrs (f : meta) (i : Z) : attributes :=
  let epoch := {| tv_sec := 0; tv_nsec := 0 |} in
  let a := default {| at_perm := 0x1a4; at_uid := 0; at_gid := 0; at_size := 0; at_atime := epoch;
                      at_mtime := epoch |} (f !! i) in
  with_perm a (at_perm a).

Definition meta_stat (f : meta) (i : Z) : stat :=
  let a := meta_attrs f i in {|
  st_dev := 0; st_ino := 100 + 2 * i; st_mode := at_perm a; st_nlink := 1; st_uid := at_uid a;
  st_gid := at_gid a; st_rdev := 0; st_size := at_size a; st_blksize := 4096; st_blocks := 0;
  st_atim := at_atime a; st_mtim := at_mtime a; st_ctim := {| tv_sec := 0; tv_nsec := 0 |} |}.

Definition whole_seconds (_ : Z) (t : timespec) : timespec := {| tv_sec := tv_sec t; tv_nsec := 0 |}.

Definition meta_osys (A : Type) (c : objcall Z Z A) (f : meta) : expected A * meta :=
  let set p g := (Value tt, <[p := g (meta_attrs f p)]> f) in
  match c in objcall _ _ A return expected A * meta with
  | ObjOpenat _ _ _ _ => (Unexpected ENOENT, f)
  | ObjOpen p _ => (Value p, f)
  | ObjFstatat p | ObjFstat p => (Value (meta_stat f p), f)
  | ObjChmod p mode | ObjFchmod p mode => set p (fun a => with_perm a mode)
  | ObjFchown p u g => set p (fun a => with_owner a u g)
  | ObjLchown _ _ _ => (Value tt, f)
  | ObjTruncate p size | ObjFtruncate p size =>
      set p (fun a => with_size a size {| tv_sec := 0; tv_nsec := 0 |})
  | ObjUtimensat p ta tm | ObjFutimens p ta tm =>
      set p (fun a => with_times a (new_time whole_seconds p (at_atime a) ta)
                        (new_time whole_seconds p (at_mtime a) tm))
  | _ => (Unexpected EPERM, f)
  end.

Lemma permissions_twice m : permissions (permissions m) = permissions m.
Proof. unfold permissions. rewrite <- Z.land_assoc. by rewrite Z.land_diag. Qed.

Lemma meta_insert f i a : permissions (at_perm a) = at_perm a -> meta_attrs (<[i := a]> f) i = a.
Proof.
  intros H. unfold meta_attrs. rewrite lookup_insert_eq. cbn [default from_option]. unfold with_perm.
  unfold id. rewrite H. by destruct a.
Qed.

Lemma meta_perm f i : permissions (at_perm (meta_attrs f i)) = at_perm (meta_attrs f i).
Proof. apply permissions_twice. Qed.

#[local] Instance meta_inodes :
  Inodes (table_sys meta_osys) meta_osys (fun b => b) (fun p : Z => p) (fun i => 100 + 2 * i)
    (fun _ _ _ => Unexpected ENOENT) (fun f i => Value (meta_stat f i)).
Proof.
  split; try done.
  - intros p name f. by exists (Unexpected ENOENT).
  - intros p f flags q f' H. by injection H.
  - intros f i st H. by injection H as <-.
  - intros i. unfold NodeId_root. lia.
  - intros. lia.
Qed.

#[local] Instance meta_attributes :
  Attrs meta_osys (fun p : Z => p) (fun f i => Value (meta_stat f i)) meta_attrs whole_seconds.
Proof.
  split.
  - intros f i st H. injection H as <-. unfold stat_attributes, meta_stat.
    cbn [st_mode st_uid st_gid st_size st_atim st_mtim]. rewrite meta_perm. by destruct (meta_attrs f i).
  - intros p mode f f' c [-> | ->] H; injection H as <-; apply meta_insert, permissions_twice.
  - intros p u g f f' H. injection H as <-. apply meta_insert, meta_perm.
  - intros p size f f' c [-> | ->] _ H; injection H as <-; eexists; apply meta_insert, meta_perm.
  - intros p ta tm f f' c [-> | ->] _ _ H; injection H as <-; apply meta_insert, meta_perm.
Qed.

#[local] Instance meta_links : Links meta_osys meta_attrs (fun _ _ _ => None) (fun _ => True).
Proof.
  split.
  - intros A c f r f' i Hc H. by destruct c; try discriminate Hc; injection H as _ <-.
  - done.
Qed.

(** The root directory as descriptor 5. *)
Definition meta_process : view meta Z Z := {| vw_files := ∅; vw_fds := {[ 5 := 0 ]}; vw_dirs := ∅ |}.
Definition meta_daemon : PassthroughFs (view meta Z Z) := PassthroughFs_make 5 meta_process.

(** Mode 0700 and owner 7 without a handle. *)
Definition meta_request : SetStatxIn := {|
  si_mask := Z.lor statx_bits.mode statx_bits.uid; si_mode := 0x1c0; si_uid := 7; si_gid := 0; si_size := 0;
  si_atime := Timespec_zero; si_ctime := Timespec_zero; si_mtime := Timespec_zero |}.

Lemma setstatx_visible_witness :
  exists out s', fs_setstatx (passthrough (table_sys meta_osys)) toy_ctx NodeId_root 0 meta_request meta_daemon
      = (Value out, s') /\
    (exists t, meta_attrs (vw_files (pt_sys s')) 0 =
       changed whole_seconds 0 false meta_request t (meta_attrs ∅ 0)) /\
    fst (fs_statx (passthrough (table_sys meta_osys)) toy_ctx NodeId_root s') = Value out.
Proof.
  destruct (fs_setstatx (passthrough (table_sys meta_osys)) toy_ctx NodeId_root 0 meta_request meta_daemon)
    as [[out|e] s'] eqn:E; [|vm_compute in E; discriminate E].
  assert (Hn : node_file (fun b => b) (fun p : Z => p) meta_daemon NodeId_root 0).
  { exists {| in_path_fd := 5; in_nlookup := 1 |}, 0. by vm_compute. }
  exists out, s'. split; [done|].
  destruct (setstatx_visible (table_sys meta_osys) meta_osys (fun b => b) (fun p : Z => p)
    (fun i => 100 + 2 * i) (fun _ _ _ => Unexpected ENOENT) (fun f i => Value (meta_stat f i)) meta_attrs
    whole_seconds
    (fun _ _ _ => None) (fun _ => True) 5 meta_process 0 [] toy_ctx NodeId_root 0 meta_request 0 out s' eq_refl
    Hn Hn ltac:(by vm_compute) E) as (Ht & _ & Hs).
  split; [exact Ht|exact (Hs toy_ctx)].
Defined.

(** The owner asked for is answered as done, and is not. *)
Lemma link_requests_miss_file_witness :
  let x := {| si_mask := statx_bits.uid; si_mode := 0; si_uid := 7; si_gid := 0; si_size := 0;
    si_atime := Timespec_zero; si_ctime := Timespec_zero; si_mtime := Timespec_zero |} in
  let r := fs_setstatx (passthrough (table_sys meta_osys)) toy_ctx NodeId_root 0 x meta_daemon in
  fst r = Value (fill_statx (meta_stat ∅ 0)) /\
  meta_attrs (vw_files (pt_sys (snd r))) 0 = meta_attrs ∅ 0 /\
  fst (fs_setxattr (passthrough (table_sys meta_osys)) toy_ctx NodeId_root [Byte.x61] [] 0 meta_daemon)
    <> Value tt.
Proof.
  intros x r.
  destruct (link_requests_miss_file (table_sys meta_osys) meta_osys (fun b => b) (fun p : Z => p)
    (fun i => 100 + 2 * i) (fun _ _ _ => Unexpected ENOENT) (fun f i => Value (meta_stat f i)) meta_attrs
    (fun _ _ _ => None) (fun _ => True) 5 meta_process 0 [] toy_ctx NodeId_root eq_refl) as (Ho & Hx & _).
  split; [by vm_compute|]. split; [by apply (Ho 0 x 0)|]. by apply Hx.
Defined.
