(* ===== verification/Mount.v ===== *)
(** * Session state, descriptors and the mount phases (src/mount.cpp, src/session.cpp)

    A session talks to the system through a few calls whose order matters. Each
    is an [effect]; the session's state carries the trace of the effects so far
    with their results. The system is a parameter: [en_result] gives the result
    of a call after a trace, negative for an errno, and [en_stop] says where
    another thread (or a signal handler) calls [Session::stop]. Diagnostics on
    stderr are not modelled. *)

From S2P Require Import Prelude Memory Pod Abi Types DirentWriter Filesystem Replier UringEntry.
From S2P Require Import UringWorker Passthrough.
From Stdlib Require Import Strings.String.

(** ** Effects *)

Inductive effect :=
| EOpenDev
| ESyncInit (fd : Z)
| EEventfd
| EFsopen
| ESetFd (fsfd dev_fd : Z)
| ESetSource (fsfd : Z) (source : bytes)
| EStart (qid : Z)
| EDestroyWorker (qid : Z)
| ELaunch (qid : Z)
| ECreate (fsfd : Z)
| EFsmount (fsfd attr_flags : Z)
| EMoveMount (mntfd : Z) (mountpoint : bytes)
| EJoin (qid : Z)
| EWriteStop (efd : Z)
| EClose (fd : Z)
| EUmount (mountpoint : bytes)
| EDestroy.

#[export] Instance effect_eq_dec : EqDecision effect.
Proof. solve_decision. Defined.

Definition trace : Type := list (effect * Z).

(** The outside of a session. [en_start] is what the calls of a worker's
    [start] return; [en_init_served] says whether a worker has set [init_done];
    [en_error] is the error a worker thread left. *)
Record env := {
  en_result : trace -> effect -> Z;
  en_stop : trace -> bool;
  en_start : Z -> start_env;
  en_init_served : trace -> bool;
  en_error : Z -> Z;
  en_hardware_concurrency : Z;
}.

Record sess := { ss_impl : Impl; ss_trace : trace }.

Definition with_impl (s : sess) (i : Impl) : sess := {| ss_impl := i; ss_trace := ss_trace s |}.

Definition log (s : sess) (e : effect) (r : Z) : sess :=
  {| ss_impl := ss_impl s; ss_trace := ss_trace s ++ [(e, r)] |}.

Definition set_dev_fd (i : Impl) (fd : Z) : Impl := {|
  impl_opts := impl_opts i; impl_dev_fd := fd; impl_stop_efd := impl_stop_efd i;
  impl_stopping := impl_stopping i; impl_init_done := impl_init_done i;
  impl_mount_installed := impl_mount_installed i |}.

Definition set_stop_efd (i : Impl) (fd : Z) : Impl := {|
  impl_opts := impl_opts i; impl_dev_fd := impl_dev_fd i; impl_stop_efd := fd;
  impl_stopping := impl_stopping i; impl_init_done := impl_init_done i;
  impl_mount_installed := impl_mount_installed i |}.

Definition set_stopping (i : Impl) : Impl := {|
  impl_opts := impl_opts i; impl_dev_fd := impl_dev_fd i; impl_stop_efd := impl_stop_efd i;
  impl_stopping := true; impl_init_done := impl_init_done i;
  impl_mount_installed := impl_mount_installed i |}.

Definition set_mount_installed (i : Impl) (b : bool) : Impl := {|
  impl_opts := impl_opts i; impl_dev_fd := impl_dev_fd i; impl_stop_efd := impl_stop_efd i;
  impl_stopping := impl_stopping i; impl_init_done := impl_init_done i;
  impl_mount_installed := b |}.

(** [opts.dev_fd = -1]. *)
Definition clear_opt_dev_fd (i : Impl) : Impl :=
  let o := impl_opts i in {|
  impl_opts := {| opt_mountpoint := opt_mountpoint o; opt_fsname := opt_fsname o;
    opt_source := opt_source o; opt_read_only := opt_read_only o;
    opt_allow_other := opt_allow_other o; opt_dev_fd := -1;
    opt_uring_queues := opt_uring_queues o; opt_uring_queue_depth := opt_uring_queue_depth o;
    opt_uring_payload_bytes := opt_uring_payload_bytes o |};
  impl_dev_fd := impl_dev_fd i; impl_stop_efd := impl_stop_efd i;
  impl_stopping := impl_stopping i; impl_init_done := impl_init_done i;
  impl_mount_installed := impl_mount_installed i |}.

Section Mount.
Context (E : env).

(** ** stop *)

Definition session_stop (s : sess) : sess :=
  let s := with_impl s (set_stopping (ss_impl s)) in
  let efd := impl_stop_efd (ss_impl s) in
  if 0 <=? efd then log s (EWriteStop efd) (en_result E (ss_trace s) (EWriteStop efd)) else s.

Definition other_threads (s : sess) : sess :=
  if en_stop E (ss_trace s) then session_stop s else s.

(** A call of the session's own thread, after what other threads did. *)
Definition perform (e : effect) (s : sess) : Z * sess :=
  let s := other_threads s in
  let r := en_result E (ss_trace s) e in
  (r, log s e r).

(** ** UniqueFd *)

(** [reset(fd)] on a holder of [fd_]; the holder then has [fd]. *)
Definition UniqueFd_reset (fd_ fd : Z) (s : sess) : sess :=
  if (0 <=? fd_) && negb (fd_ =? fd) then snd (perform (EClose fd_) s) else s.

(** The destructor is [reset()]. *)
Definition UniqueFd_drop (fd_ : Z) (s : sess) : sess := UniqueFd_reset fd_ (-1) s.

Definition assign_dev_fd (fd : Z) (s : sess) : sess :=
  let s := UniqueFd_reset (impl_dev_fd (ss_impl s)) fd s in
  with_impl s (set_dev_fd (ss_impl s) fd).

Definition assign_stop_efd (fd : Z) (s : sess) : sess :=
  let s := UniqueFd_reset (impl_stop_efd (ss_impl s)) fd s in
  with_impl s (set_stop_efd (ss_impl s) fd).

Definition open_fex_device (s : sess) : expected Z * sess :=
  let '(fd, s) := perform EOpenDev s in
  if fd <? 0 then (Unexpected (- fd), s) else
  let '(rc, s) := perform (ESyncInit fd) s in
  if rc <? 0 then (Unexpected (- rc), UniqueFd_drop fd s) else (Value fd, s).

(** ** The mount *)

Definition mount_open_and_set_fd (s : sess) : expected Z * sess :=
  let '(fsfd, s) := perform EFsopen s in
  if fsfd <? 0 then (Unexpected (- fsfd), s) else
  let '(rc, s) := perform (ESetFd fsfd (impl_dev_fd (ss_impl s))) s in
  if rc <? 0 then (Unexpected (- rc), UniqueFd_drop fsfd s) else
  match opt_source (impl_opts (ss_impl s)) with
  | [] => (Value fsfd, s)
  | source =>
      let '(rc, s) := perform (ESetSource fsfd source) s in
      if rc <? 0 then (Unexpected (- rc), UniqueFd_drop fsfd s) else (Value fsfd, s)
  end.

(** The errno, 0 for success; [fsfd] is a parameter by value, closed at the end. *)
Definition mount_create_and_finish (fsfd : Z) (s : sess) : Z * sess :=
  let '(rc, s) := perform (ECreate fsfd) s in
  if rc <? 0 then (- rc, UniqueFd_drop fsfd s) else
  let attr_flags := if opt_read_only (impl_opts (ss_impl s)) then 0x1 else 0 in
  let '(mntfd, s) := perform (EFsmount fsfd attr_flags) s in
  if mntfd <? 0 then (- mntfd, UniqueFd_drop fsfd s) else
  let '(rc, s) := perform (EMoveMount mntfd (opt_mountpoint (impl_opts (ss_impl s)))) s in
  if rc <? 0 then (- rc, UniqueFd_drop fsfd (UniqueFd_drop mntfd s)) else
  let s := with_impl s (set_mount_installed (ss_impl s) true) in
  (0, UniqueFd_drop fsfd (UniqueFd_drop mntfd s)).
End Mount.

(** ** The calls themselves *)

(** The numbers [mount.cpp] falls back to. *)
Definition NR_move_mount : Z := 429.
Definition NR_fsopen : Z := 430.
Definition NR_fsconfig : Z := 431.
Definition NR_fsmount : Z := 432.

Definition AT_FDCWD : Z := -100.

Inductive raw_arg := ArgInt (n : Z) | ArgStr (s : bytes) | ArgNull.

(** A system call by number. *)
Definition raw_call : Type := Z * list raw_arg.

Definition sys_fsopen (fsname : bytes) (flags : Z) : raw_call :=
  (NR_fsopen, [ArgStr fsname; ArgInt flags]).

Definition sys_fsconfig (fsfd cmd : Z) (key value : raw_arg) (aux : Z) : raw_call :=
  (NR_fsconfig, [ArgInt fsfd; ArgInt cmd; key; value; ArgInt aux]).

Definition sys_fsmount (fsfd flags attr_flags : Z) : raw_call :=
  (NR_fsmount, [ArgInt fsfd; ArgInt flags; ArgInt attr_flags]).

Definition sys_move_mount (from_dfd : Z) (from_path : bytes) (to_dfd : Z) (to_path : bytes)
    (flags : Z) : raw_call :=
  (NR_move_mount, [ArgInt from_dfd; ArgStr from_path; ArgInt to_dfd; ArgStr to_path; ArgInt flags]).

(** The call a mount effect is. *)
Definition mount_call (e : effect) : option raw_call :=
  match e with
  | EFsopen => Some (sys_fsopen (list_byte_of_string "fusex") 0)
  | ESetFd fsfd dev_fd => Some (sys_fsconfig fsfd 5 (ArgStr (list_byte_of_string "fd")) ArgNull dev_fd)
  | ESetSource fsfd source =>
      Some (sys_fsconfig fsfd 1 (ArgStr (list_byte_of_string "source")) (ArgStr (c_str source)) 0)
  | ECreate fsfd => Some (sys_fsconfig fsfd 6 ArgNull ArgNull 0)
  | EFsmount fsfd attr_flags => Some (sys_fsmount fsfd 0x1 attr_flags)
  | EMoveMount mntfd mountpoint => Some (sys_move_mount mntfd [] AT_FDCWD (c_str mountpoint) 0x4)
  | _ => None
  end.

(** What the kernel takes a call for, by the numbers of its ABI. *)
Definition read_mount_call (c : raw_call) : option effect :=
  match c with
  | (430, [ArgStr _; ArgInt _]) => Some EFsopen
  | (431, [ArgInt fsfd; ArgInt 5; ArgStr _; ArgNull; ArgInt fd]) => Some (ESetFd fsfd fd)
  | (431, [ArgInt fsfd; ArgInt 1; ArgStr _; ArgStr v; ArgInt 0]) => Some (ESetSource fsfd v)
  | (431, [ArgInt fsfd; ArgInt 6; ArgNull; ArgNull; ArgInt 0]) => Some (ECreate fsfd)
  | (432, [ArgInt fsfd; ArgInt 1; ArgInt attr]) => Some (EFsmount fsfd attr)
  | (429, [ArgInt fd; ArgStr []; ArgInt _; ArgStr p; ArgInt 4]) => Some (EMoveMount fd p)
  | _ => None
  end.

(** Strings reach the kernel up to their first NUL. *)
Definition cut_strings (e : effect) : effect :=
  match e with
  | ESetSource fsfd source => ESetSource fsfd (c_str source)
  | EMoveMount mntfd mountpoint => EMoveMount mntfd (c_str mountpoint)
  | _ => e
  end.

(** Every mount call is taken by the kernel for the effect it is here. *)
Lemma mount_call_read e c : mount_call e = Some c -> read_mount_call c = Some (cut_strings e).
Proof. destruct e; intros H; first [discriminate H|by injection H as <-]. Qed.
