(* ===== verification/Session.v ===== *)
(** * The session's life (src/session.cpp: Session::run)

    [session_run] conducts device, eventfd, mount phase 1, workers, mount phase
    2, shutdown, and the destructors of its locals in the order the language
    runs them: the workers, the context descriptor, and the guard that unmounts
    last. The theorems are on the trace of effects, whatever the calls return
    and whenever another thread calls [stop]. *)

From S2P Require Import Prelude Memory Pod Abi Types DirentWriter Filesystem Replier UringEntry.
From S2P Require Import UringWorker Mount.

Section Session.
Context (E : env).

(** ** Workers *)

Definition clamp (v lo hi : Z) : Z := if v <? lo then lo else if hi <? v then hi else v.

Definition queue_count (o : SessionOptions) : Z :=
  if opt_uring_queues o =? 0
  then clamp (if en_hardware_concurrency E =? 0 then 4 else en_hardware_concurrency E) 1 32
  else opt_uring_queues o.

(** [~RingWorker]: the worker's teardown. *)
Definition destroy_worker (k : RingWorker) (s : sess) : sess :=
  snd (perform E (EDestroyWorker (rw_qid (fst (fst (teardown k))))) s).

(** The loop that starts worker [q] and the following [n]: the workers started
    and the error of the one that failed, which is destroyed. *)
Fixpoint start_workers (n : nat) (q : Z) (s : sess) : list RingWorker * Z * sess :=
  match n with
  | O => ([], 0, s)
  | S n' =>
      let o := impl_opts (ss_impl s) in
      let '(k, ec) := start (ss_impl s) (en_start E q)
                        (RingWorker_make q (opt_uring_queue_depth o) (opt_uring_payload_bytes o)) in
      let s := log (other_threads E s) (EStart q) ec in
      if negb (ec =? 0) then ([], ec, destroy_worker k s) else
      let '(ks, ec, s) := start_workers n' (q + 1) s in
      (k :: ks, ec, s)
  end.

Definition each (f : RingWorker -> sess -> sess) (ks : list RingWorker) (s : sess) : sess :=
  fold_left (fun s k => f k s) ks s.

Definition launch (k : RingWorker) (s : sess) : sess := snd (perform E (ELaunch (rw_qid k)) s).

(** [join] of a launched worker; one that was not launched is not joinable. *)
Definition join (k : RingWorker) (s : sess) : sess := snd (perform E (EJoin (rw_qid k)) s).

Definition first_error (ks : list RingWorker) : Z :=
  default 0 (head (filter (fun ec => ec <> 0) (map (fun k => en_error E (rw_qid k)) ks))).

(** ** run *)

(** [~UmountOnExit]. *)
Definition umount_guard (s : sess) : sess :=
  if negb (impl_mount_installed (ss_impl s)) then s else
  let s := assign_dev_fd E (-1) s in
  let s := snd (perform E (EUmount (opt_mountpoint (impl_opts (ss_impl s)))) s) in
  with_impl s (set_mount_installed (ss_impl s) false).

(** The destructors at a return of [run] once the workers exist; [fsfd] is -1
    when it has been moved to the mounter. *)
Definition unwind (ks : list RingWorker) (fsfd : Z) (s : sess) : sess :=
  umount_guard (UniqueFd_drop E fsfd (each destroy_worker ks s)).

Definition acquire_device (s : sess) : Z * sess :=
  let fd := opt_dev_fd (impl_opts (ss_impl s)) in
  if 0 <=? fd then
    let s := assign_dev_fd E fd s in
    (0, with_impl s (clear_opt_dev_fd (ss_impl s)))
  else
    let '(dev, s) := open_fex_device E s in
    match dev with
    | Unexpected e => (e, s)
    | Value fd => (0, assign_dev_fd E fd s)
    end.

Definition acquire_eventfd (s : sess) : Z * sess :=
  let '(efd, s) := perform E EEventfd s in
  if efd <? 0 then (- efd, s) else (0, assign_stop_efd E efd s).

(** The mounter thread, which [run] joins at once. *)
Definition mounter (fsfd : Z) (s : sess) : Z * sess :=
  let '(mount_ec, s) := mount_create_and_finish E fsfd s in
  (mount_ec, if negb (mount_ec =? 0) then with_impl s (set_stopping (ss_impl s)) else s).

(** From the launch of the workers to the return. *)
Definition serve_session (ks : list RingWorker) (fsfd : Z) (s : sess) : Z * sess :=
  let s := each launch ks s in
  let '(mount_ec, s) := mounter fsfd s in
  if negb (mount_ec =? 0) then
    (mount_ec, unwind ks (-1) (each join ks (session_stop E s)))
  else
    let s := other_threads E s in
    if impl_stopping (ss_impl s) then (0, unwind ks (-1) (each join ks s)) else
    if negb (impl_init_done (ss_impl s) || en_init_served E (ss_trace s)) then
      (0, unwind ks (-1) (each join ks (session_stop E s)))
    else
      let s := each join ks s in
      let s := snd (perform E EDestroy s) in
      (first_error ks, unwind ks (-1) s).

Definition session_run (s : sess) : Z * sess :=
  let '(ec, s) := acquire_device s in
  if negb (ec =? 0) then (ec, umount_guard s) else
  let '(ec, s) := acquire_eventfd s in
  if negb (ec =? 0) then (ec, umount_guard s) else
  let '(fsfd, s) := mount_open_and_set_fd E s in
  match fsfd with
  | Unexpected e => (e, umount_guard s)
  | Value fsfd =>
      let nqueues := queue_count (impl_opts (ss_impl s)) in
      let '(ks, ec, s) := start_workers (Z.to_nat nqueues) 0 s in
      if negb (ec =? 0) then (ec, unwind ks fsfd (session_stop E s))
      else serve_session ks fsfd s
  end.

Definition device_fd (s : sess) : Z := impl_dev_fd (ss_impl s).

(** The constructor: nothing is acquired yet. *)
Definition session_make (opts : SessionOptions) : sess :=
  {| ss_impl := Impl_make opts; ss_trace := [] |}.

(** [~Session]: the members of [Impl], last first. *)
Definition session_destroy (s : sess) : sess :=
  assign_dev_fd E (-1) (assign_stop_efd E (-1) s).
End Session.
