(* ===== verification/SessionSpec.v ===== *)
(** * Sessions: order of effects, unmounting and descriptors

    What a session promises to the outside, as predicates on its trace, and the
    proofs that [session_run] keeps them whatever the calls return and whenever
    [stop] is called: the mount protocol and the unmount on every exit path. *)

From S2P Require Import Prelude Memory Pod Abi Types DirentWriter Filesystem Replier UringEntry.
From S2P Require Import UringWorker Mount Session.
From stdpp Require Import sets.
#[local] Open Scope Z_scope.

(** ** The protocol *)

(** [done_ tr e]: the effect is in the trace, with some result. *)
Definition done_ (tr : trace) (e : effect) : Prop := exists r, (e, r) ∈ tr.

(** The effect is in the trace and did not fail. *)
Definition succeeded (tr : trace) (e : effect) : Prop := exists r, (e, r) ∈ tr /\ 0 <= r.

Definition no_launch (tr : trace) : Prop := forall q, ~ done_ tr (ELaunch q).

(** What must have happened before an effect, for a session of [n] queues. *)
Definition allows (n : Z) (pre : trace) (e : effect) : Prop :=
  match e with
  | ESetFd fsfd dev => (EFsopen, fsfd) ∈ pre /\ 0 <= fsfd
  | EStart q => exists fsfd dev, succeeded pre (ESetFd fsfd dev)
  | ELaunch q => forall q', 0 <= q' < n -> (EStart q', 0) ∈ pre
  | ECreate fsfd =>
      (exists dev, succeeded pre (ESetFd fsfd dev)) /\
      (forall q, 0 <= q < n -> (EStart q, 0) ∈ pre /\ done_ pre (ELaunch q))
  | EFsmount fsfd _ => succeeded pre (ECreate fsfd)
  | EMoveMount mntfd _ => exists fsfd flags, (EFsmount fsfd flags, mntfd) ∈ pre /\ 0 <= mntfd
  | EJoin q => done_ pre (ELaunch q)
  | EDestroyWorker q => no_launch pre \/ done_ pre (EJoin q)
  | EDestroy =>
      (exists m mp, succeeded pre (EMoveMount m mp)) /\
      (forall q, 0 <= q < n -> done_ pre (EJoin q))
  | EUmount mp =>
      (exists m, succeeded pre (EMoveMount m mp)) /\
      (forall q, 0 <= q < n -> done_ pre (EJoin q) /\ done_ pre (EDestroyWorker q)) /\
      (exists fsfd dev, succeeded pre (ESetFd fsfd dev) /\ (0 <= dev -> done_ pre (EClose dev)))
  | _ => True
  end.

Definition protocol (n : Z) (tr : trace) : Prop :=
  forall pre e r post, tr = pre ++ (e, r) :: post -> allows n pre e.

(** umount2 takes the topmost mount at [mp] away. *)
Fixpoint take_away (mp : bytes) (ms : list bytes) : list bytes :=
  match ms with
  | [] => []
  | m :: ms => if decide (m = mp) then ms else m :: take_away mp ms
  end.

(** The mountpoints at which the effects leave a mount, the last one first: a
    move_mount that succeeds installs one, a umount2 that succeeds removes it. *)
Definition mount_effect (ms : list bytes) (x : effect * Z) : list bytes :=
  if snd x <? 0 then ms else
  match fst x with
  | EMoveMount _ mp => mp :: ms
  | EUmount mp => take_away mp ms
  | _ => ms
  end.

Definition mounts (tr : trace) : list bytes := fold_left mount_effect tr [].

(** umount2 of [mp] was refused. *)
Definition umount_refused (tr : trace) (mp : bytes) : Prop := exists r, (EUmount mp, r) ∈ tr /\ r < 0.

(** ** Lemmas on traces *)

Lemma protocol_nil n : protocol n [].
Proof. intros pre e r post H. by destruct pre. Qed.

Lemma protocol_snoc n tr e r : protocol n tr -> allows n tr e -> protocol n (tr ++ [(e, r)]).
Proof.
  intros Htr He pre e' r' post H. destruct post as [|x post _] using rev_ind.
  - apply app_inj_tail in H as [-> [= -> ->]]. done.
  - rewrite app_comm_cons, app_assoc in H. apply app_inj_tail in H as [-> _]. by eapply Htr.
Qed.

Lemma done_mono tr tr' e : done_ tr e -> done_ (tr ++ tr') e.
Proof. intros [r Hr]. exists r. set_solver. Qed.

Lemma succeeded_mono tr tr' e : succeeded tr e -> succeeded (tr ++ tr') e.
Proof. intros (r & Hr & ?). exists r. set_solver. Qed.

Lemma in_mono (x : effect * Z) tr tr' : x ∈ tr -> x ∈ tr ++ tr'.
Proof. set_solver. Qed.

Lemma done_last tr e r : done_ (tr ++ [(e, r)]) e.
Proof. exists r. set_solver. Qed.

Lemma succeeded_last tr e r : 0 <= r -> succeeded (tr ++ [(e, r)]) e.
Proof. intros. exists r. set_solver. Qed.

Create HintDb trace.
#[export] Hint Resolve done_mono succeeded_mono in_mono done_last succeeded_last : trace.

(** Stop writes, the only effects of other threads. *)
Definition writes (tr : trace) : Prop := Forall (fun x => exists efd, fst x = EWriteStop efd) tr.

(** [s'] comes after [s]: the trace has grown; but for [stopping] and
    [init_done] the state is as it was. *)
Record same (s s' : sess) : Prop := {
  sm_trace : exists l, ss_trace s' = ss_trace s ++ l;
  sm_opts : impl_opts (ss_impl s') = impl_opts (ss_impl s);
  sm_dev : impl_dev_fd (ss_impl s') = impl_dev_fd (ss_impl s);
  sm_efd : impl_stop_efd (ss_impl s') = impl_stop_efd (ss_impl s);
  sm_mounted : impl_mount_installed (ss_impl s') = impl_mount_installed (ss_impl s);
}.

Lemma sm_mp s s' :
  same s s' -> opt_mountpoint (impl_opts (ss_impl s')) = opt_mountpoint (impl_opts (ss_impl s)).
Proof. intros []. congruence. Qed.

Lemma same_refl s : same s s.
Proof. split; try done. exists []. by rewrite app_nil_r. Qed.

Lemma same_trans s1 s2 s3 : same s1 s2 -> same s2 s3 -> same s1 s3.
Proof.
  intros [[l1 H1]] [[l2 H2]]. split; try congruence. exists (l1 ++ l2).
  rewrite H2, H1. by rewrite app_assoc.
Qed.

Lemma same_done s s' e : same s s' -> done_ (ss_trace s) e -> done_ (ss_trace s') e.
Proof. intros [[l ->]] ?. by apply done_mono. Qed.

Lemma same_succeeded s s' e : same s s' -> succeeded (ss_trace s) e -> succeeded (ss_trace s') e.
Proof. intros [[l ->]] ?. by apply succeeded_mono. Qed.

Lemma same_in s s' x : same s s' -> x ∈ ss_trace s -> x ∈ ss_trace s'.
Proof. intros [[l ->]] ?. by apply in_mono. Qed.

(** Only launches, the final mount step and the unmounting are not [tame]. *)
Definition tame (e : effect) : bool :=
  match e with ELaunch _ | EMoveMount _ _ | EUmount _ => false | _ => true end.

(** The effects between [s] and [s'] are tame. *)
Definition tame_step (s s' : sess) : Prop :=
  exists l, ss_trace s' = ss_trace s ++ l /\ Forall (fun x => tame (fst x) = true) l.

(** No successful [move_mount]. *)
Definition no_move (tr : trace) : Prop := forall m mp, ~ succeeded tr (EMoveMount m mp).

Lemma tame_refl s : tame_step s s.
Proof. exists []. rewrite app_nil_r. split; [done|constructor]. Qed.

Lemma tame_trans s1 s2 s3 : tame_step s1 s2 -> tame_step s2 s3 -> tame_step s1 s3.
Proof.
  intros (l1 & H1 & F1) (l2 & H2 & F2). exists (l1 ++ l2). rewrite H2, H1, app_assoc.
  split; [done|]. by apply Forall_app.
Qed.

Lemma tame_no_launch s s' : tame_step s s' -> no_launch (ss_trace s) -> no_launch (ss_trace s').
Proof.
  intros (l & -> & F) Hn q [r [Hr|Hr]%elem_of_app]; [by eapply Hn; exists r|].
  rewrite Forall_forall in F. by apply F in Hr.
Qed.

Lemma tame_no_move s s' : tame_step s s' -> no_move (ss_trace s) -> no_move (ss_trace s').
Proof.
  intros (l & -> & F) Hn m mp (r & [Hr|Hr]%elem_of_app & ?); [by eapply Hn; exists r|].
  rewrite Forall_forall in F. by apply F in Hr.
Qed.

Lemma mounts_snoc tr x : mounts (tr ++ [x]) = mount_effect (mounts tr) x.
Proof. apply fold_left_app. Qed.

Lemma tame_mounts s s' : tame_step s s' -> mounts (ss_trace s') = mounts (ss_trace s).
Proof.
  intros (l & -> & F). induction l as [|[e r] l IH] using rev_ind; [by rewrite app_nil_r|].
  apply Forall_app in F as [F [He _]%Forall_cons]. rewrite app_assoc, mounts_snoc, IH by done.
  unfold mount_effect. cbn [fst snd] in *. case_if; [done|]. by destruct e.
Qed.

Lemma no_move_mounts tr : no_move tr -> mounts tr = [].
Proof.
  induction tr as [|[e r] tr IH] using rev_ind; [done|]. intros Hn. rewrite mounts_snoc, IH.
  - unfold mount_effect. cbn [fst snd]. destruct (Z.ltb_spec r 0); [done|]. destruct e; try done.
    edestruct Hn. apply succeeded_last. lia.
  - intros m mp Hm. eapply Hn. by apply succeeded_mono.
Qed.

#[export] Hint Resolve same_refl same_trans same_done same_succeeded same_in : trace.

Section Proofs.
Context (E : env) (n : Z).

(** A stop from any thread. *)
Lemma stop_spec s :
  same s (session_stop E s) /\ exists ws, ss_trace (session_stop E s) = ss_trace s ++ ws /\ writes ws.
Proof.
  unfold session_stop. case_if.
  - split; [split; try done; by eexists|]. eexists [_]. split; [done|].
    constructor; [by eexists|constructor].
  - split; [split; try done; exists []; by rewrite app_nil_r|]. exists []. simpl.
    rewrite app_nil_r. split; [done|constructor].
Qed.

Lemma other_spec s :
  same s (other_threads E s) /\ exists ws, ss_trace (other_threads E s) = ss_trace s ++ ws /\ writes ws.
Proof.
  unfold other_threads. case_match; [apply stop_spec|]. split; [apply same_refl|].
  exists []. rewrite app_nil_r. split; [done|constructor].
Qed.

Lemma protocol_writes tr ws : writes ws -> protocol n tr -> protocol n (tr ++ ws).
Proof.
  intros Hw Htr. induction ws as [|[e r] ws IH] using rev_ind; [by rewrite app_nil_r|].
  apply Forall_app in Hw as [Hw Hx]. apply Forall_inv in Hx as [efd Hx]. simpl in Hx. subst e.
  rewrite app_assoc. apply protocol_snoc; [auto|done].
Qed.

Lemma writes_tame ws : writes ws -> Forall (fun x => tame (fst x) = true) ws.
Proof. intros Hw. eapply Forall_impl; [exact Hw|]. by intros x [efd ->]. Qed.

Lemma no_launch_writes tr ws : writes ws -> no_launch tr -> no_launch (tr ++ ws).
Proof.
  intros Hw Htr q [r [Hr|Hr]%elem_of_app]; [by eapply Htr; exists r|].
  unfold writes in Hw. rewrite Forall_forall in Hw. by destruct (Hw _ Hr).
Qed.

(** A call keeps the protocol when what it needs has happened, other threads'
    stop writes put aside. *)
Lemma log_spec e r s s' :
  s' = log (other_threads E s) e r -> protocol n (ss_trace s) ->
  (forall ws, writes ws -> allows n (ss_trace s ++ ws) e) ->
  protocol n (ss_trace s') /\ same s s' /\ (e, r) ∈ ss_trace s' /\
  (tame e = true -> tame_step s s').
Proof.
  intros -> Hp He. destruct (other_spec s) as (Hs & ws & Ht & Hw). unfold tame_step, log.
  cbn [ss_trace]. rewrite Ht. split; [|split; [|split]].
  - apply protocol_snoc; [|auto]. by apply protocol_writes.
  - eapply same_trans; [exact Hs|]. split; try done. exists [(e, r)]. cbn [ss_trace]. by rewrite Ht.
  - set_solver.
  - intros He'. exists (ws ++ [(e, r)]). rewrite app_assoc. split; [done|].
    apply Forall_app. split; [by apply writes_tame|]. by repeat constructor.
Qed.

Lemma perform_spec e s r s' :
  perform E e s = (r, s') -> protocol n (ss_trace s) ->
  (forall ws, writes ws -> allows n (ss_trace s ++ ws) e) ->
  protocol n (ss_trace s') /\ same s s' /\ (e, r) ∈ ss_trace s' /\
  (tame e = true -> tame_step s s').
Proof. unfold perform. intros [= <- <-]. by apply log_spec. Qed.

Lemma perform_same e s r s' : perform E e s = (r, s') -> same s s'.
Proof.
  unfold perform. intros [= <- <-]. destruct (other_spec s) as (Hs & ws & Ht & _).
  eapply same_trans; [exact Hs|]. split; try done. by eexists.
Qed.

(** A step that keeps the protocol, by tame effects. *)
Definition proceeds (s s' : sess) : Prop :=
  protocol n (ss_trace s) -> protocol n (ss_trace s') /\ same s s' /\ tame_step s s'.

Lemma proceeds_refl s : proceeds s s.
Proof. intros Hp. split; [done|]. split; [apply same_refl|apply tame_refl]. Qed.

Lemma proceeds_trans s1 s2 s3 : proceeds s1 s2 -> proceeds s2 s3 -> proceeds s1 s3.
Proof.
  intros H1 H2 Hp. destruct (H1 Hp) as (Hp2 & Hs & Hn). destruct (H2 Hp2) as (Hp3 & Hs' & Hn').
  split; [done|]. split; [by eapply same_trans|by eapply tame_trans].
Qed.

Lemma stop_proceeds s : proceeds s (session_stop E s).
Proof.
  intros Hp. destruct (stop_spec s) as (Hs & ws & Ht & Hw). unfold tame_step. rewrite Ht.
  split; [by apply protocol_writes|]. split; [done|]. exists ws. split; [done|by apply writes_tame].
Qed.

Lemma other_proceeds s : proceeds s (other_threads E s).
Proof. unfold other_threads. case_match; [apply stop_proceeds|apply proceeds_refl]. Qed.

Lemma perform_proceeds e s r s' :
  perform E e s = (r, s') -> tame e = true ->
  (forall ws, writes ws -> allows n (ss_trace s ++ ws) e) ->
  proceeds s s' /\ (e, r) ∈ ss_trace s'.
Proof.
  intros H Hl He. split.
  - intros Hp. destruct (perform_spec e s r s' H Hp He) as (? & ? & ? & Hnl). auto.
  - unfold perform in H. injection H as <- <-. unfold log. cbn. set_solver.
Qed.

(** Effects that need nothing. *)
Lemma perform_free e s r s' :
  tame e = true -> (forall tr, allows n tr e) ->
  perform E e s = (r, s') -> proceeds s s' /\ (e, r) ∈ ss_trace s'.
Proof. intros Hl He H. eapply perform_proceeds; eauto. Qed.

Lemma reset_spec fd_ fd s :
  proceeds s (UniqueFd_reset E fd_ fd s) /\
  (0 <= fd_ -> fd_ <> fd -> done_ (ss_trace (UniqueFd_reset E fd_ fd s)) (EClose fd_)).
Proof.
  unfold UniqueFd_reset. destruct ((0 <=? fd_) && negb (fd_ =? fd)) eqn:Ec.
  - destruct (perform E (EClose fd_) s) as [r s'] eqn:H. apply perform_free in H as [H1 H2]; [|done..].
    split; [done|]. intros _ _. by exists r.
  - split; [apply proceeds_refl|]. intros. exfalso. apply andb_false_iff in Ec as [Ec|Ec]; lia.
Qed.

Lemma drop_proceeds fd s : proceeds s (UniqueFd_drop E fd s).
Proof. apply reset_spec. Qed.

(** *** Device and eventfd *)

(** As [proceeds], while the descriptors are being acquired. *)
Definition advances (s s' : sess) : Prop :=
  protocol n (ss_trace s) ->
  protocol n (ss_trace s') /\ tame_step s s' /\
  opt_mountpoint (impl_opts (ss_impl s')) = opt_mountpoint (impl_opts (ss_impl s)) /\
  opt_uring_queues (impl_opts (ss_impl s')) = opt_uring_queues (impl_opts (ss_impl s)) /\
  impl_mount_installed (ss_impl s') = impl_mount_installed (ss_impl s).

Lemma advances_trans s1 s2 s3 : advances s1 s2 -> advances s2 s3 -> advances s1 s3.
Proof.
  intros H1 H2 Hp. destruct (H1 Hp) as (Hp2 & Hn2 & ? & ? & ?).
  destruct (H2 Hp2) as (? & ? & ? & ? & ?).
  split; [done|]. split; [by eapply tame_trans|]. split_and!; congruence.
Qed.

Lemma proceeds_advances s s' : proceeds s s' -> advances s s'.
Proof.
  intros H Hp. destruct (H Hp) as (Hp' & Hs & Hn'). rewrite (sm_opts _ _ Hs). split_and!; auto. apply Hs.
Qed.

Lemma with_impl_advances s i :
  opt_mountpoint (impl_opts i) = opt_mountpoint (impl_opts (ss_impl s)) ->
  opt_uring_queues (impl_opts i) = opt_uring_queues (impl_opts (ss_impl s)) ->
  impl_mount_installed i = impl_mount_installed (ss_impl s) -> advances s (with_impl s i).
Proof. intros ? ? ? ?. split; [done|]. split; [exact (tame_refl s)|done]. Qed.

Lemma assign_dev_fd_advances fd s : advances s (assign_dev_fd E fd s).
Proof.
  eapply advances_trans; [apply proceeds_advances, reset_spec|]. by apply with_impl_advances.
Qed.

Lemma assign_stop_efd_advances fd s : advances s (assign_stop_efd E fd s).
Proof.
  eapply advances_trans; [apply proceeds_advances, reset_spec|]. by apply with_impl_advances.
Qed.

Lemma open_fex_device_proceeds s r s' : open_fex_device E s = (r, s') -> proceeds s s'.
Proof.
  unfold open_fex_device. destruct (perform E EOpenDev s) as [fd s1] eqn:H1.
  apply perform_free in H1 as [H1 _]; [|done..]. case_if; [by intros [= <- <-]|].
  destruct (perform E (ESyncInit fd) s1) as [rc s2] eqn:H2.
  apply perform_free in H2 as [H2 _]; [|done..]. pose proof (proceeds_trans _ _ _ H1 H2) as H12.
  case_if; intros [= <- <-]; [|done]. eapply proceeds_trans; [exact H12|apply drop_proceeds].
Qed.

Lemma acquire_device_advances s ec s' : acquire_device E s = (ec, s') -> advances s s'.
Proof.
  unfold acquire_device. case_if.
  - intros [= <- <-]. eapply advances_trans; [apply assign_dev_fd_advances|].
    by apply with_impl_advances.
  - destruct (open_fex_device E s) as [r s1] eqn:H1. apply open_fex_device_proceeds in H1.
    apply proceeds_advances in H1. destruct r; intros [= <- <-]; [|done].
    eapply advances_trans; [exact H1|apply assign_dev_fd_advances].
Qed.

Lemma acquire_eventfd_advances s ec s' : acquire_eventfd E s = (ec, s') -> advances s s'.
Proof.
  unfold acquire_eventfd. destruct (perform E EEventfd s) as [efd s1] eqn:H1.
  apply perform_free in H1 as [H1 _]; [|done..]. apply proceeds_advances in H1.
  case_if; intros [= <- <-]; [done|]. eapply advances_trans; [exact H1|apply assign_stop_efd_advances].
Qed.

(** *** Mount phase 1 *)

Lemma mount_open_spec s r s' :
  mount_open_and_set_fd E s = (r, s') ->
  proceeds s s' /\
  (forall fsfd, r = Value fsfd -> succeeded (ss_trace s') (ESetFd fsfd (impl_dev_fd (ss_impl s)))).
Proof.
  unfold mount_open_and_set_fd. destruct (perform E EFsopen s) as [fsfd s1] eqn:H1.
  pose proof (sm_dev _ _ (perform_same _ _ _ _ H1)) as Hd1.
  apply perform_free in H1 as [P1 I1]; [|done..].
  case_if; [intros [= <- <-]; by split|].
  destruct (perform E (ESetFd fsfd _) s1) as [rc s2] eqn:H2. rewrite Hd1 in H2.
  apply perform_proceeds in H2 as [P2 I2]; [|done|].
  2: { intros ws _. cbn. split; [by apply in_mono|lia]. }
  pose proof (proceeds_trans _ _ _ P1 P2) as P12.
  case_if.
  { intros [= <- <-]. split; [eapply proceeds_trans; [exact P12|apply drop_proceeds]|done]. }
  assert (Hset : succeeded (ss_trace s2) (ESetFd fsfd (impl_dev_fd (ss_impl s)))).
  { exists rc. split; [done|lia]. }
  destruct (opt_source (impl_opts (ss_impl s2))) as [|b src].
  { intros [= <- <-]. split; [done|]. by intros ? [= <-]. }
  destruct (perform E (ESetSource fsfd _) s2) as [rc' s3] eqn:H3.
  pose proof (perform_same _ _ _ _ H3) as S3. apply perform_free in H3 as [P3 _]; [|done..]. pose proof (proceeds_trans _ _ _ P12 P3) as P13.
  case_if; intros [= <- <-].
  - split; [eapply proceeds_trans; [exact P13|apply drop_proceeds]|done].
  - split; [done|]. intros ? [= <-]. eauto with trace.
Qed.

(** *** Workers *)

(** Before the first launch. *)
Definition calm (s : sess) : Prop :=
  protocol n (ss_trace s) /\ no_launch (ss_trace s) /\ no_move (ss_trace s).

Lemma tame_calm s s' : protocol n (ss_trace s') -> tame_step s s' -> calm s -> calm s'.
Proof.
  intros Hp Ht (_ & Hn & Hm).
  split; [done|]. split; [by eapply tame_no_launch|by eapply tame_no_move].
Qed.

Lemma proceeds_calm s s' : proceeds s s' -> calm s -> calm s' /\ same s s'.
Proof.
  intros H Hc. destruct (H (proj1 Hc)) as (Hp & Hs & Ht). split; [by eapply tame_calm|done].
Qed.

Lemma calm_nil impl : calm {| ss_impl := impl; ss_trace := [] |}.
Proof.
  split; [apply protocol_nil|].
  split; [intros q [r Hr]|intros m mp (r & Hr & _)]; by apply not_elem_of_nil in Hr.
Qed.

Lemma start_qid impl env k : rw_qid (fst (start impl env k)) = rw_qid k.
Proof.
  unfold start. destruct (map_entries _ _ _ _) as [es err]. repeat (case_if || case_match); done.
Qed.

Lemma destroy_worker_calm k s : calm s -> calm (destroy_worker E k s) /\ same s (destroy_worker E k s).
Proof.
  intros Hc. unfold destroy_worker. destruct (perform E _ s) as [r s1] eqn:H1.
  apply perform_proceeds in H1 as [P1 _]; [by apply (proceeds_calm _ _ P1)|done|].
  intros ws Hw. left. apply no_launch_writes; [done|apply Hc].
Qed.

Lemma destroy_workers_calm ks s :
  calm s -> calm (each (destroy_worker E) ks s) /\ same s (each (destroy_worker E) ks s).
Proof.
  revert s. induction ks as [|k ks IH]; intros s Hc; [split; [done|apply same_refl]|].
  destruct (destroy_worker_calm k s Hc) as [Hc1 Hs1]. destruct (IH _ Hc1) as [Hc2 Hs2].
  split; [done|]. by eapply same_trans.
Qed.

(** The workers for queues [q] to [q + m], all started. *)
Definition workers_of (q : Z) (m : nat) (ks : list RingWorker) : Prop :=
  forall q', q <= q' < q + Z.of_nat m <-> exists k, k ∈ ks /\ rw_qid k = q'.

Lemma start_workers_spec m q s ks ec s' :
  start_workers E m q s = (ks, ec, s') -> calm s ->
  (exists fsfd dev, succeeded (ss_trace s) (ESetFd fsfd dev)) ->
  calm s' /\ same s s' /\
  (ec = 0 -> workers_of q m ks /\
     forall q', q <= q' < q + Z.of_nat m -> (EStart q', 0) ∈ ss_trace s').
Proof.
  revert q s ks ec s'. induction m as [|m IH]; intros q s ks ec s' H Hc Hset.
  { injection H as <- <- <-. split; [done|]. split; [apply same_refl|]. intros _. split; [|lia].
    intros q'. split; [lia|]. by intros (k & Hk%not_elem_of_nil & _). }
  cbn [start_workers] in H.
  match type of H with context [start ?i ?e ?k] => pose proof (start_qid i e k) as Hq end.
  destruct (start _ _ _) as [k err]. cbn in Hq.
  destruct (log_spec (EStart q) err s _ eq_refl (proj1 Hc)) as (Hp1 & Hs1 & Hin & Hn1).
  { intros ws _. destruct Hset as (f & d & Hset). exists f, d. by apply succeeded_mono. }
  set (s1 := log _ _ _) in *. assert (Hc1 : calm s1) by (by apply (tame_calm s); auto).
  destruct (negb (err =? 0)) eqn:Herr.
  { injection H as <- <- <-. destruct (destroy_worker_calm k s1 Hc1) as [Hc2 Hs2].
    split; [done|]. split; [by eapply same_trans|]. intros ->. discriminate. }
  destruct (start_workers E m (q + 1) s1) as [[ks1 ec1] s2] eqn:Hm. injection H as <- <- <-.
  apply IH in Hm as (Hc2 & Hs2 & Hw); [|done|destruct Hset as (f & d & Hset); eauto with trace].
  split; [done|]. split; [by eapply same_trans|]. intros Hec. destruct (Hw Hec) as [Hks Hst'].
  assert (err = 0) as -> by (destruct (err =? 0) eqn:He; [lia|discriminate]). split.
  - intros q'. split.
    + intros Hr. destruct (decide (q' = q)) as [->|Hne]; [exists k; split; [left|done]|].
      destruct (proj1 (Hks q') ltac:(lia)) as (k' & Hk' & ?). exists k'. split; [by right|done].
    + intros (k' & [->|Hk']%elem_of_cons & <-); [lia|].
      pose proof (proj2 (Hks (rw_qid k')) ltac:(by exists k')). lia.
  - intros q' Hr. destruct (decide (q' = q)) as [->|Hne]; [eauto with trace|].
    apply Hst'. lia.
Qed.

(** The guard does nothing while the mount is not installed. *)
Lemma umount_guard_idle s :
  impl_mount_installed (ss_impl s) = false -> umount_guard E s = s.
Proof. intros H. unfold umount_guard. by rewrite H. Qed.

(** A worker failed to start: nothing was launched. *)
Lemma unwind_calm ks fsfd s :
  calm s -> impl_mount_installed (ss_impl s) = false ->
  calm (unwind E ks fsfd s) /\ impl_mount_installed (ss_impl (unwind E ks fsfd s)) = false.
Proof.
  intros Hc Hm. unfold unwind. destruct (destroy_workers_calm ks s Hc) as [Hc1 Hs1].
  destruct (proceeds_calm _ _ (drop_proceeds fsfd _) Hc1) as [Hc2 Hs2].
  pose proof (sm_mounted _ _ Hs2) as H2. rewrite (sm_mounted _ _ Hs1), Hm in H2.
  by rewrite umount_guard_idle.
Qed.

(** One effect for each worker, in order. *)
Lemma each_perform (f : RingWorker -> effect) ks s :
  protocol n (ss_trace s) ->
  (forall k s1 ws, k ∈ ks -> same s s1 -> writes ws -> allows n (ss_trace s1 ++ ws) (f k)) ->
  let s' := each (fun k s => snd (perform E (f k) s)) ks s in
  protocol n (ss_trace s') /\ same s s' /\ (forall k, k ∈ ks -> done_ (ss_trace s') (f k)) /\
  ((forall k, tame (f k) = true) -> tame_step s s').
Proof.
  revert s. induction ks as [|k ks IH]; intros s Hp Ha s'.
  { split; [done|]. split; [apply same_refl|]. split; [|intros; apply tame_refl].
    by intros k Hk%not_elem_of_nil. }
  destruct (perform E (f k) s) as [r s1] eqn:H1.
  assert (Heq : s' = each (fun k s => snd (perform E (f k) s)) ks s1).
  { subst s'. unfold each. cbn [fold_left]. by rewrite H1. }
  rewrite Heq. clear s' Heq.
  destruct (perform_spec _ _ _ _ H1 Hp) as (Hp1 & Hs1 & Hin1 & Ht1).
  { intros ws Hw. apply (Ha k s ws); [left|apply same_refl|done]. }
  destruct (IH s1 Hp1) as (Hp2 & Hs2 & Hd2 & Ht2).
  { intros k' s2 ws Hk' Hs12. apply (Ha k' s2 ws); [by right|by eapply same_trans]. }
  split; [done|]. split; [by eapply same_trans|]. split.
  - intros k' [->|Hk']%elem_of_cons; [|auto]. eapply same_done; [exact Hs2|]. by exists r.
  - intros Ht. eapply tame_trans; [by apply Ht1|by apply Ht2].
Qed.

(** Launching does not mount. *)
Lemma launch_no_move ks s : no_move (ss_trace s) -> no_move (ss_trace (each (launch E) ks s)).
Proof.
  revert s. induction ks as [|k ks IH]; intros s Hm; [done|]. apply IH.
  unfold launch, perform, log. cbn [snd ss_trace].
  destruct (other_spec s) as (_ & ws & -> & Hw). apply writes_tame in Hw.
  intros m mp (r & [[Hr|Hr]%elem_of_app|Hr]%elem_of_app & ?).
  - by eapply Hm; exists r.
  - rewrite Forall_forall in Hw. by apply Hw in Hr.
  - by apply list_elem_of_singleton in Hr.
Qed.

(** *** Mount phase 2 *)

Definition moves_to (mp : bytes) (tr : trace) : Prop :=
  forall m mp', succeeded tr (EMoveMount m mp') -> mp' = mp.

Lemma tame_moves_to mp s s' : tame_step s s' -> moves_to mp (ss_trace s) -> moves_to mp (ss_trace s').
Proof.
  intros (l & -> & F) Hm m mp' (r & [Hr|Hr]%elem_of_app & ?); [by eapply Hm; exists r|].
  rewrite Forall_forall in F. by apply F in Hr.
Qed.

Lemma no_move_snoc tr m mp r : no_move tr -> r < 0 -> no_move (tr ++ [(EMoveMount m mp, r)]).
Proof.
  intros Hn Hr m' mp' (r' & [Hin|Hin]%elem_of_app & ?); [by eapply Hn; exists r'|].
  apply list_elem_of_singleton in Hin. injection Hin as _ _ ->. lia.
Qed.

Lemma moves_to_snoc tr m mp r : no_move tr -> moves_to mp (tr ++ [(EMoveMount m mp, r)]).
Proof.
  intros Hn m' mp' (r' & [Hin|Hin]%elem_of_app & ?); [exfalso; by eapply Hn; exists r'|].
  apply list_elem_of_singleton in Hin. by injection Hin as _ -> _.
Qed.

(** Either the mount is installed, or nothing was. *)
Lemma create_spec fsfd s ec s' :
  mount_create_and_finish E fsfd s = (ec, s') ->
  protocol n (ss_trace s) -> no_move (ss_trace s) ->
  (forall ws, writes ws -> allows n (ss_trace s ++ ws) (ECreate fsfd)) ->
  protocol n (ss_trace s') /\
  ((ec <> 0 /\ same s s' /\ no_move (ss_trace s')) \/
   (ec = 0 /\ exists s1, same s s1 /\
      same (with_impl s1 (set_mount_installed (ss_impl s1) true)) s' /\
      let mp := opt_mountpoint (impl_opts (ss_impl s)) in
      (exists m, succeeded (ss_trace s') (EMoveMount m mp)) /\ moves_to mp (ss_trace s') /\
      mounts (ss_trace s') = [mp])).
Proof.
  unfold mount_create_and_finish. intros H Hp Hm Ha.
  destruct (perform E (ECreate fsfd) s) as [rc s1] eqn:H1.
  apply perform_proceeds in H1 as [P1 I1]; [|done..].
  assert (Hfail : forall s2 s3, proceeds s s2 -> proceeds s2 s3 ->
    protocol n (ss_trace s3) /\ same s s3 /\ no_move (ss_trace s3)).
  { intros s2 s3 H2 H3. destruct (proceeds_trans _ _ _ H2 H3 Hp) as (? & ? & ?).
    split; [done|]. split; [done|]. by eapply tame_no_move. }
  case_if_in H.
  { injection H as <- <-. destruct (Hfail s1 _ P1 (drop_proceeds fsfd s1)) as (? & ? & ?).
    split; [done|]. left. split; [lia|done]. }
  destruct (perform E (EFsmount fsfd _) s1) as [mntfd s2] eqn:H2.
  apply perform_proceeds in H2 as [P2 I2]; [|done|].
  2: { intros ws _. exists rc. split; [by apply in_mono|lia]. }
  pose proof (proceeds_trans _ _ _ P1 P2) as P12.
  case_if_in H.
  { injection H as <- <-. destruct (Hfail s2 _ P12 (drop_proceeds fsfd s2)) as (? & ? & ?).
    split; [done|]. left. split; [lia|done]. }
  destruct (P12 Hp) as (Hp2 & S2 & T2). pose proof (tame_no_move _ _ T2 Hm) as Hm2.
  destruct (perform E (EMoveMount mntfd _) s2) as [rc' s3] eqn:H3. rewrite (sm_mp _ _ S2) in H3.
  assert (Hmoves : ss_trace s3 = ss_trace (other_threads E s2)
    ++ [(EMoveMount mntfd (opt_mountpoint (impl_opts (ss_impl s))), rc')]).
  { unfold perform in H3. by injection H3 as <- <-. }
  apply perform_spec in H3 as (Hp3 & S3 & I3 & _); [|done|].
  2: { intros ws _. eexists fsfd, _. split; [apply in_mono; exact I2|lia]. }
  assert (Hmo : no_move (ss_trace (other_threads E s2))).
  { eapply tame_no_move; [|exact Hm2]. by apply (other_proceeds s2 Hp2). }
  case_if_in H; injection H as <- <-.
  - destruct (proceeds_trans _ _ _ (drop_proceeds mntfd s3) (drop_proceeds fsfd _) Hp3)
      as (Hp4 & S4 & T4).
    split; [done|]. left. split; [lia|]. split; [by eauto using same_trans|].
    eapply tame_no_move; [exact T4|]. rewrite Hmoves. apply no_move_snoc; [done|lia].
  - set (s3' := with_impl s3 _).
    destruct (proceeds_trans _ _ _ (drop_proceeds mntfd s3') (drop_proceeds fsfd _) Hp3)
      as (Hp4 & S4 & T4).
    split; [done|]. right. split; [done|]. exists s3. split; [by eapply same_trans|].
    split; [exact S4|]. split_and!.
    + exists mntfd. eapply same_succeeded; [exact S4|]. exists rc'. split; [exact I3|lia].
    + eapply tame_moves_to; [exact T4|]. cbn [s3' with_impl ss_trace]. rewrite Hmoves.
      by apply moves_to_snoc.
    + rewrite (tame_mounts _ _ T4). cbn [s3' with_impl ss_trace]. rewrite Hmoves, mounts_snoc.
      rewrite no_move_mounts by done. unfold mount_effect. cbn [fst snd]. by case_if; [lia|].
Qed.

(** *** Shutdown *)

(** Destroying workers that have been joined. *)
Lemma destroy_joined ks s :
  protocol n (ss_trace s) -> (forall k, k ∈ ks -> done_ (ss_trace s) (EJoin (rw_qid k))) ->
  let s' := each (destroy_worker E) ks s in
  protocol n (ss_trace s') /\ same s s' /\ tame_step s s' /\
  (forall k, k ∈ ks -> done_ (ss_trace s') (EDestroyWorker (rw_qid k))).
Proof.
  intros Hp Hj s'.
  destruct (each_perform (fun k => EDestroyWorker (rw_qid k)) ks s Hp) as (? & ? & ? & Ht).
  { intros k s1 ws Hk Hs _. right. apply done_mono. eauto with trace. }
  split; [done|]. split; [done|]. split; [by apply Ht|done].
Qed.

(** The guard on an installed mount: the device is closed, then unmounted. *)
Lemma umount_guard_spec s fsfd :
  let mp := opt_mountpoint (impl_opts (ss_impl s)) in
  let dev := impl_dev_fd (ss_impl s) in
  impl_mount_installed (ss_impl s) = true -> protocol n (ss_trace s) ->
  (exists m, succeeded (ss_trace s) (EMoveMount m mp)) ->
  (forall q, 0 <= q < n -> done_ (ss_trace s) (EJoin q) /\ done_ (ss_trace s) (EDestroyWorker q)) ->
  succeeded (ss_trace s) (ESetFd fsfd dev) ->
  protocol n (ss_trace (umount_guard E s)) /\
  (exists s1 r, tame_step s s1 /\ ss_trace (umount_guard E s) = ss_trace s1 ++ [(EUmount mp, r)]) /\
  impl_mount_installed (ss_impl (umount_guard E s)) = false.
Proof.
  intros mp dev Hi Hp Hm Hq Hset. unfold umount_guard. rewrite Hi. cbn [negb].
  destruct (reset_spec dev (-1) s) as [P1 C1]. unfold assign_dev_fd. fold dev.
  set (s1 := UniqueFd_reset E dev (-1) s) in *. destruct (P1 Hp) as (Hp1 & S1 & T1).
  set (s1' := with_impl s1 _).
  assert (Hmp : opt_mountpoint (impl_opts (ss_impl s1')) = mp) by apply (sm_mp _ _ S1).
  rewrite Hmp. destruct (perform E (EUmount mp) s1') as [r s2] eqn:H2.
  assert (Hlast : ss_trace s2 = ss_trace (other_threads E s1') ++ [(EUmount mp, r)]).
  { unfold perform in H2. by injection H2 as <- <-. }
  destruct (other_proceeds s1' Hp1) as (_ & _ & To).
  apply perform_spec in H2 as (Hp2 & _ & _ & _); [|done|].
  - cbn [snd]. split; [done|]. split; [|done]. exists (other_threads E s1'), r. split; [|done].
    exact (tame_trans s s1 _ T1 To).
  - intros ws _. cbn [s1' with_impl ss_trace]. split; [|split].
    + destruct Hm as [m Hm]. exists m. eauto with trace.
    + intros q Hr. destruct (Hq q Hr). split; apply done_mono; eauto with trace.
    + exists fsfd, dev. split; [apply succeeded_mono; eauto with trace|].
      intros Hd. apply done_mono, C1; [done|]. lia.
Qed.

(** What is true when [run] returns: the protocol was kept, the flag is cleared,
    a mount that had been installed was to be unmounted, and it is gone unless
    umount2 refused. *)
Definition ended (mp : bytes) (s : sess) : Prop :=
  protocol n (ss_trace s) /\ impl_mount_installed (ss_impl s) = false /\
  (forall m mp', succeeded (ss_trace s) (EMoveMount m mp') -> mp' = mp /\ done_ (ss_trace s) (EUmount mp)) /\
  (mounts (ss_trace s) = [] \/ mounts (ss_trace s) = [mp] /\ umount_refused (ss_trace s) mp).

Lemma ended_unmounted mp s :
  protocol n (ss_trace s) -> no_move (ss_trace s) -> impl_mount_installed (ss_impl s) = false ->
  ended mp s.
Proof.
  intros Hp Hn Hi. split; [done|]. split; [done|]. split; [intros m mp' Hm; by apply Hn in Hm|].
  left. by apply no_move_mounts.
Qed.

(** What umount2 does to the one mount. *)
Lemma unmounted tr mp r : mounts tr = [mp] ->
  let tr' := tr ++ [(EUmount mp, r)] in mounts tr' = [] \/ mounts tr' = [mp] /\ umount_refused tr' mp.
Proof.
  intros Hm tr'. unfold tr'. rewrite mounts_snoc, Hm. unfold mount_effect. cbn [fst snd].
  destruct (Z.ltb_spec r 0).
  - right. split; [done|]. exists r. split; [|done]. apply elem_of_app. right. by left.
  - left. cbn. by rewrite decide_True.
Qed.

Lemma calm_ended mp s : calm s -> impl_mount_installed (ss_impl s) = false -> ended mp s.
Proof. intros (? & ? & ?). by apply ended_unmounted. Qed.

Lemma drop_moved s : UniqueFd_drop E (-1) s = s.
Proof. done. Qed.

(** The destructors after every worker has been joined. *)
Lemma unwind_mounted ks s fsfd :
  let mp := opt_mountpoint (impl_opts (ss_impl s)) in
  protocol n (ss_trace s) -> workers_of 0 (Z.to_nat n) ks ->
  (forall k, k ∈ ks -> done_ (ss_trace s) (EJoin (rw_qid k))) ->
  succeeded (ss_trace s) (ESetFd fsfd (impl_dev_fd (ss_impl s))) ->
  impl_mount_installed (ss_impl s) = true ->
  (exists m, succeeded (ss_trace s) (EMoveMount m mp)) -> moves_to mp (ss_trace s) ->
  mounts (ss_trace s) = [mp] ->
  ended mp (unwind E ks (-1) s).
Proof.
  intros mp Hp Hks Hj Hset Hi Hm Hto Hone. unfold unwind. rewrite drop_moved.
  destruct (destroy_joined ks s Hp Hj) as (Hp1 & S1 & T1 & D1).
  set (s1 := each (destroy_worker E) ks s) in *.
  pose proof (sm_mp _ _ S1) as Hmp. pose proof (sm_dev _ _ S1) as Hdev.
  destruct (umount_guard_spec s1 fsfd) as (Hp2 & (s2 & r & T2 & Hu) & Hi2).
  - by rewrite (sm_mounted _ _ S1).
  - done.
  - rewrite Hmp. destruct Hm as [m Hm]. exists m. eauto with trace.
  - intros q Hq. destruct (proj1 (Hks q) ltac:(lia)) as (k & Hk & <-).
    split; [eauto with trace|by apply D1].
  - rewrite Hdev. eauto with trace.
  - rewrite Hmp in Hu. fold mp in Hu. split; [done|]. split; [done|]. rewrite Hu. split.
    + intros m mp' (r' & [Hin|Hin]%elem_of_app & Hr'); [|by apply list_elem_of_singleton in Hin].
      split; [|apply done_last]. apply (tame_moves_to mp s1 s2 T2 (tame_moves_to mp s s1 T1 Hto) m). by exists r'.
    + apply unmounted. by rewrite (tame_mounts _ _ T2), (tame_mounts _ _ T1).
Qed.

Lemma unwind_not_mounted mp ks s :
  protocol n (ss_trace s) -> (forall k, k ∈ ks -> done_ (ss_trace s) (EJoin (rw_qid k))) ->
  impl_mount_installed (ss_impl s) = false -> no_move (ss_trace s) ->
  ended mp (unwind E ks (-1) s).
Proof.
  intros Hp Hj Hi Hm. unfold unwind. rewrite drop_moved.
  destruct (destroy_joined ks s Hp Hj) as (Hp1 & S1 & T1 & D1).
  rewrite umount_guard_idle by (by rewrite (sm_mounted _ _ S1)).
  apply ended_unmounted; [done|by eapply tame_no_move|by rewrite (sm_mounted _ _ S1)].
Qed.

Lemma join_all ks s :
  protocol n (ss_trace s) -> (forall k, k ∈ ks -> done_ (ss_trace s) (ELaunch (rw_qid k))) ->
  let s' := each (Session.join E) ks s in
  protocol n (ss_trace s') /\ same s s' /\ tame_step s s' /\
  (forall k, k ∈ ks -> done_ (ss_trace s') (EJoin (rw_qid k))).
Proof.
  intros Hp Hl s'.
  destruct (each_perform (fun k => EJoin (rw_qid k)) ks s Hp) as (? & ? & ? & Ht).
  { intros k s1 ws Hk Hs _. apply done_mono. eauto with trace. }
  split; [done|]. split; [done|]. split; [by apply Ht|done].
Qed.

(** The mount is in place and every worker runs. *)
Record mounted (mp : bytes) (ks : list RingWorker) (fsfd : Z) (s : sess) : Prop := {
  mt_protocol : protocol n (ss_trace s);
  mt_mp : opt_mountpoint (impl_opts (ss_impl s)) = mp;
  mt_launched : forall k, k ∈ ks -> done_ (ss_trace s) (ELaunch (rw_qid k));
  mt_set_fd : succeeded (ss_trace s) (ESetFd fsfd (impl_dev_fd (ss_impl s)));
  mt_installed : impl_mount_installed (ss_impl s) = true;
  mt_moved : exists m, succeeded (ss_trace s) (EMoveMount m mp);
  mt_moves_to : moves_to mp (ss_trace s);
  mt_mounts : mounts (ss_trace s) = [mp];
}.

Lemma mounted_proceeds mp ks fsfd s s' : mounted mp ks fsfd s -> proceeds s s' -> mounted mp ks fsfd s'.
Proof.
  intros [Hp Hmp Hl Hset Hi [m Hm] Hto Hone] P. destruct (P Hp) as (Hp' & S & T). split; [done|..].
  - by rewrite (sm_mp _ _ S).
  - eauto with trace.
  - rewrite (sm_dev _ _ S). eauto with trace.
  - by rewrite (sm_mounted _ _ S).
  - exists m. eauto with trace.
  - by eapply tame_moves_to.
  - by rewrite (tame_mounts _ _ T).
Qed.

Lemma join_mounted mp ks fsfd s :
  mounted mp ks fsfd s ->
  mounted mp ks fsfd (each (Session.join E) ks s) /\
  (forall k, k ∈ ks -> done_ (ss_trace (each (Session.join E) ks s)) (EJoin (rw_qid k))).
Proof.
  intros Hm. destruct (join_all ks s) as (Hp & S & T & J); [apply Hm|apply Hm|].
  split; [|done]. eapply mounted_proceeds; [exact Hm|]. by intros _.
Qed.

Lemma mounted_ends mp ks fsfd s :
  workers_of 0 (Z.to_nat n) ks -> mounted mp ks fsfd s ->
  (forall k, k ∈ ks -> done_ (ss_trace s) (EJoin (rw_qid k))) -> ended mp (unwind E ks (-1) s).
Proof.
  intros Hks [Hp <- Hl Hset Hi Hm Hto Hone] Hj. by apply (unwind_mounted ks s fsfd).
Qed.

(** [fs.destroy()] comes after the joins. *)
Lemma destroy_proceeds mp ks fsfd s :
  workers_of 0 (Z.to_nat n) ks -> mounted mp ks fsfd s ->
  (forall k, k ∈ ks -> done_ (ss_trace s) (EJoin (rw_qid k))) ->
  proceeds s (snd (perform E EDestroy s)).
Proof.
  intros Hks Hm Hj. destruct (perform E EDestroy s) as [r s'] eqn:H.
  apply perform_proceeds in H as [P _]; [exact P|done|]. intros ws _. split.
  - destruct (mt_moved _ _ _ _ Hm) as [m Hmv]. exists m, mp. by apply succeeded_mono.
  - intros q Hq. apply done_mono. destruct (proj1 (Hks q) ltac:(lia)) as (k & Hk & <-). auto.
Qed.

Lemma launch_all ks s :
  calm s -> (forall q, 0 <= q < n -> (EStart q, 0) ∈ ss_trace s) ->
  let s' := each (launch E) ks s in
  protocol n (ss_trace s') /\ same s s' /\ no_move (ss_trace s') /\
  (forall k, k ∈ ks -> done_ (ss_trace s') (ELaunch (rw_qid k))).
Proof.
  intros Hc Hst s'.
  destruct (each_perform (fun k => ELaunch (rw_qid k)) ks s (proj1 Hc)) as (Hp & S & L & _).
  { intros k s1 ws _ Hs _ q Hq. apply in_mono. eauto with trace. }
  split; [done|]. split; [done|]. split; [|done]. apply launch_no_move, Hc.
Qed.

(** The mounter thread, started after the launches. *)
Lemma mounter_spec ks fsfd s ec s' :
  mounter E fsfd s = (ec, s') -> workers_of 0 (Z.to_nat n) ks ->
  protocol n (ss_trace s) -> no_move (ss_trace s) ->
  (forall q, 0 <= q < n -> (EStart q, 0) ∈ ss_trace s) ->
  (forall k, k ∈ ks -> done_ (ss_trace s) (ELaunch (rw_qid k))) ->
  succeeded (ss_trace s) (ESetFd fsfd (impl_dev_fd (ss_impl s))) ->
  (ec <> 0 /\ protocol n (ss_trace s') /\ same s s' /\ no_move (ss_trace s')) \/
  (ec = 0 /\ mounted (opt_mountpoint (impl_opts (ss_impl s))) ks fsfd s').
Proof.
  unfold mounter. intros H Hks Hp Hm Hst Hl Hset.
  destruct (mount_create_and_finish E fsfd s) as [mec s2] eqn:H2. injection H as <- <-.
  apply create_spec in H2 as (Hp2 & Hcase); [|done..|].
  - destruct Hcase as [(Hec & S2 & Hm2)|(-> & s1 & S1 & S2 & Hmv & Hto & Hone)].
    + left. destruct (Z.eqb_spec mec 0) as [|_]; [done|]. cbn [negb]. split; [done|].
      split; [exact Hp2|]. split; [|exact Hm2]. eapply same_trans; [exact S2|]. split; try done.
      exists []. by rewrite app_nil_r.
    + right. split; [done|]. cbn [negb Z.eqb]. split; try done.
      * rewrite (sm_mp _ _ S2). apply (sm_mp _ _ S1).
      * intros k Hk. eapply same_done; [exact S2|]. cbn. eauto with trace.
      * rewrite (sm_dev _ _ S2). eapply same_succeeded; [exact S2|]. cbn.
        rewrite (sm_dev _ _ S1). eauto with trace.
      * apply (sm_mounted _ _ S2).
  - intros ws _. split; [eexists; apply succeeded_mono; exact Hset|].
    intros q Hq. split; [apply in_mono; auto|]. apply done_mono.
    destruct (proj1 (Hks q) ltac:(lia)) as (k & Hk & <-). auto.
Qed.

Lemma serve_ends ks fsfd s ec s' :
  serve_session E ks fsfd s = (ec, s') -> calm s -> workers_of 0 (Z.to_nat n) ks ->
  (forall q, 0 <= q < n -> (EStart q, 0) ∈ ss_trace s) ->
  succeeded (ss_trace s) (ESetFd fsfd (impl_dev_fd (ss_impl s))) ->
  impl_mount_installed (ss_impl s) = false ->
  ended (opt_mountpoint (impl_opts (ss_impl s))) s'.
Proof.
  intros H Hc Hks Hst Hset Hi. unfold serve_session in H.
  destruct (launch_all ks s Hc Hst) as (Hp1 & S1 & Hm1 & L1).
  set (s1 := each (launch E) ks s) in *. rewrite <- (sm_mp _ _ S1).
  destruct (mounter E fsfd s1) as [mec s2] eqn:H2.
  apply (mounter_spec ks) in H2 as [(Hec & Hp2 & S2 & Hm2)|(-> & Hmt)]; try done.
  - destruct (Z.eqb_spec mec 0) as [|_]; [done|]. injection H as <- <-.
    destruct (stop_proceeds s2 Hp2) as (Hp3 & S3 & T3).
    destruct (join_all ks (session_stop E s2) Hp3) as (Hp4 & S4 & T4 & J4); [eauto with trace|].
    apply unwind_not_mounted; [done|done| |].
    + rewrite (sm_mounted _ _ S4), (sm_mounted _ _ S3), (sm_mounted _ _ S2). by rewrite (sm_mounted _ _ S1).
    + eapply tame_no_move; [exact T4|]. by eapply tame_no_move.
  - cbn [negb Z.eqb] in H. set (s3 := other_threads E s2) in *.
    assert (Hmt3 : mounted (opt_mountpoint (impl_opts (ss_impl s1))) ks fsfd s3)
      by (eapply mounted_proceeds; [exact Hmt|apply other_proceeds]).
    assert (Hmt3' := mounted_proceeds _ _ _ _ _ Hmt3 (stop_proceeds s3)).
    destruct (impl_stopping (ss_impl s3)); [|destruct (negb _)]; injection H as <- <-.
    + destruct (join_mounted _ _ _ _ Hmt3). by eapply mounted_ends.
    + destruct (join_mounted _ _ _ _ Hmt3'). by eapply mounted_ends.
    + destruct (join_mounted _ _ _ _ Hmt3) as [Hmt4 J4].
      pose proof (destroy_proceeds _ _ _ _ Hks Hmt4 J4) as P5.
      eapply (mounted_ends _ _ fsfd); [done|by eapply mounted_proceeds|].
      intros k Hk. destruct (P5 (mt_protocol _ _ _ _ Hmt4)) as (_ & S5 & _). eauto with trace.
  - eauto with trace.
  - rewrite (sm_dev _ _ S1). eauto with trace.
Qed.

Lemma advances_calm s s' :
  advances s s' -> calm s -> calm s' /\
  opt_mountpoint (impl_opts (ss_impl s')) = opt_mountpoint (impl_opts (ss_impl s)) /\
  opt_uring_queues (impl_opts (ss_impl s')) = opt_uring_queues (impl_opts (ss_impl s)) /\
  impl_mount_installed (ss_impl s') = impl_mount_installed (ss_impl s).
Proof.
  intros H Hc. destruct (H (proj1 Hc)) as (Hp & Ht & ?). split; [by eapply tame_calm|done].
Qed.

Lemma run_ends s ec s' :
  session_run E s = (ec, s') -> calm s -> impl_mount_installed (ss_impl s) = false ->
  n = queue_count E (impl_opts (ss_impl s)) ->
  ended (opt_mountpoint (impl_opts (ss_impl s))) s'.
Proof.
  intros H Hc Hi Hn. unfold session_run in H.
  destruct (acquire_device E s) as [ec1 s1] eqn:H1. apply acquire_device_advances in H1.
  apply advances_calm in H1 as (Hc1 & M1 & Q1 & I1); [|done]. rewrite <- M1. rewrite Hi in I1.
  destruct (negb (ec1 =? 0)).
  { injection H as <- <-. rewrite umount_guard_idle by done. by apply calm_ended. }
  destruct (acquire_eventfd E s1) as [ec2 s2] eqn:H2. apply acquire_eventfd_advances in H2.
  apply advances_calm in H2 as (Hc2 & M2 & Q2 & I2); [|done]. rewrite <- M2. rewrite I1 in I2.
  destruct (negb (ec2 =? 0)).
  { injection H as <- <-. rewrite umount_guard_idle by done. by apply calm_ended. }
  destruct (mount_open_and_set_fd E s2) as [r s3] eqn:H3. apply mount_open_spec in H3 as [P3 Hset].
  apply proceeds_calm in P3 as [Hc3 S3]; [|done]. rewrite <- (sm_mp _ _ S3).
  pose proof (sm_mounted _ _ S3) as I3. rewrite I2 in I3. destruct r as [fsfd|e].
  2: { injection H as <- <-. rewrite umount_guard_idle by done. by apply calm_ended. }
  assert (Hq : queue_count E (impl_opts (ss_impl s3)) = n).
  { rewrite Hn. unfold queue_count. by rewrite (sm_opts _ _ S3), Q2, Q1. }
  specialize (Hset fsfd eq_refl). rewrite Hq in H.
  destruct (start_workers E (Z.to_nat n) 0 s3) as [[ks ec4] s4] eqn:H4.
  apply start_workers_spec in H4 as (Hc4 & S4 & Hw); [|done|eauto].
  pose proof (sm_mounted _ _ S4) as I4. rewrite I3 in I4. rewrite <- (sm_mp _ _ S4).
  destruct (Z.eqb_spec ec4 0) as [->|_]; cbn [negb] in H.
  - destruct (Hw eq_refl) as [Hks Hst]. apply (serve_ends ks fsfd s4 ec s'); try done.
    + intros q Hr. apply Hst. lia.
    + rewrite (sm_dev _ _ S4), (sm_dev _ _ S3). eauto with trace.
  - injection H as <- <-. destruct (proceeds_calm _ _ (stop_proceeds s4) Hc4) as [Hc5 S5].
    assert (I5 : impl_mount_installed (ss_impl (session_stop E s4)) = false)
      by (by rewrite (sm_mounted _ _ S5)).
    destruct (unwind_calm ks fsfd _ Hc5 I5) as [Hc6 I6]. by apply calm_ended.
Qed.
End Proofs.

(** ** Theorems *)

(** C24: the mount protocol. Whatever the calls return and whenever [stop] is
    called from elsewhere, the effects of [Session::run] come in an order the
    kernel accepts: the device is handed over before any ring registers, every
    ring is registered before any worker is launched, all workers are launched
    before CMD_CREATE, the mount is moved into place only after it was created,
    a worker is destroyed only when it was joined (or nothing was launched),
    [destroy] is called after the joins, and the unmount comes after the joins,
    the workers' destruction and the close of the device. *)
Theorem session_protocol E opts :
  protocol (queue_count E opts) (ss_trace (snd (session_run E (session_make opts)))).
Proof.
  destruct (session_run E (session_make opts)) as [ec s'] eqn:H.
  apply (run_ends E (queue_count E opts)) in H as (Hp & _); [done| |done|done].
  apply calm_nil.
Qed.

(** C25: no mount is left behind unless umount2 refuses. When [Session::run] returns,
    on any path: what [move_mount] installed it installed at the mountpoint, and
    umount2 was called there; no mount is left if that call succeeded, and otherwise
    one, at the mountpoint. The flag is cleared in either case. *)
Theorem session_unmounts E opts :
  let s := snd (session_run E (session_make opts)) in
  impl_mount_installed (ss_impl s) = false /\
  (forall m mp, succeeded (ss_trace s) (EMoveMount m mp) ->
     mp = opt_mountpoint opts /\ done_ (ss_trace s) (EUmount mp)) /\
  (mounts (ss_trace s) = [] \/
   mounts (ss_trace s) = [opt_mountpoint opts] /\ umount_refused (ss_trace s) (opt_mountpoint opts)).
Proof.
  intros s. subst s. destruct (session_run E (session_make opts)) as [ec s'] eqn:H.
  apply (run_ends E (queue_count E opts)) in H as (_ & Hi & Hm & Hl); [| |done|done].
  - split; [done|]. split; [|exact Hl]. intros m mp Hmv. by destruct (Hm m mp Hmv) as [-> ?].
  - apply calm_nil.
Qed.
