(* ===== verification/Lifecycle.v ===== *)
(** * A session's threads and the kernel (src/session.cpp: Session::run from the launch on)

    Session.v gives the effects of [run] in order. Here the threads run side by
    side: [run] itself, which waits for the mount and then for the workers; the
    workers, each an [iteration] of UringWorker.v at a time over the session and
    the daemon they share; the kernel, which gives each request to the worker of
    one queue, does not let CMD_CREATE return before its first requests are
    answered, and tells the workers when the filesystem is unmounted; and the
    outside, which calls [stop], sends requests, unmounts, and makes rings fail.
    The theorems: the session comes to rest, with every request answered whose
    worker has not failed and waiting for more, or with [run] returned; but a
    [stop] while CMD_CREATE waits can end the worker it waits for, a failure of its
    ring does, and then [run] never returns. *)

From S2P Require Import Prelude Memory Pod Abi Types DirentWriter Filesystem Replier Handlers.
From S2P Require Import HandlerSafety Request Compound UringEntry Callbacks UringWorker Mount Session.
From stdpp Require Import relations.
#[local] Open Scope Z_scope.

(** ** State *)

(** The kernel's side of the connection: the requests CMD_CREATE still waits
    for, each with the queue it goes to, or why it failed; afterwards connected
    or not. *)
Inductive connection :=
| Handshake (todo : list (nat * entry_view))
| Refused (e : Z)
| Live
| Aborted.

(** Why [run] joins the workers. *)
Inductive ending := MountFailed (ec : Z) | StopSeen | InitMissing | Served.

(** Where [run] is: in CMD_CREATE, at fsmount and move_mount, after the mounter
    was joined, joining worker [i], returned. *)
Inductive main_pc :=
| AtCreate
| AtFsmount
| AtMounted (mount_ec : Z)
| AtJoin (why : ending) (i : nat)
| Returned (ec : Z).

Section System.
Context {S : Type} (fs : Filesystem S).

(** A worker is running until its loop ends. [sy_signalled]: the stop eventfd
    has been written. [sy_pending]: the unanswered requests of a mounted
    filesystem, each with its queue. *)
Record system := {
  sy_main : main_pc;
  sy_workers : list (RingWorker * bool);
  sy_world : world S;
  sy_conn : connection;
  sy_pending : list (nat * entry_view);
  sy_signalled : bool;
}.

Definition goto (s : system) (pc : main_pc) : system := {|
  sy_main := pc; sy_workers := sy_workers s; sy_world := sy_world s; sy_conn := sy_conn s;
  sy_pending := sy_pending s; sy_signalled := sy_signalled s |}.

Definition set_world (s : system) (w : world S) : system := {|
  sy_main := sy_main s; sy_workers := sy_workers s; sy_world := w; sy_conn := sy_conn s;
  sy_pending := sy_pending s; sy_signalled := sy_signalled s |}.

Definition change_impl (s : system) (f : Impl -> Impl) : system :=
  set_world s {| w_impl := f (w_impl (sy_world s)); w_fs := w_fs (sy_world s) |}.

(** The kernel's part: the connection, the requests, the eventfd. *)
Definition set_kernel (s : system) (c : connection) (pending : list (nat * entry_view))
    (signalled : bool) : system := {|
  sy_main := sy_main s; sy_workers := sy_workers s; sy_world := sy_world s; sy_conn := c;
  sy_pending := pending; sy_signalled := signalled |}.

(** [Session::stop], once the eventfd exists. *)
Definition stop_session (s : system) : system :=
  set_kernel (change_impl s set_stopping) (sy_conn s) (sy_pending s) true.

(** ** run *)

(** The end of the mounter thread, with its result. *)
Definition mounter_done (s : system) (mount_ec : Z) : system :=
  let s := change_impl s (if mount_ec =? 0 then fun i => set_mount_installed i true else set_stopping) in
  goto s (AtMounted mount_ec).

Definition first_worker_error (ks : list (RingWorker * bool)) : Z :=
  default 0 (head (filter (fun ec => ec <> 0) (map (fun x => error (fst x)) ks))).

(** The value of [run]; [destroy] is called at the end of a session that
    served. *)
Definition leave (s : system) (why : ending) : Z * system :=
  match why with
  | MountFailed ec => (ec, s)
  | StopSeen | InitMissing => (0, s)
  | Served =>
      (first_worker_error (sy_workers s),
       set_world s (set_fs (sy_world s) (fs_destroy fs (w_fs (sy_world s)))))
  end.

(** [UmountOnExit]: closing the device ends the connection. *)
Definition unmount_on_exit (s : system) : system :=
  if negb (impl_mount_installed (w_impl (sy_world s))) then s else
  set_kernel (change_impl s (fun i => set_mount_installed i false)) Aborted (sy_pending s)
    (sy_signalled s).

(** The next step of [run], [None] while it waits. [rc] is the result of
    fsmount and move_mount. *)
Definition main_step (s : system) (rc : Z) : option system :=
  match sy_main s with
  | AtCreate =>
      match sy_conn s with
      | Handshake _ => None
      | Refused e => Some (mounter_done s e)
      | Live | Aborted => Some (goto s AtFsmount)
      end
  | AtFsmount => Some (mounter_done s rc)
  | AtMounted mount_ec =>
      if negb (mount_ec =? 0) then Some (goto (stop_session s) (AtJoin (MountFailed mount_ec) 0)) else
      if impl_stopping (w_impl (sy_world s)) then Some (goto s (AtJoin StopSeen 0)) else
      if negb (impl_init_done (w_impl (sy_world s)))
      then Some (goto (stop_session s) (AtJoin InitMissing 0))
      else Some (goto s (AtJoin Served 0))
  | AtJoin why i =>
      match sy_workers s !! i with
      | Some (_, true) => None
      | Some (_, false) => Some (goto s (AtJoin why (Datatypes.S i)))
      | None => let '(ec, s) := leave s why in Some (goto (unmount_on_exit s) (Returned ec))
      end
  | Returned _ => None
  end.

(** ** The kernel and the workers *)

(** The error in the reply a worker left in slot [idx]. *)
Definition answer_error (k : RingWorker) (idx : Z) : Z :=
  match nth_error (rw_entries k) (Z.to_nat idx) with
  | Some e =>
      match e_buf e with
      | Some buf => match load fuse_out_header buf req_header_in_out with
                    | Done oh => out_header_error oh
                    | Fault _ => - EIO
                    end
      | None => - EIO
      end
  | None => - EIO
  end.

(** The requests the kernel has for the workers; CMD_CREATE makes its own one
    after the other. *)
Definition waiting (s : system) : list (nat * entry_view) :=
  match sy_conn s with
  | Handshake todo => take 1 todo
  | Live => sy_pending s
  | Refused _ | Aborted => []
  end.

(** Request [j] of these was answered with the error [err]: an error ends
    CMD_CREATE, and so does the answer to the last request it waits for. *)
Definition answered (s : system) (j : nat) (err : Z) : system :=
  match sy_conn s with
  | Handshake todo =>
      let c := if negb (err =? 0) then Refused (- err)
               else match delete j todo with [] => Live | rest => Handshake rest end in
      set_kernel s c (sy_pending s) (sy_signalled s)
  | _ => set_kernel s (sy_conn s) (delete j (sy_pending s)) (sy_signalled s)
  end.

(** Completions for worker [q] that move the session: the stop poll once the
    eventfd is written, a request (the [j]th, in slot [ud]) of its queue, and the
    end of the connection. *)
Inductive moves (s : system) (q : nat) : event -> option (nat * Z) -> Prop :=
| moves_stop res landed fl sb :
    sy_signalled s = true -> 0 <= res -> 1 <= sb ->
    moves s q {| ev_wait := WaitCqe kStopSentinel res landed; ev_flush := fl; ev_submit := sb |} None
| moves_request j ud res v fl sb :
    waiting s !! j = Some (q, v) -> ud <> kStopSentinel -> 0 <= res -> 1 <= sb ->
    moves s q {| ev_wait := WaitCqe ud res (view_bytes v); ev_flush := fl; ev_submit := sb |} (Some (j, ud))
| moves_gone ud landed fl sb :
    sy_conn s = Aborted -> ud <> kStopSentinel -> 1 <= sb ->
    moves s q {| ev_wait := WaitCqe ud (- ENOTCONN) landed; ev_flush := fl; ev_submit := sb |} None.

(** Completions that do not: interruptions. *)
Inductive interrupts : event -> Prop :=
| interrupts_wait fl sb : 1 <= sb ->
    interrupts {| ev_wait := WaitErr (- EINTR); ev_flush := fl; ev_submit := sb |}
| interrupts_slot ud landed fl sb : ud <> kStopSentinel -> 1 <= sb ->
    interrupts {| ev_wait := WaitCqe ud (- EINTR) landed; ev_flush := fl; ev_submit := sb |}.

(** Completions that end worker [q]: a failed wait, a failed completion, and a
    request whose answer the kernel does not take. *)
Inductive fails (s : system) (q : nat) : event -> Prop :=
| fails_wait rc fl sb : rc < 0 -> rc <> - EINTR ->
    fails s q {| ev_wait := WaitErr rc; ev_flush := fl; ev_submit := sb |}
| fails_slot ud res landed fl sb : ud <> kStopSentinel ->
    res < 0 -> res <> - ENOTCONN -> res <> - ENODEV -> res <> - EINTR ->
    fails s q {| ev_wait := WaitCqe ud res landed; ev_flush := fl; ev_submit := sb |}
| fails_submit j ud res v fl sb :
    waiting s !! j = Some (q, v) -> ud <> kStopSentinel -> 0 <= res -> sb < 0 ->
    fails s q {| ev_wait := WaitCqe ud res (view_bytes v); ev_flush := fl; ev_submit := sb |}.

(** Completions are of entries that are armed. *)
Definition entry_armed (k : RingWorker) (ev : event) : Prop :=
  match ev_wait ev with
  | WaitErr _ => True
  | WaitCqe ud _ _ => exists rg, rw_ring k = Some rg /\ ud ∈ map sqe_user_data (rg_armed rg)
  end.

(** Worker [q] after an iteration. *)
Definition worker_done (s : system) (q : nat) (k : RingWorker) (w : world S) (v : verdict) : system := {|
  sy_main := sy_main s;
  sy_workers := <[q := (k, match v with Continue => true | Stop => false end)]> (sy_workers s);
  sy_world := w; sy_conn := sy_conn s; sy_pending := sy_pending s; sy_signalled := sy_signalled s |}.

(** ** Steps *)

(** What the threads of the session do. *)
Inductive advance (s : system) : system -> Prop :=
| step_main rc s' : 0 <= rc -> main_step s rc = Some s' -> advance s s'
| step_worker q k ev taken k' w' v :
    sy_workers s !! q = Some (k, true) -> moves s q ev taken -> entry_armed k ev ->
    iteration fs k (sy_world s) ev = Done (k', w', v) ->
    advance s (let s' := worker_done s q k' w' v in
            match taken with Some (j, ud) => answered s' j (answer_error k' ud) | None => s' end).

(** What can come from outside: [stop] from a signal handler or another thread,
    requests while the connection lives, for a queue of the session, its
    unmounting, interruptions, and failures of a worker's ring. *)
Inductive outside (fits : entry_view -> Prop) (s : system) : system -> Prop :=
| outside_stop : outside fits s (stop_session s)
| outside_request q v : sy_conn s = Live -> fits v -> (q < length (sy_workers s))%nat ->
    outside fits s (set_kernel s Live (sy_pending s ++ [(q, v)]) (sy_signalled s))
| outside_umount : sy_conn s = Live -> impl_mount_installed (w_impl (sy_world s)) = true ->
    outside fits s (set_kernel s Aborted (sy_pending s) (sy_signalled s))
| outside_ring q k ev k' w' v :
    sy_workers s !! q = Some (k, true) -> interrupts ev \/ fails s q ev -> entry_armed k ev ->
    iteration fs k (sy_world s) ev = Done (k', w', v) -> outside fits s (worker_done s q k' w' v).

(** What happens to a session, from within or from outside. *)
Definition happens (fits : entry_view -> Prop) (s s' : system) : Prop := advance s s' \/ outside fits s s'.
End System.
Arguments system S : clear implicits.

(** ** Invariant *)

(** A request that fits an entry, and one for one of [n] queues. *)
Definition request_fits (pb : Z) (v : entry_view) : Prop :=
  view_wf pb v /\ view_payload_sz v <= pb /\ request_ok (v_header v) (view_body v).

Definition routed (pb : Z) (n : nat) (x : nat * entry_view) : Prop :=
  (fst x < n)%nat /\ request_fits pb (snd x).

(** A worker that waits, with every slot and the stop poll armed. *)
Definition worker_armed (pb : Z) (k : RingWorker) : Prop := exists rg,
  worker_ok k rg /\ rg_sq rg = [] /\ 1 <= rw_depth k /\ rw_payload_bytes k = pb.

Definition worker_fine (pb : Z) (x : RingWorker * bool) : Prop :=
  snd x = true -> rw_ec (fst x) = 0 /\ worker_armed pb (fst x).

(** Where [run] can be for a state of the connection. *)
Definition main_conn (pb : Z) (n : nat) (pc : main_pc) (c : connection) : Prop :=
  match pc, c with
  | AtCreate, Handshake todo => todo <> [] /\ Forall (routed pb n) todo
  | _, Handshake _ => False
  | AtCreate, Refused e => e <> 0
  | AtFsmount, Refused _ => False
  | AtMounted ec, Refused _ => ec <> 0
  | AtJoin why _, Refused _ => why <> Served
  | (AtCreate | AtFsmount), Aborted => False
  | _, _ => True
  end.

(** Where it can be with the stopping flag or an installed mount. *)
Definition main_flags (pc : main_pc) (stopping installed signalled : bool) : Prop :=
  (stopping = true -> signalled = true \/ exists ec, pc = AtMounted ec /\ ec <> 0) /\
  (pc = AtCreate \/ pc = AtFsmount -> installed = false) /\
  (forall why i, pc = AtJoin why i -> why <> Served -> signalled = true).

(** The workers [run] has joined, the first so many. *)
Definition joined (pc : main_pc) (n : nat) : nat :=
  match pc with AtJoin _ i => i | Returned _ => n | _ => 0 end.

Section Invariant.
Context {S : Type} (fs : Filesystem S) (LFS : LawfulFs fs) (pb : Z).
Implicit Types s : system S.

(** The worker of queue [q] has failed. *)
Definition failed s (q : nat) : Prop := exists k, sy_workers s !! q = Some (k, false) /\ error k <> 0.

Record sys_ok (s : system S) : Prop := {
  so_workers : Forall (worker_fine pb) (sy_workers s);
  so_pending : Forall (routed pb (length (sy_workers s))) (sy_pending s);
  so_conn : main_conn pb (length (sy_workers s)) (sy_main s) (sy_conn s);
  so_flags : main_flags (sy_main s) (impl_stopping (w_impl (sy_world s)))
               (impl_mount_installed (w_impl (sy_world s))) (sy_signalled s);
  so_exits : forall q k, sy_workers s !! q = Some (k, false) ->
               sy_signalled s = true \/ sy_conn s = Aborted \/ error k <> 0;
  so_joined : forall q k, (q < joined (sy_main s) (length (sy_workers s)))%nat ->
               sy_workers s !! q <> Some (k, true);
}.

(** ** One iteration *)

Lemma iteration_payload k w ev k' w' v :
  iteration fs k w ev = Done (k', w', v) -> rw_payload_bytes k' = rw_payload_bytes k.
Proof.
  unfold iteration, slot_failed, serve_slot. intros H.
  repeat match type of H with
  | Fault _ = _ => discriminate H
  | obind ?e _ = Done _ =>
      let E := fresh "E" in destruct e as [[[? ?] ?]|] eqn:E; cbn [obind] in H; [|discriminate H]
  | Done (if ?e then _ else _) = Done _ => destruct e
  | Done match ?e with _ => _ end = Done _ => destruct e
  | (if ?e then _ else _) = Done _ => destruct e
  | match ?e with _ => _ end = Done _ => destruct e
  end; by injection H as <- <- <-.
Qed.

(** The flags [run] looks at are not the workers'. *)
Lemma iteration_flags k w ev k' w' v :
  iteration fs k w ev = Done (k', w', v) ->
  impl_stopping (w_impl w') = impl_stopping (w_impl w) /\
  impl_mount_installed (w_impl w') = impl_mount_installed (w_impl w).
Proof.
  intros H.
  refine (iteration_keeps fs (fun w' => impl_stopping (w_impl w') = impl_stopping (w_impl w) /\
    impl_mount_installed (w_impl w') = impl_mount_installed (w_impl w)) k w ev k' w' v _ H); [|done].
  by split.
Qed.

(** The completion of a slot. *)
Lemma iteration_slot k rg w ud res landed fl sb :
  worker_ok k rg -> ud ∈ map sqe_user_data (rg_armed rg) -> ud <> kStopSentinel ->
  let ev := {| ev_wait := WaitCqe ud res landed; ev_flush := fl; ev_submit := sb |} in
  0 <= ud < rw_depth k /\
  iteration fs k w ev = if res <? 0 then Done (slot_failed k (complete ud rg) ud res ev w)
                        else serve_slot fs k (complete ud rg) ud landed ev w.
Proof.
  intros Hok Hin Hud. cbv zeta. pose proof (completed_ud k rg ud (wo_slots _ _ Hok) Hin Hud) as Hr.
  split; [done|]. pose proof (wo_depth _ _ Hok). unfold iteration. rewrite (wo_ring _ _ Hok). cbn [ev_wait].
  apply Z.eqb_neq in Hud. rewrite Hud, cast_id, (wo_entries _ _ Hok) by fits_lia.
  by replace (rw_depth k <=? ud) with false by lia.
Qed.

Lemma armed_in k rg ud res landed fl sb :
  worker_ok k rg -> entry_armed k {| ev_wait := WaitCqe ud res landed; ev_flush := fl; ev_submit := sb |} ->
  ud ∈ map sqe_user_data (rg_armed rg).
Proof. intros Hok (rg' & Hrg & Hin). rewrite (wo_ring _ _ Hok) in Hrg. by injection Hrg as <-. Qed.

(** What the kernel delivers it may deliver. *)
Lemma moves_ok s q k ev taken :
  worker_armed pb k -> Forall (routed pb (length (sy_workers s))) (waiting s) -> moves s q ev taken ->
  entry_armed k ev -> event_ok k ev.
Proof.
  intros (rg & Hok & _ & _ & Hpb) Hw Hm Ha. unfold event_ok. unfold entry_armed in Ha.
  destruct Hm as [res landed fl sb|j ud res v fl sb Hj|ud landed fl sb]; cbn [ev_wait] in *.
  - by split.
  - split; [done|]. intros _ _. exists v. rewrite Hpb. split; [done|].
    apply (Forall_lookup_1 _ _ _ _ Hw Hj).
  - split; [done|]. unfold ENOTCONN. lia.
Qed.

Lemma ring_ok s q k ev :
  worker_armed pb k -> Forall (routed pb (length (sy_workers s))) (waiting s) ->
  interrupts ev \/ fails s q ev -> entry_armed k ev -> event_ok k ev.
Proof.
  intros (rg & Hok & _ & _ & Hpb) Hw Hi Ha. unfold event_ok. unfold entry_armed in Ha.
  destruct Hi as [Hi|Hi]; [destruct Hi|destruct Hi as [rc fl sb|ud res landed fl sb|j ud res v fl sb Hj]];
    cbn [ev_wait] in *; unfold EINTR in *; [lia|split; [done|lia]|lia|split; [done|lia]|].
  split; [done|]. intros _ _. exists v. rewrite Hpb. split; [done|].
  apply (Forall_lookup_1 _ _ _ _ Hw Hj).
Qed.

(** A loop that goes on has no error. *)
Lemma iteration_continue_ec k rg w ev k' w' :
  worker_ok k rg -> event_ok k ev -> iteration fs k w ev = Done (k', w', Continue) ->
  rw_ec k' = rw_ec k.
Proof.
  intros Hok Hev H. unfold event_ok in Hev. destruct ev as [[rc|ud res landed] fl sb]; cbn [ev_wait] in Hev.
  { unfold iteration in H. rewrite (wo_ring _ _ Hok) in H. cbn [ev_wait] in H. case_if_in H; by simplify_eq. }
  destruct (Z.eqb_spec ud kStopSentinel) as [->|Hud].
  { unfold iteration in H. rewrite (wo_ring _ _ Hok) in H. cbn [ev_wait] in H. by rewrite Z.eqb_refl in H. }
  pose proof (armed_in k rg ud res landed fl sb Hok (proj1 Hev)) as Hin.
  rewrite (proj2 (iteration_slot k rg w ud res landed fl sb Hok Hin Hud)) in H.
  unfold slot_failed, serve_slot in H.
  repeat match type of H with
  | Fault _ = _ => discriminate H
  | obind ?e _ = Done _ =>
      let E := fresh "E" in destruct e as [[[? ?] ?]|] eqn:E; cbn [obind] in H; [|discriminate H]
  | Done (if ?e then _ else _) = Done _ => destruct e
  | Done match ?e with _ => _ end = Done _ => destruct e
  | (if ?e then _ else _) = Done _ => destruct e
  | match ?e with _ => _ end = Done _ => destruct e
  end; by simplify_eq.
Qed.

(** A worker after an iteration: still armed if its loop goes on. *)
Lemma worker_after k w ev k' w' v :
  worker_fine pb (k, true) -> event_ok k ev -> (v = Continue -> 1 <= ev_submit ev) ->
  iteration fs k w ev = Done (k', w', v) ->
  worker_fine pb (k', match v with Continue => true | Stop => false end).
Proof.
  intros Hk Hev Hsb H. destruct (Hk eq_refl) as (Hec & rg & Hok & Hsq & Hd & Hpb). cbn [fst] in *.
  destruct v; [|done]. intros _. cbn [fst].
  split; [rewrite <- Hec; by eapply iteration_continue_ec|].
  pose proof (iteration_payload _ _ _ _ _ _ H) as Hpb'.
  destruct (iteration_ok fs k rg ev w Hok Hev) as (k1 & w1 & v1 & H1 & Hc).
  rewrite H in H1. injection H1 as <- <- <-. destruct (Hc eq_refl) as (rg' & Hok' & Hd' & Hsq').
  exists rg'. split_and!; [done|by apply Hsq'; [|apply Hsb]|lia|congruence].
Qed.

(** The stop poll and the end of the connection end the loop; nothing else that
    moves the session does. *)
Lemma moves_verdict s q k w ev taken k' w' v :
  worker_fine pb (k, true) -> event_ok k ev -> moves s q ev taken -> entry_armed k ev ->
  iteration fs k w ev = Done (k', w', v) ->
  match taken with
  | None => v = Stop /\ (sy_signalled s = true \/ sy_conn s = Aborted)
  | Some _ => v = Continue
  end.
Proof.
  intros Hk Hev Hm Ha H. destruct (Hk eq_refl) as (_ & rg & Hok & _). cbn [fst] in *.
  destruct Hm as [res landed fl sb Hs|j ud res v0 fl sb Hj Hud Hres Hsb|ud landed fl sb Hc Hud].
  - unfold iteration in H. rewrite (wo_ring _ _ Hok) in H. injection H as <- <- <-. auto.
  - destruct v; [done|].
    pose proof (iteration_stop_cause fs LFS k rg _ w k' w' Hok Hev H) as Hst. unfold stop_cause in Hst.
    cbn [ev_wait ev_submit] in Hst. unfold ENOTCONN, ENODEV in Hst. lia.
  - pose proof (armed_in k rg _ _ _ _ _ Hok Ha) as Hin.
    rewrite (proj2 (iteration_slot k rg w ud _ landed fl sb Hok Hin Hud)) in H. injection H as <- <- <-. auto.
Qed.

(** A failure ends the loop, with an error. *)
Lemma fails_verdict s q k w ev k' w' v :
  worker_fine pb (k, true) -> fails s q ev -> entry_armed k ev ->
  iteration fs k w ev = Done (k', w', v) -> v = Stop /\ error k' <> 0.
Proof.
  intros Hk Hf Ha H. destruct (Hk eq_refl) as (_ & rg & Hok & _). cbn [fst] in *. unfold error.
  destruct Hf as [rc fl sb|ud res landed fl sb Hud Hres Hc Hd Hi|j ud res v0 fl sb Hj Hud Hres Hsb].
  - unfold iteration in H. rewrite (wo_ring _ _ Hok) in H. cbn [ev_wait] in H.
    case_if_in H; simplify_eq; [lia|]. cbn. split; [done|lia].
  - rewrite (proj2 (iteration_slot k rg w ud res landed fl sb Hok (armed_in k rg _ _ _ _ _ Hok Ha) Hud)) in H.
    apply Z.ltb_lt in Hres. apply Z.eqb_neq in Hc, Hd, Hi. unfold slot_failed in H.
    rewrite Hres, Hc, Hd, Hi in H. injection H as <- <- <-. cbn. split; [done|lia].
  - rewrite (proj2 (iteration_slot k rg w ud res _ fl sb Hok (armed_in k rg _ _ _ _ _ Hok Ha) Hud)) in H.
    apply Z.ltb_ge in Hres. rewrite Hres in H. unfold serve_slot in H. cbn [ev_flush ev_submit] in H.
    destruct (nth_error _ _); [|discriminate H].
    destruct (handle_one _ _ _ _) as [[[? ?] ?]|]; cbn [obind] in H; [|discriminate H].
    destruct (push_or_flush _ _ _); [|by simplify_eq]. case_if_in H; simplify_eq; [|lia].
    cbn. split; [done|lia].
Qed.

(** ** Every step keeps the invariant *)

Lemma fine_at s q k run :
  sys_ok s -> sy_workers s !! q = Some (k, run) -> worker_fine pb (k, run).
Proof. intros Hs. apply (Forall_lookup_1 _ _ _ _ (so_workers s Hs)). Qed.

Lemma waiting_fits s : sys_ok s -> Forall (routed pb (length (sy_workers s))) (waiting s).
Proof.
  intros Hs. pose proof (so_conn s Hs) as Hc. unfold waiting.
  destruct (sy_conn s) as [todo| | |]; [|constructor|apply Hs|constructor].
  destruct (sy_main s); try done. by apply Forall_take, Hc.
Qed.

(** A worker's iteration, whatever caused it. *)
Lemma worker_done_ok s q k ev k' w' v :
  sys_ok s -> sy_workers s !! q = Some (k, true) -> event_ok k ev -> (v = Continue -> 1 <= ev_submit ev) ->
  iteration fs k (sy_world s) ev = Done (k', w', v) ->
  (v = Stop -> sy_signalled s = true \/ sy_conn s = Aborted \/ error k' <> 0) ->
  sys_ok (worker_done s q k' w' v).
Proof.
  intros Hs Hq Hev Hh H Hv. pose proof (fine_at s q k true Hs Hq) as Hk.
  destruct (iteration_flags _ _ _ _ _ _ H) as [Hst Hmi].
  destruct Hs as [Hw Hp Hc Hf He Hj]. split; cbn; rewrite ?length_insert; try done.
  - apply Forall_insert; [done|]. by eapply worker_after.
  - by rewrite Hst, Hmi.
  - intros q' k0 [(-> & Hx & _)|[_ Hx]]%list_lookup_insert_Some; [|by eapply He].
    destruct v; [discriminate Hx|]. injection Hx as ->. by apply Hv.
  - intros q' k0 Hlt [(-> & _ & _)|[_ Hx]]%list_lookup_insert_Some; [by apply (Hj q' k Hlt)|by apply (Hj q' k0)].
Qed.

Lemma answered_ok s j err : sys_ok s -> is_Some (waiting s !! j) -> sys_ok (answered s j err).
Proof.
  intros [Hw Hp Hc Hf He Hj] Hne. unfold answered, waiting in *.
  destruct (sy_conn s) as [todo| | |] eqn:Ec; [|by destruct Hne| |by destruct Hne].
  - destruct (sy_main s) eqn:Em; try done. destruct Hc as [_ Hc].
    assert (Htl : Forall (routed pb (length (sy_workers s))) (delete j todo)) by by apply Forall_delete.
    split; cbn; rewrite ?Em; try done.
    + destruct (Z.eqb_spec err 0); cbn; [|lia]. by destruct (delete j todo).
    + intros q k Hq. destruct (He q k Hq) as [|[|]]; [by left|done|by right; right].
  - split; cbn; try done. by apply Forall_delete.
Qed.

(** An answer is to a request that waited. *)
Lemma taken_waiting s q ev j ud : moves s q ev (Some (j, ud)) -> exists v, waiting s !! j = Some (q, v).
Proof. inversion 1; subst. by eexists. Qed.

Lemma moves_submit s q ev taken : moves s q ev taken -> 1 <= ev_submit ev.
Proof. by intros []. Qed.

Lemma step_worker_ok s q k ev taken k' w' v :
  sys_ok s -> sy_workers s !! q = Some (k, true) -> moves s q ev taken -> entry_armed k ev ->
  iteration fs k (sy_world s) ev = Done (k', w', v) ->
  sys_ok (let s' := worker_done s q k' w' v in
          match taken with Some (j, ud) => answered s' j (answer_error k' ud) | None => s' end).
Proof.
  intros Hs Hq Hm Ha H. pose proof (fine_at s q k true Hs Hq) as Hk.
  assert (Hev : event_ok k ev) by (eapply moves_ok; [by apply Hk|by apply waiting_fits|done|done]).
  pose proof (moves_verdict s q k _ ev taken k' w' v Hk Hev Hm Ha H) as Hv.
  assert (Hd : sys_ok (worker_done s q k' w' v)).
  { eapply worker_done_ok; try done; [intros _; by eapply moves_submit|]. intros ->.
    destruct taken; [done|]. destruct Hv as [_ []]; auto. }
  cbv zeta. destruct taken as [[j ud]|]; [|done]. apply answered_ok; [done|].
  change (waiting (worker_done s q k' w' v)) with (waiting s).
  by destruct (taken_waiting _ _ _ _ _ Hm) as [v0 ->].
Qed.

(** [run] leaves the workers and the requests alone. *)
Lemma sys_ok_main s s' :
  sys_ok s -> sy_workers s' = sy_workers s -> sy_pending s' = sy_pending s ->
  (sy_signalled s = true -> sy_signalled s' = true) ->
  (sy_conn s' = sy_conn s \/ sy_conn s' = Aborted) ->
  main_conn pb (length (sy_workers s)) (sy_main s') (sy_conn s') ->
  main_flags (sy_main s') (impl_stopping (w_impl (sy_world s')))
    (impl_mount_installed (w_impl (sy_world s'))) (sy_signalled s') ->
  (forall q k, (q < joined (sy_main s') (length (sy_workers s)))%nat -> sy_workers s !! q <> Some (k, true)) ->
  sys_ok s'.
Proof.
  intros [Hw Hp Hc Hf He Hj] Hw' Hp' Hg Hc' Hmc Hmf Hj'. split; rewrite ?Hw', ?Hp'; try done.
  intros q k Hq. destruct (He q k Hq) as [|[Ha|]]; [auto| |auto]. right. left. destruct Hc' as [->|]; done.
Qed.

(** The mounter's result, at either of its calls. *)
Lemma mounter_done_ok s ec :
  sys_ok s -> sy_main s = AtCreate \/ sy_main s = AtFsmount ->
  main_conn pb (length (sy_workers s)) (AtMounted ec) (sy_conn s) -> sys_ok (mounter_done s ec).
Proof.
  intros Hs Hpc Hc. pose proof (so_flags s Hs) as (Hst & Hin & _). unfold mounter_done.
  apply (sys_ok_main s); cbn; try done; [by left| |lia]. split_and!; [|by intros []|done].
  destruct (Z.eqb_spec ec 0) as [->|Hne]; cbn; [|by right; exists ec].
  intros Hf. destruct (Hst Hf) as [|(ec & Hpc' & _)]; [by left|]. destruct Hpc; congruence.
Qed.

(** [run] joins the workers: they have been told to stop, or it served. *)
Lemma goto_join_ok s why :
  sys_ok s -> main_conn pb (length (sy_workers s)) (AtJoin why 0) (sy_conn s) -> why <> Served ->
  sys_ok (goto (stop_session s) (AtJoin why 0)).
Proof.
  intros Hs Hc Hw. apply (sys_ok_main s); cbn; try done; [by left| |lia].
  split_and!; [by left|by intros []|done].
Qed.

Lemma return_ok s w why i ec :
  sys_ok s -> sy_main s = AtJoin why i -> sy_workers s !! i = None -> w_impl w = w_impl (sy_world s) ->
  sys_ok (goto (unmount_on_exit (set_world s w)) (Returned ec)).
Proof.
  intros Hs Hpc Hi Hw. pose proof (so_conn s Hs) as Hc. rewrite Hpc in Hc.
  pose proof (so_flags s Hs) as (Hst & _ & _). rewrite Hpc in Hst.
  assert (Hj : forall q k, (q < length (sy_workers s))%nat -> sy_workers s !! q <> Some (k, true)).
  { intros q k Hq. apply (so_joined s Hs). rewrite Hpc. cbn. apply lookup_ge_None in Hi. lia. }
  unfold unmount_on_exit. cbn. case_if; apply (sys_ok_main s); cbn; try done; try (by left); try (by right).
  all: try (split_and!; [rewrite Hw|by intros []|done];
            intros Hf; destruct (Hst Hf) as [|(? & ? & _)]; [by left|done]).
  by destruct (sy_conn s).
Qed.

Lemma set_world_same s : set_world s (sy_world s) = s.
Proof. by destruct s. Qed.

Lemma main_step_ok s rc s' : 0 <= rc -> sys_ok s -> main_step fs s rc = Some s' -> sys_ok s'.
Proof.
  intros Hrc Hs H. pose proof (so_conn s Hs) as Hc. pose proof (so_flags s Hs) as (Hst & Hin & Hj).
  unfold main_step in H. destruct (sy_main s) as [| |ec|why i|] eqn:Em; [| | | |discriminate H].
  - destruct (sy_conn s) eqn:Ec; try done; injection H as <-.
    + apply mounter_done_ok; [done|by left|by rewrite Ec].
    + apply (sys_ok_main s); cbn; rewrite ?Ec; try done; [by left| |lia].
      split_and!; [|by intros _; apply Hin; left|done].
      intros Hf. destruct (Hst Hf) as [|(? & ? & _)]; [by left|done].
  - injection H as <-. apply mounter_done_ok; [done|by right|]. by destruct (sy_conn s).
  - destruct (Z.eqb_spec ec 0) as [->|Hne]; cbn [negb] in H.
    2: { injection H as <-. apply goto_join_ok; [done| |done]. by destruct (sy_conn s). }
    assert (Hj0 : forall why, main_conn pb (length (sy_workers s)) (AtJoin why 0) (sy_conn s))
      by (intros; by destruct (sy_conn s)).
    assert (Hf : impl_stopping (w_impl (sy_world s)) = true -> sy_signalled s = true).
    { intros Hf. destruct (Hst Hf) as [|(ec & [= <-] & Hn)]; done. }
    destruct (impl_stopping _) eqn:Es in H; [|destruct (negb _)]; injection H as <-; [|by apply goto_join_ok|];
      apply (sys_ok_main s); try apply Hj0; cbn; try done; try (by left); try lia;
      (split_and!; [intros; left; auto|by intros []|intros ? ? [= <- <-]; auto; done]).
  - destruct (sy_workers s !! i) as [[k []]|] eqn:Ei; [discriminate H| |].
    + injection H as <-. apply (sys_ok_main s); cbn; try done; [by left|..].
      * split_and!; [|by intros []|intros why' i' [= <- <-]; by apply (Hj why i)].
        intros Hf. destruct (Hst Hf) as [|(? & ? & _)]; [by left|done].
      * intros q k0 Hq. destruct (decide (q = i)) as [->|Hne]; [by rewrite Ei|].
        apply (so_joined s Hs). rewrite Em. cbn. lia.
    + destruct why; cbn [leave] in H; injection H as <-;
        try (by eapply return_ok; [done|done|done|]).
      all: rewrite <- (set_world_same s) at 1; by eapply return_ok.
Qed.

Lemma step_ok s s' : sys_ok s -> advance fs s s' -> sys_ok s'.
Proof.
  intros Hs [rc s1 Hrc H|q k ev taken k' w' v Hq Hm Ha H]; [by eapply main_step_ok|].
  by eapply step_worker_ok.
Qed.

Lemma interrupts_verdict k w ev k' w' v :
  worker_fine pb (k, true) -> event_ok k ev -> interrupts ev ->
  iteration fs k w ev = Done (k', w', v) -> v = Continue /\ 1 <= ev_submit ev.
Proof.
  intros Hk Hev Hi H. destruct (Hk eq_refl) as (_ & rg & Hok & _). cbn [fst] in Hok.
  split; [|by destruct Hi]. destruct v; [done|].
  pose proof (iteration_stop_cause fs LFS k rg ev w k' w' Hok Hev H) as Hs.
  unfold stop_cause in Hs. destruct Hi; cbn [ev_wait] in Hs; unfold EINTR, ENOTCONN, ENODEV in *; lia.
Qed.

Lemma outside_ok s s' : sys_ok s -> outside fs (request_fits pb) s s' -> sys_ok s'.
Proof.
  intros Hs Ho. pose proof (so_conn s Hs) as Hc. pose proof (so_flags s Hs) as (Hst & Hin & Hj).
  destruct Ho as [|q v Hl Hv Hq|Hl Hi|q k ev k' w' v Hq Hi Ha H].
  - apply (sys_ok_main s); cbn; try done; [by left| |apply Hs]. by split_and!; [left|apply Hin|].
  - destruct Hs as [Hw Hp _ Hf He Hjn]. rewrite Hl in *. split; cbn; try done.
    apply Forall_app. by split; [|constructor].
  - apply (sys_ok_main s); cbn; try done; [by right| |apply Hs].
    destruct (sy_main s); try done; rewrite Hin in Hi; auto; done.
  - pose proof (fine_at s q k true Hs Hq) as Hk.
    assert (Hev : event_ok k ev) by (eapply ring_ok; [by apply Hk|by apply waiting_fits|done|done]).
    destruct Hi as [Hi|Hi].
    + destruct (interrupts_verdict k _ ev k' w' v Hk Hev Hi H) as [-> Hsb]. by eapply worker_done_ok.
    + destruct (fails_verdict s q k _ ev k' w' v Hk Hi Ha H) as [-> He].
      eapply worker_done_ok; try done. intros _. auto.
Qed.

(** ** Progress *)

(** [run] waits for a worker that runs, and the workers wait for requests: every
    request has been answered, but for those on the queue of a failed worker. *)
Definition serving s : Prop := exists i k,
  sy_main s = AtJoin Served i /\ sy_workers s !! i = Some (k, true) /\ sy_conn s = Live /\
  sy_signalled s = false /\ forall q v, (q, v) ∈ sy_pending s -> failed s q.

(** [run] waits in CMD_CREATE, for an answer of a worker that has failed or, told
    to stop in the meantime, has ended. *)
Definition mount_stuck s : Prop := exists q v todo k,
  sy_main s = AtCreate /\ sy_conn s = Handshake ((q, v) :: todo) /\
  sy_workers s !! q = Some (k, false) /\ (error k <> 0 \/ sy_signalled s = true).

Lemma worker_armed_uds k rg : worker_ok k rg -> rg_sq rg = [] -> 1 <= rw_depth k ->
  kStopSentinel ∈ map sqe_user_data (rg_armed rg) /\ 0 ∈ map sqe_user_data (rg_armed rg).
Proof.
  intros Hok Hsq Hd. pose proof (wo_slots _ _ Hok) as Hs. unfold all_slots in Hs. rewrite Hsq in Hs.
  cbn [app] in Hs. rewrite Hs. split; [left|]. right. apply elem_of_slots. lia.
Qed.

(** A running worker takes what the kernel has for it. *)
Lemma worker_steps s q k ud res landed taken :
  sys_ok s -> sy_workers s !! q = Some (k, true) -> ud = kStopSentinel \/ ud = 0 ->
  moves s q {| ev_wait := WaitCqe ud res landed; ev_flush := 0; ev_submit := 1 |} taken ->
  exists s', advance fs s s'.
Proof.
  intros Hs Hq Hud Hm. destruct (fine_at s q k true Hs Hq eq_refl) as (_ & Hk).
  destruct Hk as (rg & Hok & Hsq & Hd & Hpb) eqn:Ek. clear Ek. cbn [fst] in *.
  destruct (worker_armed_uds k rg Hok Hsq Hd) as [H1 H2].
  assert (Ha : entry_armed k {| ev_wait := WaitCqe ud res landed; ev_flush := 0; ev_submit := 1 |}).
  { exists rg. split; [apply Hok|]. by destruct Hud as [-> | ->]. }
  destruct (iteration_ok fs k rg _ (sy_world s) Hok
    (moves_ok s q k _ _ Hk (waiting_fits s Hs) Hm Ha)) as (k' & w' & v & Hi & _).
  eexists. by eapply step_worker.
Qed.

Lemma stop_steps s q k :
  sys_ok s -> sy_workers s !! q = Some (k, true) -> sy_signalled s = true -> exists s', advance fs s s'.
Proof.
  intros Hs Hq Hg. eapply (worker_steps s q k kStopSentinel 0 []); [done|done|by left|].
  by constructor.
Qed.

Lemma request_steps s j q v k :
  sys_ok s -> waiting s !! j = Some (q, v) -> sy_workers s !! q = Some (k, true) -> exists s', advance fs s s'.
Proof.
  intros Hs Hj Hq. eapply (worker_steps s q k 0 0 (view_bytes v)); [done|done|by right|].
  by eapply moves_request.
Qed.

Lemma gone_steps s q k :
  sys_ok s -> sy_workers s !! q = Some (k, true) -> sy_conn s = Aborted -> exists s', advance fs s s'.
Proof.
  intros Hs Hq Hc. eapply (worker_steps s q k 0 (- ENOTCONN) []); [done|done|by right|].
  by constructor.
Qed.

(** A request is taken, or its worker has ended: it failed or was told to stop. *)
Lemma request_progress s j q v :
  sys_ok s -> waiting s !! j = Some (q, v) ->
  (exists k, sy_workers s !! q = Some (k, false) /\ (error k <> 0 \/ sy_signalled s = true)) \/
  exists s', advance fs s s'.
Proof.
  intros Hs Hj. destruct (Forall_lookup_1 _ _ _ _ (waiting_fits s Hs) Hj) as [Hlt _]. cbn [fst] in Hlt.
  apply lookup_lt_is_Some in Hlt as [[k []] Hq]; [right; by eapply request_steps|]. left. exists k.
  split; [done|]. destruct (so_exits s Hs q k Hq) as [|[Hc|]]; [by right| |by left].
  unfold waiting in Hj. by rewrite Hc in Hj.
Qed.

(** All requests are on failed queues, or one can be taken. *)
Lemma requests_progress s :
  sys_ok s -> sy_signalled s = false ->
  (exists s', advance fs s s') \/ forall q v, (q, v) ∈ waiting s -> failed s q.
Proof.
  intros Hs Hg. assert (Hall : forall l : list (nat * entry_view), (forall x, x ∈ l -> x ∈ waiting s) ->
    (exists s', advance fs s s') \/ forall q v, (q, v) ∈ l -> failed s q).
  { induction l as [|[q v] l IH]; intros Hl; [right; intros q v Hx; by apply elem_of_nil in Hx|].
    destruct IH as [|IH]; [intros x Hx; apply Hl; by right|by left|].
    destruct (list_elem_of_lookup_1 _ _ (Hl (q, v) ltac:(left))) as [j Hj].
    destruct (request_progress s j q v Hs Hj) as [(k & Hq & [Hf|?])|]; [|congruence|by left].
    right. intros q' v' [[= -> ->]|Hx]%elem_of_cons; [by exists k|by apply (IH q' v')]. }
  by apply Hall.
Qed.

(** [run] waiting for a worker. *)
Lemma join_progress s why i k :
  sys_ok s -> sy_main s = AtJoin why i -> sy_workers s !! i = Some (k, true) ->
  serving s \/ exists s', advance fs s s'.
Proof.
  intros Hs Hpc Hi. pose proof (so_conn s Hs) as Hc. pose proof (so_flags s Hs) as (_ & _ & Hj).
  rewrite Hpc in Hc. destruct (sy_signalled s) eqn:Eg; [right; by eapply stop_steps|].
  assert (why = Served) as -> by (destruct why; try done; discriminate (Hj _ i Hpc ltac:(done))).
  destruct (sy_conn s) eqn:Ec; [done|done| |right; by eapply gone_steps].
  destruct (requests_progress s Hs Eg) as [|Hf]; [by right|]. left. exists i, k. split_and!; try done.
  unfold waiting in Hf. by rewrite Ec in Hf.
Qed.

Lemma progress s : sys_ok s ->
  (exists ec, sy_main s = Returned ec) \/ serving s \/ mount_stuck s \/ exists s', advance fs s s'.
Proof.
  intros Hs. pose proof (so_conn s Hs) as Hc.
  assert (Hmain : is_Some (main_step fs s 0) -> exists s', advance fs s s').
  { intros [s' H]. exists s'. by eapply (step_main fs s 0). }
  unfold main_step in Hmain.
  destruct (sy_main s) as [| |ec|why i|ec] eqn:Em; [| | | |by left; exists ec]; right.
  - right. destruct (sy_conn s) as [todo| | |] eqn:Ec; try (right; apply Hmain; done).
    destruct todo as [|[q v] todo]; [by destruct Hc|].
    destruct (request_progress s 0 q v Hs) as [(k & Hk)|]; [unfold waiting; by rewrite Ec| |by right].
    left. by exists q, v, todo, k.
  - right. right. by apply Hmain.
  - right. right. apply Hmain. by repeat case_match.
  - destruct (sy_workers s !! i) as [[k []]|] eqn:Ei; [|right; right; by apply Hmain|].
    + destruct (join_progress s why i k Hs Em Ei) as [|]; auto.
    + right. right. apply Hmain. by destruct (leave fs s why).
Qed.

(** ** Termination *)

#[local] Open Scope nat_scope.

Definition pc_rank (n : nat) (pc : main_pc) : nat :=
  match pc with
  | AtCreate => n + 5
  | AtFsmount => n + 4
  | AtMounted _ => n + 3
  | AtJoin _ i => Datatypes.S (n - i)
  | Returned _ => 0
  end.

Definition running (ks : list (RingWorker * bool)) : nat :=
  sum_list (map (fun x : RingWorker * bool => if snd x then 1 else 0) ks).

Definition conn_rank (c : connection) : nat := match c with Handshake todo => length todo | _ => 0 end.

(** What is left to do: steps of [run], workers to end, requests to answer. *)
Definition left_to_do s : nat :=
  pc_rank (length (sy_workers s)) (sy_main s) + running (sy_workers s) + conn_rank (sy_conn s)
  + length (sy_pending s).

Lemma running_insert ks : forall q k k' (b : bool), ks !! q = Some (k, true) ->
  running (<[q := (k', b)]> ks) + 1 = running ks + (if b then 1 else 0).
Proof.
  unfold running. induction ks as [|x ks IH]; intros [|q] k k' b Hq; cbn in Hq |- *; try done.
  - injection Hq as ->. cbn. destruct b; lia.
  - rewrite <- !Nat.add_assoc. f_equal. by apply (IH q k k' b).
Qed.

Lemma running_ended ks q k k' : ks !! q = Some (k, true) ->
  running (<[q := (k', false)]> ks) + 1 = running ks.
Proof. intros Hq. rewrite (running_insert ks q k k' false Hq). lia. Qed.

Lemma fewer_left s s' :
  sy_workers s' = sy_workers s -> sy_pending s' = sy_pending s ->
  conn_rank (sy_conn s') <= conn_rank (sy_conn s) ->
  pc_rank (length (sy_workers s)) (sy_main s') < pc_rank (length (sy_workers s)) (sy_main s) ->
  left_to_do s' < left_to_do s.
Proof. unfold left_to_do. intros -> ->. lia. Qed.

Lemma main_decreases s rc s' : main_step fs s rc = Some s' -> left_to_do s' < left_to_do s.
Proof.
  intros H. unfold main_step in H. destruct (sy_main s) as [| |ec|why i|] eqn:Em; [| | | |discriminate H].
  - destruct (sy_conn s) eqn:Ec; [discriminate H| | |]; injection H as <-;
      (apply fewer_left; rewrite ?Em; cbn; [done|done|lia|lia]).
  - injection H as <-. apply fewer_left; rewrite ?Em; cbn; [done|done|lia|lia].
  - repeat case_match; injection H as <-; (apply fewer_left; rewrite ?Em; cbn; [done|done|lia|lia]).
  - destruct (sy_workers s !! i) as [[k []]|] eqn:Ei; [discriminate H| |].
    + injection H as <-. apply lookup_lt_Some in Ei. apply fewer_left; rewrite ?Em; cbn; [done|done|lia|lia].
    + destruct (leave fs s why) as [ec s1] eqn:El. injection H as <-.
      assert (Hs1 : sy_workers s1 = sy_workers s /\ sy_pending s1 = sy_pending s /\
        sy_conn s1 = sy_conn s) by (unfold leave in El; by destruct why; injection El as <- <-).
      destruct Hs1 as (Hw & Hp & Hc). unfold unmount_on_exit.
      destruct (negb _); apply fewer_left; rewrite ?Em; cbn; rewrite ?Hw, ?Hp, ?Hc; try done; lia.
Qed.

Lemma worker_decreases s q k ev taken k' w' v :
  sys_ok s -> sy_workers s !! q = Some (k, true) -> moves s q ev taken -> entry_armed k ev ->
  iteration fs k (sy_world s) ev = Done (k', w', v) ->
  left_to_do (let s' := worker_done s q k' w' v in
    match taken with Some (j, ud) => answered s' j (answer_error k' ud) | None => s' end) < left_to_do s.
Proof.
  intros Hs Hq Hm Ha H. pose proof (fine_at s q k true Hs Hq) as Hk.
  pose proof (moves_ok s q k ev taken (proj2 (Hk eq_refl)) (waiting_fits s Hs) Hm Ha) as Hev.
  pose proof (moves_verdict s q k _ ev taken k' w' v Hk Hev Hm Ha H) as Hv.
  pose proof (running_insert (sy_workers s) q k k'
    (match v with Continue => true | Stop => false end) Hq) as Hr.
  cbv zeta. unfold left_to_do. destruct taken as [[j ud]|].
  - destruct (taken_waiting s q ev j ud Hm) as [x Hw]. subst v. unfold answered, waiting in *.
    cbn [worker_done sy_conn]. destruct (sy_conn s) as [todo| | |] eqn:Ec; [|done| |done];
      cbn [set_kernel worker_done sy_main sy_workers sy_conn sy_pending]; rewrite length_insert.
    + assert (Hl : length (delete j todo) + 1 = length todo).
      { apply lookup_take_Some in Hw as [Hw _]. pose proof (lookup_lt_Some _ _ _ Hw).
        rewrite length_delete by by eexists. lia. }
      destruct (negb _); [|destruct (delete j todo)]; cbn [conn_rank length] in *; lia.
    + pose proof (lookup_lt_Some _ _ _ Hw). rewrite length_delete by by eexists. cbn [conn_rank]. lia.
  - destruct Hv as [-> _].
    cbn [worker_done sy_main sy_workers sy_conn sy_pending]. rewrite length_insert. lia.
Qed.

Lemma step_decreases s s' : sys_ok s -> advance fs s s' -> left_to_do s' < left_to_do s.
Proof.
  intros Hs [rc s1 _ H|q k ev taken k' w' v Hq Hm Ha H]; [by eapply main_decreases|].
  by eapply worker_decreases.
Qed.

Lemma nsteps_bounded n s s' :
  sys_ok s -> nsteps (advance fs) n s s' -> sys_ok s' /\ n + left_to_do s' <= left_to_do s.
Proof.
  intros Hs H. induction H as [s|n s s1 s2 H12 _ IH]; [split; [done|lia]|].
  pose proof (step_decreases s s1 Hs H12). destruct (IH (step_ok s s1 Hs H12)). split; [done|lia].
Qed.
#[local] Close Scope nat_scope.

(** ** From the launch on *)

Lemma happens_ok s s' : rtc (happens fs (request_fits pb)) s s' -> sys_ok s -> sys_ok s'.
Proof.
  induction 1 as [|s s1 s2 [H|H] _ IH]; intros Hs; [done|..]; apply IH; [by eapply step_ok|by eapply outside_ok].
Qed.

(** Told to stop, or unmounted: this does not change, and [run] does not go
    back to waiting for requests. *)
Definition ending_soon s : Prop := sy_signalled s = true \/ sy_conn s = Aborted.

Lemma main_step_kernel s rc s' : main_step fs s rc = Some s' ->
  (sy_signalled s = true -> sy_signalled s' = true) /\ (sy_conn s' = sy_conn s \/ sy_conn s' = Aborted).
Proof.
  intros H. unfold main_step in H. destruct (sy_main s) as [| |ec|why i|]; [| | | |discriminate H].
  - destruct (sy_conn s) eqn:Ec; [discriminate H|..]; injection H as <-; cbn; auto.
  - injection H as <-. cbn. auto.
  - repeat case_match; injection H as <-; cbn; auto.
  - destruct (sy_workers s !! i) as [[k []]|]; [discriminate H|injection H as <-; cbn; auto|].
    unfold unmount_on_exit in H.
    destruct why; cbn [leave] in H; injection H as <-; destruct (negb _); cbn; auto.
Qed.

Lemma step_ending s s' : advance fs s s' -> ending_soon s -> ending_soon s'.
Proof.
  unfold ending_soon. intros [rc s1 _ H|q k ev taken k' w' v Hq Hm Ha H].
  - destruct (main_step_kernel s rc s1 H) as [Hg Hc]. intros [|Ha]; [auto|]. right. destruct Hc; congruence.
  - cbv zeta. destruct taken as [[j ud]|]; [|done]. unfold answered. cbn [worker_done sy_conn].
    destruct (sy_conn s) eqn:Ec; cbn; rewrite ?Ec; [|done..]. intros [|]; [by left|done].
Qed.

(** A session that served returns the error of the first worker that has one. *)
Definition served s : Prop :=
  (exists i, sy_main s = AtJoin Served i) \/ sy_main s = Returned (first_worker_error (sy_workers s)).

(** No worker runs once [run] has returned. *)
Lemma returned_joined s ec q k :
  sys_ok s -> sy_main s = Returned ec -> sy_workers s !! q <> Some (k, true).
Proof.
  intros Hs Hpc Hq. apply (so_joined s Hs q k); [|done]. rewrite Hpc. cbn. by eapply lookup_lt_Some.
Qed.

Lemma no_worker_error ks :
  (forall q k b, ks !! q = Some (k, b) -> error k = 0) -> first_worker_error ks = 0.
Proof.
  unfold first_worker_error. induction ks as [|[k b] ks IH]; [done|]. intros H. cbn.
  rewrite (H 0%nat k b eq_refl). cbn. apply IH. intros q. apply (H (Datatypes.S q)).
Qed.

Lemma returned_error s ec :
  sys_ok s -> sy_main s = Returned ec -> (forall q, ~ failed s q) -> first_worker_error (sy_workers s) = 0.
Proof.
  intros Hs Hpc Hf. apply no_worker_error. intros q k [] Hq; [by destruct (returned_joined s ec q k)|].
  destruct (decide (error k = 0)) as [|Hne]; [done|]. destruct (Hf q). by exists k.
Qed.

Lemma step_served s s' : sys_ok s -> advance fs s s' -> served s -> served s'.
Proof.
  unfold served. intros Hs [rc s1 _ H|q k ev taken k' w' v Hq Hm Ha H].
  - unfold main_step in H. intros [[i Hpc]|Hpc]; rewrite Hpc in H; [|done].
    destruct (sy_workers s !! i) as [[k []]|]; [done| |]; injection H as <-; [left; by eexists|right].
    cbn. unfold unmount_on_exit. by case_if.
  - intros [Hpc|Hpc]; [left|by destruct (returned_joined s _ q k Hs Hpc)].
    cbv zeta. destruct taken as [[j ud]|]; [|done]. unfold answered. cbn [worker_done sy_conn].
    by destruct (sy_conn s).
Qed.

Lemma steps_keep (Q : system S -> Prop) n s s' :
  (forall s s', sys_ok s -> advance fs s s' -> Q s -> Q s') ->
  sys_ok s -> nsteps (advance fs) n s s' -> Q s -> Q s'.
Proof.
  intros HQ Hs H. induction H as [|n s s1 s2 H _ IH]; [done|].
  intros HQs. apply IH; [by eapply step_ok|by eapply HQ].
Qed.

(** CMD_CREATE is sent once. *)
Lemma step_created s s' : advance fs s s' -> sy_main s <> AtCreate -> sy_main s' <> AtCreate.
Proof.
  intros [rc s1 _ H|q k ev taken k' w' v Hq Hm Ha H] Hpc.
  - unfold main_step in H. destruct (sy_main s) as [| |ec|why i|ec]; [done| | | |done];
      repeat case_match; simplify_eq; done.
  - cbv zeta. destruct taken as [[j ud]|]; [|done]. unfold answered. by destruct (sy_conn _).
Qed.

(** Where the threads come to rest. *)
Lemma settles s n s' :
  sys_ok s -> nsteps (advance fs) n s s' ->
  (n <= left_to_do s)%nat /\
  ((forall s'', ~ advance fs s' s'') ->
    (serving s' /\ ~ ending_soon s) \/
    (exists ec, sy_main s' = Returned ec /\ (served s -> ec = first_worker_error (sy_workers s') /\
       ((forall q, ~ failed s' q) -> ec = 0))) \/
    mount_stuck s' /\ sy_main s = AtCreate).
Proof.
  intros Hs H. destruct (nsteps_bounded n s s' Hs H) as [Hs' Hn]. split; [lia|]. intros Hstuck.
  destruct (progress s' Hs') as [[ec Hr]|[Hsv|[Hm|[s'' Hst]]]].
  - right. left. exists ec. split; [done|]. intros Hsd.
    destruct (steps_keep served n s s' (fun s s' Hs => step_served s s' Hs) Hs H Hsd) as [[i Hi]|Hi];
      [congruence|]. assert (ec = first_worker_error (sy_workers s')) as -> by congruence.
    split; [done|]. by eapply returned_error.
  - left. split; [done|]. intros He.
    pose proof (steps_keep ending_soon n s s' (fun s s' _ => step_ending s s') Hs H He) as He'.
    destruct Hsv as (i & k & _ & _ & Hc & Hg & _). destruct He'; congruence.
  - right. right. split; [done|]. destruct Hm as (_ & _ & _ & _ & Hpc & _).
    pose proof (steps_keep (fun s => sy_main s <> AtCreate) n s s' (fun s s' _ => step_created s s') Hs H) as Hne.
    cbv beta in Hne. destruct (sy_main s); [done|..]; by destruct (Hne ltac:(discriminate)).
  - by destruct (Hstuck s'').
Qed.
End Invariant.

(** ** The launch *)

(** The state when [run] has launched the workers: it waits in CMD_CREATE, for
    which the kernel has the requests [todo]. *)
Definition launched {S} (impl : Impl) (ks : list RingWorker) (st : S) (todo : list (nat * entry_view)) :
    system S := {|
  sy_main := AtCreate; sy_workers := map (fun k => (k, true)) ks;
  sy_world := {| w_impl := impl; w_fs := st |}; sy_conn := Handshake todo; sy_pending := [];
  sy_signalled := false |}.

(** The workers were started, the kernel took all they submitted, [stop] has
    not been called, and the kernel's requests fit the rings. *)
Record launch_ok (E : env) (n : nat) (ss : sess) (ks : list RingWorker) (ss' : sess)
    (todo : list (nat * entry_view)) : Prop := {
  la_payload : 0 <= opt_uring_payload_bytes (impl_opts (ss_impl ss)) < 2 ^ 32 - sizeof fuse_out_header;
  la_depth : 1 <= opt_uring_queue_depth (impl_opts (ss_impl ss)) < 2 ^ 32 - 1;
  la_rings : forall q, opt_uring_queue_depth (impl_opts (ss_impl ss)) + 1 <= se_sq_entries (en_start E q) /\
    opt_uring_queue_depth (impl_opts (ss_impl ss)) + 1 <= se_submit (en_start E q);
  la_started : start_workers E n 0 ss = (ks, 0, ss');
  la_fresh : impl_stopping (ss_impl ss') = false /\ impl_mount_installed (ss_impl ss') = false;
  la_requests : todo <> [] /\
    Forall (routed (opt_uring_payload_bytes (impl_opts (ss_impl ss))) n) todo;
}.

Lemma start_fields impl env k k' e :
  start impl env k = (k', e) -> rw_payload_bytes k' = rw_payload_bytes k /\ rw_ec k' = rw_ec k.
Proof. unfold start. intros H. repeat case_match; by simplify_eq. Qed.

Lemma log_opts E s e r : impl_opts (ss_impl (log (other_threads E s) e r)) = impl_opts (ss_impl s).
Proof. unfold other_threads, session_stop. destruct (en_stop _ _); [|done]. cbn. by case_if. Qed.

Lemma started_fine E n : forall q s ks s' depth pb,
  opt_uring_queue_depth (impl_opts (ss_impl s)) = depth ->
  opt_uring_payload_bytes (impl_opts (ss_impl s)) = pb ->
  0 <= pb < 2 ^ 32 - sizeof fuse_out_header -> 1 <= depth < 2 ^ 32 - 1 ->
  (forall q, depth + 1 <= se_sq_entries (en_start E q) /\ depth + 1 <= se_submit (en_start E q)) ->
  start_workers E n q s = (ks, 0, s') ->
  length ks = n /\ Forall (worker_fine pb) (map (fun k => (k, true)) ks).
Proof.
  induction n as [|n IH]; intros q s ks s' depth pb Hd Hpb Hpb0 Hd0 Hrings H; cbn [start_workers] in H.
  { by injection H as <- _. }
  rewrite Hd, Hpb in H. destruct (start _ _ _) as [k ec] eqn:Es.
  destruct (Z.eqb_spec ec 0) as [->|Hne]; cbn [negb] in H; [|by injection H].
  destruct (start_workers E n (q + 1) _) as [[ks1 ec1] s1] eqn:En. injection H as <- -> <-.
  destruct (IH _ _ _ _ depth pb ltac:(by rewrite log_opts) ltac:(by rewrite log_opts) Hpb0 Hd0 Hrings En)
    as [Hl Hf]. destruct (Hrings q) as [Hsq Hsb].
  assert (Hd1 : 0 <= depth < 2 ^ 32 - 1) by lia.
  destruct (start_ok _ _ q depth pb k Hpb0 Hd1 Hsq Es) as (rg & Hok & Hdk & _ & Hnil).
  destruct (start_fields _ _ _ _ _ Es) as [Hp Hec]. split; [cbn; lia|]. constructor; [|done].
  intros _. split; [done|]. exists rg. split_and!; [done|auto|cbn in *; lia|done].
Qed.

Lemma launched_ok {S} E n ss ks ss' (st : S) todo :
  launch_ok E n ss ks ss' todo ->
  sys_ok (opt_uring_payload_bytes (impl_opts (ss_impl ss))) (launched (ss_impl ss') ks st todo).
Proof.
  intros [Hpb Hd Hr Hs [Hst Hmi] [Hne Hf]].
  destruct (started_fine E n 0 ss ks ss' _ _ eq_refl eq_refl Hpb Hd Hr Hs) as [Hl Hw].
  split; cbn; rewrite ?length_map, ?Hl; try done.
  - rewrite Hst, Hmi. split_and!; [done..|by intros].
  - intros q k Hq. apply list_lookup_fmap_Some in Hq as (? & ? & ?). done.
  - lia.
Qed.

(** ** The hang *)

Section Hang.
Context {S : Type} (fs : Filesystem S) (LFS : LawfulFs fs) (pb : Z).
Implicit Types s : system S.

(** [run] in CMD_CREATE, and the worker that could answer has ended. *)
Definition hung s : Prop := exists q v todo,
  sy_main s = AtCreate /\ sy_conn s = Handshake ((q, v) :: todo) /\ forall k, sy_workers s !! q <> Some (k, true).

Lemma hung_worker s q k k' w' v :
  hung s -> sy_workers s !! q = Some (k, true) -> hung (worker_done s q k' w' v).
Proof.
  intros (q0 & v0 & todo & Hpc & Hc & Hn) Hq. exists q0, v0, todo. split_and!; try done. cbn. intros k0.
  rewrite list_lookup_insert_ne; [apply Hn|]. intros ->. by apply (Hn k).
Qed.

Lemma hung_forever s s' : hung s -> happens fs (request_fits pb) s s' -> hung s'.
Proof.
  intros Hh H. pose proof Hh as (q & v & todo & Hpc & Hc & Hn). destruct H as [H|H].
  - destruct H as [rc s1 _ H|q' k ev taken k' w' v' Hq Hm].
    { unfold main_step in H. by rewrite Hpc, Hc in H. }
    destruct Hm as [| j ud res v0 fl sb Hj|ud landed fl sb Ha]; [by eapply hung_worker| |congruence].
    unfold waiting in Hj. rewrite Hc in Hj. destruct j as [|j]; [|done]. injection Hj as <- _. by apply Hn in Hq.
  - destruct H as [|q' v' Hl|Hl|q' k ev k' w' v' Hq]; [by exists q, v, todo|congruence|congruence|].
    by eapply hung_worker.
Qed.

Definition hangs s : Prop := forall s', rtc (happens fs (request_fits pb)) s s' -> sy_main s' = AtCreate.

Lemma hung_hangs s : hung s -> hangs s.
Proof.
  intros Hh s' H. assert (Hh' : hung s').
  { revert Hh. induction H as [|s s1 s2 H _ IH]; [done|]. intros Hh. by eapply IH, hung_forever. }
  by destruct Hh' as (? & ? & ? & ? & _).
Qed.

(** A worker that sees the stop poll before any request. *)
Lemma stop_poll_step s q k :
  sys_ok pb s -> sy_workers s !! q = Some (k, true) -> sy_signalled s = true ->
  exists k' w', advance fs s (worker_done s q k' w' Stop).
Proof.
  intros Hs Hq Hg. destruct (fine_at pb s q k true Hs Hq eq_refl) as (_ & rg & Hok & Hsq & Hd & _).
  cbn [fst] in *. destruct (worker_armed_uds k rg Hok Hsq Hd) as [Hin _].
  exists (set_ring k (Some (complete kStopSentinel rg))), (sy_world s).
  set (ev := {| ev_wait := WaitCqe kStopSentinel 0 []; ev_flush := 0; ev_submit := 1 |}).
  eapply (step_worker fs s q k ev None); [done|by constructor|exists rg; by split; [apply Hok|]|].
  unfold iteration. rewrite (wo_ring _ _ Hok). done.
Qed.

(** A worker that ends while its request waits. *)
Lemma ended_hung s q v todo k k' w' :
  sy_main s = AtCreate -> sy_conn s = Handshake ((q, v) :: todo) -> sy_workers s !! q = Some (k, true) ->
  hung (worker_done s q k' w' Stop).
Proof.
  intros Hpc Hc Hq. exists q, v, todo. split_and!; try done. cbn. intros k0.
  by rewrite list_lookup_insert_eq by by eapply lookup_lt_Some.
Qed.
End Hang.

(** ** A failed worker *)

(** A worker that fails takes no other with it: [run] still waits for worker [i],
    no thread of the session can do anything, and the error is reported when
    something else ends the session. *)
Theorem worker_error_unreported {S} (fs : Filesystem S) pb (s : system S) i k0 q k ev k' w' v :
  sys_ok pb s -> sy_main s = AtJoin Served i -> sy_workers s !! i = Some (k0, true) -> sy_conn s = Live ->
  sy_signalled s = false -> sy_pending s = [] ->
  sy_workers s !! q = Some (k, true) -> q <> i -> fails s q ev -> entry_armed k ev ->
  iteration fs k (sy_world s) ev = Done (k', w', v) ->
  error k' <> 0 /\ forall s', ~ advance fs (worker_done s q k' w' v) s'.
Proof.
  intros Hs Hpc Hi Hc Hg Hp Hq Hne Hf Ha H.
  destruct (fails_verdict fs pb s q k _ ev k' w' v (fine_at pb s q k true Hs Hq) Hf Ha H) as [-> He].
  split; [done|]. intros s' [rc s1 _ Hm|q' k1 ev1 taken k2 w2 v2 _ Hm].
  - revert Hm. unfold main_step. cbn [worker_done sy_main sy_workers].
    by rewrite Hpc, list_lookup_insert_ne, Hi by done.
  - destruct Hm as [res' landed' fl' sb' Hx|j ud' res' v' fl' sb' Hj|ud' landed' fl' sb' Hx]; cbn in *;
      [congruence| |congruence].
    unfold waiting in Hj. cbn in Hj. by rewrite Hc, Hp in Hj.
Qed.

(** ** The same run in Session.v *)

Lemma first_errors_agree E ks xs :
  Forall2 (fun k (x : RingWorker * bool) => en_error E (rw_qid k) = error (fst x)) ks xs ->
  first_error E ks = first_worker_error xs.
Proof.
  unfold first_error, first_worker_error. induction 1 as [|k x ks xs Hk _ IH]; [done|].
  cbn [map]. rewrite Hk, !filter_cons. case_decide; [done|exact IH].
Qed.

(** [serve_session] and the steps of [main_step] are the same code: where the
    mounter's result, the flags at the checks after it and the errors of the
    workers are the same, both end for the same reason with the same result. *)
Theorem run_agrees {S} (fs : Filesystem S) E ks fsfd ss mount_ec ss1 (s s1 s2 : system S) rc why :
  mounter E fsfd (each (launch E) ks ss) = (mount_ec, ss1) ->
  let ss2 := other_threads E ss1 in
  sy_main s = AtMounted mount_ec ->
  impl_stopping (w_impl (sy_world s)) = impl_stopping (ss_impl ss2) ->
  impl_init_done (w_impl (sy_world s)) = impl_init_done (ss_impl ss2) || en_init_served E (ss_trace ss2) ->
  main_step fs s rc = Some s1 -> sy_main s1 = AtJoin why 0 ->
  Forall2 (fun k x => en_error E (rw_qid k) = error (fst x)) ks (sy_workers s2) ->
  fst (serve_session E ks fsfd ss) = fst (leave fs s2 why).
Proof.
  intros Hm ss2 Hpc Hst Hin Hs Hj He. unfold serve_session. rewrite Hm. fold ss2.
  unfold main_step in Hs. rewrite Hpc, Hst, Hin in Hs.
  destruct (negb (mount_ec =? 0)); [injection Hs as <-; by injection Hj as <-|].
  destruct (impl_stopping (ss_impl ss2)); [injection Hs as <-; by injection Hj as <-|].
  destruct (negb _); injection Hs as <-; injection Hj as <-; [done|]. by apply first_errors_agree.
Qed.

(** ** Theorems *)


(** C38: Nothing ends the wait for the mount. If [stop] is called while CMD_CREATE
    waits for its first answer, there is a next step, in which the worker it waits
    for sees the stop before the request and ends without answering; and when that
    worker's ring fails it does end. From there [run] never returns from CMD_CREATE,
    whatever happens afterwards. *)
Theorem mount_wait_hangs {S} (fs : Filesystem S) (LFS : LawfulFs fs) E n ss ks ss' (st : S) q v todo :
  launch_ok E n ss ks ss' ((q, v) :: todo) ->
  let pb := opt_uring_payload_bytes (impl_opts (ss_impl ss)) in
  let s := launched (ss_impl ss') ks st ((q, v) :: todo) in
  (exists s', advance fs (stop_session s) s' /\ hangs fs pb s') /\
  (forall k ev k' w' r, sy_workers s !! q = Some (k, true) -> fails s q ev -> entry_armed k ev ->
     iteration fs k (sy_world s) ev = Done (k', w', r) -> hangs fs pb (worker_done s q k' w' r)).
Proof.
  intros Hl pb s. pose proof (launched_ok E n ss ks ss' st _ Hl) as Hok. fold pb s in Hok. split.
  - pose proof (outside_ok fs LFS _ _ _ Hok (outside_stop _ _ _)) as Hok'.
    destruct (Forall_lookup_1 _ _ 0%nat _ (waiting_fits _ _ Hok') eq_refl) as [Hlt _].
    apply lookup_lt_is_Some in Hlt as [[k b] Hq].
    cbn [fst stop_session set_kernel change_impl set_world sy_workers] in Hq.
    destruct b; [|by apply list_lookup_fmap_Some in Hq as (? & ? & ?)].
    destruct (stop_poll_step fs pb _ q k Hok' Hq eq_refl) as (k' & w' & Hstep).
    eexists. split; [exact Hstep|]. by eapply hung_hangs, ended_hung.
  - intros k ev k' w' r Hq Hf Ha H.
    destruct (fails_verdict fs pb s q k _ ev k' w' r (fine_at pb s q k true Hok Hq) Hf Ha H) as [-> _].
    by eapply hung_hangs, ended_hung.
Qed.

(** ** Examples *)

Definition life_options : SessionOptions := {|
  opt_mountpoint := [Byte.x2f]; opt_fsname := []; opt_source := []; opt_read_only := false;
  opt_allow_other := false; opt_dev_fd := -1; opt_uring_queues := 2; opt_uring_queue_depth := 2;
  opt_uring_payload_bytes := 64 |}.

Definition life_env : env := {|
  en_result := fun tr _ => zlen tr; en_stop := fun _ => false; en_start := fun _ => demo_env;
  en_init_served := fun _ => true; en_error := fun _ => 0; en_hardware_concurrency := 1 |}.

Definition life_sess : sess := session_make life_options.

Definition life_workers : list RingWorker := fst (fst (start_workers life_env 2 0 life_sess)).
Definition life_started : sess := snd (start_workers life_env 2 0 life_sess).

Lemma life_launch : launch_ok life_env 2 life_sess life_workers life_started [(1%nat, demo_lookup_view)].
Proof.
  split; try done. split; [done|]. constructor; [|done]. split; [cbn; lia|].
  split; [apply demo_lookup_view_wf|]. split; [by vm_compute|]. split; discriminate.
Qed.

Definition life_launched : system (list bytes) :=
  launched (ss_impl life_started) life_workers [] [(1%nat, demo_lookup_view)].

(** The handshake, answered by the second worker. *)
Definition life_event : event := {|
  ev_wait := WaitCqe 1 0 (view_bytes demo_lookup_view); ev_flush := 0; ev_submit := 1 |}.

Definition life_worker : RingWorker := nth 1 life_workers demo_worker.

Lemma life_event_armed : entry_armed life_worker life_event.
Proof.
  exists (default {| rg_capacity := 0; rg_sq := []; rg_armed := [] |} (rw_ring life_worker)).
  split; [done|]. apply list_elem_of_In. vm_compute. tauto.
Qed.


Lemma mount_wait_hangs_witness :
  exists s, advance (demo_fs [Byte.x61]) (stop_session life_launched) s /\ sy_main s = AtCreate.
Proof.
  destruct (mount_wait_hangs (demo_fs [Byte.x61]) (demo_fs_lawful _) life_env 2 life_sess
    life_workers life_started [] 1 demo_lookup_view [] life_launch) as [(s & Hs & Hh) _].
  exists s. split; [exact Hs|]. by apply Hh.
Defined.
