(* ===== verification/MirrorSession.v ===== *)
(** * A session over a daemon that cannot be told from another

    Lifecycle.v runs a session, its workers and the kernel side by side over any
    daemon. Here two sessions run over daemons that answer callbacks alike
    ([FsSimulation]): every step of one is a step of the other, with the same
    rings, the same replies in their entries, the same flags and the same place
    in [run]. So the whole life of a passthrough session, in whatever order its
    workers serve requests, [run] goes on and the kernel and the outside act, is one
    of a session over the daemon that holds the files themselves (MirrorSpec.v), and
    the other way round. A worker serves a request in one step here; callbacks that
    interleave are Interleaving.v and KernelProtocol.v. *)

From S2P Require Import Prelude Memory Pod Abi Types DirentWriter Filesystem Replier Handlers.
From S2P Require Import HandlerSafety Request Compound UringEntry Callbacks UringWorker Simulation.
From S2P Require Import InodeTable Passthrough Backing MirrorSpec Mirror Mount Session Lifecycle.
From stdpp Require Import gmap relations.
#[local] Open Scope Z_scope.

#[export] Instance flip_simulation {S1 S2} (fs1 : Filesystem S1) (fs2 : Filesystem S2) R
  `{!FsSimulation fs1 fs2 R} : FsSimulation fs2 fs1 (fun s2 s1 => R s1 s2).
Proof. intros cb s2 s1 HR. by destruct (ask_simulates cb s1 s2 HR). Qed.

Section Alike.
Context {S1 S2 : Type} (fs1 : Filesystem S1) (fs2 : Filesystem S2) (R : S1 -> S2 -> Prop).
Context `{!FsSimulation fs1 fs2 R} (fits : entry_view -> Prop).
Implicit Types (s : system S1) (t : system S2).

(** The same but for the daemons, which are related. *)
Record alike s t : Prop := {
  al_main : sy_main s = sy_main t;
  al_workers : sy_workers s = sy_workers t;
  al_world : world_rel R (sy_world s) (sy_world t);
  al_conn : sy_conn s = sy_conn t;
  al_pending : sy_pending s = sy_pending t;
  al_signalled : sy_signalled s = sy_signalled t;
}.

Lemma alike_impl s t : alike s t -> w_impl (sy_world s) = w_impl (sy_world t).
Proof. intros []. by destruct al_world0. Qed.

Lemma alike_goto s t pc : alike s t -> alike (goto s pc) (goto t pc).
Proof. by intros []. Qed.

Lemma alike_change_impl s t f : alike s t -> alike (change_impl s f) (change_impl t f).
Proof. intros [? ? [Hi Hr]]. split; try done. split; [cbn; by rewrite Hi|done]. Qed.

Lemma alike_kernel s t c p g : alike s t -> alike (set_kernel s c p g) (set_kernel t c p g).
Proof. by intros []. Qed.

Lemma alike_stop s t : alike s t -> alike (stop_session s) (stop_session t).
Proof.
  intros Ha. unfold stop_session. rewrite (al_conn s t Ha), (al_pending s t Ha).
  by apply alike_kernel, alike_change_impl.
Qed.

Lemma alike_destroy s t :
  alike s t -> alike (set_world s (set_fs (sy_world s) (fs_destroy fs1 (w_fs (sy_world s)))))
    (set_world t (set_fs (sy_world t) (fs_destroy fs2 (w_fs (sy_world t))))).
Proof.
  intros [? ? [Hi Hr]]. split; try done. split; [done|]. cbn.
  apply (proj2 (ask_simulates CbDestroy _ _ Hr)).
Qed.

Lemma alike_leave s t why :
  alike s t ->
  fst (leave fs1 s why) = fst (leave fs2 t why) /\ alike (snd (leave fs1 s why)) (snd (leave fs2 t why)).
Proof.
  intros Ha. destruct why; cbn; try done. rewrite (al_workers s t Ha). split; [done|by apply alike_destroy].
Qed.

Lemma alike_unmount s t : alike s t -> alike (unmount_on_exit s) (unmount_on_exit t).
Proof.
  intros Ha. unfold unmount_on_exit. rewrite (alike_impl s t Ha), (al_pending s t Ha), (al_signalled s t Ha).
  case_if; [done|]. by apply alike_kernel, alike_change_impl.
Qed.

Create HintDb alike.
#[local] Hint Resolve alike_goto alike_change_impl alike_kernel alike_stop alike_unmount : alike.

(** [run] does the same in both. *)
Lemma alike_main s t rc s' :
  alike s t -> main_step fs1 s rc = Some s' -> exists t', main_step fs2 t rc = Some t' /\ alike s' t'.
Proof.
  intros Ha H. pose proof (alike_impl s t Ha) as Hi. unfold main_step in *.
  rewrite <- (al_main s t Ha), <- (al_conn s t Ha), <- (al_workers s t Ha), <- Hi.
  destruct (sy_main s) as [| |ec|why i|]; [| | | |done].
  - unfold mounter_done in *. destruct (sy_conn s); [done| | |]; injection H as <-; eauto with alike.
  - unfold mounter_done in *. injection H as <-. eauto 6 with alike.
  - destruct (negb (ec =? 0)); [|destruct (impl_stopping _); [|destruct (negb _)]]; injection H as <-;
      eauto with alike.
  - destruct (sy_workers s !! i) as [[k []]|]; [done|injection H as <-; eauto with alike|].
    destruct (alike_leave s t why Ha) as [Hec Hl]. destruct (leave fs1 s why), (leave fs2 t why).
    cbn [fst snd] in *. subst. injection H as <-. eauto with alike.
Qed.

(** A worker does the same in both, and the kernel offers it the same. *)
Lemma alike_waiting s t : alike s t -> waiting s = waiting t.
Proof. intros Ha. unfold waiting. by rewrite (al_conn s t Ha), (al_pending s t Ha). Qed.

Lemma alike_moves s t q ev taken : alike s t -> moves s q ev taken -> moves t q ev taken.
Proof.
  intros Ha Hm. pose proof (alike_waiting s t Ha) as Hw. destruct Ha.
  by destruct Hm; constructor; try congruence; rewrite <- Hw.
Qed.

Lemma alike_fails s t q ev : alike s t -> fails s q ev -> fails t q ev.
Proof.
  intros Ha Hm. pose proof (alike_waiting s t Ha) as Hw.
  destruct Hm; [by constructor|by constructor|]. eapply fails_submit; [by rewrite <- Hw|done..].
Qed.

Lemma alike_answered s t j err : alike s t -> alike (answered s j err) (answered t j err).
Proof.
  intros Ha. unfold answered. rewrite <- (al_conn s t Ha), <- (al_pending s t Ha), <- (al_signalled s t Ha).
  destruct (sy_conn s); by apply alike_kernel.
Qed.

Lemma alike_worker s t q k ev k' w' v :
  alike s t -> iteration fs1 k (sy_world s) ev = Done (k', w', v) ->
  exists u, iteration fs2 k (sy_world t) ev = Done (k', u, v) /\
    alike (worker_done s q k' w' v) (worker_done t q k' u v).
Proof.
  intros Ha H. pose proof (iteration_rel fs1 fs2 R k _ _ ev (al_world s t Ha)) as Hr. rewrite H in Hr.
  destruct (iteration fs2 k (sy_world t) ev) as [[[k2 u] v2]|]; [|done].
  destruct Hr as (<- & Hw & <-). exists u. split; [done|]. destruct Ha. split; cbn; try done. by f_equal.
Qed.

Lemma alike_advance s t s' : alike s t -> advance fs1 s s' -> exists t', advance fs2 t t' /\ alike s' t'.
Proof.
  intros Ha [rc s1 Hrc H|q k ev taken k' w' v Hq Hm Hk H].
  - destruct (alike_main s t rc s1 Ha H) as (t' & Ht & Ha'). exists t'. split; [by eapply step_main|done].
  - destruct (alike_worker s t q k ev k' w' v Ha H) as (u & Hu & Ha').
    rewrite (al_workers s t Ha) in Hq. eexists.
    split; [eapply step_worker; [done|by eapply alike_moves|done|done]|]. cbv zeta.
    destruct taken as [[j ud]|]; [by apply alike_answered|done].
Qed.

Lemma alike_outside s t s' :
  alike s t -> outside fs1 fits s s' -> exists t', outside fs2 fits t t' /\ alike s' t'.
Proof.
  intros Ha H. pose proof (alike_impl s t Ha) as Hi.
  destruct H as [|q v Hl Hv Hq|Hl Hm|q k ev k' w' v Hq Hr Hk H].
  - eexists. split; [constructor|by apply alike_stop].
  - rewrite (al_conn s t Ha) in Hl. rewrite (al_workers s t Ha) in Hq. eexists.
    split; [by apply (outside_request fs2 fits t q v)|].
    rewrite (al_pending s t Ha), (al_signalled s t Ha). by apply alike_kernel.
  - rewrite (al_conn s t Ha) in Hl. rewrite Hi in Hm. eexists. split; [by apply outside_umount|].
    rewrite (al_pending s t Ha), (al_signalled s t Ha). by apply alike_kernel.
  - destruct (alike_worker s t q k ev k' w' v Ha H) as (u & Hu & Ha').
    rewrite (al_workers s t Ha) in Hq. eexists. split; [|exact Ha'].
    eapply outside_ring; [done| |done|done]. destruct Hr; [by left|right; by eapply alike_fails].
Qed.

Lemma alike_happens s t s' :
  rtc (happens fs1 fits) s s' -> alike s t -> exists t', rtc (happens fs2 fits) t t' /\ alike s' t'.
Proof.
  intros H. revert t. induction H as [|s s1 s2 H _ IH]; intros t Ha; [by exists t|].
  assert (exists t1, happens fs2 fits t t1 /\ alike s1 t1) as (t1 & Ht1 & Ha1).
  { destruct H as [H|H];
      [destruct (alike_advance s t s1 Ha H) as (t1 & ? & ?)|destruct (alike_outside s t s1 Ha H) as (t1 & ? & ?)];
      exists t1; (split; [|done]); [by left|by right]. }
  destruct (IH t1 Ha1) as (t' & Ht' & Ha'). exists t'. split; [by eapply rtc_l|done].
Qed.
End Alike.

(** ** The theorem *)

(** The session of the passthrough daemon and that of its specification in the
    same state: the place in [run], the workers with their rings and the bytes of
    their entries, the session's flags, the requests, and the files. *)
Definition in_step {B F P D} (see : B -> view F P D) (s : system (PassthroughFs B))
    (t : system (mirror F P D)) : Prop :=
  sy_main s = sy_main t /\ sy_workers s = sy_workers t /\ w_impl (sy_world s) = w_impl (sy_world t) /\
  sy_conn s = sy_conn t /\ sy_pending s = sy_pending t /\ sy_signalled s = sy_signalled t /\
  vw_files (see (pt_sys (w_fs (sy_world s)))) = mr_backing (w_fs (sy_world t)).

Lemma alike_in_step {B F P D} (see : B -> view F P D) s t :
  alike (mirrors see ∅ ∅) s t -> in_step see s t.
Proof. intros [? ? [Hi Hm] ? ? ?]. split_and!; try done. apply Hm. Qed.

(** C4: A mounted passthrough daemon shows its backing directory, as long as
    requests are served one at a time. Any sequence of steps from the launch of the
    workers on (a worker serving one request from its ring entry to the commit of
    the reply, a step of [run], requests arriving on any queue, stops, unmounts,
    failures of rings) is a sequence of a session over the passthrough daemon exactly
    if it is one of a session over the daemon that holds the files themselves, with
    the same replies in the rings, the same files and the same result of [run].
    Service of a request is one step: callbacks of different workers follow each
    other in any order here and do not interleave. *)
Theorem session_mirrors_backing {B F P D} sys osys (see : B -> view F P D) `{!Descriptors sys osys see}
    backing b root impl ks todo fits :
  vw_fds (see b) !! backing = Some root ->
  let s0 := launched impl ks (PassthroughFs_make backing b) todo in
  let t0 := launched impl ks (mirror_make root (vw_files (see b))) todo in
  (forall s, rtc (happens (passthrough sys) fits) s0 s ->
     exists t, rtc (happens (mirrored osys) fits) t0 t /\ in_step see s t) /\
  (forall t, rtc (happens (mirrored osys) fits) t0 t ->
     exists s, rtc (happens (passthrough sys) fits) s0 s /\ in_step see s t).
Proof.
  intros Hb s0 t0. pose proof (passthrough_mirrored sys osys see) as Hsim.
  assert (Ha : alike (mirrors see ∅ ∅) s0 t0) by (split; try done; split; [done|by apply mirrors_make]).
  split.
  - intros s Hs. destruct (alike_happens _ _ _ fits s0 t0 s Hs Ha) as (t & Ht & Hat).
    exists t. split; [done|by apply alike_in_step].
  - intros t Ht. destruct (alike_happens (mirrored osys) (passthrough sys)
      (fun m s => mirrors see ∅ ∅ s m) fits t0 s0 t Ht) as (s & Hs & Has); [by destruct Ha as [? ? [? ?]]|].
    exists s. split; [done|]. apply alike_in_step. by destruct Has as [? ? [? ?]].
Qed.

(** The handshake of a session over the example files, answered. *)
Lemma session_mirrors_backing_witness :
  exists s t, rtc (happens (passthrough (table_sys toy_osys)) (request_fits 64))
      (launched (ss_impl life_started) life_workers (PassthroughFs_make 5 toy_process)
         [(1%nat, demo_lookup_view)]) s /\
    rtc (happens (mirrored toy_osys) (request_fits 64))
      (launched (ss_impl life_started) life_workers (mirror_make 0 toy_files) [(1%nat, demo_lookup_view)]) t /\
    sy_conn s = Live /\ in_step (fun b => b) s t.
Proof.
  set (s0 := launched (ss_impl life_started) life_workers (PassthroughFs_make 5 toy_process)
    [(1%nat, demo_lookup_view)]).
  destruct (iteration (passthrough (table_sys toy_osys)) life_worker (sy_world s0) life_event)
    as [[[k' w'] v]|] eqn:E; [|vm_compute in E; discriminate E].
  set (s := answered (worker_done s0 1 k' w' v) 0 (answer_error k' 1)).
  assert (Hs : rtc (happens (passthrough (table_sys toy_osys)) (request_fits 64)) s0 s).
  { apply rtc_once. left. apply (step_worker _ s0 1 life_worker life_event (Some (0%nat, 1)) k' w' v);
      [done|by constructor|exact life_event_armed|exact E]. }
  destruct (session_mirrors_backing (table_sys toy_osys) toy_osys (fun b => b) 5 toy_process 0
    (ss_impl life_started) life_workers [(1%nat, demo_lookup_view)] (request_fits 64) eq_refl) as [H _].
  destruct (H s Hs) as (t & Ht & Hst). exists s, t. split_and!; [exact Hs|exact Ht| |exact Hst].
  assert (Hk : answer_error k' 1 = 0) by (vm_compute in E; injection E as <- <- <-; by vm_compute).
  unfold s. by rewrite Hk.
Defined.
