(* ===== verification/SessionFds.v ===== *)
(** * Sessions: descriptors and the stop signal

    Every descriptor a session opens, and the one it was given, is closed once
    by the end of its life, on every path. The last theorem is about [stop]: it
    signals the workers only from the moment the eventfd exists. *)

From S2P Require Import Prelude Memory Pod Abi Types DirentWriter Filesystem Replier UringEntry.
From S2P Require Import UringWorker Mount Session SessionSpec.
From stdpp Require Import sets.
#[local] Open Scope Z_scope.

(** ** Books *)

Definition held (fd : Z) : list Z := if 0 <=? fd then [fd] else [].

(** The descriptors an effect returned, and those it closed. *)
Definition fds_opened (x : effect * Z) : list Z :=
  match fst x with
  | EOpenDev | EEventfd | EFsopen | EFsmount _ _ => held (snd x)
  | _ => []
  end.

Definition fds_closed (x : effect * Z) : list Z :=
  match fst x with EClose fd => [fd] | _ => [] end.

(** The descriptors in the session's members. *)
Definition member_fds (i : Impl) : list Z := held (impl_dev_fd i) ++ held (impl_stop_efd i).

(** [given] and what was opened is what was closed, what the running code holds
    in locals ([X]) and what the members hold; the options hold none any more. *)
Definition books (given X : list Z) (s : sess) : Prop :=
  opt_dev_fd (impl_opts (ss_impl s)) < 0 /\
  given ++ flat_map fds_opened (ss_trace s) ≡ₚ
  flat_map fds_closed (ss_trace s) ++ X ++ member_fds (ss_impl s).

Lemma held_neg fd : fd < 0 -> held fd = [].
Proof. intros. unfold held. by replace (0 <=? fd) with false by lia. Qed.

Lemma reset_same E fd_ fd s : same s (UniqueFd_reset E fd_ fd s).
Proof.
  unfold UniqueFd_reset. case_match; [|apply same_refl].
  apply (perform_same E (EClose fd_) s _ _ (surjective_pairing _)).
Qed.

Lemma open_device_same E s r s' : open_fex_device E s = (r, s') -> same s s'.
Proof.
  unfold open_fex_device. destruct (perform E EOpenDev s) as [fd s1] eqn:H1.
  apply perform_same in H1. case_if; [by intros [= <- <-]|].
  destruct (perform E (ESyncInit fd) s1) as [rc s2] eqn:H2. apply perform_same in H2.
  case_if; intros [= <- <-]; eauto using same_trans, reset_same.
Qed.

Section Books.
Context (E : env) (given : list Z).
#[local] Abbreviation books := (books given).

Lemma books_perm X Y s : X ≡ₚ Y -> books X s -> books Y s.
Proof. intros HXY [Ho H]. split; [done|]. by rewrite <- HXY. Qed.

Lemma flat_map_app_single {A B} (f : A -> list B) l x : flat_map f (l ++ [x]) = flat_map f l ++ f x.
Proof. rewrite flat_map_app. simpl. by rewrite app_nil_r. Qed.

(** Logging an effect. *)
Lemma books_log X s e r :
  books (fds_closed (e, r) ++ X) s -> books (fds_opened (e, r) ++ X) (log s e r).
Proof.
  intros [Ho H]. split; [done|]. unfold log. cbn [ss_trace ss_impl].
  rewrite !flat_map_app_single, app_assoc, H. solve_Permutation.
Qed.

Lemma books_impl X s i :
  impl_opts i = impl_opts (ss_impl s) -> member_fds i = member_fds (ss_impl s) ->
  books X s -> books X (with_impl s i).
Proof. intros Hopts Hi [Ho H]. split; [cbn; by rewrite Hopts|]. cbn. by rewrite Hi. Qed.

Lemma books_stop X s : books X s -> books X (session_stop E s).
Proof.
  intros H. unfold session_stop. apply (books_impl _ _ (set_stopping (ss_impl s))) in H; [|done..].
  case_if; [|done]. by apply (books_log X _ (EWriteStop _)).
Qed.

Lemma books_other X s : books X s -> books X (other_threads E s).
Proof. intros H. unfold other_threads. case_match; [by apply books_stop|done]. Qed.

(** A call: what it closes is taken from the locals, what it returns goes there. *)
Lemma books_perform X e s r s' :
  perform E e s = (r, s') -> (forall r, fds_closed (e, r) = fds_closed (e, 0)) ->
  books (fds_closed (e, 0) ++ X) s -> books (fds_opened (e, r) ++ X) s'.
Proof.
  unfold perform. intros [= <- <-] Hc H. apply books_log. rewrite Hc. by apply books_other.
Qed.

(** A call that neither opens nor closes. *)
Lemma books_plain X e s r s' :
  perform E e s = (r, s') -> (forall r, fds_closed (e, r) = []) -> (forall r, fds_opened (e, r) = []) ->
  books X s -> books X s'.
Proof.
  intros H Hc Ho Hb. apply (books_perform X) in H; [|intros; by rewrite !Hc|by rewrite Hc].
  by rewrite Ho in H.
Qed.

Lemma books_drop X fd s : books (held fd ++ X) s -> books X (UniqueFd_drop E fd s).
Proof.
  unfold UniqueFd_drop, UniqueFd_reset, held. destruct (0 <=? fd) eqn:Hfd; [|done].
  replace (fd =? -1) with false by lia. cbn [andb negb]. intros H.
  destruct (perform E (EClose fd) s) as [r s'] eqn:Hp. by apply (books_perform X) in Hp.
Qed.

(** Giving a descriptor to a member that holds none, and taking it back. *)
Lemma books_assign_dev X fd s :
  impl_dev_fd (ss_impl s) = -1 -> books (held fd ++ X) s -> books X (assign_dev_fd E fd s).
Proof.
  intros Hd [Ho H]. unfold assign_dev_fd, UniqueFd_reset. rewrite Hd. cbn [Z.leb Z.compare andb].
  split; [done|]. unfold member_fds in *. cbn. rewrite Hd in H. cbn in H. rewrite H.
  solve_Permutation.
Qed.

Lemma books_assign_efd X fd s :
  impl_stop_efd (ss_impl s) = -1 -> books (held fd ++ X) s -> books X (assign_stop_efd E fd s).
Proof.
  intros Hd [Ho H]. unfold assign_stop_efd, UniqueFd_reset. rewrite Hd. cbn [Z.leb Z.compare andb].
  split; [done|]. unfold member_fds in *. cbn. rewrite Hd in H. cbn in H. rewrite H.
  solve_Permutation.
Qed.

Lemma books_close_member X fd s m :
  0 <= fd -> member_fds (ss_impl s) ≡ₚ fd :: m -> books X s ->
  given ++ flat_map fds_opened (ss_trace (snd (perform E (EClose fd) s))) ≡ₚ
  flat_map fds_closed (ss_trace (snd (perform E (EClose fd) s))) ++ X ++ m.
Proof.
  intros Hfd Hm H. destruct (other_spec E s) as (S & _). apply books_other in H as [_ H].
  unfold perform, log. cbn [snd ss_trace].
  assert (Hm' : member_fds (ss_impl (other_threads E s)) = member_fds (ss_impl s)).
  { unfold member_fds. by rewrite (sm_dev _ _ S), (sm_efd _ _ S). }
  rewrite Hm', Hm in H. rewrite !flat_map_app_single. cbn [fds_opened fds_closed fst].
  rewrite app_nil_r, H. solve_Permutation.
Qed.

Lemma books_reset_dev X s : books X s -> books X (assign_dev_fd E (-1) s).
Proof.
  intros H. unfold assign_dev_fd, UniqueFd_reset. set (fd := impl_dev_fd (ss_impl s)).
  destruct (0 <=? fd) eqn:Hfd; cbn [andb].
  - replace (fd =? -1) with false by lia. cbn [negb].
    destruct (perform_same E (EClose fd) s _ _ (surjective_pairing _)) as [_ Ho Hd He _].
    split; cbn [with_impl ss_trace ss_impl]; [cbn [set_dev_fd set_stop_efd impl_opts]; rewrite Ho; apply H|].
    eapply books_close_member; [lia| |exact H].
    unfold member_fds. cbn [set_dev_fd impl_dev_fd impl_stop_efd]. rewrite He. fold fd.
    unfold held at 1. by rewrite Hfd.
  - apply books_impl; [done| |done]. unfold member_fds. cbn. fold fd. by rewrite (held_neg fd) by lia.
Qed.

Lemma books_reset_efd X s : books X s -> books X (assign_stop_efd E (-1) s).
Proof.
  intros H. unfold assign_stop_efd, UniqueFd_reset. set (fd := impl_stop_efd (ss_impl s)).
  destruct (0 <=? fd) eqn:Hfd; cbn [andb].
  - replace (fd =? -1) with false by lia. cbn [negb].
    destruct (perform_same E (EClose fd) s _ _ (surjective_pairing _)) as [_ Ho Hd He _].
    split; cbn [with_impl ss_trace ss_impl]; [cbn [set_dev_fd set_stop_efd impl_opts]; rewrite Ho; apply H|].
    eapply books_close_member; [lia| |exact H].
    unfold member_fds. cbn [set_stop_efd impl_dev_fd impl_stop_efd]. rewrite Hd. fold fd.
    unfold held at 2. rewrite Hfd. cbn. solve_Permutation.
  - apply books_impl; [done| |done]. unfold member_fds. cbn. fold fd. by rewrite (held_neg fd) by lia.
Qed.

(** ** The operations *)

Lemma books_open_device X s r s' :
  open_fex_device E s = (r, s') -> books X s ->
  books (match r with Value fd => held fd | Unexpected _ => [] end ++ X) s'.
Proof.
  unfold open_fex_device. intros H Hb. destruct (perform E EOpenDev s) as [fd s1] eqn:H1.
  apply (books_perform X) in H1; [|done..]. unfold fds_opened in H1. cbn [fst snd] in H1.
  case_if_in H. { injection H as <- <-. by rewrite held_neg in H1 by lia. }
  destruct (perform E (ESyncInit fd) s1) as [rc s2] eqn:H2.
  apply (books_plain (held fd ++ X)) in H2; [|done..].
  case_if_in H; injection H as <- <-; [by apply books_drop|done].
Qed.

Lemma books_mount_open X s r s' :
  mount_open_and_set_fd E s = (r, s') -> books X s ->
  books (match r with Value fd => held fd | Unexpected _ => [] end ++ X) s'.
Proof.
  unfold mount_open_and_set_fd. intros H Hb. destruct (perform E EFsopen s) as [fd s1] eqn:H1.
  apply (books_perform X) in H1; [|done..]. unfold fds_opened in H1. cbn [fst snd] in H1.
  case_if_in H. { injection H as <- <-. by rewrite held_neg in H1 by lia. }
  destruct (perform E (ESetFd fd _) s1) as [rc s2] eqn:H2.
  apply (books_plain (held fd ++ X)) in H2; [|done..].
  case_if_in H. { injection H as <- <-. by apply books_drop. }
  destruct (opt_source _) as [|b src]; [by injection H as <- <-|].
  destruct (perform E (ESetSource fd _) s2) as [rc' s3] eqn:H3.
  apply (books_plain (held fd ++ X)) in H3; [|done..].
  case_if_in H; injection H as <- <-; [by apply books_drop|done].
Qed.

Lemma books_create X fsfd s ec s' :
  mount_create_and_finish E fsfd s = (ec, s') -> books (held fsfd ++ X) s -> books X s'.
Proof.
  unfold mount_create_and_finish. intros H Hb.
  destruct (perform E (ECreate fsfd) s) as [rc s1] eqn:H1.
  apply (books_plain (held fsfd ++ X)) in H1; [|done..].
  case_if_in H. { injection H as <- <-. by apply books_drop. }
  destruct (perform E (EFsmount fsfd _) s1) as [mntfd s2] eqn:H2.
  apply (books_perform (held fsfd ++ X)) in H2; [|done..]. unfold fds_opened in H2. cbn [fst snd] in H2.
  case_if_in H.
  { injection H as <- <-. rewrite (held_neg mntfd) in H2 by lia. by apply books_drop. }
  destruct (perform E (EMoveMount mntfd _) s2) as [rc' s3] eqn:H3.
  apply (books_plain (held mntfd ++ held fsfd ++ X)) in H3; [|done..].
  case_if_in H; injection H as <- <-; do 2 apply books_drop; [done|]. by apply books_impl.
Qed.

Lemma books_each (f : RingWorker -> sess -> sess) ks X s :
  (forall k s, books X s -> books X (f k s)) -> books X s -> books X (each f ks s).
Proof. intros Hf. revert s. induction ks as [|k ks IH]; intros s Hs; [done|]. by apply IH, Hf. Qed.

Lemma books_snd X e s :
  (forall r, fds_closed (e, r) = []) -> (forall r, fds_opened (e, r) = []) ->
  books X s -> books X (snd (perform E e s)).
Proof. intros Hc Ho Hb. destruct (perform E e s) as [r s'] eqn:H. by eapply books_plain. Qed.

Lemma books_start_workers X m q s ks ec s' :
  start_workers E m q s = (ks, ec, s') -> books X s -> books X s'.
Proof.
  revert q s ks ec s'. induction m as [|m IH]; intros q s ks ec s' H Hb; [by injection H as <- <- <-|].
  cbn [start_workers] in H. destruct (start _ _ _) as [k err].
  assert (H1 : books X (log (other_threads E s) (EStart q) err)).
  { apply (books_log X _ (EStart q)). by apply books_other. }
  destruct (negb (err =? 0)).
  - injection H as <- <- <-. by apply books_snd.
  - destruct (start_workers E m (q + 1) _) as [[ks1 ec1] s2] eqn:Hm. injection H as <- <- <-. by eapply IH.
Qed.

Lemma books_guard X s : books X s -> books X (umount_guard E s).
Proof.
  intros H. unfold umount_guard. case_match; [done|]. apply books_impl; [done..|].
  apply books_snd; [done..|]. by apply books_reset_dev.
Qed.

Lemma books_unwind X ks fsfd s : books (held fsfd ++ X) s -> books X (unwind E ks fsfd s).
Proof.
  intros H. unfold unwind. apply books_guard, books_drop. apply books_each; [|done].
  intros. by apply books_snd.
Qed.

Lemma books_serve ks fsfd s ec s' : serve_session E ks fsfd s = (ec, s') -> books (held fsfd) s -> books [] s'.
Proof.
  unfold serve_session. intros H Hb.
  assert (Hj : forall s, books [] s -> books [] (each (Session.join E) ks s)).
  { intros s0 Hs0. apply books_each; [|done]. intros. by apply books_snd. }
  assert (H1 : books (held fsfd ++ []) (each (launch E) ks s)).
  { rewrite app_nil_r. apply books_each; [|done]. intros. by apply books_snd. }
  unfold mounter in H. destruct (mount_create_and_finish E fsfd _) as [mec s2] eqn:H2.
  apply (books_create [] fsfd) in H2; [|done].
  assert (H3 : books [] (if negb (mec =? 0) then with_impl s2 (set_stopping (ss_impl s2)) else s2))
    by (case_match; [by apply books_impl|done]).
  revert H3 H. generalize (if negb (mec =? 0) then with_impl s2 (set_stopping (ss_impl s2)) else s2).
  intros s3 H3 H. pose proof (books_other [] s3 H3) as H4.
  repeat case_match; injection H as <- <-; apply books_unwind; try apply books_snd; try done;
    apply Hj; try done; by apply books_stop.
Qed.

Lemma books_acquire_device s ec s' :
  acquire_device E s = (ec, s') ->
  given = held (opt_dev_fd (impl_opts (ss_impl s))) -> ss_trace s = [] ->
  impl_dev_fd (ss_impl s) = -1 -> impl_stop_efd (ss_impl s) = -1 ->
  books [] s' /\ impl_stop_efd (ss_impl s') = -1.
Proof.
  unfold acquire_device. intros H Hg Ht Hd He. case_if_in H.
  - injection H as <- <-. unfold assign_dev_fd, UniqueFd_reset. rewrite Hd. cbn.
    split; [|done]. split; [cbn; lia|]. cbn. rewrite Ht, Hg. unfold member_fds. cbn. rewrite He.
    simpl. rewrite ?app_nil_r. reflexivity.
  - assert (Hb : books [] s).
    { split; [lia|]. rewrite Ht, Hg, held_neg by lia. unfold member_fds. by rewrite Hd, He. }
    destruct (open_fex_device E s) as [r s1] eqn:H1. pose proof (books_open_device [] _ _ _ H1 Hb) as Hb1.
    apply open_device_same in H1. pose proof (sm_efd _ _ H1) as He1. rewrite He in He1.
    pose proof (sm_dev _ _ H1) as Hd1. rewrite Hd in Hd1. destruct r; injection H as <- <-.
    + split; [by apply books_assign_dev|]. unfold assign_dev_fd, UniqueFd_reset. rewrite Hd1. by cbn.
    + done.
Qed.

Lemma books_acquire_eventfd s ec s' :
  acquire_eventfd E s = (ec, s') -> impl_stop_efd (ss_impl s) = -1 -> books [] s -> books [] s'.
Proof.
  unfold acquire_eventfd. intros H He Hb. destruct (perform E EEventfd s) as [efd s1] eqn:H1.
  pose proof (sm_efd _ _ (perform_same _ _ _ _ _ H1)) as He1. rewrite He in He1.
  apply (books_perform []) in H1; [|done..]. unfold fds_opened in H1. cbn [fst snd] in H1.
  case_if_in H; injection H as <- <-; [by rewrite held_neg in H1 by lia|]. by apply books_assign_efd.
Qed.

Lemma books_run s ec s' :
  session_run E s = (ec, s') ->
  given = held (opt_dev_fd (impl_opts (ss_impl s))) -> ss_trace s = [] ->
  impl_dev_fd (ss_impl s) = -1 -> impl_stop_efd (ss_impl s) = -1 -> books [] s'.
Proof.
  unfold session_run. intros H Hg Ht Hd He. destruct (acquire_device E s) as [ec1 s1] eqn:H1.
  apply books_acquire_device in H1 as [Hb1 He1]; [|done..].
  destruct (negb (ec1 =? 0)); [injection H as <- <-; by apply books_guard|].
  destruct (acquire_eventfd E s1) as [ec2 s2] eqn:H2. apply books_acquire_eventfd in H2; [|done..].
  destruct (negb (ec2 =? 0)); [injection H as <- <-; by apply books_guard|].
  destruct (mount_open_and_set_fd E s2) as [r s3] eqn:H3.
  apply (books_mount_open []) in H3; [|done]. rewrite app_nil_r in H3.
  destruct r as [fsfd|e]; [|injection H as <- <-; by apply books_guard].
  destruct (start_workers E _ 0 s3) as [[ks ec4] s4] eqn:H4.
  apply (books_start_workers (held fsfd)) in H4; [|done].
  destruct (negb (ec4 =? 0)); [|by eapply books_serve].
  injection H as <- <-. apply books_unwind, books_stop. by rewrite app_nil_r.
Qed.
End Books.

(** ** A stop before the eventfd *)

Section EarlyStop.
Context (E : env) (opts : SessionOptions).
Hypothesis all_succeed : forall tr e, 0 <= en_result E tr e.
Hypothesis stop_first : forall tr, en_stop E tr = true <-> tr = [].
Hypothesis starts : forall impl q,
  snd (start impl (en_start E q)
         (RingWorker_make q (opt_uring_queue_depth opts) (opt_uring_payload_bytes opts))) = 0.

(** The session is stopping and nobody has been told. *)
Record unsignalled (s : sess) : Prop := {
  un_trace : ss_trace s <> [];
  un_writes : forall efd, ~ done_ (ss_trace s) (EWriteStop efd);
  un_stopping : impl_stopping (ss_impl s) = true;
  un_opts : impl_opts (ss_impl s) = opts;
}.

Definition silently (s s' : sess) : Prop :=
  unsignalled s -> unsignalled s' /\ (forall x, x ∈ ss_trace s -> x ∈ ss_trace s').

Lemma silently_trans s1 s2 s3 : silently s1 s2 -> silently s2 s3 -> silently s1 s3.
Proof. intros H1 H2 Hu. destruct (H1 Hu) as [Hu2 ?]. destruct (H2 Hu2). auto. Qed.

Lemma other_quiet s : unsignalled s -> other_threads E s = s.
Proof.
  intros Hu. unfold other_threads. destruct (en_stop E (ss_trace s)) eqn:Hs; [|done].
  apply stop_first in Hs. by destruct (un_trace _ Hu).
Qed.

Lemma log_silently s e r : (forall efd, e <> EWriteStop efd) -> silently s (log s e r).
Proof.
  intros He Hu. destruct Hu as [Ht Hw Hs Ho]. unfold log. split; [split; cbn|cbn; intros x Hx; by apply in_mono]; try done.
  - intros H. by apply app_eq_nil in H as [_ ?].
  - intros efd [r' [Hr|Hr]%elem_of_app]; [by eapply Hw; exists r'|].
    apply list_elem_of_singleton in Hr. injection Hr as Hr _. by eapply He.
Qed.

Lemma perform_silently e s r s' :
  perform E e s = (r, s') -> (forall efd, e <> EWriteStop efd) ->
  0 <= r /\ silently s s' /\ (unsignalled s -> (e, r) ∈ ss_trace s').
Proof.
  unfold perform. intros [= <- <-] He. split; [apply all_succeed|]. split.
  - intros Hu. rewrite (other_quiet s Hu). by apply log_silently.
  - intros Hu. apply elem_of_app. right. left.
Qed.

Lemma impl_silently s i :
  impl_stopping i = impl_stopping (ss_impl s) -> impl_opts i = impl_opts (ss_impl s) ->
  silently s (with_impl s i).
Proof. intros H1 H2 []. split; [|done]. split; try done; cbn; congruence. Qed.

Lemma reset_silently fd_ fd s : silently s (UniqueFd_reset E fd_ fd s).
Proof.
  unfold UniqueFd_reset. case_match; [|by intros Hu].
  destruct (perform E (EClose fd_) s) as [r s'] eqn:Hp.
  apply perform_silently in Hp as (_ & Hs & _); [exact Hs|done].
Qed.

Lemma assign_dev_silently fd s : silently s (assign_dev_fd E fd s).
Proof. eapply silently_trans; [apply reset_silently|]. by apply impl_silently. Qed.

Lemma assign_efd_silently fd s : silently s (assign_stop_efd E fd s).
Proof. eapply silently_trans; [apply reset_silently|]. by apply impl_silently. Qed.

Lemma each_silently (f : RingWorker -> sess -> sess) ks s :
  (forall k s, silently s (f k s)) -> silently s (each f ks s).
Proof.
  intros Hf. revert s. induction ks as [|k ks IH]; intros s; [by intros Hu|].
  exact (silently_trans s (f k s) _ (Hf k s) (IH (f k s))).
Qed.

Lemma snd_silently e s : (forall efd, e <> EWriteStop efd) -> silently s (snd (perform E e s)).
Proof.
  intros He. destruct (perform E e s) as [r s'] eqn:H.
  apply perform_silently in H as (_ & Hs & _); [exact Hs|done].
Qed.

Lemma unwind_silently ks fsfd s : silently s (unwind E ks fsfd s).
Proof.
  unfold unwind.
  eapply silently_trans; [apply each_silently; intros k s0; exact (snd_silently (EDestroyWorker (rw_qid k)) s0 ltac:(done))|].
  eapply silently_trans; [apply reset_silently|]. unfold umount_guard. case_match; [by intros Hu|].
  eapply silently_trans; [|by apply impl_silently].
  eapply silently_trans; [|by apply snd_silently]. unfold assign_dev_fd.
  eapply silently_trans; [apply reset_silently|]. by apply impl_silently.
Qed.

Lemma start_workers_silently m q s ks ec s' :
  start_workers E m q s = (ks, ec, s') -> unsignalled s -> ec = 0 /\ unsignalled s'.
Proof.
  revert q s ks ec s'. induction m as [|m IH]; intros q s ks ec s' H Hu; [by injection H as <- <- <-|].
  cbn [start_workers] in H. rewrite (un_opts _ Hu) in H. pose proof (starts (ss_impl s) q) as Hst.
  destruct (start _ _ _) as [k err]. cbn in Hst. subst err. cbn [Z.eqb negb] in H.
  rewrite (other_quiet s Hu) in H. destruct (log_silently s (EStart q) 0 ltac:(done) Hu) as [Hu1 _].
  destruct (start_workers E m (q + 1) _) as [[ks1 ec1] s2] eqn:Hm. injection H as <- <- <-. by eapply IH.
Qed.
Lemma mount_open_silently s r s' :
  mount_open_and_set_fd E s = (r, s') -> unsignalled s -> exists fsfd, r = Value fsfd /\ unsignalled s'.
Proof.
  unfold mount_open_and_set_fd. intros H Hu. destruct (perform E EFsopen s) as [fsfd s1] eqn:H1.
  apply perform_silently in H1 as (R1 & S1 & _); [|done]. destruct (S1 Hu) as [Hu1 _].
  destruct (Z.ltb_spec fsfd 0); [lia|].
  destruct (perform E (ESetFd fsfd _) s1) as [r2 s2] eqn:H2.
  apply perform_silently in H2 as (R2 & S2 & _); [|done]. destruct (S2 Hu1) as [Hu2 _].
  destruct (Z.ltb_spec r2 0); [lia|]. exists fsfd.
  destruct (opt_source _) as [|b src]; [by injection H as <- <-|].
  destruct (perform E (ESetSource fsfd _) s2) as [r3 s3] eqn:H3.
  apply perform_silently in H3 as (R3 & S3 & _); [|done]. destruct (S3 Hu2) as [Hu3 _].
  destruct (Z.ltb_spec r3 0); [lia|]. by injection H as <- <-.
Qed.

Lemma mounter_silently fsfd s ec s' :
  mounter E fsfd s = (ec, s') -> unsignalled s ->
  ec = 0 /\ unsignalled s' /\ exists m mp, succeeded (ss_trace s') (EMoveMount m mp).
Proof.
  unfold mounter, mount_create_and_finish. intros H Hu.
  destruct (perform E (ECreate fsfd) s) as [r1 s1] eqn:H1.
  apply perform_silently in H1 as (R1 & S1 & _); [|done]. destruct (S1 Hu) as [Hu1 _].
  destruct (Z.ltb_spec r1 0); [lia|].
  destruct (perform E (EFsmount fsfd _) s1) as [mnt s2] eqn:H2.
  apply perform_silently in H2 as (R2 & S2 & _); [|done]. destruct (S2 Hu1) as [Hu2 _].
  destruct (Z.ltb_spec mnt 0); [lia|].
  destruct (perform E (EMoveMount mnt _) s2) as [r3 s3] eqn:H3.
  apply perform_silently in H3 as (R3 & S3 & I3); [|done]. destruct (S3 Hu2) as [Hu3 _].
  specialize (I3 Hu2). destruct (Z.ltb_spec r3 0); [lia|]. injection H as <- <-. cbn [negb Z.eqb].
  set (s3' := with_impl s3 _).
  assert (S4 : silently s3 (UniqueFd_drop E fsfd (UniqueFd_drop E mnt s3'))).
  { eapply silently_trans; [|apply reset_silently]. eapply silently_trans; [|apply reset_silently].
    by apply impl_silently. }
  destruct (S4 Hu3) as [Hu4 Hin]. split; [done|]. split; [done|].
  eexists mnt, _. exists r3. split; [apply Hin; exact I3|done].
Qed.

Lemma serve_silently ks fsfd s ec s' :
  serve_session E ks fsfd s = (ec, s') -> unsignalled s ->
  ec = 0 /\ unsignalled s' /\ exists m mp, succeeded (ss_trace s') (EMoveMount m mp).
Proof.
  unfold serve_session. intros H Hu.
  destruct (each_silently (launch E) ks s (fun k s => snd_silently (ELaunch (rw_qid k)) s ltac:(done)) Hu) as [Hu1 _].
  destruct (mounter E fsfd _) as [mec s2] eqn:H2.
  apply mounter_silently in H2 as (-> & Hu2 & m & mp & r & Hm & Hr); [|done].
  cbn [negb Z.eqb] in H. rewrite (other_quiet s2 Hu2), (un_stopping _ Hu2) in H. injection H as <- <-.
  destruct (each_silently (Session.join E) ks s2 (fun k s => snd_silently (EJoin (rw_qid k)) s ltac:(done)) Hu2)
    as [Hu3 Hin3].
  destruct (unwind_silently ks (-1) _ Hu3) as [Hu4 Hin4].
  split; [done|]. split; [done|]. exists m, mp, r. auto.
Qed.

(** The stop comes with the first call, when there is no eventfd to write to. *)
Lemma first_call_unsignalled r s1 :
  perform E EOpenDev (session_make opts) = (r, s1) -> 0 <= r /\ unsignalled s1.
Proof.
  unfold perform, other_threads. cbn [session_make ss_trace].
  rewrite (proj2 (stop_first []) eq_refl).
  intros [= <- <-]. split; [apply all_succeed|]. split; cbn; try done.
  intros efd [r Hr]. by apply list_elem_of_singleton in Hr.
Qed.

Lemma run_unsignalled ec s' :
  opt_dev_fd opts < 0 -> session_run E (session_make opts) = (ec, s') ->
  ec = 0 /\ unsignalled s' /\ exists m mp, succeeded (ss_trace s') (EMoveMount m mp).
Proof.
  intros Hdev H. unfold session_run, acquire_device, open_fex_device in H.
  change (opt_dev_fd (impl_opts (ss_impl (session_make opts)))) with (opt_dev_fd opts) in H.
  destruct (Z.leb_spec 0 (opt_dev_fd opts)); [lia|].
  destruct (perform E EOpenDev (session_make opts)) as [fd s1] eqn:H1.
  apply first_call_unsignalled in H1 as [R1 Hu1]. destruct (Z.ltb_spec fd 0); [lia|].
  destruct (perform E (ESyncInit fd) s1) as [rc s2] eqn:H2.
  apply perform_silently in H2 as (R2 & S2 & _); [|done]. destruct (S2 Hu1) as [Hu2 _].
  destruct (Z.ltb_spec rc 0); [lia|]. cbn [negb Z.eqb] in H.
  destruct (assign_dev_silently fd s2 Hu2) as [Hu3 _]. unfold acquire_eventfd in H.
  destruct (perform E EEventfd _) as [efd s4] eqn:H4.
  apply perform_silently in H4 as (R4 & S4 & _); [|done]. destruct (S4 Hu3) as [Hu4 _].
  destruct (Z.ltb_spec efd 0); [lia|]. cbn [negb Z.eqb] in H.
  destruct (assign_efd_silently efd s4 Hu4) as [Hu5 _].
  destruct (mount_open_and_set_fd E _) as [r s6] eqn:H6.
  apply mount_open_silently in H6 as (fsfd & -> & Hu6); [|done].
  destruct (start_workers E _ 0 s6) as [[ks ec7] s7] eqn:H7.
  apply start_workers_silently in H7 as (-> & Hu7); [|done]. cbn [negb Z.eqb] in H.
  by apply serve_silently in H.
Qed.
End EarlyStop.

(** ** Theorems *)

(** C26: descriptors of a session. By the end of the session's life (after
    [run], however it returned, and the destructor) the descriptors closed are
    exactly, each once, those that were opened for the device, the eventfd, the
    filesystem context and the mount, and the device descriptor the options
    gave, if any. *)
Theorem session_closes_fds E opts :
  let tr := ss_trace (session_destroy E (snd (session_run E (session_make opts)))) in
  flat_map fds_closed tr ≡ₚ held (opt_dev_fd opts) ++ flat_map fds_opened tr.
Proof.
  intros tr. subst tr. destruct (session_run E (session_make opts)) as [ec s] eqn:H.
  apply (books_run E (held (opt_dev_fd opts))) in H; [|done..]. cbn [snd].
  apply (books_reset_efd E) in H. apply (books_reset_dev E) in H as [_ H].
  unfold session_destroy. rewrite H. unfold member_fds.
  set (s1 := assign_stop_efd E (-1) s).
  assert (He : impl_stop_efd (ss_impl (assign_dev_fd E (-1) s1)) = -1).
  { unfold assign_dev_fd. cbn. by rewrite (sm_efd _ _ (reset_same E _ (-1) s1)). }
  rewrite He. cbn. by rewrite app_nil_r.
Qed.

(** A stop that comes too early is lost. When [Session::stop] is called
    before [run] has made the eventfd (by a signal handler installed before
    [run], say) and every call succeeds, [run] mounts the filesystem, then finds
    [stopping] set and joins every worker, but the eventfd the workers poll is
    never written: the joins wait for workers nobody has told to stop. *)
Theorem early_stop_unsignalled E opts :
  (forall tr e, 0 <= en_result E tr e) ->
  (forall tr, en_stop E tr = true <-> tr = []) ->
  (forall impl q, snd (start impl (en_start E q)
     (RingWorker_make q (opt_uring_queue_depth opts) (opt_uring_payload_bytes opts))) = 0) ->
  opt_dev_fd opts < 0 ->
  let '(ec, s) := session_run E (session_make opts) in
  ec = 0 /\ (forall efd, ~ done_ (ss_trace s) (EWriteStop efd)) /\
  (forall q, 0 <= q < queue_count E opts -> done_ (ss_trace s) (EJoin q)).
Proof.
  intros Hok Hstop Hst Hdev. destruct (session_run E (session_make opts)) as [ec s] eqn:H.
  destruct (run_unsignalled E opts Hok Hstop Hst ec s Hdev H) as (-> & Hu & m & mp & Hm).
  split; [done|]. split; [apply Hu|]. intros q Hq.
  apply (run_ends E (queue_count E opts)) in H as (Hp & _ & Hmoves & _); [|apply calm_nil|done|done].
  destruct (Hmoves m mp Hm) as [_ [r Hr]]. apply list_elem_of_split in Hr as (pre & post & Hs).
  destruct (Hp pre _ r post Hs) as (_ & Hj & _). rewrite Hs. destruct (Hj q Hq) as [Hd _].
  by apply done_mono.
Qed.

(** A system on which everything works, with one queue. *)
Definition demo_start_env : start_env :=
  {| se_mmap := fun _ => 0; se_queue_init := 0; se_sq_entries := 4; se_submit := 3 |}.

Definition demo_session_env : env := {|
  en_result := fun tr _ => zlen tr; en_stop := fun tr => match tr with [] => true | _ => false end;
  en_start := fun _ => demo_start_env; en_init_served := fun _ => true; en_error := fun _ => 0;
  en_hardware_concurrency := 1 |}.

Definition demo_session_opts : SessionOptions := {|
  opt_mountpoint := [Byte.x2f]; opt_fsname := []; opt_source := []; opt_read_only := false;
  opt_allow_other := false; opt_dev_fd := -1; opt_uring_queues := 0; opt_uring_queue_depth := 2;
  opt_uring_payload_bytes := 64 |}.

Lemma early_stop_unsignalled_witness :
  let '(ec, s) := session_run demo_session_env (session_make demo_session_opts) in
  ec = 0 /\ (forall efd, ~ done_ (ss_trace s) (EWriteStop efd)) /\
  (forall q, 0 <= q < queue_count demo_session_env demo_session_opts -> done_ (ss_trace s) (EJoin q)).
Proof.
  apply (early_stop_unsignalled demo_session_env demo_session_opts).
  - intros tr e. apply zlen_nonneg.
  - intros [|x tr]; split; done.
  - intros impl q. reflexivity.
  - done.
Defined.

(** The mount a session leaves: none if umount2 succeeds; if it refuses, the mount
    stays, the flag is cleared and [run] returns 0 all the same. *)
Example umount_decides_mount :
  let left_by result :=
    let '(ec, s) := session_run {| en_result := result; en_stop := fun _ => false;
      en_start := fun _ => demo_start_env; en_init_served := fun _ => true; en_error := fun _ => 0;
      en_hardware_concurrency := 1 |} (session_make demo_session_opts) in
    (ec, impl_mount_installed (ss_impl s), mounts (ss_trace s)) in
  left_by (fun tr _ => zlen tr) = (0, false, []) /\
  left_by (fun tr e => match e with EUmount _ => -16 | _ => zlen tr end) = (0, false, [[Byte.x2f]]).
Proof. by vm_compute. Qed.
