(* ===== verification/Program.v ===== *)
(** * The passthrough program (examples/passthrough.cpp: main)

    The argument parser, the session options, and the two ways to run: in the
    foreground, or as a background daemon whose parent waits on a pipe for the
    word of a watchdog that the mount is visible. System calls and
    [Session::run] are parameters; messages are not modelled. What [main] does to
    its process, signal handlers and stdio included, is in Process.v. *)

From S2P Require Import Prelude Memory Pod Abi Types DirentWriter Filesystem Replier Mount Session.
From Stdlib Require Import String.
#[local] Open Scope Z_scope.

(** ** Arguments *)

Definition str (s : string) : bytes := list_byte_of_string s.

Inductive parsed :=
| Exit (status : Z)
| Options (foreground : bool) (source_override : option bytes) (rest : list bytes).

(** The loop over argv[1..]. *)
Fixpoint parse_options (args : list bytes) (foreground : bool) (source_override : option bytes) :
    parsed :=
  match args with
  | [] => Options foreground source_override []
  | a :: args' =>
      if bool_decide (a = str "-f") || bool_decide (a = str "--foreground")
      then parse_options args' true source_override
      else if bool_decide (a = str "-h") || bool_decide (a = str "--help") then Exit 0
      else if bool_decide (a = str "--source") then
        match args' with
        | [] => Exit 2
        | v :: args'' => parse_options args'' foreground (Some v)
        end
      else if bool_decide (take 9 a = str "--source=")
      then parse_options args' foreground (Some (drop 9 a))
      else if bool_decide (head a = Some Byte.x2d) then Exit 2
      else Options foreground source_override args
  end.

Inductive command :=
| ExitWith (status : Z)
| Serve (foreground : bool) (source_override : option bytes) (backing mountpoint : bytes).

Definition parse_args (args : list bytes) : command :=
  match parse_options args false None with
  | Exit status => ExitWith status
  | Options fg src [backing; mountpoint] => Serve fg src backing mountpoint
  | Options _ _ _ => ExitWith 2
  end.

(** ** Options of the session *)

Definition SessionOptions_default (mountpoint : bytes) : SessionOptions := {|
  opt_mountpoint := mountpoint; opt_fsname := str "fex"; opt_source := [];
  opt_read_only := false; opt_allow_other := false; opt_dev_fd := -1; opt_uring_queues := 0;
  opt_uring_queue_depth := 32; opt_uring_payload_bytes := Z.shiftl 1 20 |}.

Definition program_options (source_override realpath : option bytes) (backing mountpoint : bytes) :
    SessionOptions :=
  let o := SessionOptions_default mountpoint in {|
  opt_mountpoint := mountpoint; opt_fsname := str "fex-passthrough";
  opt_source := match source_override with
                | Some s => s
                | None => match realpath with Some rp => rp | None => backing end
                end;
  opt_read_only := opt_read_only o; opt_allow_other := opt_allow_other o;
  opt_dev_fd := opt_dev_fd o; opt_uring_queues := opt_uring_queues o;
  opt_uring_queue_depth := opt_uring_queue_depth o;
  opt_uring_payload_bytes := opt_uring_payload_bytes o |}.

(** ** The handshake *)

(** What the watchdog sees at a tick: whether [run] has returned, and the
    st_dev of the mountpoint if [stat] succeeds. *)
Record tick := { tk_done : bool; tk_dev : option Z }.

Inductive wd_effect := WdWrite | WdSleep | WdClose.

#[export] Instance wd_effect_eq_dec : EqDecision wd_effect.
Proof. solve_decision. Defined.

Definition kMaxIters : nat := 600.

(** The watchdog's effects from tick [i] on. *)
Fixpoint watch (iters : nat) (ticks : nat -> tick) (before_dev : Z) (i : nat) : list wd_effect :=
  match iters with
  | O => []
  | S iters' =>
      if tk_done (ticks i) then [] else
      if match tk_dev (ticks i) with Some dev => negb (dev =? before_dev) | None => false end
      then [WdWrite]
      else WdSleep :: watch iters' ticks before_dev (S i)
  end.

Definition readiness_watchdog (ticks : nat -> tick) (before_dev : Z) : list wd_effect :=
  watch kMaxIters ticks before_dev 0 ++ [WdClose].

(** What a [read] of one byte on the pipe returns. *)
Inductive pipe_read := ReadByte | ReadEof | ReadEintr | ReadError.

(** The parent: reads again after EINTR; [None] while it still waits. *)
Fixpoint parent_status (reads : list pipe_read) : option Z :=
  match reads with
  | [] => None
  | ReadEintr :: reads' => parent_status reads'
  | ReadByte :: _ => Some 0
  | _ :: _ => Some 1
  end.

(** ** main *)

Record program_env := {
  pe_open : bytes -> Z;
  pe_realpath : bytes -> option bytes;
  pe_stat : bytes -> Z;
  pe_pipe2 : Z;
  pe_fork : Z;
  pe_reads : list pipe_read;
  pe_run : SessionOptions -> Z;
}.

(** The status of the process, parent or child; [None] while it still waits. *)
Definition main (env : program_env) (args : list bytes) : option Z :=
  match parse_args args with
  | ExitWith status => Some status
  | Serve foreground source_override backing mountpoint =>
      if pe_open env backing <? 0 then Some 1 else
      let opts := program_options source_override (pe_realpath env backing) backing mountpoint in
      let served := Some (if pe_run env opts =? 0 then 0 else 1) in
      if foreground then served else
      if pe_stat env mountpoint <? 0 then Some 1 else
      if pe_pipe2 env <? 0 then Some 1 else
      if pe_fork env <? 0 then Some 1 else
      if 0 <? pe_fork env then parent_status (pe_reads env) else served
  end.

(** ** Specifications *)

(** The options a user can write. *)
Inductive cli_option :=
| Foreground (long : bool)
| Source (joined : bool) (name : bytes).

Definition render_option (o : cli_option) : list bytes :=
  match o with
  | Foreground long => [str (if long then "--foreground" else "-f")]
  | Source true name => [str "--source=" ++ name]
  | Source false name => [str "--source"; name]
  end.

Definition is_foreground (o : cli_option) : bool :=
  match o with Foreground _ => true | Source _ _ => false end.

Definition source_name (o : cli_option) : option bytes :=
  match o with Foreground _ => None | Source _ name => Some name end.

(** The last --source wins. *)
Definition last_source (opts : list cli_option) (dflt : option bytes) : option bytes :=
  fold_left (fun s o => match source_name o with Some n => Some n | None => s end) opts dflt.

(** Positional arguments do not look like options. *)
Definition positional (a : bytes) : Prop := head a <> Some Byte.x2d.

(** The mount becomes visible at tick [i], while [run] has not returned. *)
Definition visible_at (ticks : nat -> tick) (before_dev : Z) (i : nat) : Prop :=
  (forall j, (j <= i)%nat -> tk_done (ticks j) = false) /\
  exists dev, tk_dev (ticks i) = Some dev /\ dev <> before_dev.

(** The read end of the pipe once the watchdog has closed the write end. *)
Definition pipe_after (effects : list wd_effect) : pipe_read :=
  if bool_decide (WdWrite ∈ effects) then ReadByte else ReadEof.

(** ** Lemmas *)

Lemma positional_not a s : positional a -> head (str s) = Some Byte.x2d -> a <> str s.
Proof. intros Ha Hs ->. by apply Ha. Qed.

Lemma positional_take a s : positional a -> head (str s) = Some Byte.x2d -> take 9 a <> str s.
Proof. intros Ha Hs H. apply Ha. destruct a; [by rewrite <- H in Hs|]. by rewrite <- H in Hs. Qed.

(** The loop stops at a positional argument. *)
Lemma parse_positional a args fg src :
  positional a -> parse_options (a :: args) fg src = Options fg src (a :: args).
Proof.
  intros Ha. cbn [parse_options].
  rewrite !(bool_decide_false (a = str _)) by (by apply positional_not).
  rewrite (bool_decide_false (take 9 a = _)) by (by apply positional_take).
  by rewrite bool_decide_false.
Qed.

Lemma parse_render o fg src rest :
  parse_options (render_option o ++ rest) fg src =
  parse_options rest (fg || is_foreground o)
    (match source_name o with Some n => Some n | None => src end).
Proof.
  destruct o as [[]|[] name]; cbn [render_option app is_foreground source_name];
    rewrite ?orb_true_r, ?orb_false_r; [done..| |done].
  cbn [parse_options]. rewrite !(bool_decide_false (str "--source=" ++ name = _)) by
    (intros H; apply (f_equal (take 9)) in H; vm_compute in H; discriminate H).
  cbn [orb]. by rewrite bool_decide_true.
Qed.

Lemma parse_render_all opts fg src rest :
  parse_options (flat_map render_option opts ++ rest) fg src =
  parse_options rest (fg || existsb is_foreground opts) (last_source opts src).
Proof.
  revert fg src. induction opts as [|o opts IH]; intros fg src; cbn [flat_map existsb].
  - by rewrite orb_false_r.
  - by rewrite <- app_assoc, parse_render, IH, orb_assoc.
Qed.

(** The watchdog writes exactly when it gets to see the mount. *)
Lemma watch_writes iters ticks dev i :
  WdWrite ∈ watch iters ticks dev i <->
  exists j, (i <= j < i + iters)%nat /\ (forall k, (i <= k <= j)%nat -> tk_done (ticks k) = false) /\
    exists d, tk_dev (ticks j) = Some d /\ d <> dev.
Proof.
  revert i. induction iters as [|iters IH]; intros i; cbn [watch].
  { split; [by intros ?%not_elem_of_nil|]. intros (j & ? & _). lia. }
  destruct (tk_done (ticks i)) eqn:Hd.
  { split; [by intros ?%not_elem_of_nil|]. intros (j & Hj & Hk & _).
    specialize (Hk i ltac:(lia)). congruence. }
  destruct (match tk_dev (ticks i) with Some d => negb (d =? dev) | None => false end) eqn:Hv.
  { split; [intros _|intros _; left]. exists i. split; [lia|]. split.
    - intros k Hk. by replace k with i by lia.
    - destruct (tk_dev (ticks i)) as [d|]; [|discriminate]. exists d. split; [done|]. lia. }
  rewrite elem_of_cons, IH. split.
  - intros [H|(j & Hj & Hk & Hd')]; [discriminate|]. exists j. split; [lia|]. split; [|done].
    intros k Hk'. destruct (decide (k = i)) as [->|]; [done|]. apply Hk. lia.
  - intros (j & Hj & Hk & d & Hd' & Hne). right. destruct (decide (j = i)) as [->|].
    + rewrite Hd' in Hv. lia.
    + exists j. split; [lia|]. split; [intros k Hk'; apply Hk; lia|by exists d].
Qed.

Lemma watchdog_writes ticks dev :
  WdWrite ∈ readiness_watchdog ticks dev <-> exists i, (i < kMaxIters)%nat /\ visible_at ticks dev i.
Proof.
  unfold readiness_watchdog. rewrite elem_of_app, watch_writes. split.
  - intros [(j & Hj & Hk & Hd)|H%list_elem_of_singleton]; [|discriminate].
    exists j. split; [lia|]. split; [|done]. intros k Hk'. apply Hk. lia.
  - intros (j & Hj & Hk & Hd). left. exists j. split; [lia|]. split; [|done].
    intros k Hk'. apply Hk. lia.
Qed.

Lemma parent_waits k r : parent_status (replicate k ReadEintr ++ [r]) = parent_status [r].
Proof. by induction k. Qed.

(** ** Theorems *)

(** the command line. Any sequence of options, in any spelling and order,
    followed by a backing directory (a name that does not start with a dash) and
    a mountpoint, is parsed to what it says: foreground if some option asks for
    it, the last source given, the two names. After options, a help flag ends
    the program with status 0; a --source without a name, or a number of
    positional arguments other than two, ends it with status 2. *)
Theorem parse_args_roundtrip opts :
  (forall backing mp, positional backing ->
     parse_args (flat_map render_option opts ++ [backing; mp]) =
     Serve (existsb is_foreground opts) (last_source opts None) backing mp) /\
  (forall rest, parse_args (flat_map render_option opts ++ str "--help" :: rest) = ExitWith 0) /\
  parse_args (flat_map render_option opts ++ [str "--source"]) = ExitWith 2 /\
  parse_args (flat_map render_option opts) = ExitWith 2 /\
  (forall a rest, positional a -> zlen rest <> 1 ->
     parse_args (flat_map render_option opts ++ a :: rest) = ExitWith 2).
Proof.
  unfold parse_args. split; [|split; [|split; [|split]]].
  - intros backing mp Hb. by rewrite parse_render_all, parse_positional.
  - intros rest. by rewrite parse_render_all.
  - by rewrite parse_render_all.
  - rewrite <- (app_nil_r (flat_map _ _)). by rewrite parse_render_all.
  - intros a rest Ha Hr. rewrite parse_render_all, parse_positional by done.
    by destruct rest as [|? [|]].
Qed.

(** C36: the background start tells the truth. When the arguments are in order
    and the parent gets as far as waiting, it exits with status 0 exactly when
    the watchdog of the child saw the mountpoint on another device at one of its
    600 ticks while [run] had not returned, and with status 1 otherwise,
    however often its read is interrupted. *)
Theorem parent_reports_mount env args src backing mp ticks dev k :
  parse_args args = Serve false src backing mp ->
  0 <= pe_open env backing -> 0 <= pe_stat env mp -> 0 <= pe_pipe2 env -> 0 < pe_fork env ->
  pe_reads env = replicate k ReadEintr ++ [pipe_after (readiness_watchdog ticks dev)] ->
  (main env args = Some 0 /\ exists i, (i < kMaxIters)%nat /\ visible_at ticks dev i) \/
  (main env args = Some 1 /\ forall i, (i < kMaxIters)%nat -> ~ visible_at ticks dev i).
Proof.
  intros Hp Ho Hs Hpi Hf Hr. unfold main. rewrite Hp, Hr, parent_waits. unfold pipe_after.
  destruct (Z.ltb_spec (pe_open env backing) 0); [lia|].
  destruct (Z.ltb_spec (pe_stat env mp) 0); [lia|].
  destruct (Z.ltb_spec (pe_pipe2 env) 0); [lia|].
  destruct (Z.ltb_spec (pe_fork env) 0); [lia|]. destruct (Z.ltb_spec 0 (pe_fork env)); [|lia].
  case_bool_decide as Hw; rewrite watchdog_writes in Hw; [by left|]. right. split; [done|].
  intros i Hi Hv. apply Hw. by exists i.
Qed.

(** ** Witnesses *)

Definition demo_ticks (i : nat) : tick :=
  {| tk_done := false; tk_dev := Some (if (i <? 3)%nat then 7 else 8) |}.

Definition demo_program_env : program_env := {|
  pe_open := fun _ => 3; pe_realpath := fun _ => None; pe_stat := fun _ => 0; pe_pipe2 := 0;
  pe_fork := 1234; pe_reads := [ReadEintr; pipe_after (readiness_watchdog demo_ticks 7)];
  pe_run := fun _ => 0 |}.

Lemma parent_reports_mount_witness :
  (main demo_program_env [str "/src"; str "/mnt"] = Some 0 /\
     exists i, (i < kMaxIters)%nat /\ visible_at demo_ticks 7 i) \/
  (main demo_program_env [str "/src"; str "/mnt"] = Some 1 /\
     forall i, (i < kMaxIters)%nat -> ~ visible_at demo_ticks 7 i).
Proof.
  apply (parent_reports_mount demo_program_env [str "/src"; str "/mnt"] None (str "/src") (str "/mnt")
    demo_ticks 7 1); (reflexivity || (vm_compute; congruence)).
Defined.
