(* ===== verification/SharedTable.v ===== *)
(** * The inode table as shared objects (examples/passthrough.cpp: InodeTable)

    InodeTable.v has the table as a map of inodes. In the code it is a map of
    [std::shared_ptr<Inode>]: a callback copies the pointer and keeps using the
    inode after another thread has forgotten it; the inode, with its descriptor,
    dies with its last pointer. This file models the pointers and their counts,
    and shows that the operations refine those of InodeTable.v. *)

From S2P Require Import Prelude Memory Pod Abi Types DirentWriter Filesystem InodeTable.
From stdpp Require Import gmap.
#[local] Open Scope Z_scope.

(** ** The table *)

(** A [std::make_shared<Inode>]: the inode and the number of [shared_ptr]s to it. *)
Record object := { ob_inode : Inode; ob_refs : Z }.

(** [map_], the objects alive, and a name for the next one. *)
Record ptable := { tb_map : gmap Z Z; tb_heap : gmap Z object; tb_next : Z }.

(** A [shared_ptr<Inode>] in a local variable. [path_fd] is set before the
    pointer is shared and never after: it is read once. *)
Record ref := { ref_obj : Z; ref_fd : Z }.

#[export] Instance ref_eq_dec : EqDecision ref.
Proof. solve_decision. Defined.

Definition tb_make (root_fd : Z) : ptable := {|
  tb_map := {[ (NodeId_root : Z) := 0 ]};
  tb_heap := {[ 0 := {| ob_inode := {| in_path_fd := root_fd; in_nlookup := 1 |}; ob_refs := 1 |} ]};
  tb_next := 1 |}.

Definition set_object (tb : ptable) (o : Z) (ob : object) : ptable :=
  {| tb_map := tb_map tb; tb_heap := <[o := ob]> (tb_heap tb); tb_next := tb_next tb |}.

(** [~shared_ptr]: whether the object died. [None]: it was dead already. *)
Definition tb_release (tb : ptable) (o : Z) : option (bool * ptable) :=
  ob ← tb_heap tb !! o;
  Some (if ob_refs ob =? 1
        then (true, {| tb_map := tb_map tb; tb_heap := delete o (tb_heap tb); tb_next := tb_next tb |})
        else (false, set_object tb o {| ob_inode := ob_inode ob; ob_refs := ob_refs ob - 1 |})).

(** [get]: the pointer in the map is copied. *)
Definition tb_get (tb : ptable) (n : NodeId) : option (option ref * ptable) :=
  match tb_map tb !! (n : Z) with
  | None => Some (None, tb)
  | Some o =>
      ob ← tb_heap tb !! o;
      Some (Some {| ref_obj := o; ref_fd := in_path_fd (ob_inode ob) |},
            set_object tb o {| ob_inode := ob_inode ob; ob_refs := ob_refs ob + 1 |})
  end.

(** [insert]: whether the descriptor was moved into a new inode. *)
Definition tb_insert (tb : ptable) (fd st_ino : Z) : option (bool * ptable) :=
  match tb_map tb !! st_ino with
  | None =>
      let o := tb_next tb in
      Some (true, {| tb_map := <[st_ino := o]> (tb_map tb);
        tb_heap := <[o := {| ob_inode := bump {| in_path_fd := fd; in_nlookup := 0 |}; ob_refs := 1 |}]>
                     (tb_heap tb);
        tb_next := o + 1 |})
  | Some o =>
      ob ← tb_heap tb !! o;
      Some (false, set_object tb o {| ob_inode := bump (ob_inode ob); ob_refs := ob_refs ob |})
  end.

(** [forget_locked]: the descriptor to close if the inode died with its entry. *)
Definition tb_forget (tb : ptable) (key n : Z) : option (option Z * ptable) :=
  match tb_map tb !! key with
  | None => Some (None, tb)
  | Some o =>
      ob ← tb_heap tb !! o;
      let i := ob_inode ob in
      let nl := if in_nlookup i <=? n then 0 else in_nlookup i - n in
      let i' := {| in_path_fd := in_path_fd i; in_nlookup := nl |} in
      let tb := set_object tb o {| ob_inode := i'; ob_refs := ob_refs ob |} in
      if nl =? 0 then
        '(died, tb) ← tb_release {| tb_map := delete key (tb_map tb); tb_heap := tb_heap tb;
                                    tb_next := tb_next tb |} o;
        Some (if died : bool then Some (in_path_fd i) else None, tb)
      else Some (None, tb)
  end.

(** ** The table it stands for *)

Definition abs (tb : ptable) : InodeTable :=
  omap (fun o => ob_inode <$> tb_heap tb !! o) (tb_map tb).

Definition refs_to (o : Z) (R : list ref) : Z :=
  foldr (fun p acc => (if ref_obj p =? o then 1 else 0) + acc) 0 R.

Definition mapped (tb : ptable) (o : Z) : Prop := exists n, tb_map tb !! n = Some o.

(** With [R] the pointers in local variables: the counts are right, and every
    pointer, in the map or in [R], is to an object alive. *)
Record table_ok (R : list ref) (tb : ptable) : Prop := {
  ok_map : forall n o, tb_map tb !! n = Some o -> is_Some (tb_heap tb !! o);
  ok_inj : forall n m o, tb_map tb !! n = Some o -> tb_map tb !! m = Some o -> n = m;
  ok_in : forall n o ob, tb_map tb !! n = Some o -> tb_heap tb !! o = Some ob ->
    ob_refs ob = 1 + refs_to o R;
  ok_out : forall o ob, ~ mapped tb o -> tb_heap tb !! o = Some ob -> ob_refs ob = refs_to o R;
  ok_pos : forall o ob, tb_heap tb !! o = Some ob -> 0 < ob_refs ob;
  ok_next : forall o ob, tb_heap tb !! o = Some ob -> o < tb_next tb;
  ok_held : forall p, p ∈ R -> exists ob, tb_heap tb !! ref_obj p = Some ob /\
    in_path_fd (ob_inode ob) = ref_fd p;
}.

(** The descriptors of the inodes alive. *)
Definition heap_fds (tb : ptable) : list Z :=
  map (fun x => in_path_fd (ob_inode (snd x))) (map_to_list (tb_heap tb)).

(** ** Lemmas *)

Lemma refs_to_cons o p R : refs_to o (p :: R) = (if ref_obj p =? o then 1 else 0) + refs_to o R.
Proof. done. Qed.

Lemma refs_to_app o R R' : refs_to o (R ++ R') = refs_to o R + refs_to o R'.
Proof. induction R as [|p R IH]; simpl; [lia|]. rewrite IH. lia. Qed.

Lemma refs_to_nonneg o R : 0 <= refs_to o R.
Proof. induction R as [|p R IH]; simpl; [lia|]. case_if; lia. Qed.

Lemma refs_to_in p R : p ∈ R -> 1 <= refs_to (ref_obj p) R.
Proof.
  intros (l1 & l2 & ->)%list_elem_of_split. rewrite refs_to_app. simpl. rewrite Z.eqb_refl.
  pose proof (refs_to_nonneg (ref_obj p) l1). pose proof (refs_to_nonneg (ref_obj p) l2). lia.
Qed.

#[export] Instance refs_to_perm o : Proper ((≡ₚ) ==> eq) (refs_to o).
Proof. intros R R' HR. induction HR; simpl; lia. Qed.

#[export] Instance table_ok_perm : Proper ((≡ₚ) ==> eq ==> iff) table_ok.
Proof.
  intros R R' HR tb _ <-. split; intros []; split; try done; intros *.
  - rewrite <- HR. eauto.
  - rewrite <- HR. eauto.
  - rewrite <- HR. eauto.
  - rewrite HR. eauto.
  - rewrite HR. eauto.
  - rewrite HR. eauto.
Qed.

Lemma abs_lookup tb (n : Z) : abs tb !! n = tb_map tb !! n ≫= fun o => ob_inode <$> tb_heap tb !! o.
Proof. apply lookup_omap. Qed.

(** An object whose count follows the local pointers to it. *)
Lemma set_object_ok R R' tb o ob ob' :
  table_ok R tb -> tb_heap tb !! o = Some ob ->
  in_path_fd (ob_inode ob') = in_path_fd (ob_inode ob) ->
  ob_refs ob' - ob_refs ob = refs_to o R' - refs_to o R -> 0 < ob_refs ob' ->
  (forall o', o' <> o -> refs_to o' R' = refs_to o' R) ->
  (forall p, p ∈ R' -> p ∈ R \/ (ref_obj p = o /\ ref_fd p = in_path_fd (ob_inode ob))) ->
  table_ok R' (set_object tb o ob').
Proof.
  intros [] Ho Hfd Hrefs Hpos Hother Hheld. split; cbn [set_object tb_map tb_heap tb_next].
  - intros n o' Hn. destruct (decide (o' = o)) as [->|Hne].
    + rewrite lookup_insert_eq. eauto.
    + rewrite lookup_insert_ne by done. eauto.
  - eauto.
  - intros n o' ob0 Hn [[<- <-]|[Hne Hl]]%lookup_insert_Some.
    + pose proof (ok_in0 n o ob Hn Ho). lia.
    + rewrite Hother by done. eauto.
  - intros o' ob0 Hm [[<- <-]|[Hne Hl]]%lookup_insert_Some.
    + pose proof (ok_out0 o ob Hm Ho). lia.
    + rewrite Hother by done. eauto.
  - intros o' ob0 [[<- <-]|[Hne Hl]]%lookup_insert_Some; eauto.
  - intros o' ob0 [[<- <-]|[Hne Hl]]%lookup_insert_Some; eauto.
  - intros p Hp. destruct (decide (ref_obj p = o)) as [<-|Hne].
    + rewrite lookup_insert_eq. eexists. split; [done|].
      destruct (Hheld p Hp) as [HR|[_ Hf]]; [|by rewrite Hf].
      destruct (ok_held0 p HR) as (ob1 & H1 & H2). congruence.
    + rewrite lookup_insert_ne by done. destruct (Hheld p Hp) as [HR|[? _]]; [eauto|done].
Qed.

Lemma heap_fds_set_object tb o ob ob' :
  tb_heap tb !! o = Some ob -> in_path_fd (ob_inode ob') = in_path_fd (ob_inode ob) ->
  heap_fds (set_object tb o ob') ≡ₚ heap_fds tb.
Proof.
  intros Ho Hfd. unfold heap_fds. cbn [set_object tb_heap].
  rewrite <- (map_to_list_delete (tb_heap tb) o ob) by done.
  rewrite <- (insert_delete_eq (tb_heap tb)), map_to_list_insert by apply lookup_delete_eq.
  simpl. by rewrite Hfd.
Qed.

Lemma heap_fds_delete tb m o ob nx :
  tb_heap tb !! o = Some ob ->
  heap_fds tb ≡ₚ in_path_fd (ob_inode ob) ::
    heap_fds {| tb_map := m; tb_heap := delete o (tb_heap tb); tb_next := nx |}.
Proof.
  intros Ho. unfold heap_fds. cbn [tb_heap]. by rewrite <- (map_to_list_delete (tb_heap tb) o ob).
Qed.

(** Changing an object changes the inodes of the entries that point to it. *)
Lemma abs_set_object tb o ob ob' :
  tb_heap tb !! o = Some ob -> ob_inode ob' = ob_inode ob -> abs (set_object tb o ob') = abs tb.
Proof.
  intros Ho Hi. apply map_eq. intros n. rewrite !abs_lookup. cbn [set_object tb_map tb_heap].
  destruct (tb_map tb !! n) as [o'|]; [|done]. cbn. destruct (decide (o' = o)) as [->|Hne].
  - rewrite lookup_insert_eq, Ho. cbn. by rewrite Hi.
  - by rewrite lookup_insert_ne.
Qed.

Lemma abs_set_mapped R tb n o ob' :
  table_ok R tb -> tb_map tb !! n = Some o ->
  abs (set_object tb o ob') = <[n := ob_inode ob']> (abs tb).
Proof.
  intros Hok Hn. apply map_eq. intros m. rewrite abs_lookup. cbn [set_object tb_map tb_heap].
  destruct (decide (m = n)) as [->|Hne].
  - rewrite Hn, lookup_insert_eq. cbn. by rewrite lookup_insert_eq.
  - rewrite lookup_insert_ne, abs_lookup by done. destruct (tb_map tb !! m) as [o'|] eqn:Hm; [|done].
    cbn. rewrite lookup_insert_ne; [done|]. intros <-. by apply Hne, (ok_inj _ _ Hok m n o).
Qed.

Lemma abs_unmapped tb o h' nx :
  ~ mapped tb o -> (forall o', o' <> o -> h' !! o' = tb_heap tb !! o') ->
  abs {| tb_map := tb_map tb; tb_heap := h'; tb_next := nx |} = abs tb.
Proof.
  intros Ho Hh. apply map_eq. intros n. rewrite !abs_lookup. cbn [tb_map tb_heap].
  destruct (tb_map tb !! n) as [o'|] eqn:Hn; [|done]. cbn. rewrite Hh; [done|].
  intros ->. apply Ho. by exists n.
Qed.

(** *** The operations *)

Lemma tb_make_ok fd : table_ok [] (tb_make fd).
Proof.
  split; cbn [tb_make tb_map tb_heap tb_next].
  - intros n o [_ <-]%lookup_singleton_Some. rewrite lookup_singleton_eq. eauto.
  - intros n m o [<- _]%lookup_singleton_Some [<- _]%lookup_singleton_Some. done.
  - intros n o ob _ [_ <-]%lookup_singleton_Some. done.
  - intros o ob Hm [<- <-]%lookup_singleton_Some. destruct Hm. exists NodeId_root.
    apply lookup_singleton_eq.
  - intros o ob [_ <-]%lookup_singleton_Some. done.
  - intros o ob [<- _]%lookup_singleton_Some. done.
  - intros p Hp. by apply not_elem_of_nil in Hp.
Qed.

Lemma abs_make fd : abs (tb_make fd) = InodeTable_make fd.
Proof.
  apply map_eq. intros n. rewrite abs_lookup. unfold tb_make, InodeTable_make. cbn [tb_map tb_heap].
  destruct (decide (n = NodeId_root)) as [->|Hne].
  - rewrite !lookup_singleton_eq. cbn. by rewrite lookup_singleton_eq.
  - by rewrite !lookup_singleton_ne.
Qed.

Lemma tb_get_spec R tb n :
  table_ok R tb ->
  exists p tb', tb_get tb n = Some (p, tb') /\ table_ok (option_list p ++ R) tb' /\
    abs tb' = abs tb /\ heap_fds tb' ≡ₚ heap_fds tb /\ tb_map tb' = tb_map tb /\
    ref_obj <$> p = tb_map tb !! (n : Z) /\ ref_fd <$> p = in_path_fd <$> get (abs tb) n.
Proof.
  intros Hok. unfold tb_get, get. rewrite abs_lookup.
  destruct (tb_map tb !! (n : Z)) as [o|] eqn:Hn; [|by eexists None, tb].
  destruct (ok_map _ _ Hok _ _ Hn) as [ob Ho]. cbn. rewrite Ho. eexists (Some _), _.
  split; [reflexivity|]. split_and!; try done.
  - pose proof (ok_pos _ _ Hok o ob Ho).
    change (option_list (Some ?p) ++ R) with (p :: R).
    apply (set_object_ok R _ tb o ob); cbn [ob_refs ob_inode]; try done.
    + rewrite refs_to_cons. cbn [ref_obj]. rewrite Z.eqb_refl. lia.
    + lia.
    + intros o' Hne. rewrite refs_to_cons. cbn [ref_obj]. case_if; [lia|done].
    + intros p [->|Hp]%elem_of_cons; auto.
  - by eapply abs_set_object.
  - by eapply heap_fds_set_object.
Qed.

Lemma tb_release_spec R tb p :
  table_ok (p :: R) tb ->
  exists last tb', tb_release tb (ref_obj p) = Some (last, tb') /\ table_ok R tb' /\
    abs tb' = abs tb /\ heap_fds tb ≡ₚ (if last : bool then [ref_fd p] else []) ++ heap_fds tb' /\
    tb_map tb' = tb_map tb /\ (mapped tb (ref_obj p) -> last = false).
Proof.
  intros Hok. destruct (ok_held _ _ Hok p) as (ob & Ho & Hfd); [left|].
  set (o := ref_obj p) in *. unfold tb_release. rewrite Ho. cbn.
  assert (Hc : refs_to o (p :: R) = 1 + refs_to o R) by (rewrite refs_to_cons; fold o; by rewrite Z.eqb_refl).
  pose proof (refs_to_nonneg o R). pose proof (ok_pos _ _ Hok o ob Ho) as Hpos.
  assert (Hne : forall o', o' <> o -> refs_to o' R = refs_to o' (p :: R)).
  { intros o' Hd. rewrite refs_to_cons. fold o. case_if; [lia|done]. }
  destruct (Z.eqb_spec (ob_refs ob) 1) as [H1|H1]; eexists _, _; (split; [reflexivity|]).
  - assert (Hm : ~ mapped tb o).
    { intros [n Hn]. pose proof (ok_in _ _ Hok n o ob Hn Ho). lia. }
    pose proof (ok_out _ _ Hok o ob Hm Ho) as Hr. destruct Hok.
    split_and!; try done; [| |by rewrite <- Hfd; apply heap_fds_delete].
    + split; cbn [tb_map tb_heap tb_next].
      * intros n o' Hn. rewrite lookup_delete_ne; [eauto|]. intros <-. apply Hm. by exists n.
      * eauto.
      * intros n o' ob' Hn [Hd Hl]%lookup_delete_Some. rewrite Hne by done. eauto.
      * intros o' ob' Hm' [Hd Hl]%lookup_delete_Some. rewrite Hne by done. eauto.
      * intros o' ob' [_ Hl]%lookup_delete_Some. eauto.
      * intros o' ob' [_ Hl]%lookup_delete_Some. eauto.
      * intros p' Hp'. destruct (ok_held0 p') as (ob' & Ho' & Hf'); [by right|].
        exists ob'. rewrite lookup_delete_ne; [done|]. intros Heq.
        apply refs_to_in in Hp'. rewrite <- Heq in Hp'. lia.
    + eapply abs_unmapped; [done|]. intros o' Hd. by rewrite lookup_delete_ne.
  - split_and!; try done; [| |by symmetry; eapply heap_fds_set_object].
    + apply (set_object_ok (p :: R) _ tb o ob); cbn [ob_refs ob_inode]; try done; [lia..|]. intros p' Hp'. left. by right.
    + by eapply abs_set_object.
Qed.

(** A pointer to a new name would be to an object alive. *)
Lemma refs_to_next R tb : table_ok R tb -> refs_to (tb_next tb) R = 0.
Proof.
  intros Hok. assert (Hne : forall p, p ∈ R -> ref_obj p <> tb_next tb).
  { intros p (ob & E & _)%(ok_held _ _ Hok) Hp. apply (ok_next _ _ Hok) in E. lia. }
  clear Hok. induction R as [|p R IH]; [done|]. rewrite refs_to_cons, IH.
  - pose proof (Hne p ltac:(left)). case_if; lia.
  - intros q Hq. apply Hne. by right.
Qed.

Lemma next_unmapped R tb : table_ok R tb -> tb_heap tb !! tb_next tb = None /\ ~ mapped tb (tb_next tb).
Proof.
  intros Hok. assert (Hfresh : tb_heap tb !! tb_next tb = None).
  { destruct (tb_heap tb !! _) as [ob|] eqn:E; [|done]. apply (ok_next _ _ Hok) in E. lia. }
  split; [done|]. intros [m Hm]. apply (ok_map _ _ Hok) in Hm as [ob E]. congruence.
Qed.

(** The table with a new object under a new key. *)
Definition tb_new (tb : ptable) (key : Z) (ob : object) : ptable := {|
  tb_map := <[key := tb_next tb]> (tb_map tb); tb_heap := <[tb_next tb := ob]> (tb_heap tb);
  tb_next := tb_next tb + 1 |}.

Lemma tb_new_ok R tb key ob :
  table_ok R tb -> tb_map tb !! key = None -> ob_refs ob = 1 -> table_ok R (tb_new tb key ob).
Proof.
  intros Hok Hn H1. destruct (next_unmapped _ _ Hok) as [Hfresh Hm].
  pose proof (refs_to_next _ _ Hok) as HR. set (o := tb_next tb) in *.
  assert (Hold : forall n o', tb_map tb !! n = Some o' -> o <> o').
  { intros n o' Hl <-. apply Hm. by exists n. }
  destruct Hok. split; cbn [tb_new tb_map tb_heap tb_next]; fold o.
  - intros n o' [[_ <-]|[_ Hl]]%lookup_insert_Some; [rewrite lookup_insert_eq; eauto|].
    rewrite lookup_insert_ne by eauto. eauto.
  - intros n m o' [[<- <-]|[Hd Hl]]%lookup_insert_Some [[<- Heq]|[Hd' Hl']]%lookup_insert_Some;
      [done| | |by eapply ok_inj0].
    + by apply Hold in Hl'.
    + by apply Hold in Hl.
  - intros n o' ob' [[_ <-]|[_ Hl]]%lookup_insert_Some.
    + rewrite lookup_insert_eq. intros [= <-]. lia.
    + rewrite lookup_insert_ne by eauto. eauto.
  - intros o' ob' Hm' [[<- _]|[Hd Hl]]%lookup_insert_Some.
    + destruct Hm'. exists key. apply lookup_insert_eq.
    + apply ok_out0; [|done]. intros [n Hl']. apply Hm'. exists n. cbn [tb_new tb_map].
      rewrite lookup_insert_ne; [done|]. congruence.
  - intros o' ob' [[_ <-]|[_ Hl]]%lookup_insert_Some; [lia|eauto].
  - intros o' ob' [[<- _]|[_ Hl]]%lookup_insert_Some; [lia|]. apply ok_next0 in Hl. lia.
  - intros p Hp. destruct (ok_held0 p Hp) as (ob' & E & Hf). exists ob'.
    rewrite lookup_insert_ne; [done|]. congruence.
Qed.

Lemma abs_new R tb key ob :
  table_ok R tb -> abs (tb_new tb key ob) = <[key := ob_inode ob]> (abs tb).
Proof.
  intros Hok. destruct (next_unmapped _ _ Hok) as [_ Hm]. apply map_eq. intros m.
  rewrite abs_lookup. cbn [tb_new tb_map tb_heap]. destruct (decide (m = key)) as [->|Hd].
  - rewrite !lookup_insert_eq. cbn. by rewrite lookup_insert_eq.
  - rewrite !lookup_insert_ne, abs_lookup by done.
    destruct (tb_map tb !! m) as [o'|] eqn:E; [|done]. cbn. rewrite lookup_insert_ne; [done|].
    intros <-. apply Hm. by exists m.
Qed.

Lemma tb_insert_spec R tb fd ino :
  table_ok R tb ->
  exists moved tb', tb_insert tb fd ino = Some (moved, tb') /\ table_ok R tb' /\
    insert_inode (abs tb) fd ino = (abs tb', ino, if moved : bool then [] else [fd]) /\
    (if moved then [fd] else []) ++ heap_fds tb ≡ₚ heap_fds tb' /\ tb_map tb ⊆ tb_map tb'.
Proof.
  intros Hok. unfold tb_insert, insert_inode. rewrite abs_lookup.
  destruct (tb_map tb !! ino) as [o|] eqn:Hn; cbn [mbind option_bind].
  - destruct (ok_map _ _ Hok _ _ Hn) as [ob Ho]. rewrite Ho. cbn [fmap option_fmap option_map].
    eexists _, _. split; [reflexivity|]. split_and!; try done.
    + pose proof (ok_pos _ _ Hok o ob Ho).
      apply (set_object_ok R _ tb o ob); cbn [ob_refs ob_inode]; try done; [lia|auto].
    + by erewrite abs_set_mapped.
    + symmetry. by eapply heap_fds_set_object.
  - eexists _, _. split; [reflexivity|]. fold (tb_new tb ino
      {| ob_inode := bump {| in_path_fd := fd; in_nlookup := 0 |}; ob_refs := 1 |}).
    split_and!; [by apply tb_new_ok|by erewrite abs_new| |by apply insert_subseteq].
    unfold heap_fds. cbn [tb_new tb_heap]. destruct (next_unmapped _ _ Hok).
    by rewrite map_to_list_insert.
Qed.

(** An entry erased without its object: the map's pointer is in local hands. *)
Definition tb_erase (tb : ptable) (key : Z) : ptable :=
  {| tb_map := delete key (tb_map tb); tb_heap := tb_heap tb; tb_next := tb_next tb |}.

Lemma tb_erase_ok R tb key o ob :
  table_ok R tb -> tb_map tb !! key = Some o -> tb_heap tb !! o = Some ob ->
  table_ok ({| ref_obj := o; ref_fd := in_path_fd (ob_inode ob) |} :: R) (tb_erase tb key) /\
  ~ mapped (tb_erase tb key) o.
Proof.
  intros Hok Hn Ho.
  assert (Hm : ~ mapped (tb_erase tb key) o).
  { intros [m Hl]. cbn [tb_erase tb_map] in Hl. apply lookup_delete_Some in Hl as [Hd Hl]. by apply Hd, (ok_inj _ _ Hok key m o). }
  split; [|done]. destruct Hok. split; cbn [tb_erase tb_map tb_heap tb_next]; try done.
  - intros n o' [_ Hl]%lookup_delete_Some. eauto.
  - intros n m o' [_ Hl]%lookup_delete_Some [_ Hl']%lookup_delete_Some. eauto.
  - intros n o' ob' [Hd Hl]%lookup_delete_Some Ho'. rewrite refs_to_cons. cbn [ref_obj].
    destruct (Z.eqb_spec o o') as [<-|]; [by destruct Hd; apply (ok_inj0 key n o)|]. eauto.
  - intros o' ob' Hm' Ho'. rewrite refs_to_cons. cbn [ref_obj].
    destruct (Z.eqb_spec o o') as [<-|Hne].
    + pose proof (ok_in0 key o ob' Hn Ho'). lia.
    + apply ok_out0; [|done]. intros [n Hl]. apply Hm'. exists n. cbn [tb_erase tb_map].
      rewrite lookup_delete_ne; [done|]. congruence.
  - intros p [->|Hp]%elem_of_cons; [by exists ob|eauto].
Qed.

Lemma abs_erase tb key : abs (tb_erase tb key) = delete key (abs tb).
Proof.
  apply map_eq. intros m. rewrite abs_lookup. cbn [tb_erase tb_map tb_heap].
  destruct (decide (m = key)) as [->|Hd]; [by rewrite !lookup_delete_eq|].
  by rewrite !lookup_delete_ne, abs_lookup.
Qed.

Lemma tb_forget_spec R tb key n :
  table_ok R tb ->
  exists fd tb', tb_forget tb key n = Some (fd, tb') /\ table_ok R tb' /\
    abs tb' = fst (forget_locked (abs tb) key n) /\
    heap_fds tb ≡ₚ option_list fd ++ heap_fds tb' /\
    (R = [] -> option_list fd = snd (forget_locked (abs tb) key n)) /\
    (forall m, m <> key -> tb_map tb' !! m = tb_map tb !! m).
Proof.
  intros Hok. unfold tb_forget, forget_locked. rewrite abs_lookup.
  destruct (tb_map tb !! key) as [o|] eqn:Hn; cbn [mbind option_bind]; [|by eexists None, tb].
  destruct (ok_map _ _ Hok _ _ Hn) as [ob Ho]. rewrite Ho. cbn [fmap option_fmap option_map mbind option_bind].
  set (nl := if in_nlookup (ob_inode ob) <=? n then 0 else in_nlookup (ob_inode ob) - n).
  set (ob' := {| ob_inode := {| in_path_fd := in_path_fd (ob_inode ob); in_nlookup := nl |};
                 ob_refs := ob_refs ob |}).
  pose proof (ok_pos _ _ Hok o ob Ho) as Hpos.
  assert (Hok' : table_ok R (set_object tb o ob')).
  { apply (set_object_ok R _ tb o ob); cbn [ob' ob_refs ob_inode]; try done; [lia|auto]. }
  assert (Hfds : heap_fds (set_object tb o ob') ≡ₚ heap_fds tb) by by eapply heap_fds_set_object.
  destruct (nl =? 0) eqn:Hnl.
  - change (tb_release _ o) with (tb_release (tb_erase (set_object tb o ob') key) o).
    destruct (tb_erase_ok R _ key o ob' Hok' Hn) as [Hok2 Hm]; [apply lookup_insert_eq|].
    pose proof (ok_out _ _ Hok2 o ob' Hm (lookup_insert_eq _ _ _)) as Hout.
    destruct (tb_release_spec _ _ _ Hok2) as (last & tb' & Hrel & Hok3 & Habs & Hf & Hmap & _).
    cbn [ref_obj ref_fd ob' ob_inode in_path_fd] in Hrel, Hf. rewrite Hrel. cbn [mbind option_bind].
    eexists _, tb'. split; [reflexivity|]. split_and!; [done|..].
    + rewrite Habs, abs_erase. erewrite abs_set_mapped by done. by rewrite delete_insert_eq.
    + rewrite <- Hfds. change (heap_fds (set_object tb o ob')) with
        (heap_fds (tb_erase (set_object tb o ob') key)). rewrite Hf. by destruct last.
    + intros ->. rewrite refs_to_cons in Hout. cbn [ref_obj ob' ob_refs] in Hout.
      rewrite Z.eqb_refl in Hout. unfold tb_release in Hrel. cbn [tb_erase tb_heap set_object] in Hrel.
      rewrite lookup_insert_eq in Hrel. cbn in Hrel. rewrite Hout in Hrel. cbn in Hrel.
      by injection Hrel as <- _.
    + intros m Hd. rewrite Hmap. cbn [tb_erase tb_map set_object]. by rewrite lookup_delete_ne.
  - eexists None, _. split; [reflexivity|]. split_and!; try done.
    by erewrite abs_set_mapped.
Qed.

(** When no pointer is in local hands, the inodes alive are those of the table. *)
Lemma idle_fds tb : table_ok [] tb -> heap_fds tb ≡ₚ table_fds (abs tb).
Proof.
  remember (size (tb_map tb)) as k eqn:Hk. revert tb Hk.
  induction k as [k IH] using lt_wf_ind. intros tb -> Hok.
  destruct (decide (tb_map tb = ∅)) as [Hm|Hm].
  - assert (Hh : tb_heap tb = ∅).
    { apply map_eq. intros o. rewrite lookup_empty. destruct (tb_heap tb !! o) as [ob|] eqn:E; [|done].
      pose proof (ok_pos _ _ Hok o ob E). rewrite (ok_out _ _ Hok o ob) in * by
        (try done; intros [n Hn]; by rewrite Hm, lookup_empty in Hn). done. }
    unfold heap_fds, table_fds, abs. by rewrite Hh, Hm, omap_empty, !map_to_list_empty.
  - apply map_choose in Hm as (n & o & Hn). destruct (ok_map _ _ Hok n o Hn) as [ob Ho].
    destruct (tb_erase_ok [] tb n o ob Hok Hn Ho) as [Hok1 Hm1].
    pose proof (ok_out _ _ Hok1 o ob Hm1 Ho) as Hrefs. rewrite refs_to_cons in Hrefs.
    cbn [ref_obj] in Hrefs. rewrite Z.eqb_refl in Hrefs.
    destruct (tb_release_spec [] _ _ Hok1) as (last & tb' & Hrel & Hok2 & Habs & Hf & Hmap & _).
    unfold tb_release in Hrel. cbn [ref_obj tb_erase tb_heap] in Hrel. rewrite Ho in Hrel.
    cbn in Hrel. rewrite Hrefs in Hrel. cbn in Hrel. injection Hrel as <- <-.
    change (heap_fds tb) with (heap_fds (tb_erase tb n)). rewrite Hf. cbn [ref_fd app].
    assert (Hlt : (size (delete n (tb_map tb)) < size (tb_map tb))%nat).
    { pose proof (map_size_insert_None n o (delete n (tb_map tb)) (lookup_delete_eq _ _)) as Hs.
      rewrite insert_delete_id in Hs by done. lia. }
    rewrite (IH _ Hlt {| tb_map := delete n (tb_map tb); tb_heap := _; tb_next := _ |} eq_refl Hok2), Habs, abs_erase. symmetry.
    apply table_fds_delete. rewrite abs_lookup, Hn. cbn. by rewrite Ho.
Qed.
