(* ===== verification/Threads.v ===== *)
(** * Threads, locks and shared objects

    The workers of a session run the daemon's callbacks at the same time. This
    file has what such a callback is made of: programs of atomic actions on the
    state the workers share, with the locks of examples/passthrough.cpp
    ([std::shared_mutex] and [std::mutex]), its inode table (SharedTable.v) and
    its two handle tables. An action takes effect at once; between two actions of a thread any other
    thread may run. Touching a table without its lock, in the right mode, is
    [Undefined], as a data race is in C++; so is following a pointer to an
    object that was destroyed. *)

From S2P Require Import Prelude Memory Pod Abi Types DirentWriter Filesystem Replier Handlers.
From S2P Require Import InodeTable Passthrough SharedTable.
From stdpp Require Import gmap functions.
#[local] Open Scope Z_scope.

(** ** Locks *)

Inductive mutex := table_mu | files_mu | dirs_mu.
Inductive mode := Shared | Unique.

#[export] Instance mutex_eq_dec : EqDecision mutex.
Proof. solve_decision. Defined.
#[export] Instance mode_eq_dec : EqDecision mode.
Proof. solve_decision. Defined.

(** A reader-writer lock: the threads that hold it. *)
Record lock := { lk_readers : list nat; lk_writer : option nat }.

Definition lock_free : lock := {| lk_readers := []; lk_writer := None |}.

(** [None]: the thread has to wait. *)
Definition lock_acquire (t : nat) (m : mode) (k : lock) : option lock :=
  match m, lk_writer k, lk_readers k with
  | Shared, None, rs => Some {| lk_readers := t :: rs; lk_writer := None |}
  | Unique, None, [] => Some {| lk_readers := []; lk_writer := Some t |}
  | _, _, _ => None
  end.

Definition holds (t : nat) (m : mode) (k : lock) : bool :=
  match m with
  | Shared => bool_decide (t ∈ lk_readers k)
  | Unique => bool_decide (lk_writer k = Some t)
  end.

Definition lock_release (t : nat) (m : mode) (k : lock) : lock :=
  match m with
  | Shared => {| lk_readers := default [] (take_out t (lk_readers k)); lk_writer := lk_writer k |}
  | Unique => {| lk_readers := lk_readers k; lk_writer := None |}
  end.

(** May read, or write, what the lock guards. *)
Definition may_read (t : nat) (k : lock) : bool := holds t Shared k || holds t Unique k.
Definition may_write (t : nat) (k : lock) : bool := holds t Unique k.

(** ** The shared state *)

Record shared (B : Type) := {
  sh_table : ptable;
  sh_files : gmap Z Z;
  sh_file_id : Z;
  sh_dirs : gmap Z Z;
  sh_dir_id : Z;
  sh_lock : mutex -> lock;
  sh_sys : B;
}.
Arguments sh_table {B} _.
Arguments sh_files {B} _.
Arguments sh_file_id {B} _.
Arguments sh_dirs {B} _.
Arguments sh_dir_id {B} _.
Arguments sh_lock {B} _ _.
Arguments sh_sys {B} _.

Definition shared_make {B} (backing : Z) (b : B) : shared B := {|
  sh_table := tb_make backing; sh_files := ∅; sh_file_id := 0; sh_dirs := ∅; sh_dir_id := 0;
  sh_lock := fun _ => lock_free; sh_sys := b |}.

Definition set_table {B} (s : shared B) (tb : ptable) : shared B := {|
  sh_table := tb; sh_files := sh_files s; sh_file_id := sh_file_id s; sh_dirs := sh_dirs s;
  sh_dir_id := sh_dir_id s; sh_lock := sh_lock s; sh_sys := sh_sys s |}.

Definition set_files {B} (s : shared B) (fs : gmap Z Z) (id : Z) : shared B := {|
  sh_table := sh_table s; sh_files := fs; sh_file_id := id; sh_dirs := sh_dirs s;
  sh_dir_id := sh_dir_id s; sh_lock := sh_lock s; sh_sys := sh_sys s |}.

Definition set_dirs {B} (s : shared B) (ds : gmap Z Z) (id : Z) : shared B := {|
  sh_table := sh_table s; sh_files := sh_files s; sh_file_id := sh_file_id s; sh_dirs := ds;
  sh_dir_id := id; sh_lock := sh_lock s; sh_sys := sh_sys s |}.

Definition set_lock {B} (s : shared B) (l : mutex) (k : lock) : shared B := {|
  sh_table := sh_table s; sh_files := sh_files s; sh_file_id := sh_file_id s; sh_dirs := sh_dirs s;
  sh_dir_id := sh_dir_id s; sh_lock := <[l := k]> (sh_lock s); sh_sys := sh_sys s |}.

Definition set_sys {B} (s : shared B) (b : B) : shared B := {|
  sh_table := sh_table s; sh_files := sh_files s; sh_file_id := sh_file_id s; sh_dirs := sh_dirs s;
  sh_dir_id := sh_dir_id s; sh_lock := sh_lock s; sh_sys := b |}.

(** ** Actions *)

(** Each with the type of its result. A [bool] result of an insertion says
    whether the table took the descriptor; an [option] result of an erasure is
    the descriptor that lost its owner. *)
Inductive action : Type -> Type :=
| Acquire (l : mutex) (m : mode) : action unit
| Unlock (l : mutex) (m : mode) : action unit
| MapGet (n : NodeId) : action (option ref)
| MapInsert (fd st_ino : Z) : action bool
| MapForget (key n : Z) : action (option Z)
| RefDrop (p : ref) : action bool
| FilesFind (fh : FileHandle) : action (option Z)
| FilesEmplace (fd : Z) : action (FileHandle * bool)
| FilesErase (fh : FileHandle) : action (option Z)
| DirsFind (fh : FileHandle) : action (option Z)
| DirsPut (d : Z) : action FileHandle
| DirsErase (fh : FileHandle) : action (option Z)
| Sys {A} (c : syscall A) : action (expected A).

Inductive verdict (R B : Type) :=
| Ran (r : R) (s : shared B)
| Blocked
| Undefined.
Arguments Ran {R B} _ _.
Arguments Blocked {R B}.
Arguments Undefined {R B}.

Definition ran_table {R B} (s : shared B) (x : option (R * ptable)) : verdict R B :=
  match x with
  | Some (r, tb) => Ran r (set_table s tb)
  | None => Undefined
  end.

(** [guarded b v]: undefined behaviour unless the lock is held. *)
Definition guarded {R B} (b : bool) (v : verdict R B) : verdict R B := if b then v else Undefined.

Section Act.
Context {B : Type} (sys : forall A, syscall A -> B -> expected A * B).

Definition act {R} (t : nat) (a : action R) (s : shared B) : verdict R B :=
  match a in action R return verdict R B with
  | Acquire l m =>
      match lock_acquire t m (sh_lock s l) with
      | Some k => Ran tt (set_lock s l k)
      | None => Blocked
      end
  | Unlock l m =>
      guarded (holds t m (sh_lock s l)) (Ran tt (set_lock s l (lock_release t m (sh_lock s l))))
  | MapGet n => guarded (may_read t (sh_lock s table_mu)) (ran_table s (tb_get (sh_table s) n))
  | MapInsert fd st_ino =>
      guarded (may_write t (sh_lock s table_mu)) (ran_table s (tb_insert (sh_table s) fd st_ino))
  | MapForget key n =>
      guarded (may_write t (sh_lock s table_mu)) (ran_table s (tb_forget (sh_table s) key n))
  | RefDrop p => ran_table s (tb_release (sh_table s) (ref_obj p))
  | FilesFind fh =>
      guarded (may_read t (sh_lock s files_mu)) (Ran (sh_files s !! (fh : Z)) s)
  | FilesEmplace fd =>
      guarded (may_write t (sh_lock s files_mu))
        (let handle := wrapu 64 (sh_file_id s + 1) in
         match sh_files s !! handle with
         | None => Ran (handle, true) (set_files s (<[handle := fd]> (sh_files s)) handle)
         | Some _ => Ran (handle, false) (set_files s (sh_files s) handle)
         end)
  | FilesErase fh =>
      guarded (may_write t (sh_lock s files_mu))
        (Ran (sh_files s !! (fh : Z)) (set_files s (delete (fh : Z) (sh_files s)) (sh_file_id s)))
  | DirsFind fh => guarded (may_read t (sh_lock s dirs_mu)) (Ran (sh_dirs s !! (fh : Z)) s)
  | DirsPut d =>
      guarded (may_write t (sh_lock s dirs_mu))
        (let fh := wrapu 64 (sh_dir_id s + 1) in
         Ran fh (set_dirs s (<[fh := d]> (sh_dirs s)) fh))
  | DirsErase fh =>
      guarded (may_write t (sh_lock s dirs_mu))
        (Ran (sh_dirs s !! (fh : Z)) (set_dirs s (delete (fh : Z) (sh_dirs s)) (sh_dir_id s)))
  | Sys c => let '(r, b) := sys _ c (sh_sys s) in Ran r (set_sys s b)
  end.
End Act.

(** ** Programs *)

Inductive prog (A : Type) : Type :=
| Ret (a : A)
| Act {R : Type} (a : action R) (k : R -> prog A).
Arguments Ret {A} _.
Arguments Act {A R} _ _.

Fixpoint bind {A C} (p : prog A) (k : A -> prog C) : prog C :=
  match p with
  | Ret a => k a
  | Act a k' => Act a (fun r => bind (k' r) k)
  end.

Definition atom {R} (a : action R) : prog R := Act a Ret.

Declare Scope thread_scope.
Delimit Scope thread_scope with thread.
Notation "'let!' x ':=' e 'in' k" := (bind e (fun x => k))
  (at level 10, x pattern, e at level 200, k at level 200) : thread_scope.
#[local] Open Scope thread_scope.

(** A thread running on its own: [None] if it would wait or go wrong. *)
Section Alone.
Context {B : Type} (sys : forall A, syscall A -> B -> expected A * B).

Fixpoint run_alone {A} (t : nat) (p : prog A) (s : shared B) : option (A * shared B) :=
  match p with
  | Ret a => Some (a, s)
  | Act a k =>
      match act sys t a s with
      | Ran r s' => run_alone t (k r) s'
      | _ => None
      end
  end.

Lemma run_alone_bind {A C} t (p : prog A) (k : A -> prog C) s :
  run_alone t (bind p k) s =
    match run_alone t p s with
    | Some (a, s') => run_alone t (k a) s'
    | None => None
    end.
Proof.
  revert s. induction p as [a|R a k' IH]; intros s; simpl; [done|].
  destruct (act sys t a s) as [r s'| |]; [apply IH|done..].
Qed.
End Alone.
