(* ===== verification/ThreadedDaemon.v ===== *)
(** * The daemon's callbacks as threads run them (examples/passthrough.cpp)

    Passthrough.v says what each callback of [PassthroughFs] computes. Here the
    same callbacks are programs of atomic actions, with the locks they take and
    the lifetimes of their [shared_ptr]s and descriptors: [locked] is a lock
    guard's scope, [with_node] the scope of an inode pointer, and destructors run
    where the scopes end, in reverse order of declaration. [code] is the program
    of a callback. *)

From S2P Require Import Prelude Memory Pod Abi Types DirentWriter Filesystem Replier Handlers.
From S2P Require Import Callbacks InodeTable Passthrough SharedTable Threads.
#[local] Open Scope Z_scope.
#[local] Open Scope thread_scope.

(** A step that ends the callback when it fails. *)
Definition ebind {A C} (p : prog (expected A)) (k : A -> prog (expected C)) : prog (expected C) :=
  let! r := p in
  match r with
  | Value a => k a
  | Unexpected e => Ret (Unexpected e)
  end.
Notation "'try!' x ':=' e 'in' k" := (ebind e (fun x => k))
  (at level 10, x pattern, e at level 200, k at level 200) : thread_scope.

(** ** Scopes *)

Definition issue {A} (c : syscall A) : prog (expected A) := atom (Sys c).

(** [~Fd] on an owned descriptor. *)
Definition close (fd : Z) : prog unit := let! _ := issue (SysClose fd) in Ret tt.

Definition close_opt (fd : option Z) : prog unit :=
  match fd with Some fd => close fd | None => Ret tt end.

(** [::close(fd); return wrap_errno();]. *)
Definition close_then_fail {A} (fd : Z) (e : Errc) : prog (expected A) :=
  let! r := issue (SysClose fd) in
  match r with
  | Value _ => Ret (Unexpected e)
  | Unexpected e' => Ret (Unexpected e')
  end.

(** The scope of a [std::shared_lock], [std::unique_lock] or [std::lock_guard]. *)
Definition locked {A} (l : mutex) (m : mode) (body : prog A) : prog A :=
  let! _ := atom (Acquire l m) in
  let! x := body in
  let! _ := atom (Unlock l m) in
  Ret x.

(** [table_.get(n)]. *)
Definition table_get (n : NodeId) : prog (option ref) := locked table_mu Shared (atom (MapGet n)).

(** [~shared_ptr<Inode>]: the last one closes the inode's descriptor. *)
Definition drop_ref (p : ref) : prog unit :=
  let! last := atom (RefDrop p) in
  if last : bool then close (ref_fd p) else Ret tt.

Definition drop_ref_opt (p : option ref) : prog unit :=
  match p with Some p => drop_ref p | None => Ret tt end.

(** [auto in = table_.get(n); if (!in) return stale(); ...]. *)
Definition with_node {A} (n : NodeId) (body : ref -> prog (expected A)) : prog (expected A) :=
  let! p := table_get n in
  match p with
  | None => Ret (Unexpected ESTALE)
  | Some p => let! x := body p in let! _ := drop_ref p in Ret x
  end.

(** [table_.insert(Fd{fd}, st_ino)]: an argument not moved into the table is
    destroyed after the call. *)
Definition table_put (fd st_ino : Z) : prog NodeId :=
  let! moved := locked table_mu Unique (atom (MapInsert fd st_ino)) in
  let! _ := (if moved : bool then Ret tt else close fd) in
  Ret (st_ino : NodeId).

(** ** Nodes *)

Definition mt_lookup_root : prog (expected EntryOut) := Ret (Value (entry_for NodeId_root)).

Definition mt_lookupx (parent : NodeId) (name : bytes) : prog (expected EntryOut) :=
  with_node parent (fun p =>
  let! r := issue (SysOpenat (ref_fd p) (c_str name) (Z.lor (Z.lor O_PATH O_NOFOLLOW) O_CLOEXEC) 0) in
  match r with
  | Unexpected e =>
      if e =? ENOENT
      then Ret (Value {| eo_nodeid := NodeId_invalid; eo_entry_valid := 0; eo_negative := true |})
      else Ret (Unexpected e)
  | Value cfd =>
      let! st := issue (SysFstatat cfd) in
      match st with
      | Unexpected e => let! _ := close cfd in Ret (Unexpected e)
      | Value st => let! n := table_put cfd (st_ino st) in Ret (Value (entry_for n))
      end
  end).

(** [forget_locked], under the lock: erasing the last pointer closes the
    descriptor. *)
Definition forget_entry (key n : Z) : prog unit :=
  let! fd := atom (MapForget key n) in close_opt fd.

Definition mt_forget (n : NodeId) (nlookup : Z) : prog unit :=
  if n =? NodeId_root then Ret tt else locked table_mu Unique (forget_entry n nlookup).

Fixpoint forget_entries (items : list (NodeId * Z)) : prog unit :=
  match items with
  | [] => Ret tt
  | (nid, n) :: items' =>
      if nid =? NodeId_root then forget_entries items' else
      let! _ := forget_entry nid n in forget_entries items'
  end.

Definition mt_forget_multi (items : list (NodeId * Z)) : prog unit :=
  locked table_mu Unique (forget_entries items).

Definition mt_statx (n : NodeId) : prog (expected StatxOut) :=
  with_node n (fun p =>
  try! st := issue (SysFstatat (ref_fd p)) in
  Ret (Value (fill_statx st))).

(** [file_fd]: the lock is given back before the descriptor is used. *)
Definition mt_file_fd (fh : FileHandle) : prog Z :=
  if fh =? 0 then Ret (-1) else
  locked files_mu Shared (let! fd := atom (FilesFind fh) in Ret (default (-1) fd)).

Definition step_if (b : bool) (p : prog (expected unit)) : prog (expected unit) :=
  if b then p else Ret (Value tt).

Definition issue_on (fd : Z) (at_fd at_path : syscall unit) : prog (expected unit) :=
  issue (if 0 <=? fd then at_fd else at_path).

(** The block that fills [proc]: the inode pointer lives in it only. *)
Definition proc_path (n : NodeId) (fd : Z) : prog (expected path) :=
  if fd <? 0 then with_node n (fun p => Ret (Value (ProcFd (ref_fd p))))
  else Ret (Value (ProcFd (-1))).

Definition mt_setstatx (n : NodeId) (fh : FileHandle) (i : SetStatxIn) : prog (expected StatxOut) :=
  let! fd := mt_file_fd fh in
  try! p := proc_path n fd in
  try! _ := step_if (asks i statx_bits.mode)
              (issue_on fd (SysFchmod fd (si_mode i)) (SysChmod p (si_mode i))) in
  try! _ := step_if (asks i (Z.lor statx_bits.uid statx_bits.gid))
              (let u := if asks i statx_bits.uid then si_uid i else 2 ^ 32 - 1 in
               let g := if asks i statx_bits.gid then si_gid i else 2 ^ 32 - 1 in
               issue_on fd (SysFchown fd u g) (SysLchown p u g)) in
  try! _ := step_if (asks i statx_bits.size)
              (issue_on fd (SysFtruncate fd (cast I64 (si_size i)))
                 (SysTruncate p (cast I64 (si_size i)))) in
  try! _ := step_if (asks i (Z.lor statx_bits.atime statx_bits.mtime))
              (let ta := set_time i statx_bits.atime (si_atime i) in
               let tm := set_time i statx_bits.mtime (si_mtime i) in
               issue_on fd (SysFutimens fd ta tm) (SysUtimensat p ta tm)) in
  mt_statx n.

(** ** Names *)

Definition mt_tmpfile (p : ref) (mode : Z) : prog (expected EntryOut) :=
  try! fd := issue (SysOpenat (ref_fd p) [Byte.x2e]
                      (Z.lor (Z.lor O_TMPFILE O_RDWR) O_CLOEXEC) (Z.land mode 0xfff)) in
  let! st := issue (SysFstat fd) in
  match st with
  | Unexpected e => close_then_fail fd e
  | Value st =>
      let! pfd := issue (SysOpen (ProcFd fd) (Z.lor O_PATH O_CLOEXEC)) in
      match pfd with
      | Unexpected e => close_then_fail fd e
      | Value pfd =>
          let! _ := close fd in
          let! n := table_put pfd (st_ino st) in
          Ret (Value (entry_for n))
      end
  end.

Definition mt_create (p : ref) (mi : MkobjxIn) : prog (expected unit) :=
  let mode := so_mode (mi_stat mi) in
  let kind := Z.land mode S_IFMT in
  let dir := ref_fd p in
  if kind =? S_IFREG then issue (SysMknodat dir (c_str (mi_name mi)) mode 0)
  else if kind =? S_IFDIR then issue (SysMkdirat dir (c_str (mi_name mi)) (Z.land mode 0xfff))
  else if kind =? S_IFLNK then issue (SysSymlinkat (c_str (mi_link_target mi)) dir (c_str (mi_name mi)))
  else if (kind =? S_IFCHR) || (kind =? S_IFBLK) || (kind =? S_IFIFO) || (kind =? S_IFSOCK)
  then issue (SysMknodat dir (c_str (mi_name mi)) mode
                (makedev (so_rdev_major (mi_stat mi)) (so_rdev_minor (mi_stat mi))))
  else Ret (Unexpected EINVAL).

Definition mt_chown (p : ref) (mi : MkobjxIn) : prog (expected unit) :=
  if Z.land (so_mode (mi_stat mi)) S_IFMT =? S_IFLNK then Ret (Value tt) else
  let! r := issue (SysFchownat (ref_fd p) (c_str (mi_name mi))
                     (so_uid (mi_stat mi)) (so_gid (mi_stat mi))) in
  match r with
  | Value _ => Ret (Value tt)
  | Unexpected e => if e =? EPERM then Ret (Value tt) else Ret (Unexpected e)
  end.

Definition mt_mkobjx (parent : NodeId) (mi : MkobjxIn) : prog (expected EntryOut) :=
  with_node parent (fun p =>
  if negb (Z.land (mi_flags mi) kMkobjxTmpfile =? 0)
  then mt_tmpfile p (so_mode (mi_stat mi)) else
  try! _ := mt_create p mi in
  try! _ := mt_chown p mi in
  try! cfd := issue (SysOpenat (ref_fd p) (c_str (mi_name mi))
                       (Z.lor (Z.lor O_PATH O_NOFOLLOW) O_CLOEXEC) 0) in
  let! st := issue (SysFstatat cfd) in
  match st with
  | Unexpected e => close_then_fail cfd e
  | Value st => let! n := table_put cfd (st_ino st) in Ret (Value (entry_for n))
  end).

Definition mt_unlink (parent : NodeId) (name : bytes) (flags : Z) : prog (expected unit) :=
  with_node parent (fun p => issue (SysUnlinkat (ref_fd p) (c_str name) flags)).

(** Two inodes at once: both are looked up before either is tested. *)
Definition with_nodes {A} (n m : NodeId) (body : ref -> ref -> prog (expected A)) :
    prog (expected A) :=
  let! p := table_get n in
  let! q := table_get m in
  let! x := match p, q with
            | Some p, Some q => body p q
            | _, _ => Ret (Unexpected ESTALE)
            end in
  let! _ := drop_ref_opt q in
  let! _ := drop_ref_opt p in
  Ret x.

Definition mt_rename (od : NodeId) (on : bytes) (nd : NodeId) (nn : bytes) (flags : Z) :
    prog (expected unit) :=
  with_nodes od nd (fun o n => issue (SysRenameat2 (ref_fd o) (c_str on) (ref_fd n) (c_str nn) flags)).

Definition mt_link (oldnodeid newparent : NodeId) (newname : bytes) : prog (expected unit) :=
  with_nodes oldnodeid newparent (fun src dst =>
    issue (SysLinkat (ref_fd src) (ref_fd dst) (c_str newname))).

Definition mt_readlink (n : NodeId) : prog (expected bytes) :=
  with_node n (fun p => issue (SysReadlinkat (ref_fd p) 4096)).

Definition mt_statfs (n : NodeId) : prog (expected StatfsOut) :=
  with_node n (fun p =>
  try! sv := issue (SysFstatvfs (ref_fd p)) in
  Ret (Value (fill_statfs sv))).

(** ** Open files *)

(** [io_fd]: a descriptor for I/O and the one to close afterwards, if any. *)
Definition mt_io_fd (n : NodeId) (fh : FileHandle) (mode : Z) : prog (expected (Z * option Z)) :=
  let! fd := mt_file_fd fh in
  if 0 <=? fd then Ret (Value (fd, None)) else
  with_node n (fun p =>
  try! t := issue (SysOpen (ProcFd (ref_fd p)) (Z.lor mode O_CLOEXEC)) in
  Ret (Value (t, Some t))).

Definition mt_with_io {A} (n : NodeId) (fh : FileHandle) (mode : Z) (c : Z -> syscall A) :
    prog (expected A) :=
  try! (fd, owner) := mt_io_fd n fh mode in
  let! r := issue (c fd) in
  let! _ := close_opt owner in
  Ret r.

Definition mt_open (n : NodeId) (flags : Z) : prog (expected OpenOut) :=
  with_node n (fun p =>
  try! fd := issue (SysOpen (ProcFd (ref_fd p)) (Z.lor (Z.land (cast I32 flags) kPersistent) O_CLOEXEC)) in
  let! h := locked files_mu Unique (
    let! (h, moved) := atom (FilesEmplace fd) in
    let! _ := (if moved : bool then Ret tt else close fd) in
    Ret h) in
  Ret (Value {| oo_fh := h; oo_open_flags := 0 |})).

Definition mt_release (fh : FileHandle) : prog (expected unit) :=
  locked files_mu Unique (
    let! fd := atom (FilesErase fh) in
    let! _ := close_opt fd in
    Ret (Value tt)).

(** ** Open directories *)

Definition mt_opendir (n : NodeId) : prog (expected OpenOut) :=
  with_node n (fun p =>
  try! fd := issue (SysOpen (ProcFd (ref_fd p)) (Z.lor (Z.lor O_DIRECTORY O_RDONLY) O_CLOEXEC)) in
  let! d := issue (SysFdopendir fd) in
  match d with
  | Unexpected e => close_then_fail fd e
  | Value d =>
      let! fh := locked dirs_mu Unique (atom (DirsPut d)) in
      Ret (Value {| oo_fh := fh; oo_open_flags := 0 |})
  end).

(** The stream is closed and its entry erased while the lock is held, so no
    other thread sees the order of the two. *)
Definition mt_releasedir (fh : FileHandle) : prog (expected unit) :=
  locked dirs_mu Unique (
    let! d := atom (DirsErase fh) in
    let! _ := match d with
              | Some d => let! _ := issue (SysClosedir d) in Ret tt
              | None => Ret tt
              end in
    Ret (Value tt)).

Fixpoint mt_readdir_loop (fuel : nat) (d off : Z) (out : DirentWriter) :
    prog (expected unit * DirentWriter) :=
  match fuel with
  | O => Ret (Unexpected EIO, out)
  | S fuel' =>
      let! de := issue (SysReaddir d) in
      match de with
      | Unexpected e => Ret (Unexpected e, out)
      | Value None => Ret (Value tt, out)
      | Value (Some de) =>
          let! next := issue (SysTelldir d) in
          let next := match next with Value p => cast U64 p | Unexpected _ => 2 ^ 64 - 1 end in
          match add out {| de_name := d_name de; de_ino := d_ino de; de_off := next;
                           de_type := d_type de |} with
          | Fault _ => Ret (Unexpected EIO, out)
          | Done (false, out) =>
              let! _ := issue (SysSeekdir d (cast I64 off)) in Ret (Value tt, out)
          | Done (true, out) => mt_readdir_loop fuel' d next out
          end
      end
  end.

(** The stream is used after the lock was given back. *)
Definition mt_readdir (fh : FileHandle) (off : Z) (out : DirentWriter) :
    prog (expected unit * DirentWriter) :=
  let! d := locked dirs_mu Unique (atom (DirsFind fh)) in
  match d with
  | None => Ret (Unexpected EBADF, out)
  | Some d =>
      let! _ := issue (SysSeekdir d (cast I64 off)) in
      mt_readdir_loop (S (length (dw_buf out))) d off out
  end.

(** ** Extended attributes *)

Definition mt_getxattr (n : NodeId) (name : bytes) (size : Z) : prog (expected (Z * bytes)) :=
  with_node n (fun p => issue (SysLgetxattr (ProcFd (ref_fd p)) (c_str name) size)).

Definition mt_setxattr (n : NodeId) (name value : bytes) (flags : Z) : prog (expected unit) :=
  with_node n (fun p => issue (SysLsetxattr (ProcFd (ref_fd p)) (c_str name) value (cast I32 flags))).

Definition mt_listxattr (n : NodeId) (size : Z) : prog (expected (Z * bytes)) :=
  with_node n (fun p => issue (SysLlistxattr (ProcFd (ref_fd p)) size)).

Definition mt_removexattr (n : NodeId) (name : bytes) : prog (expected unit) :=
  with_node n (fun p => issue (SysLremovexattr (ProcFd (ref_fd p)) (c_str name))).

(** ** The program of a callback *)

(** [f] on the result of a program. *)
Definition fmap_prog {A C} (f : A -> C) (p : prog A) : prog C := let! x := p in Ret (f x).

Definition span_answer (out : bytes) (r : expected (Z * bytes)) : answer :=
  match r with
  | Value (n, data) => AnsSpan (Value n) (fill_span out data)
  | Unexpected e => AnsSpan (Unexpected e) out
  end.

Definition read_answer (out : bytes) (r : expected bytes) : answer :=
  match r with
  | Value data => AnsSpan (Value (zlen data)) (fill_span out data)
  | Unexpected e => AnsSpan (Unexpected e) out
  end.

Definition code (cb : callback) : prog answer :=
  match cb with
  | CbInit info => Ret (AnsInit (Value tt) info)
  | CbDestroy => Ret AnsNone
  | CbLookupRoot _ => fmap_prog AnsEntry mt_lookup_root
  | CbLookupx _ p name => fmap_prog AnsEntry (mt_lookupx p name)
  | CbForget n k => fmap_prog (fun _ => AnsNone) (mt_forget n k)
  | CbForgetMulti items => fmap_prog (fun _ => AnsNone) (mt_forget_multi items)
  | CbStatx _ n => fmap_prog AnsStatx (mt_statx n)
  | CbSetstatx _ n fh i => fmap_prog AnsStatx (mt_setstatx n fh i)
  | CbMkobjx _ p mi => fmap_prog AnsEntry (mt_mkobjx p mi)
  | CbUnlink _ p name => fmap_prog AnsVoid (mt_unlink p name 0)
  | CbRmdir _ p name => fmap_prog AnsVoid (mt_unlink p name AT_REMOVEDIR)
  | CbRename _ od on nd nn flags => fmap_prog AnsVoid (mt_rename od on nd nn flags)
  | CbLink _ old np name => fmap_prog AnsVoid (mt_link old np name)
  | CbReadlink _ n => fmap_prog AnsLink (mt_readlink n)
  | CbOpen _ n flags => fmap_prog AnsOpen (mt_open n flags)
  | CbRelease _ _ fh _ => fmap_prog AnsVoid (mt_release fh)
  | CbRead _ n fh off out =>
      fmap_prog (read_answer out)
        (mt_with_io n fh O_RDONLY (fun fd => SysPread fd (zlen out) (cast I64 off)))
  | CbWrite _ n fh off data =>
      fmap_prog AnsCount (mt_with_io n fh O_WRONLY (fun fd => SysPwrite fd data (cast I64 off)))
  | CbFallocate _ n fh mode off len =>
      fmap_prog AnsVoid (mt_with_io n fh O_WRONLY
        (fun fd => SysFallocate fd (cast I32 mode) (cast I64 off) (cast I64 len)))
  | CbStatfs _ n => fmap_prog AnsStatfs (mt_statfs n)
  | CbOpendir _ n => fmap_prog AnsOpen (mt_opendir n)
  | CbReleasedir _ _ fh => fmap_prog AnsVoid (mt_releasedir fh)
  | CbReaddir _ _ fh off out => fmap_prog (fun x => AnsDir (fst x) (snd x)) (mt_readdir fh off out)
  | CbGetxattr _ n name out => fmap_prog (span_answer out) (mt_getxattr n name (zlen out))
  | CbSetxattr _ n name value flags => fmap_prog AnsVoid (mt_setxattr n name value flags)
  | CbListxattr _ n out => fmap_prog (span_answer out) (mt_listxattr n (zlen out))
  | CbRemovexattr _ n name => fmap_prog AnsVoid (mt_removexattr n name)
  end.
