(* ===== verification/ThreadedEquiv.v ===== *)
(** * One thread on its own computes what Passthrough.v says

    Run without other threads, the program of a callback ends, is never blocked
    and never undefined, and gives the answer and the state of the callback in
    Passthrough.v: locks, pointers and scopes change nothing but what happens
    between threads. *)

From S2P Require Import Prelude Memory Pod Abi Types DirentWriter Filesystem Replier Handlers.
From S2P Require Import Callbacks InodeTable Passthrough PassthroughSafety.
From S2P Require Import SharedTable Threads ThreadedDaemon.
From stdpp Require Import gmap functions.
#[local] Open Scope Z_scope.
#[local] Open Scope thread_scope.

Section Equivalence.
Context {B : Type} (sys : forall A, syscall A -> B -> expected A * B) (t : nat).

(** The shared state [s], with [R] the pointers the thread has, stands for [q]. *)
Record rep (R : list ref) (s : shared B) (q : PassthroughFs B) : Prop := {
  rep_ok : table_ok R (sh_table s);
  rep_table : abs (sh_table s) = pt_table q;
  rep_mapped : forall p, p ∈ R -> mapped (sh_table s) (ref_obj p);
  rep_files : sh_files s = pt_files q;
  rep_file_id : sh_file_id s = pt_file_id q;
  rep_dirs : sh_dirs s = pt_dirs q;
  rep_dir_id : sh_dir_id s = pt_dir_id q;
  rep_sys : sh_sys s = pt_sys q;
}.

(** Started with the locks [K] and the pointers [R], [p] ends as [m] does, with
    the same locks and the pointers [R']. *)
Definition matches {A} (K : mutex -> lock) (R : list ref) (p : prog A)
    (m : PassthroughFs B -> A * PassthroughFs B) (R' : list ref) : Prop :=
  forall s q, rep R s q -> (forall l, sh_lock s l = K l) ->
  exists s', run_alone sys t p s = Some (fst (m q), s') /\ rep R' s' (snd (m q)) /\
    (forall l, sh_lock s' l = K l).

Lemma matches_ret {A} K R (a : A) : matches K R (Ret a) (fun q => (a, q)) R.
Proof. intros s q Hr Hk. by exists s. Qed.

Lemma matches_bind {A C} K R R1 R2 (p : prog A) m (k : A -> prog C) m' :
  matches K R p m R1 -> (forall a, matches K R1 (k a) (m' a) R2) ->
  matches K R (bind p k) (fun q => let '(a, q) := m q in m' a q) R2.
Proof.
  intros Hp Hk s q Hr HK. destruct (Hp s q Hr HK) as (s1 & E & Hr1 & HK1).
  rewrite run_alone_bind, E. destruct (m q) as [a q1]. exact (Hk a s1 q1 Hr1 HK1).
Qed.

Lemma matches_ext {A} K R R' (p : prog A) m m' :
  (forall q, m q = m' q) -> matches K R p m R' -> matches K R p m' R'.
Proof. intros Hm Hp s q Hr HK. rewrite <- Hm. by apply Hp. Qed.

(** The two sequencings of Passthrough.v. *)
Lemma matches_try {A C} K R R1 R2 (p : prog (expected A)) (m : M B A)
    (k : expected A -> prog (expected C)) (m' : expected A -> M B C) :
  matches K R p m R1 -> (forall a, matches K R1 (k a) (m' a) R2) ->
  matches K R (bind p k) (ptry m m') R2.
Proof. apply matches_bind. Qed.

Lemma matches_ebind {A C} K R R1 (p : prog (expected A)) (m : M B A)
    (k : A -> prog (expected C)) (m' : A -> M B C) :
  matches K R p m R1 -> (forall a, matches K R1 (k a) (m' a) R1) ->
  matches K R (ebind p k) (pbind m m') R1.
Proof.
  intros Hp Hk. eapply matches_ext; [|apply (matches_bind K R R1 R1 p m _
    (fun r => match r with Value a => m' a | Unexpected e => pfail e end) Hp);
    intros [a|e]; [apply Hk|apply (matches_ret K R1 (Unexpected e))]].
  intros q. unfold pbind. by destruct (m q) as [[] ?].
Qed.

(** A step that cannot fail. *)
Lemma matches_value {A C} K R R1 R2 (p : prog A) (m : M B A) (k : A -> prog (expected C))
    (m' : A -> M B C) :
  matches K R (fmap_prog Value p) m R1 -> (forall a, matches K R1 (k a) (m' a) R2) ->
  matches K R (bind p k) (pbind m m') R2.
Proof.
  intros Hp Hk s q Hr HK. destruct (Hp s q Hr HK) as (s1 & E & Hr1 & HK1).
  unfold fmap_prog in E. rewrite run_alone_bind in E |- *.
  destruct (run_alone sys t p s) as [[a s2]|]; [|done]. simpl in E. injection E as E ->.
  unfold pbind. destruct (m q) as [r q1]. cbn [fst snd] in *. subst r. by apply Hk.
Qed.

Lemma matches_issue {A} K R (c : syscall A) : matches K R (issue c) (call sys c) R.
Proof.
  intros s q [] HK. unfold issue, atom, call. simpl. rewrite <- rep_sys0.
  destruct (sys A c (sh_sys s)) as [r b]. by exists (set_sys s b).
Qed.

Lemma matches_close K R fd : matches K R (fmap_prog Value (close fd)) (drop_fd sys fd) R.
Proof.
  eapply matches_ext; [|eapply (matches_bind K R R R);
    [eapply (matches_bind K R R R); [apply matches_issue|intros a; apply matches_ret]
    |intros a; apply matches_ret]].
  intros q. unfold drop_fd, ptry. by destruct (call sys _ q) as [? ?].
Qed.

Lemma matches_close_fail {A} K R fd e :
  matches K R (close_then_fail (A := A) fd e) (close_and_fail sys fd e) R.
Proof.
  eapply matches_try; [apply matches_issue|].
  intros [[]|e']; [apply (matches_ret K R (Unexpected e))|apply (matches_ret K R (Unexpected e'))].
Qed.

(** Locks are taken and given back. *)
Definition free : mutex -> lock := fun _ => lock_free.

Definition held (l : mutex) (m : mode) : mutex -> lock :=
  <[l := match m with
         | Shared => {| lk_readers := [t]; lk_writer := None |}
         | Unique => {| lk_readers := []; lk_writer := Some t |}
         end]> free.

Lemma held_eq l m : holds t m (held l m l) = true /\ lock_release t m (held l m l) = lock_free /\
  lock_acquire t m lock_free = Some (held l m l).
Proof.
  unfold held. rewrite fn_lookup_insert. destruct m; simpl; (split; [by apply bool_decide_eq_true; set_solver|]);
    [by rewrite decide_True|done].
Qed.

Lemma held_may_read l m : may_read t (held l m l) = true.
Proof.
  pose proof (held_eq l m) as [Hh _]. unfold may_read. destruct m; rewrite Hh; [done|].
  apply orb_true_r.
Qed.

(** The lock is taken, the body runs, the lock is free again. *)
Lemma locked_alone {A} l m (p : prog A) s :
  (forall l', sh_lock s l' = free l') ->
  (forall l', sh_lock (set_lock s l (held l m l)) l' = held l m l') /\
  forall a s1, run_alone sys t p (set_lock s l (held l m l)) = Some (a, s1) ->
    (forall l', sh_lock s1 l' = held l m l') ->
    run_alone sys t (locked l m p) s = Some (a, set_lock s1 l lock_free) /\
    (forall l', sh_lock (set_lock s1 l lock_free) l' = free l').
Proof.
  intros HK. destruct (held_eq l m) as (Hh & Hrel & Hacq). split.
  - intros l'. cbn [sh_lock set_lock]. destruct (decide (l = l')) as [<-|Hne].
    + by rewrite fn_lookup_insert.
    + unfold held. by rewrite !fn_lookup_insert_ne, HK.
  - intros a s1 E HK1. unfold locked, atom. simpl. rewrite HK. unfold free at 1. rewrite Hacq.
    rewrite run_alone_bind, E. simpl. rewrite HK1, Hh, Hrel. split; [done|]. intros l'.
    cbn [sh_lock set_lock]. destruct (decide (l = l')) as [<-|Hne]; [by rewrite fn_lookup_insert|].
    rewrite fn_lookup_insert_ne, HK1 by done. unfold held. by rewrite fn_lookup_insert_ne.
Qed.

Lemma rep_set_lock R s q l k : rep R s q -> rep R (set_lock s l k) q.
Proof. intros []. by split. Qed.

Lemma matches_locked {A} R R' l m (p : prog A) f :
  matches (held l m) R p f R' -> matches free R (locked l m p) f R'.
Proof.
  intros Hp s q Hr HK. destruct (locked_alone l m p s HK) as [HK0 Hend].
  destruct (Hp _ q (rep_set_lock _ _ _ l (held l m l) Hr) HK0) as (s1 & E & Hr1 & HK1).
  destruct (Hend _ _ E HK1) as [E' HK']. eexists. split; [exact E'|].
  split; [by apply rep_set_lock|done].
Qed.

(** *** Inodes *)

Lemma rep_set_table R s q tb R' t' :
  rep R s q -> table_ok R' tb -> abs tb = t' -> (forall p, p ∈ R' -> mapped tb (ref_obj p)) ->
  rep R' (set_table s tb) (with_table q t').
Proof. intros [] Hok Habs Hm. by split. Qed.

Lemma with_table_same (q : PassthroughFs B) : with_table q (pt_table q) = q.
Proof. by destruct q. Qed.

Lemma table_get_alone R s q n :
  rep R s q -> (forall l, sh_lock s l = free l) ->
  exists p s', run_alone sys t (table_get n) s = Some (p, s') /\
    rep (option_list p ++ R) s' q /\ (forall l, sh_lock s' l = free l) /\
    ref_fd <$> p = in_path_fd <$> get (pt_table q) n.
Proof.
  intros Hr HK. destruct (tb_get_spec R _ n (rep_ok _ _ _ Hr))
    as (p & tb' & E & Hok & Habs & _ & Hmap & Hobj & Hfd).
  rewrite (rep_table _ _ _ Hr) in Habs, Hfd.
  destruct (locked_alone table_mu Shared (atom (MapGet n)) s HK) as [HK0 Hend].
  destruct (Hend p (set_table (set_lock s table_mu (held table_mu Shared table_mu)) tb'))
    as [E' HK']; [|done|].
  { cbn [atom run_alone act]. rewrite HK0, held_may_read. cbn [guarded sh_table set_lock]. by rewrite E. }
  exists p. eexists. split; [exact E'|]. split; [|done]. apply rep_set_lock.
  rewrite <- (with_table_same q). apply (rep_set_table R); try done; [by apply rep_set_lock|].
  intros p' [Hp'|Hp']%elem_of_app.
  - destruct p as [p|]; [|by apply not_elem_of_nil in Hp']. apply list_elem_of_singleton in Hp' as ->.
    exists n. by rewrite Hmap, <- Hobj.
  - destruct (rep_mapped _ _ _ Hr p' Hp') as [m Hm]. exists m. by rewrite Hmap.
Qed.

Lemma drop_ref_alone R s q p :
  rep (p :: R) s q ->
  exists s', run_alone sys t (drop_ref p) s = Some (tt, s') /\ rep R s' q /\ sh_lock s' = sh_lock s.
Proof.
  intros []. destruct (tb_release_spec R _ p rep_ok0) as (last & tb' & E & Hok & Habs & _ & Hmap & Hl).
  unfold drop_ref, atom. simpl. rewrite E. simpl. rewrite Hl by (apply rep_mapped0; left).
  eexists. split; [done|]. split; [|done]. rewrite <- (with_table_same q).
  apply (rep_set_table (p :: R)); try done; [by rewrite Habs|].
  intros p' Hp'. destruct (rep_mapped0 p') as [m Hm]; [by right|]. exists m. by rewrite Hmap.
Qed.

(** The scope of an inode pointer. *)
Lemma matches_with_node {A} n (body : ref -> prog (expected A)) (k : Inode -> M B A) :
  (forall p i, ref_fd p = in_path_fd i -> matches free [p] (body p) (k i) [p]) ->
  matches free [] (with_node n body) (pbind (node n) k) [].
Proof.
  intros Hb s q Hr HK. destruct (table_get_alone [] s q n Hr HK) as (p & s1 & E & Hr1 & HK1 & Hp).
  unfold with_node. rewrite run_alone_bind, E. unfold pbind, node.
  destruct (get (pt_table q) n) as [i|], p as [p|]; try discriminate; [|by exists s1].
  injection Hp as Hp. destruct (Hb p i Hp s1 q Hr1 HK1) as (s2 & E2 & Hr2 & HK2).
  rewrite run_alone_bind, E2. destruct (drop_ref_alone [] _ _ p Hr2) as (s3 & E3 & Hr3 & HK3).
  rewrite run_alone_bind, E3. exists s3. split; [done|]. split; [done|]. intros l. by rewrite HK3.
Qed.

(** Two pointers. *)
Lemma matches_with_nodes {A} n m (body : ref -> ref -> prog (expected A)) (k : Inode -> Inode -> M B A) :
  (forall p i p' i', ref_fd p = in_path_fd i -> ref_fd p' = in_path_fd i' ->
     matches free [p'; p] (body p p') (k i i') [p'; p]) ->
  matches free [] (with_nodes n m body) (pbind (node n) (fun i => pbind (node m) (k i))) [].
Proof.
  intros Hb s q Hr HK. destruct (table_get_alone [] s q n Hr HK) as (p & s1 & E & Hr1 & HK1 & Hp).
  destruct (table_get_alone _ s1 q m Hr1 HK1) as (p' & s2 & E' & Hr2 & HK2 & Hp').
  unfold with_nodes. rewrite run_alone_bind, E, run_alone_bind, E'. unfold pbind, node.
  destruct (get (pt_table q) n) as [i|], p as [p|]; try discriminate;
    destruct (get (pt_table q) m) as [i'|] eqn:Ei', p' as [p'|]; try discriminate; rewrite ?Ei'; cbn [bind drop_ref_opt].
  - injection Hp as Hp. injection Hp' as Hp'.
    destruct (Hb p i p' i' Hp Hp' s2 q Hr2 HK2) as (s3 & E3 & Hr3 & HK3).
    rewrite run_alone_bind, E3. destruct (drop_ref_alone [p] _ _ p' Hr3) as (s4 & E4 & Hr4 & HK4).
    rewrite run_alone_bind, E4. destruct (drop_ref_alone [] _ _ p Hr4) as (s5 & E5 & Hr5 & HK5).
    rewrite run_alone_bind, E5. exists s5. split; [done|]. split; [done|]. intros l.
    by rewrite HK5, HK4.
  - destruct (drop_ref_alone [] _ _ p Hr2) as (s5 & E5 & Hr5 & HK5).
    rewrite run_alone_bind, E5. exists s5. split; [done|]. split; [done|]. intros l. by rewrite HK5.
  - destruct (drop_ref_alone [] _ _ p' Hr2) as (s5 & E5 & Hr5 & HK5).
    rewrite run_alone_bind, E5. exists s5. split; [done|]. split; [done|]. intros l. by rewrite HK5.
  - by exists s2.
Qed.

(** *** The tables *)

Lemma matches_put R fd ino :
  matches free R (fmap_prog Value (table_put fd ino)) (table_insert sys fd ino) R.
Proof.
  intros s q Hr HK. destruct (tb_insert_spec R _ fd ino (rep_ok _ _ _ Hr))
    as (moved & tb' & E & Hok & Hins & _ & Hsub).
  rewrite (rep_table _ _ _ Hr) in Hins. unfold table_insert. rewrite Hins.
  destruct (locked_alone table_mu Unique (atom (MapInsert fd ino)) s HK) as [HK0 Hend].
  destruct (Hend moved (set_table (set_lock s table_mu (held table_mu Unique table_mu)) tb'))
    as [E' HK']; [|done|].
  { cbn [atom run_alone act]. rewrite HK0. unfold may_write. destruct (held_eq table_mu Unique) as [-> _].
    cbn [guarded sh_table set_lock]. by rewrite E. }
  clear HK0 Hend. set (s1 := set_lock (set_table _ _) _ _) in *.
  assert (Hr1 : rep R s1 (with_table q (abs tb'))).
  { apply rep_set_lock. apply (rep_set_table R); try done; [by apply rep_set_lock|].
    intros p Hp. destruct (rep_mapped _ _ _ Hr p Hp) as [n Hn]. exists n.
    by eapply lookup_weaken. }
  unfold fmap_prog, table_put. rewrite !run_alone_bind, E', run_alone_bind.
  destruct moved; [by exists s1|].
  destruct (matches_close free R fd s1 _ Hr1 HK') as (s2 & E2 & Hr2 & HK2).
  unfold fmap_prog in E2. rewrite run_alone_bind in E2.
  destruct (run_alone sys t (close fd) s1) as [[[] s3]|]; [|done]. injection E2 as E2 ->.
  cbn [drop_fds]. unfold pbind. destruct (drop_fd sys fd _) as [r q2]. cbn [fst snd] in *. subst r.
  by exists s2.
Qed.

Lemma rep_forget R s q key n tb' :
  rep R s q -> R = [] -> table_ok [] tb' ->
  abs tb' = fst (forget_locked (pt_table q) key n) ->
  rep [] (set_table s tb') (with_table q (fst (forget_locked (pt_table q) key n))).
Proof.
  intros Hr -> Hok Habs. apply (rep_set_table []); try done. intros p Hp.
  by apply not_elem_of_nil in Hp.
Qed.

Lemma matches_forget_entry K key n :
  may_write t (K table_mu) = true ->
  matches K [] (fmap_prog Value (forget_entry key n))
    (fun q => drop_fds sys (snd (forget_locked (pt_table q) key n))
                (with_table q (fst (forget_locked (pt_table q) key n)))) [].
Proof.
  intros HKw s q Hr HK. destruct (tb_forget_spec [] _ key n (rep_ok _ _ _ Hr))
    as (fd & tb' & E & Hok & Habs & _ & Hfd & _). specialize (Hfd eq_refl).
  rewrite (rep_table _ _ _ Hr) in Habs, Hfd.
  pose proof (rep_forget [] s q key n tb' Hr eq_refl Hok Habs) as Hr1.
  unfold fmap_prog, forget_entry, atom. cbn [bind run_alone act]. rewrite HK, HKw. cbn [guarded].
  rewrite E. cbn [ran_table]. rewrite <- Hfd. destruct fd as [fd|]; cbn [close_opt option_list]; [|by eexists].
  exact (matches_value K [] [] [] (close fd) (drop_fd sys fd) (fun _ => Ret (Value tt))
    (fun _ => pret tt) (matches_close K [] fd) (fun _ => matches_ret K [] (Value tt)) _ _ Hr1 HK).
Qed.

(** Destructors change the outside only. *)
Definition close_all (fds : list Z) (b : B) : B :=
  foldl (fun b fd => snd (sys _ (SysClose fd) b)) b fds.

Lemma drop_fds_eq fds q : drop_fds sys fds q = (Value tt, with_sys q (close_all fds (pt_sys q))).
Proof.
  revert q. induction fds as [|fd fds IH]; intros q; [by destruct q|]. cbn [drop_fds close_all foldl].
  unfold pbind, drop_fd, ptry, call. destruct (sys _ (SysClose fd) (pt_sys q)) as [r b].
  cbn [pret snd]. by rewrite IH.
Qed.

Lemma matches_forget_entries K items :
  may_write t (K table_mu) = true ->
  matches K [] (fmap_prog Value (forget_entries items))
    (fun q => drop_fds sys (snd (forget_many (pt_table q) items))
                (with_table q (fst (forget_many (pt_table q) items)))) [].
Proof.
  intros HKw. induction items as [|[nid n] items IH]; cbn [forget_entries forget_many].
  { eapply matches_ext; [|apply (matches_ret K [] (Value tt))]. by intros []. }
  destruct (nid =? NodeId_root); [done|]. intros s q Hr HK.
  destruct (matches_forget_entry K nid n HKw s q Hr HK) as (s1 & E & Hr1 & HK1).
  unfold fmap_prog in E |- *. rewrite run_alone_bind in E. rewrite !run_alone_bind.
  destruct (run_alone sys t (forget_entry nid n) s) as [[[] s0]|]; [|done].
  rewrite drop_fds_eq in E, Hr1. cbn [fst snd] in E, Hr1. injection E as ->.
  destruct (IH s1 _ Hr1 HK1) as (s2 & E2 & Hr2 & HK2). unfold fmap_prog in E2.
  rewrite run_alone_bind in E2. cbn [with_sys with_table pt_table pt_sys] in *.
  destruct (forget_locked (pt_table q) nid n) as [t1 c1]. cbn [fst snd] in *.
  destruct (forget_many t1 items) as [t2 c2]. cbn [fst snd] in *.
  destruct (run_alone sys t (forget_entries items) s1) as [[[] s3]|]; [|done].
  rewrite drop_fds_eq in *. cbn [fst snd with_sys with_table pt_table pt_sys] in *.
  injection E2 as ->. exists s2. split; [done|]. split; [|done].
  unfold close_all in *. rewrite foldl_app. done.
Qed.

(** *** Handles *)

Lemma rep_files_eq R s q fs id :
  rep R s q -> rep R (set_files s fs id) (with_files q fs id).
Proof. intros []. by split. Qed.

Lemma rep_dirs_eq R s q ds id : rep R s q -> rep R (set_dirs s ds id) (with_dirs q ds id).
Proof. intros []. by split. Qed.

Lemma matches_file_fd R fh : matches free R (mt_file_fd fh) (fun q => (file_fd q fh, q)) R.
Proof.
  unfold mt_file_fd, file_fd. destruct (fh =? 0); [apply (matches_ret free R (-1))|].
  apply matches_locked. intros s q Hr HK. unfold atom. cbn [bind run_alone act].
  rewrite HK, held_may_read. cbn [guarded run_alone fst snd]. rewrite (rep_files _ _ _ Hr). by exists s.
Qed.

Lemma matches_fmap {A C} K R R' (f : A -> C) (p : prog A) m :
  matches K R p m R' -> matches K R (fmap_prog f p) (fun q => let '(a, q) := m q in (f a, q)) R'.
Proof. intros Hp. eapply matches_bind; [exact Hp|]. intros a. apply matches_ret. Qed.

Lemma fmap_prog_inv {A C} (f : A -> C) (p : prog A) s c s' :
  run_alone sys t (fmap_prog f p) s = Some (c, s') ->
  exists a, run_alone sys t p s = Some (a, s') /\ c = f a.
Proof.
  unfold fmap_prog. rewrite run_alone_bind. destruct (run_alone sys t p s) as [[a s1]|]; [|done].
  intros [= <- <-]. eauto.
Qed.

(** A lock's scope inside [fmap_prog]. *)
Lemma matches_fmap_locked {A C} R R' l m (f : A -> C) (p : prog A) f' :
  matches (held l m) R (fmap_prog f p) f' R' -> matches free R (fmap_prog f (locked l m p)) f' R'.
Proof.
  intros Hp s q Hr HK. destruct (locked_alone l m p s HK) as [HK0 Hend].
  destruct (Hp _ q (rep_set_lock _ _ _ l (held l m l) Hr) HK0) as (s1 & E & Hr1 & HK1).
  apply fmap_prog_inv in E as (a & E & ->). destruct (Hend _ _ E HK1) as [E' HK'].
  unfold fmap_prog. rewrite run_alone_bind, E'. eexists. split; [done|].
  split; [by apply rep_set_lock|done].
Qed.

(** The program of [open]'s critical section. *)
Lemma matches_add_file R fd :
  matches free R (fmap_prog Value (locked files_mu Unique (
    let! (h, moved) := atom (FilesEmplace fd) in
    let! _ := (if moved : bool then Ret tt else close fd) in
    Ret h))) (add_file sys fd) R.
Proof.
  apply matches_fmap_locked. intros s q Hr HK. unfold fmap_prog, atom, add_file.
  cbn [bind run_alone act]. rewrite HK. unfold may_write. destruct (held_eq files_mu Unique) as [-> _].
  cbn [guarded]. rewrite (rep_files _ _ _ Hr), (rep_file_id _ _ _ Hr).
  set (h := wrapu 64 _). destruct (pt_files q !! h) as [fd'|].
  - pose proof (rep_files_eq R s q (pt_files q) h Hr) as Hr1.
    rewrite run_alone_bind, run_alone_bind.
    destruct (matches_close (held files_mu Unique) R fd _ _ Hr1 HK) as (s2 & E2 & Hr2 & HK2).
    apply fmap_prog_inv in E2 as ([] & E2 & Hv). rewrite E2. unfold pbind.
    destruct (drop_fd sys fd _) as [r q2]. cbn [fst snd] in *. subst r. by exists s2.
  - eexists. split; [done|]. split; [by apply rep_files_eq|done].
Qed.

Lemma matches_add_dir R d :
  matches free R (fmap_prog Value (locked dirs_mu Unique (atom (DirsPut d)))) (add_dir d) R.
Proof.
  apply matches_fmap_locked. intros s q Hr HK. unfold fmap_prog, atom, add_dir.
  cbn [bind run_alone act]. rewrite HK. unfold may_write. destruct (held_eq dirs_mu Unique) as [-> _].
  cbn [guarded run_alone fst snd]. rewrite (rep_dirs _ _ _ Hr), (rep_dir_id _ _ _ Hr).
  eexists. split; [done|]. split; [by apply rep_dirs_eq|done].
Qed.

Lemma matches_release fh ctx n flags :
  matches free [] (mt_release fh) (pt_release sys ctx n fh flags) [].
Proof.
  apply matches_locked. intros s q Hr HK. unfold atom, pt_release.
  cbn [bind run_alone act]. rewrite HK. unfold may_write. destruct (held_eq files_mu Unique) as [-> _].
  cbn [guarded]. rewrite (rep_files _ _ _ Hr), (rep_file_id _ _ _ Hr).
  pose proof (rep_files_eq [] s q (delete (fh : Z) (pt_files q)) (pt_file_id q) Hr) as Hr1.
  destruct (pt_files q !! _) as [fd|]; cbn [close_opt option_list]; [|by eexists].
  exact (matches_value _ [] [] [] (close fd) (drop_fd sys fd) (fun _ => Ret (Value tt))
    (fun _ => pret tt) (matches_close _ [] fd) (fun _ => matches_ret _ [] (Value tt)) _ _ Hr1 HK).
Qed.

Lemma matches_releasedir fh ctx n :
  matches free [] (mt_releasedir fh) (pt_releasedir sys ctx n fh) [].
Proof.
  apply matches_locked. intros s q Hr HK. unfold atom, pt_releasedir.
  cbn [bind run_alone act]. rewrite HK. unfold may_write. destruct (held_eq dirs_mu Unique) as [-> _].
  cbn [guarded]. rewrite (rep_dirs _ _ _ Hr), (rep_dir_id _ _ _ Hr).
  pose proof (rep_dirs_eq [] s q (delete (fh : Z) (pt_dirs q)) (pt_dir_id q) Hr) as Hr1.
  destruct (pt_dirs q !! _) as [d|] eqn:Ed.
  - exact (matches_try _ [] [] [] (issue (SysClosedir d)) _ (fun _ => Ret (Value tt))
      (fun _ => pret tt) (matches_issue _ [] _) (fun _ => matches_ret _ [] (Value tt)) _ _ Hr1 HK).
  - eexists. split; [done|]. split; [|done]. rewrite delete_id in Hr1 by done.
    rewrite delete_id by done. destruct q. exact Hr1.
Qed.

(** *** The callbacks *)

Ltac sim_step :=
  first
  [ apply (matches_ret _ _ (Value _)) | apply (matches_ret _ _ (Unexpected _))
  | apply matches_issue | apply matches_close_fail | apply matches_put | apply matches_add_file
  | apply matches_add_dir | apply matches_close
  | apply matches_with_node; let Hp := fresh in intros ? ? Hp; rewrite ?Hp
  | apply matches_with_nodes; let Hp := fresh in let Hp' := fresh in
      intros ? ? ? ? Hp Hp'; rewrite ?Hp, ?Hp'
  | eapply matches_ebind; [|intros]
  | eapply matches_value; [first [apply matches_close | apply matches_put | apply matches_add_file
                                | apply matches_add_dir]|intros]
  | eapply matches_try; [apply matches_issue|intros]
  | match goal with |- matches _ _ (if ?b then _ else _) _ _ => destruct b end
  | match goal with |- matches _ _ (match ?r with _ => _ end) _ _ => destruct r end ].
Ltac sim := repeat sim_step.

Lemma matches_lookupx ctx p name :
  matches free [] (mt_lookupx p name) (pt_lookupx sys ctx p name) [].
Proof. unfold mt_lookupx, pt_lookupx. sim. Qed.

Lemma matches_statx ctx n : matches free [] (mt_statx n) (pt_statx sys ctx n) [].
Proof. unfold mt_statx, pt_statx. sim. Qed.

Lemma matches_setstatx ctx n fh i : matches free [] (mt_setstatx n fh i) (pt_setstatx sys ctx n fh i) [].
Proof.
  intros s q Hr HK. unfold mt_setstatx. rewrite run_alone_bind.
  destruct (matches_file_fd [] fh s q Hr HK) as (s1 & -> & Hr1 & HK1). cbn [fst snd] in *.
  unfold pt_setstatx. set (fd := file_fd q fh). clearbody fd. clear s Hr HK. revert s1 q Hr1 HK1.
  match goal with |- context [run_alone sys t ?p] =>
    match goal with |- context [fst (?m _)] => change (matches free [] p m []) end end.
  eapply matches_ebind.
  { unfold proc_path. destruct (fd <? 0); [|sim]. apply matches_with_node. intros p i0 Hp. rewrite Hp. sim. }
  intros p. unfold step_if, when, issue_on, on_target. repeat (eapply matches_ebind; [by sim|intros _]).
  apply matches_statx.
Qed.

Lemma matches_mkobjx ctx p mi : matches free [] (mt_mkobjx p mi) (pt_mkobjx sys ctx p mi) [].
Proof.
  unfold mt_mkobjx, pt_mkobjx. apply matches_with_node. intros r i Hr.
  destruct (negb _).
  - unfold mt_tmpfile, mkobjx_tmpfile. rewrite Hr. sim.
  - eapply matches_ebind.
    { unfold mt_create, mkobjx_create. rewrite Hr. sim. }
    intros _. eapply matches_ebind.
    { unfold mt_chown, mkobjx_chown. rewrite Hr. sim. }
    intros _. rewrite Hr. sim.
Qed.

Lemma matches_with_io {A} n fh mode (c : Z -> syscall A) :
  matches free [] (mt_with_io n fh mode c) (with_io sys n fh mode c) [].
Proof.
  unfold mt_with_io, with_io. eapply matches_ebind.
  - intros s q Hr HK. unfold mt_io_fd. rewrite run_alone_bind.
    destruct (matches_file_fd [] fh s q Hr HK) as (s1 & -> & Hr1 & HK1). cbn [fst snd] in *.
    unfold io_fd. destruct (0 <=? file_fd q fh); [by exists s1|]. clear s Hr HK. revert s1 q Hr1 HK1.
    match goal with |- forall s1 q, _ -> _ -> exists s', run_alone sys t ?p s1 = Some (fst (?m q), s') /\ _ =>
      change (matches free [] p m []) end. sim.
  - intros [fd owner]. eapply matches_try; [apply matches_issue|]. intros r.
    eapply (matches_value _ _ [] []); [|intros; apply matches_ret].
    destruct owner as [fd'|]; cbn [close_opt].
    + change (option_list (Some fd')) with [fd']. cbn [drop_fds]. intros s q Hr HK. destruct (matches_close free [] fd' s q Hr HK) as (s2 & E2 & Hr2 & HK2).
      unfold pbind. destruct (drop_fd sys fd' q) as [r' q'] eqn:E.
      apply drop_fd_value in E. subst r'. by exists s2.
    + apply (matches_ret free [] (Value tt)).
Qed.

Lemma matches_readdir_loop fuel d off w :
  matches free [] (mt_readdir_loop fuel d off w) (readdir_loop sys fuel d off w) [].
Proof.
  revert off w. induction fuel as [|fuel IH]; intros off w; [apply (matches_ret free [] (_, _))|].
  intros s q Hr HK. cbn [mt_readdir_loop readdir_loop]. rewrite run_alone_bind.
  destruct (matches_issue free [] (SysReaddir d) s q Hr HK) as (s1 & -> & Hr1 & HK1).
  destruct (call sys (SysReaddir d) q) as [[[de|]|e] q1]; cbn [fst snd] in *; [|by exists s1..].
  rewrite run_alone_bind.
  destruct (matches_issue free [] (SysTelldir d) s1 q1 Hr1 HK1) as (s2 & -> & Hr2 & HK2).
  destruct (call sys (SysTelldir d) q1) as [next q2]; cbn [fst snd] in *.
  destruct (add w _) as [[[] w1]|f]; [by apply IH| |by exists s2]. rewrite run_alone_bind.
  destruct (matches_issue free [] (SysSeekdir d (cast I64 off)) s2 q2 Hr2 HK2) as (s3 & -> & Hr3 & HK3).
  destruct (call sys (SysSeekdir d _) q2) as [r q3]. by exists s3.
Qed.

Lemma matches_readdir ctx n fh off w :
  matches free [] (mt_readdir fh off w) (pt_readdir sys ctx n fh off w) [].
Proof.
  intros s q Hr HK. unfold mt_readdir, pt_readdir. rewrite run_alone_bind.
  assert (Hd : matches free [] (locked dirs_mu Unique (atom (DirsFind fh)))
    (fun q => (pt_dirs q !! (fh : Z), q)) []).
  { apply matches_locked. intros s' q' Hr' HK'. unfold atom. cbn [run_alone act].
    rewrite HK', held_may_read. cbn [guarded fst snd]. rewrite (rep_dirs _ _ _ Hr'). by exists s'. }
  destruct (Hd s q Hr HK) as (s1 & -> & Hr1 & HK1). cbn [fst snd] in *.
  destruct (pt_dirs q !! (fh : Z)) as [d|]; [|by exists s1]. rewrite run_alone_bind.
  destruct (matches_issue free [] (SysSeekdir d (cast I64 off)) s1 q Hr1 HK1) as (s2 & -> & Hr2 & HK2).
  destruct (call sys (SysSeekdir d _) q) as [r q2]. by apply matches_readdir_loop.
Qed.

(** Callbacks without a result. *)
Lemma matches_unit {A} K R R' (p : prog unit) (a : A) (m : M B unit) :
  matches K R (fmap_prog Value p) m R' ->
  matches K R (fmap_prog (fun _ => a) p) (fun q => (a, snd (m q))) R'.
Proof.
  intros Hp s q Hr HK. destruct (Hp s q Hr HK) as (s' & E & Hr' & HK').
  apply fmap_prog_inv in E as (x & E & _). unfold fmap_prog. rewrite run_alone_bind, E. by exists s'.
Qed.

Lemma matches_mt_forget n k :
  matches free [] (fmap_prog (fun _ => AnsNone) (mt_forget n k))
    (fun q => (AnsNone, pt_forget sys n k q)) [].
Proof.
  unfold mt_forget, pt_forget, forget. destruct (n =? NodeId_root).
  { eapply matches_ext; [|apply (matches_ret free [] AnsNone)]. by intros []. }
  eapply matches_ext; [|apply matches_unit, matches_fmap_locked, matches_forget_entry].
  - intros q. cbv beta. by destruct (forget_locked (pt_table q) n k).
  - unfold may_write. by destruct (held_eq table_mu Unique).
Qed.

Lemma matches_mt_forget_multi items :
  matches free [] (fmap_prog (fun _ => AnsNone) (mt_forget_multi items))
    (fun q => (AnsNone, pt_forget_multi sys items q)) [].
Proof.
  eapply matches_ext; [|apply matches_unit, matches_fmap_locked, matches_forget_entries].
  - intros q. unfold pt_forget_multi. by destruct (forget_many (pt_table q) items).
  - unfold may_write. by destruct (held_eq table_mu Unique).
Qed.

(** A callback's result, presented as an answer. *)
Lemma matches_answer {A C} (f : A -> C) (p : prog A) m m' :
  matches free [] p m [] -> (forall q, (let '(a, q') := m q in (f a, q')) = m' q) ->
  matches free [] (fmap_prog f p) m' [].
Proof. intros Hp Hm. eapply matches_ext; [exact Hm|]. by apply matches_fmap. Qed.

Tactic Notation "pairs" constr(m) reference(c) reference(d) :=
  apply (matches_answer _ _ m); [unfold c, d; sim|done].

(** Every callback. *)
Lemma matches_code cb : matches free [] (code cb) (ask (passthrough sys) cb) [].
Proof.
  destruct cb; cbn [code].
  - apply (matches_ret free [] (AnsInit (Value tt) info)).
  - apply (matches_ret free [] AnsNone).
  - apply (matches_ret free [] (AnsEntry _)).
  - eapply matches_answer; [apply (matches_lookupx ctx)|done].
  - apply matches_mt_forget.
  - apply matches_mt_forget_multi.
  - eapply matches_answer; [apply (matches_statx ctx)|done].
  - eapply matches_answer; [apply (matches_setstatx ctx)|done].
  - eapply matches_answer; [apply (matches_mkobjx ctx)|done].
  - pairs (pt_unlink sys ctx parent name) mt_unlink pt_unlink.
  - pairs (pt_rmdir sys ctx parent name) mt_unlink pt_rmdir.
  - pairs (pt_rename sys ctx od on nd nn flags) mt_rename pt_rename.
  - pairs (pt_link sys ctx old newparent newname) mt_link pt_link.
  - pairs (pt_readlink sys ctx n) mt_readlink pt_readlink.
  - pairs (pt_open sys ctx n flags) mt_open pt_open.
  - eapply matches_answer; [apply (matches_release fh ctx n flags)|done].
  - eapply matches_answer; [apply matches_with_io|]. intros q. cbn [ask passthrough fs_read]. unfold pt_read.
    by destruct (with_io _ _ _ _ _ q) as [[] ?].
  - eapply matches_answer; [apply matches_with_io|done].
  - eapply matches_answer; [apply matches_with_io|done].
  - pairs (pt_statfs sys ctx n) mt_statfs pt_statfs.
  - pairs (pt_opendir sys ctx n) mt_opendir pt_opendir.
  - eapply matches_answer; [apply (matches_releasedir fh ctx n)|done].
  - eapply matches_answer; [apply (matches_readdir ctx n)|]. intros q. cbn [ask passthrough fs_readdir]. by destruct (pt_readdir _ _ _ _ _ _ q) as [[] ?].
  - eapply (matches_answer _ _ (pbind (node n) (fun i =>
      call sys (SysLgetxattr (ProcFd (in_path_fd i)) (c_str name) (zlen out)))));
      [unfold mt_getxattr; sim|]. intros q. cbn [ask passthrough fs_getxattr]. unfold pt_getxattr.
    by destruct (pbind _ _ q) as [[[]|] ?].
  - pairs (pt_setxattr sys ctx n name value flags) mt_setxattr pt_setxattr.
  - eapply (matches_answer _ _ (pbind (node n) (fun i =>
      call sys (SysLlistxattr (ProcFd (in_path_fd i)) (zlen out)))));
      [unfold mt_listxattr; sim|]. intros q. cbn [ask passthrough fs_listxattr]. unfold pt_listxattr.
    by destruct (pbind _ _ q) as [[[]|] ?].
  - pairs (pt_removexattr sys ctx n name) mt_removexattr pt_removexattr.
Qed.
End Equivalence.

(** The state of a daemon whose threads are idle stands for that of
    Passthrough.v. *)
Definition idle_rep {B} (s : shared B) (q : PassthroughFs B) : Prop :=
  rep [] s q /\ forall l, sh_lock s l = lock_free.

(** ** Theorem *)

(** C20: a callback that runs without interference computes what the sequential
    model says. For any callback, any backing system and any idle state of the
    daemon, the callback's program of lock operations, pointer copies and system
    calls runs to its end without waiting and without undefined behaviour,
    returns the answer of the callback in the sequential model, and leaves all
    locks free and a state that stands for the sequential one. *)
Theorem threaded_callback_equiv {B} (sys : forall A, syscall A -> B -> expected A * B) t cb s q :
  idle_rep s q ->
  exists s', run_alone sys t (code cb) s = Some (fst (ask (passthrough sys) cb q), s') /\
    idle_rep s' (snd (ask (passthrough sys) cb q)).
Proof.
  intros [Hr HK]. destruct (matches_code sys t cb s q Hr HK) as (s' & E & Hr' & HK').
  exists s'. by split.
Qed.

(** A new daemon. *)
Lemma idle_rep_make {B} backing (b : B) :
  idle_rep (shared_make backing b) (PassthroughFs_make backing b).
Proof.
  split; [|done]. split; cbn [shared_make sh_table]; try done.
  - apply tb_make_ok.
  - intros p Hp. by apply not_elem_of_nil in Hp.
Qed.

(** LOOKUPX in the root of a new daemon. *)
Lemma threaded_callback_equiv_witness :
  exists s', run_alone demo_sys 0 (code (CbLookupx demo_ctx 1 [Byte.x61])) (shared_make 3 4%nat) =
      Some (AnsEntry (Value (entry_for 42)), s') /\
    idle_rep s' (snd (ask (passthrough demo_sys) (CbLookupx demo_ctx 1 [Byte.x61])
                  (PassthroughFs_make 3 4%nat))).
Proof.
  apply (threaded_callback_equiv demo_sys 0 (CbLookupx demo_ctx 1 [Byte.x61])
    (shared_make 3 4%nat) (PassthroughFs_make 3 4%nat)).
  apply idle_rep_make.
Defined.
