(* ===== verification/Ownership.v ===== *)
(** * What a thread holds

    A discipline for the programs of ThreadedDaemon.v, in the manner of a type
    system with ownership. A thread holds tokens: the descriptors and streams it
    must close, its [shared_ptr]s, its locks, and the lookup counts it has yet to
    report to the kernel or to take from the table. An action consumes tokens
    and gives others ([needs], [gives]) and may only run when [allowed]: tables
    are touched under their lock, no lock is taken while another is held, and a
    system call gets descriptors the thread owns, reaches through a pointer it
    holds, or, for the callbacks that [borrow], once saw in a table. [wt] checks
    a whole program; every callback's program passes ([wt_code]). *)

From S2P Require Import Prelude Memory Pod Abi Types DirentWriter Filesystem Replier Handlers.
From S2P Require Import Callbacks InodeTable Passthrough PassthroughSafety.
From S2P Require Import SharedTable Threads ThreadedDaemon.
From stdpp Require Import sets.
#[local] Open Scope Z_scope.
#[local] Open Scope thread_scope.

(** ** Tokens *)

Inductive token :=
| Own (x : resource)
| Ref (p : ref)
| Held (t : nat) (l : mutex) (m : mode)
| Credit (n : Z)       (* a lookup counted in the table, not yet replied *)
| Debit (n k : Z)      (* a FORGET received, not yet taken from the table *).

#[export] Instance token_eq_dec : EqDecision token.
Proof. solve_decision. Defined.

Abbreviation hand := (list token).

(** What a thread once saw in a table. It stays true only if nobody takes it
    out. *)
Inductive sighting :=
| Seen (n fd : Z)
| Lent (fh fd : Z)
| LentDir (fh d : Z).

(** ** Callbacks *)

(** The nodes a callback looks up. *)
Definition names (cb : callback) : list Z :=
  match cb with
  | CbLookupx _ n _ | CbStatx _ n | CbSetstatx _ n _ _ | CbMkobjx _ n _ | CbUnlink _ n _
  | CbRmdir _ n _ | CbReadlink _ n | CbOpen _ n _ | CbRead _ n _ _ _ | CbWrite _ n _ _ _
  | CbFallocate _ n _ _ _ _ | CbStatfs _ n | CbOpendir _ n | CbGetxattr _ n _ _
  | CbSetxattr _ n _ _ _ | CbListxattr _ n _ | CbRemovexattr _ n _ => [(n : Z)]
  | CbRename _ od _ nd _ _ => [(od : Z); (nd : Z)]
  | CbLink _ old np _ => [(old : Z); (np : Z)]
  | _ => []
  end.

(** The open file, or directory, it uses, and the one it closes. *)
Definition file_uses (cb : callback) : list Z :=
  match cb with
  | CbSetstatx _ _ fh _ | CbRead _ _ fh _ _ | CbWrite _ _ fh _ _ | CbFallocate _ _ fh _ _ _ =>
      [(fh : Z)]
  | _ => []
  end.

Definition file_closes (cb : callback) : list Z :=
  match cb with CbRelease _ _ fh _ => [(fh : Z)] | _ => [] end.

Definition dir_uses (cb : callback) : list Z :=
  match cb with CbReaddir _ _ fh _ _ => [(fh : Z)] | _ => [] end.

Definition dir_closes (cb : callback) : list Z :=
  match cb with CbReleasedir _ _ fh => [(fh : Z)] | _ => [] end.

(** The references a FORGET gives back; those to the root are not counted. *)
Definition item_debit (item : NodeId * Z) : hand :=
  if fst item =? NodeId_root then [] else [Debit (fst item) (snd item)].

Definition debits (cb : callback) : hand :=
  match cb with
  | CbForget n k => item_debit (n, k)
  | CbForgetMulti items => flat_map item_debit items
  | _ => []
  end.

(** The reference a reply hands to the kernel. *)
Definition node_credit (n : Z) : hand := if n =? NodeId_root then [] else [Credit n].

Definition credits (ans : answer) : hand :=
  match ans with
  | AnsEntry (Value e) => if eo_negative e then [] else node_credit (eo_nodeid e)
  | _ => []
  end.

(** The callbacks that use a descriptor, stream or path they do not hold:
    [file_fd] and the stream of [readdir] are taken from a table whose lock is
    given back before the use, and [setstatx] drops its inode pointer before it
    uses the path. *)
Definition borrows (cb : callback) : bool :=
  match cb with
  | CbSetstatx _ _ _ _ | CbReaddir _ _ _ _ _ => true
  | CbRead _ _ fh _ _ | CbWrite _ _ fh _ _ | CbFallocate _ _ fh _ _ _ => negb (fh =? 0)
  | _ => false
  end.

(** ** Actions *)

Definition path_fd (p : path) : resource := match p with ProcFd fd => Fdesc fd end.

(** What a system call works on, apart from what it closes. *)
Definition used {A} (c : syscall A) : list resource :=
  match c with
  | SysOpenat d _ _ _ | SysMknodat d _ _ _ | SysMkdirat d _ _ | SysSymlinkat _ d _
  | SysFchownat d _ _ _ | SysUnlinkat d _ _ => [Fdesc d]
  | SysOpen p _ | SysChmod p _ | SysLchown p _ _ | SysTruncate p _ | SysUtimensat p _ _
  | SysLgetxattr p _ _ | SysLsetxattr p _ _ _ | SysLlistxattr p _ | SysLremovexattr p _ => [path_fd p]
  | SysFstatat fd | SysFstat fd | SysFchmod fd _ | SysFchown fd _ _ | SysFtruncate fd _
  | SysFutimens fd _ _ | SysReadlinkat fd _ | SysPread fd _ _ | SysPwrite fd _ _ | SysFstatvfs fd
  | SysFallocate fd _ _ _ => [Fdesc fd]
  | SysRenameat2 d _ d' _ _ => [Fdesc d; Fdesc d']
  | SysLinkat fd d _ => [Fdesc fd; Fdesc d]
  | SysSeekdir d _ | SysTelldir d | SysReaddir d => [Stream d]
  | SysClose _ | SysFdopendir _ | SysClosedir _ => []
  end.

Definition consumed {A} (c : syscall A) : hand :=
  match c with
  | SysClose fd | SysFdopendir fd => [Own (Fdesc fd)]
  | SysClosedir d => [Own (Stream d)]
  | _ => []
  end.

Definition produced {A} (c : syscall A) : expected A -> hand :=
  match c in syscall A return expected A -> hand with
  | SysOpenat _ _ _ _ | SysOpen _ _ => fun r =>
      match r with Value fd => [Own (Fdesc fd)] | Unexpected _ => [] end
  | SysFdopendir fd => fun r =>
      match r with Value d => [Own (Stream d)] | Unexpected _ => [Own (Fdesc fd)] end
  | _ => fun _ => []
  end.

Section Typing.
Context (t : nat) (cb : callback).

Definition needs {R} (a : action R) : hand :=
  match a with
  | Unlock l m => [Held t l m]
  | MapInsert fd _ | FilesEmplace fd => [Own (Fdesc fd)]
  | MapForget key n => [Debit key n]
  | RefDrop p => [Ref p]
  | DirsPut d => [Own (Stream d)]
  | Sys c => consumed c
  | _ => []
  end.

Definition fd_back (fd : option Z) : hand :=
  match fd with Some fd => [Own (Fdesc fd)] | None => [] end.

Definition gives {R} (a : action R) : R -> hand :=
  match a in action R return R -> hand with
  | Acquire l m => fun _ => [Held t l m]
  | MapGet _ => fun p => match p with Some p => [Ref p] | None => [] end
  | MapInsert fd ino => fun moved =>
      (if moved : bool then [] else [Own (Fdesc fd)]) ++ node_credit ino
  | MapForget _ _ => fd_back
  | RefDrop p => fun last => if last : bool then [Own (Fdesc (ref_fd p))] else []
  | FilesEmplace fd => fun r => if snd r : bool then [] else [Own (Fdesc fd)]
  | FilesErase _ => fd_back
  | DirsErase _ => fun d => match d with Some d => [Own (Stream d)] | None => [] end
  | Sys c => produced c
  | _ => fun _ => []
  end.

Definition learns {R} (a : action R) : R -> list sighting :=
  match a in action R return R -> list sighting with
  | MapGet n => fun p => match p with Some p => [Seen n (ref_fd p)] | None => [] end
  | FilesFind fh => fun r => match r with Some fd => [Lent fh fd] | None => [] end
  | DirsFind fh => fun r => match r with Some d => [LentDir fh d] | None => [] end
  | _ => fun _ => []
  end.

(** The sighting vouches for the descriptor or stream. *)
Definition vouches (f : sighting) (x : resource) : Prop :=
  match f with
  | Seen _ fd | Lent _ fd => x = Fdesc fd
  | LentDir _ d => x = Stream d
  end.

Definition covered (K : list sighting) (h : hand) (x : resource) : Prop :=
  Own x ∈ h \/ (exists p, Ref p ∈ h /\ x = Fdesc (ref_fd p)) \/
  (borrows cb = true /\ exists f, f ∈ K /\ vouches f x).

Definition is_lock (k : token) : bool := match k with Held _ _ _ => true | _ => false end.

Definition no_locks (h : hand) : Prop := Forall (fun k => is_lock k = false) h.

Definition allowed {R} (a : action R) (K : list sighting) (h : hand) : Prop :=
  match a with
  | Acquire _ _ => no_locks h
  | MapGet n => (exists m, Held t table_mu m ∈ h) /\ (n : Z) ∈ names cb
  | MapInsert _ _ => Held t table_mu Unique ∈ h
  | MapForget key _ => Held t table_mu Unique ∈ h /\ key <> NodeId_root
  | FilesFind fh => (exists m, Held t files_mu m ∈ h) /\ (fh : Z) ∈ file_uses cb
  | FilesEmplace _ => Held t files_mu Unique ∈ h
  | FilesErase fh => Held t files_mu Unique ∈ h /\ (fh : Z) ∈ file_closes cb
  | DirsFind fh => (exists m, Held t dirs_mu m ∈ h) /\ (fh : Z) ∈ dir_uses cb
  | DirsPut _ => Held t dirs_mu Unique ∈ h
  | DirsErase fh => Held t dirs_mu Unique ∈ h /\ (fh : Z) ∈ dir_closes cb
  | Sys c => Forall (covered K h) (used c)
  | Unlock _ _ | RefDrop _ => True
  end.

(** Started with the sightings [K] and the hand [h], the program obeys, and ends as
    [Q] says. *)
Fixpoint wt {A} (K : list sighting) (h : hand) (p : prog A) (Q : A -> list sighting -> hand -> Prop) : Prop :=
  match p with
  | Ret a => Q a K h
  | Act a k => exists F, h ≡ₚ needs a ++ F /\ allowed a K h /\
      forall r, wt (learns a r ++ K) (gives a r ++ F) (k r) Q
  end.

(** ** Rules *)

Lemma wt_mono {A} K h (p : prog A) (Q Q' : A -> list sighting -> hand -> Prop) :
  (forall a K h, Q a K h -> Q' a K h) -> wt K h p Q -> wt K h p Q'.
Proof.
  intros HQ. revert K h. induction p as [a|R a k IH]; intros K h; simpl; [apply HQ|].
  intros (F & Hh & Ha & Hk). exists F. split; [done|]. split; [done|]. intros r. by apply IH.
Qed.

Lemma wt_bind {A C} K h (p : prog A) (k : A -> prog C) Q :
  wt K h p (fun a K h => wt K h (k a) Q) -> wt K h (bind p k) Q.
Proof.
  revert K h. induction p as [a|R a k' IH]; intros K h; simpl; [done|].
  intros (F & Hh & Ha & Hk). exists F. split; [done|]. split; [done|]. intros r. by apply IH.
Qed.

Lemma wt_fmap {A C} K h (f : A -> C) (p : prog A) Q :
  wt K h p (fun a K h => Q (f a) K h) -> wt K h (fmap_prog f p) Q.
Proof. intros Hp. by apply wt_bind. Qed.

Lemma wt_ebind {A C} K h (p : prog (expected A)) (k : A -> prog (expected C)) Q :
  wt K h p (fun r K h => match r with Value a => wt K h (k a) Q
                                     | Unexpected e => Q (Unexpected e) K h end) ->
  wt K h (ebind p k) Q.
Proof. intros Hp. apply wt_bind. eapply wt_mono; [|exact Hp]. by intros [a|e] K' h'. Qed.

Lemma wt_atom {R} K h F (a : action R) Q :
  h ≡ₚ needs a ++ F -> allowed a K h -> (forall r, Q r (learns a r ++ K) (gives a r ++ F)) ->
  wt K h (atom a) Q.
Proof. intros Hh Ha HQ. by exists F. Qed.

Lemma wt_atom_free {R} K h (a : action R) Q :
  needs a = [] -> allowed a K h -> (forall r, Q r (learns a r ++ K) (gives a r ++ h)) ->
  wt K h (atom a) Q.
Proof. intros Hn Ha HQ. apply (wt_atom K h h); [by rewrite Hn|done..]. Qed.

Lemma wt_issue {A} K h F (c : syscall A) Q :
  h ≡ₚ consumed c ++ F -> Forall (covered K h) (used c) ->
  (forall r, Q r K (produced c r ++ F)) -> wt K h (issue c) Q.
Proof. intros Hh Hu HQ. by exists F. Qed.

Lemma wt_close K h F fd Q : h ≡ₚ Own (Fdesc fd) :: F -> Q tt K F -> wt K h (close fd) Q.
Proof. intros Hh HQ. apply wt_bind. by apply (wt_issue K h F (SysClose fd)). Qed.

Lemma wt_close_fail {A} K h F fd e (Q : expected A -> _) :
  h ≡ₚ Own (Fdesc fd) :: F -> (forall e, Q (Unexpected e) K F) -> wt K h (close_then_fail fd e) Q.
Proof.
  intros Hh HQ. apply wt_bind. apply (wt_issue K h F (SysClose fd)); [done..|]. intros [a|e']; apply HQ.
Qed.

Lemma wt_drop_ref K h F p Q : h ≡ₚ Ref p :: F -> Q tt K F -> wt K h (drop_ref p) Q.
Proof.
  intros Hh HQ. apply wt_bind, (wt_atom K h F); [done..|]. intros [].
  - by apply (wt_close K _ F).
  - exact HQ.
Qed.

Lemma wt_locked {A} K h l m (body : prog A) Q :
  no_locks h ->
  wt K (Held t l m :: h) body (fun x K' h' => exists F, h' ≡ₚ Held t l m :: F /\ Q x K' F) ->
  wt K h (locked l m body) Q.
Proof.
  intros Hn Hb. apply wt_bind, (wt_atom K h h); [done..|]. intros []. cbn [learns gives app].
  apply wt_bind. eapply wt_mono; [|exact Hb]. intros x K' h' (F & Hh & HQ).
  by apply wt_bind, (wt_atom K' h' F).
Qed.

Lemma wt_table_get K h n Q :
  no_locks h -> (n : Z) ∈ names cb -> Q None K h ->
  (forall p, Q (Some p) (Seen n (ref_fd p) :: K) (Ref p :: h)) -> wt K h (table_get n) Q.
Proof.
  intros Hn Hin Hnone Hsome. apply wt_locked; [done|]. exists (Held t table_mu Shared :: h).
  split; [done|]. split; [split; [exists Shared; left|done]|]. intros [p|]; cbn [wt learns gives app].
  - eexists. split; [apply Permutation_swap|done].
  - by eexists.
Qed.

Lemma wt_with_node {A} K h n (body : ref -> prog (expected A)) Q :
  no_locks h -> (n : Z) ∈ names cb -> Q (Unexpected ESTALE) K h ->
  (forall p, wt (Seen n (ref_fd p) :: K) (Ref p :: h) (body p)
     (fun x K' h' => exists F, h' ≡ₚ Ref p :: F /\ Q x K' F)) ->
  wt K h (with_node n body) Q.
Proof.
  intros Hn Hin Hnone Hb. apply wt_bind. apply wt_table_get; [done..|]. intros p. apply wt_bind.
  eapply wt_mono; [|apply Hb]. intros x K' h' (F & Hh & HQ). apply wt_bind.
  by apply (wt_drop_ref K' h' F).
Qed.

Lemma wt_table_put K h F fd ino Q :
  h ≡ₚ Own (Fdesc fd) :: F -> no_locks h -> Q ino K (node_credit ino ++ F) ->
  wt K h (table_put fd ino) Q.
Proof.
  intros Hh Hn HQ. apply wt_bind. apply wt_locked; [done|].
  exists (Held t table_mu Unique :: F). split; [rewrite Hh; apply Permutation_swap|].
  split; [left|]. intros moved. cbn [wt learns gives app].
  exists ((if moved then [] else [Own (Fdesc fd)]) ++ node_credit ino ++ F).
  split; [rewrite app_assoc; symmetry; apply Permutation_middle|].
  apply wt_bind. destruct moved; [done|]. by apply (wt_close K _ (node_credit ino ++ F)).
Qed.

Lemma wt_file_fd K h fh Q :
  no_locks h -> (fh : Z) ∈ file_uses cb ->
  (forall fd K', K ⊆ K' -> (0 <= fd -> Lent fh fd ∈ K') -> (fh = 0 -> fd < 0) -> Q fd K' h) ->
  wt K h (mt_file_fd fh) Q.
Proof.
  intros Hn Hin HQ. unfold mt_file_fd. destruct (Z.eqb_spec fh 0) as [H0|H0].
  { simpl. apply HQ; [done|lia|lia]. }
  apply wt_locked; [done|]. apply wt_bind. exists (Held t files_mu Shared :: h). split; [done|].
  split; [split; [exists Shared; left|done]|]. intros r. cbn [wt learns gives app].
  exists h. split; [done|]. apply HQ; [|destruct r as [fd|]; cbn [default]; [left|lia]|lia].
  destruct r; set_solver.
Qed.

(** A system call that opens nothing and closes nothing. *)
Lemma wt_plain {A} K h (c : syscall A) Q :
  consumed c = [] -> (forall r, produced c r = []) -> Forall (covered K h) (used c) ->
  (forall r, Q r K h) -> wt K h (issue c) Q.
Proof.
  intros Hc Hp Hu HQ. apply (wt_issue K h h); [by rewrite Hc|done|]. intros r. by rewrite Hp.
Qed.

Lemma wt_opening K h (c : syscall Z) Q :
  consumed c = [] ->
  (forall r, produced c r = match r with Value fd => [Own (Fdesc fd)] | Unexpected _ => [] end) ->
  Forall (covered K h) (used c) ->
  (forall fd, Q (Value fd) K (Own (Fdesc fd) :: h)) -> (forall e, Q (Unexpected e) K h) ->
  wt K h (issue c) Q.
Proof.
  intros Hc Hp Hu Hv He. apply (wt_issue K h h); [by rewrite Hc|done|].
  intros [fd|e]; rewrite Hp; [apply Hv|apply He].
Qed.

Lemma covered_own K h x : Own x ∈ h -> covered K h x.
Proof. by left. Qed.

Lemma covered_ref K h p : Ref p ∈ h -> covered K h (Fdesc (ref_fd p)).
Proof. right. left. by exists p. Qed.

Lemma covered_seen K h f x : borrows cb = true -> f ∈ K -> vouches f x -> covered K h x.
Proof. right. right. eauto. Qed.

End Typing.

(** ** Every callback obeys *)

Definition settled (ans : answer) (K : list sighting) (h : hand) : Prop := h ≡ₚ credits ans.

(** A pick from a concrete hand. *)
Lemma pick_here {A} (x : A) l : x :: l ≡ₚ x :: l.
Proof. done. Qed.
Lemma pick_next {A} (x y : A) l F : l ≡ₚ x :: F -> y :: l ≡ₚ x :: y :: F.
Proof. intros ->. apply Permutation_swap. Qed.
Lemma pick_app {A} (x : A) l1 l2 F : l2 ≡ₚ x :: F -> l1 ++ l2 ≡ₚ x :: l1 ++ F.
Proof. intros ->. by rewrite <- Permutation_middle. Qed.
Ltac pick := first [apply pick_here | apply pick_next; pick | apply pick_app; pick].

Ltac mem := first [left | right; mem].
Ltac cover := repeat first [apply Forall_nil_2 | apply Forall_cons_2]; first
  [ apply covered_own; mem | apply covered_ref; mem ].

Ltac no_locks_tac := by repeat constructor.

Ltac wt_step :=
  match goal with
  | |- wt _ _ _ _ (Ret _) _ => cbn [wt]
  | |- wt _ _ _ _ (fmap_prog _ _) _ => apply wt_fmap
  | |- wt _ _ _ _ (ebind _ _) _ => apply wt_ebind
  | |- wt _ _ _ _ (bind _ _) _ => apply wt_bind
  | |- wt _ _ _ _ (with_node _ _) _ => apply wt_with_node; [no_locks_tac|left| |intros ?]
  | |- wt _ _ _ _ (close _) _ => eapply wt_close; [pick|]
  | |- wt _ _ _ _ (close_then_fail _ _) _ => eapply wt_close_fail; [pick|intros ?]
  | |- wt _ _ _ _ (drop_ref_opt _) _ => progress cbn [drop_ref_opt]
  | |- wt _ _ _ _ (close_opt _) _ => progress cbn [close_opt]
  | |- wt _ _ _ _ (drop_ref _) _ => eapply wt_drop_ref; [pick|]
  | |- wt _ _ _ _ (table_put _ _) _ => eapply wt_table_put; [pick|no_locks_tac|]
  | |- wt _ _ _ _ (issue (SysOpenat _ _ _ _)) _ => apply wt_opening; [done|done|cover|intros ?|intros ?]
  | |- wt _ _ _ _ (issue (SysOpen _ _)) _ => apply wt_opening; [done|done|cover|intros ?|intros ?]
  | |- wt _ _ _ _ (issue _) _ => apply wt_plain; [done|done|cover|intros ?]
  | |- wt _ _ _ _ (if ?b then _ else _) _ => destruct b
  | |- wt _ _ _ _ (match ?r with _ => _ end) _ => destruct r
  | |- match ?r with _ => _ end => destruct r
  | |- exists F, _ ≡ₚ _ /\ _ => eexists; split; [pick|]
  | |- settled _ _ _ => unfold settled; simpl; rewrite ?app_nil_r; done
  end.
Ltac wt_run := repeat wt_step.

Section Callbacks.
Context (t : nat).

Abbreviation obeys cb := (wt t cb [] (debits cb) (code cb) settled).

Lemma wt_forget_entry cb K h F key n Q :
  h ≡ₚ Debit key n :: F -> Held t table_mu Unique ∈ h -> key <> NodeId_root -> Q tt K F ->
  wt t cb K h (forget_entry key n) Q.
Proof.
  intros Hh Hl Hk HQ. apply wt_bind, (wt_atom _ _ K h F); [done..|]. intros [fd|]; [|exact HQ].
  by apply (wt_close _ _ K _ F).
Qed.

Lemma wt_forget n k : obeys (CbForget n k).
Proof.
  cbn [code debits]. unfold mt_forget, item_debit. cbn [fst snd].
  destruct (Z.eqb_spec n NodeId_root) as [->|Hn]; [by wt_run|].
  apply wt_fmap, wt_locked; [no_locks_tac|].
  eapply wt_forget_entry; [pick|left|done|]. eexists. split; [pick|]. by wt_run.
Qed.

Lemma wt_forget_entries cb K items :
  wt t cb K (Held t table_mu Unique :: flat_map item_debit items) (forget_entries items)
    (fun _ _ h => h ≡ₚ [Held t table_mu Unique]).
Proof.
  induction items as [|[n k] items IH]; [by simpl|]. cbn [forget_entries flat_map]. unfold item_debit at 1.
  cbn [fst snd]. destruct (Z.eqb_spec n NodeId_root) as [->|Hn]; [done|].
  apply wt_bind. eapply wt_forget_entry; [pick|left|done|exact IH].
Qed.

Lemma no_locks_debits items : no_locks (flat_map item_debit items).
Proof.
  apply Forall_flat_map, Forall_forall. intros [n k] _. unfold item_debit. by case_if; repeat constructor.
Qed.

Lemma wt_forget_multi items : obeys (CbForgetMulti items).
Proof.
  cbn [code debits]. apply wt_fmap, wt_locked; [apply no_locks_debits|].
  eapply wt_mono; [|apply wt_forget_entries]. intros [] K h Hh. exists []. split; [done|]. by wt_run.
Qed.

Lemma wt_with_nodes {A} cb n m (body : ref -> ref -> prog (expected A)) (f : expected A -> answer) :
  names cb = [n; m] -> (forall x, credits (f x) = []) ->
  (forall p q K, wt t cb K [Ref q; Ref p] (body p q) (fun _ _ h => h ≡ₚ [Ref q; Ref p])) ->
  wt t cb [] [] (with_nodes n m body) (fun x K h => settled (f x) K h).
Proof.
  intros Hn Hf Hb. unfold settled. apply wt_bind, wt_table_get; [no_locks_tac|rewrite Hn; left| |].
  - apply wt_bind, wt_table_get; [no_locks_tac|rewrite Hn; mem| |].
    + wt_run. by rewrite Hf.
    + intros q. wt_run. by rewrite Hf.
  - intros p. apply wt_bind, wt_table_get; [no_locks_tac|rewrite Hn; mem| |].
    + wt_run. by rewrite Hf.
    + intros q. apply wt_bind. eapply wt_mono; [|apply Hb]. intros x K h Hh.
      apply wt_bind. eapply wt_drop_ref; [exact Hh|]. wt_run. by rewrite Hf.
Qed.

(** The use of a descriptor that came from [file_fd] or from [io_fd]. *)
Lemma wt_with_io {A} cb n fh mode (c : Z -> syscall A) (f : expected A -> answer) :
  names cb = [(n : Z)] -> file_uses cb = [(fh : Z)] -> borrows cb = negb (fh =? 0) ->
  (forall fd, used (c fd) = [Fdesc fd]) -> (forall fd, consumed (c fd) = []) ->
  (forall fd r, produced (c fd) r = []) -> (forall x, credits (f x) = []) ->
  wt t cb [] [] (mt_with_io n fh mode c) (fun x K h => settled (f x) K h).
Proof.
  intros Hn Hu Hb Huse Hcon Hpro Hf. apply wt_ebind, wt_bind.
  apply wt_file_fd; [no_locks_tac|rewrite Hu; left|]. intros fd K' _ Hlent H0.
  destruct (Z.leb_spec 0 fd) as [Hfd|Hfd].
  - cbn [wt]. apply wt_bind, wt_plain; [done|done| |].
    + rewrite Huse. apply Forall_singleton. apply (covered_seen _ _ _ (Lent fh fd)); [|auto|done].
      rewrite Hb. destruct (Z.eqb_spec fh 0); [lia|done].
    + intros r. wt_run. unfold settled. by rewrite Hf.
  - apply wt_with_node; [no_locks_tac|rewrite Hn; left|unfold settled; by rewrite Hf|].
    intros p. wt_step. wt_step.
    + cbn [wt]. eexists. split; [pick|]. apply wt_bind, wt_plain; [done|done| |].
      * rewrite Huse. apply Forall_singleton, covered_own. left.
      * intros r. cbn [close_opt]. wt_run. unfold settled. by rewrite Hf.
    + wt_run. unfold settled. by rewrite Hf.
Qed.

(** A step of [setstatx] on the open file or on the path of the node. *)
Lemma wt_set_step cb K b n fh fd p (c1 c2 : syscall unit) Q :
  borrows cb = true -> (0 <= fd -> Lent fh fd ∈ K) ->
  (fd < 0 -> exists pfd, p = ProcFd pfd /\ Seen n pfd ∈ K) ->
  used c1 = [Fdesc fd] -> used c2 = [path_fd p] -> consumed c1 = [] -> consumed c2 = [] ->
  (forall r, produced c1 r = []) -> (forall r, produced c2 r = []) ->
  (forall r, Q r K []) -> wt t cb K [] (step_if b (issue_on fd c1 c2)) Q.
Proof.
  intros Hb Hl Hs Hu1 Hu2 Hc1 Hc2 Hp1 Hp2 HQ. destruct b; [|apply HQ]. cbn [step_if].
  unfold issue_on. destruct (Z.leb_spec 0 fd) as [Hfd|Hfd].
  - apply wt_plain; [done|done| |done]. rewrite Hu1. apply Forall_singleton.
    apply (covered_seen _ _ _ (Lent fh fd)); auto. done.
  - apply wt_plain; [done|done| |done]. rewrite Hu2. apply Forall_singleton.
    destruct (Hs Hfd) as (pfd & -> & Hin). by apply (covered_seen _ _ _ (Seen n pfd)).
Qed.

Lemma wt_statx cb K n (f : expected StatxOut -> answer) :
  (n : Z) ∈ names cb -> (forall x, credits (f x) = []) ->
  wt t cb K [] (mt_statx n) (fun x K h => settled (f x) K h).
Proof.
  intros Hn Hf. unfold settled. apply wt_with_node; [no_locks_tac|done|by rewrite Hf|].
  intros p. wt_run; by rewrite Hf.
Qed.

Lemma wt_setstatx ctx n fh i : obeys (CbSetstatx ctx n fh i).
Proof.
  cbn [code debits]. apply wt_fmap, wt_bind. set (cb := CbSetstatx _ _ _ _).
  apply wt_file_fd; [no_locks_tac|left|]. intros fd K _ Hl _. apply wt_ebind.
  assert (Hp : wt t cb K [] (proc_path n fd) (fun r K' h => h = [] /\ K ⊆ K' /\
    match r with
    | Value p => fd < 0 -> exists pfd, p = ProcFd pfd /\ Seen n pfd ∈ K'
    | Unexpected _ => True end)).
  { unfold proc_path. destruct (Z.ltb_spec fd 0); [|split; [done|]; split; [done|lia]].
    apply wt_with_node; [no_locks_tac|left|done|]. intros p. cbn [wt].
    eexists. split; [pick|]. split; [done|]. split; [set_solver|]. intros _. eexists.
    split; [done|left]. }
  eapply wt_mono; [|exact Hp]. intros [p|e] K' h (-> & HK & Hs); [|by wt_run].
  assert (Hl' : 0 <= fd -> Lent fh fd ∈ K') by (intros; apply HK; auto).
  repeat (apply wt_ebind; eapply wt_set_step; [done|exact Hl'|exact Hs|done..|];
          intros [[]|e]; [|by wt_run]).
  by apply wt_statx; [left|].
Qed.

Lemma wt_mkobjx ctx n mi : obeys (CbMkobjx ctx n mi).
Proof.
  cbn [code debits]. apply wt_fmap, wt_with_node; [no_locks_tac|left|by wt_run|]. intros p.
  destruct (negb _).
  - unfold mt_tmpfile. wt_run.
  - apply wt_ebind.
    assert (Hc : wt t (CbMkobjx ctx n mi) [Seen n (ref_fd p)] [Ref p] (mt_create p mi)
      (fun _ K h => K = [Seen n (ref_fd p)] /\ h = [Ref p])) by (unfold mt_create; wt_run; done).
    assert (Ho : wt t (CbMkobjx ctx n mi) [Seen n (ref_fd p)] [Ref p] (mt_chown p mi)
      (fun _ K h => K = [Seen n (ref_fd p)] /\ h = [Ref p])) by (unfold mt_chown; wt_run; done).
    eapply wt_mono; [|exact Hc]. intros [[]|e] K h (-> & ->); [|by wt_run].
    apply wt_ebind. eapply wt_mono; [|exact Ho]. intros [[]|e] K h (-> & ->); [|by wt_run].
    wt_run.
Qed.

Lemma wt_open ctx n flags : obeys (CbOpen ctx n flags).
Proof.
  cbn [code debits]. unfold mt_open. wt_run. apply wt_locked; [no_locks_tac|].
  apply wt_bind. eapply wt_atom; [apply pick_next, pick_here|left|]. intros [h []]; cbn [learns gives app fd_back snd].
  - wt_run.
  - wt_run.
Qed.

Lemma wt_release ctx n fh flags : obeys (CbRelease ctx n fh flags).
Proof.
  cbn [code debits]. apply wt_fmap, wt_locked; [no_locks_tac|]. apply wt_bind.
  apply wt_atom_free; [done|split; left|]. intros [fd|]; cbn [learns gives app fd_back snd]; wt_run.
Qed.

Lemma wt_opendir ctx n : obeys (CbOpendir ctx n).
Proof.
  cbn [code debits]. unfold mt_opendir. apply wt_fmap, wt_with_node; [no_locks_tac|left|by wt_run|].
  intros p. wt_step. wt_step; [|by wt_run]. apply wt_bind.
  eapply (wt_issue _ _ _ _ [Ref p]); [pick|apply Forall_nil_2|]. intros [d|e]; [|by wt_run].
  apply wt_bind, wt_locked; [no_locks_tac|].
  eapply wt_atom; [apply pick_next, pick_here|left|]. intros h. cbn [learns gives app fd_back snd]. wt_run.
Qed.

Lemma wt_releasedir ctx n fh : obeys (CbReleasedir ctx n fh).
Proof.
  cbn [code debits]. apply wt_fmap, wt_locked; [no_locks_tac|]. apply wt_bind.
  apply wt_atom_free; [done|split; left|]. intros [d|]; cbn [learns gives app fd_back snd]; [|by wt_run].
  apply wt_bind, wt_bind. eapply (wt_issue _ _ _ _ [Held t dirs_mu Unique]);
    [pick|apply Forall_nil_2|]. intros r. wt_run.
Qed.

Lemma wt_readdir_loop cb K fuel d off w fh :
  borrows cb = true -> LentDir fh d ∈ K ->
  wt t cb K [] (mt_readdir_loop fuel d off w) (fun _ _ h => h = []).
Proof.
  intros Hb Hin. assert (Hc : forall A (c : syscall A), used c = [Stream d] -> Forall (covered cb K []) (used c)).
  { intros A c ->. apply Forall_singleton. by apply (covered_seen _ _ _ (LentDir fh d)). }
  revert off w. induction fuel as [|fuel IH]; intros off w; [done|]. cbn [mt_readdir_loop].
  apply wt_bind, wt_plain; [done|done|by apply Hc|]. intros [[de|]|e]; [|done..].
  apply wt_bind, wt_plain; [done|done|by apply Hc|]. intros next.
  destruct (add w _) as [[[] w1]|]; [apply IH| |done].
  apply wt_bind, wt_plain; [done|done|by apply Hc|]. done.
Qed.

Lemma wt_readdir ctx n fh off w : obeys (CbReaddir ctx n fh off w).
Proof.
  cbn [code debits]. apply wt_fmap, wt_bind, wt_locked; [no_locks_tac|].
  apply wt_atom_free; [done|split; [exists Unique; left|left]|]. intros [d|]; cbn [learns gives app fd_back snd].
  - eexists. split; [pick|]. apply wt_bind, wt_plain; [done|done| |].
    + apply Forall_singleton. apply (covered_seen _ _ _ (LentDir fh d)); [done|left|done].
    + intros r. eapply wt_mono; [|apply (wt_readdir_loop _ _ _ _ _ _ fh); [done|left]].
      intros x K h ->. by wt_run.
  - eexists. split; [pick|]. by wt_run.
Qed.

(** Every program obeys, with the FORGETs it carries as debits, and ends with
    nothing in hand but the reference its reply hands out. *)
Lemma wt_code cb : obeys cb.
Proof.
  destruct cb; try solve [cbn [code debits]; unfold mt_lookup_root, mt_lookupx, mt_statfs,
    mt_unlink, mt_readlink, mt_getxattr, mt_setxattr, mt_listxattr, mt_removexattr; wt_run].
  - apply wt_forget.
  - apply wt_forget_multi.
  - cbn [code debits]. apply wt_fmap. by apply wt_statx; [left|].
  - apply wt_setstatx.
  - apply wt_mkobjx.
  - cbn [code debits]. apply wt_fmap. apply wt_with_nodes; [done..|]. intros p q K. wt_run. done.
  - cbn [code debits]. apply wt_fmap. apply wt_with_nodes; [done..|]. intros p q K. wt_run. done.
  - apply wt_open.
  - apply wt_release.
  - cbn [code debits]. apply wt_fmap. apply wt_with_io; try done. by intros [].
  - cbn [code debits]. apply wt_fmap. by apply wt_with_io.
  - cbn [code debits]. apply wt_fmap. by apply wt_with_io.
  - apply wt_opendir.
  - apply wt_releasedir.
  - apply wt_readdir.
  - cbn [code debits]. unfold mt_getxattr. wt_run. destruct r as [[]|]; by wt_run.
  - cbn [code debits]. unfold mt_listxattr. wt_run. destruct r as [[]|]; by wt_run.
Qed.
End Callbacks.

(** C21: every callback obeys the ownership discipline. Started with the
    references its request gives back, in any thread, the program of a callback
    touches a table only under its lock (exclusively, to change it), waits for a
    lock only while it holds none, closes or gives away only what it owns, makes
    system calls only on what it owns, has a pointer to, or has seen in a table,
    and ends with nothing in hand but the reference its reply carries. *)
Theorem callbacks_own_what_they_use t cb : wt t cb [] (debits cb) (code cb) settled.
Proof. apply wt_code. Qed.
