(* ===== verification/Interleaving.v ===== *)
(** * Callbacks that run at the same time

    Any number of workers run callbacks of the daemon, in any interleaving of
    their atomic actions. A configuration has the shared state, the programs of
    the callbacks in flight, and the kernel's count of lookups; an event is the
    arrival of a request, one action of a thread, or a reply. The invariant of
    this file says what all threads together hold. It gives: no data race and no
    dangling pointer; no descriptor leaked or closed twice; no deadlock, and
    every request answered; and a table that behaves as if its operations ran
    one after the other. *)

From S2P Require Import Prelude Memory Pod Abi Types DirentWriter Filesystem Replier Handlers.
From S2P Require Import Callbacks InodeTable Passthrough PassthroughSafety.
From S2P Require Import SharedTable Threads ThreadedDaemon Ownership.
From stdpp Require Import gmap functions.
#[local] Open Scope Z_scope.

(** ** Executions *)

Record task := { tk_cb : callback; tk_prog : prog answer }.

(** [cf_kernel n]: the references to node [n] the kernel was given in replies
    and has not given back in FORGETs. *)
Record conf (B : Type) := {
  cf_shared : shared B;
  cf_tasks : gmap nat task;
  cf_kernel : Z -> Z;
}.
Arguments cf_shared {B} _.
Arguments cf_tasks {B} _.
Arguments cf_kernel {B} _ _.

Definition conf_make {B} (backing : Z) (b : B) : conf B := {|
  cf_shared := shared_make backing b; cf_tasks := ∅; cf_kernel := fun _ => 0 |}.

Inductive event :=
| Arrive (t : nat) (cb : callback)
| Step (t : nat)
| Reply (t : nat).

(** The counts in a hand. *)
Definition credit_sum (n : Z) (h : hand) : Z :=
  foldr (fun k acc => match k with Credit m => (if m =? n then 1 else 0) + acc | _ => acc end) 0 h.

Definition debit_sum (n : Z) (h : hand) : Z :=
  foldr (fun k acc => match k with Debit m j => (if m =? n then j else 0) + acc | _ => acc end) 0 h.

Section Exec.
Context {B : Type} (sys : forall A, syscall A -> B -> expected A * B).

(** [None]: the event cannot happen now. *)
Definition exec1 (c : conf B) (ev : event) : option (conf B) :=
  match ev with
  | Arrive t cb =>
      match cf_tasks c !! t with
      | Some _ => None
      | None => Some {| cf_shared := cf_shared c;
          cf_tasks := <[t := {| tk_cb := cb; tk_prog := code cb |}]> (cf_tasks c);
          cf_kernel := fun n => cf_kernel c n - debit_sum n (debits cb) |}
      end
  | Step t =>
      match cf_tasks c !! t with
      | Some {| tk_cb := cb; tk_prog := Act a k |} =>
          match act sys t a (cf_shared c) with
          | Ran r s => Some {| cf_shared := s;
              cf_tasks := <[t := {| tk_cb := cb; tk_prog := k r |}]> (cf_tasks c);
              cf_kernel := cf_kernel c |}
          | _ => None
          end
      | _ => None
      end
  | Reply t =>
      match cf_tasks c !! t with
      | Some {| tk_cb := cb; tk_prog := Ret ans |} =>
          Some {| cf_shared := cf_shared c; cf_tasks := delete t (cf_tasks c);
            cf_kernel := fun n => cf_kernel c n + credit_sum n (credits ans) |}
      | _ => None
      end
  end.

Fixpoint exec (c : conf B) (evs : list event) : option (conf B) :=
  match evs with
  | [] => Some c
  | ev :: evs' => match exec1 c ev with Some c' => exec c' evs' | None => None end
  end.

Lemma exec_snoc c evs ev :
  exec c (evs ++ [ev]) = match exec c evs with Some c' => exec1 c' ev | None => None end.
Proof.
  revert c. induction evs as [|ev' evs IH]; intros c; simpl.
  - by destruct (exec1 c ev).
  - destruct (exec1 c ev') as [c'|]; [apply IH|done].
Qed.
End Exec.

(** ** What the hands add up to *)

Definition own_of (H : hand) : list resource :=
  omap (fun k => match k with Own x => Some x | _ => None end) H.

Definition refs_of (H : hand) : list ref :=
  omap (fun k => match k with Ref p => Some p | _ => None end) H.

Definition held_of (l : mutex) (H : hand) : list (nat * mode) :=
  omap (fun k => match k with
                 | Held t l' m => if decide (l' = l) then Some (t, m) else None
                 | _ => None end) H.

(** The sightings and the hand of each thread, and the hands taken together. *)
Abbreviation hands := (gmap nat (list sighting * hand)).

Definition all_hands (H : hands) : hand := flat_map (fun x => snd (snd x)) (map_to_list H).

(** ** The invariant *)

(** What the tables own. *)
Definition table_owned {B} (s : shared B) : list resource :=
  map Fdesc (heap_fds (sh_table s)) ++
  map (fun x => Fdesc (snd x)) (map_to_list (sh_files s)) ++
  map (fun x => Stream (snd x)) (map_to_list (sh_dirs s)).

(** The books: what is alive is in hands or in tables. [n] bounds the number of
    events so far, so that the 64-bit directory handles have not wrapped. *)
Record owns {B} (n : Z) (s : shared (ledger B)) (H : hand) : Prop := {
  owns_bad : lg_bad (sh_sys s) = false;
  owns_live : lg_live (sh_sys s) ≡ₚ own_of H ++ table_owned s;
  owns_dirs : forall k d, sh_dirs s !! k = Some d -> 0 < k <= sh_dir_id s;
  owns_dir_id : 0 <= sh_dir_id s <= n;
}.

(** The lock's holders are the threads with its token, one writer or readers. *)
Definition lock_ok (l : mutex) (k : lock) (H : hand) : Prop :=
  held_of l H ≡ₚ map (fun t => (t, Shared)) (lk_readers k)
    ++ map (fun t => (t, Unique)) (option_list (lk_writer k)) /\
  (is_Some (lk_writer k) -> lk_readers k = []).

(** Every program in flight obeys, with its hand. *)
Definition all_wt (T : gmap nat task) (H : hands) : Prop := forall t,
  match T !! t, H !! t with
  | Some tk, Some (K, h) => wt t (tk_cb tk) K h (tk_prog tk) settled
  | None, None => True
  | _, _ => False
  end.

Record safe {B} (c : conf B) (H : hands) : Prop := {
  safe_wt : all_wt (cf_tasks c) H;
  safe_table : table_ok (refs_of (all_hands H)) (sh_table (cf_shared c));
  safe_locks : forall l, lock_ok l (sh_lock (cf_shared c) l) (all_hands H);
}.

Lemma idle_hands {B} (c : conf B) H : safe c H -> cf_tasks c = ∅ -> H = ∅.
Proof.
  intros Hs Ht. apply map_eq. intros t. pose proof (safe_wt _ _ Hs t) as Hwt.
  rewrite Ht, lookup_empty in *. by destruct (H !! t).
Qed.

(** ** Hands *)

Lemma all_hands_insert_new H t K h :
  H !! t = None -> all_hands (<[t := (K, h)]> H) ≡ₚ h ++ all_hands H.
Proof. intros Hn. unfold all_hands. by rewrite map_to_list_insert. Qed.

(** One thread's hand, and the others'. *)
Lemma all_hands_split H t K h :
  H !! t = Some (K, h) ->
  all_hands H ≡ₚ h ++ all_hands (delete t H) /\
  forall K' h', all_hands (<[t := (K', h')]> H) ≡ₚ h' ++ all_hands (delete t H).
Proof.
  intros Ht. split.
  - unfold all_hands. by rewrite <- (map_to_list_delete H t (K, h)).
  - intros K' h'. rewrite <- insert_delete_eq. apply all_hands_insert_new, lookup_delete_eq.
Qed.

(** A thread that gives up [X] for [Y]. *)
Lemma all_hands_advance t H K h X F :
  H !! t = Some (K, h) -> h ≡ₚ X ++ F ->
  all_hands H ≡ₚ X ++ F ++ all_hands (delete t H) /\
  forall K' Y, all_hands (<[t := (K', Y ++ F)]> H) ≡ₚ Y ++ F ++ all_hands (delete t H).
Proof.
  intros Ht Hh. destruct (all_hands_split H t K h Ht) as [Hall Hset]. split.
  - by rewrite Hall, Hh, app_assoc.
  - intros K' Y. by rewrite Hset, app_assoc.
Qed.

#[export] Instance own_of_perm : Proper ((≡ₚ) ==> (≡ₚ)) own_of.
Proof. apply omap_Permutation. Qed.
#[export] Instance refs_of_perm : Proper ((≡ₚ) ==> (≡ₚ)) refs_of.
Proof. apply omap_Permutation. Qed.
#[export] Instance held_of_perm l : Proper ((≡ₚ) ==> (≡ₚ)) (held_of l).
Proof. apply omap_Permutation. Qed.

Lemma own_of_app H H' : own_of (H ++ H') = own_of H ++ own_of H'.
Proof. apply omap_app. Qed.
Lemma refs_of_app H H' : refs_of (H ++ H') = refs_of H ++ refs_of H'.
Proof. apply omap_app. Qed.
Lemma held_of_app l H H' : held_of l (H ++ H') = held_of l H ++ held_of l H'.
Proof. apply omap_app. Qed.

Lemma own_of_in x H : Own x ∈ H -> x ∈ own_of H.
Proof. intros Hin. apply list_elem_of_omap. by exists (Own x). Qed.
Lemma refs_of_in p H : Ref p ∈ H -> p ∈ refs_of H.
Proof. intros Hin. apply list_elem_of_omap. by exists (Ref p). Qed.
Lemma held_of_in t l m H : Held t l m ∈ H -> (t, m) ∈ held_of l H.
Proof.
  intros Hin. apply list_elem_of_omap. exists (Held t l m). split; [done|]. by rewrite decide_True.
Qed.

Lemma node_credit_own n : own_of (node_credit n) = [].
Proof. unfold node_credit. by case_if. Qed.
Lemma node_credit_refs n : refs_of (node_credit n) = [].
Proof. unfold node_credit. by case_if. Qed.
Lemma node_credit_held l n : held_of l (node_credit n) = [].
Proof. unfold node_credit. by case_if. Qed.
Create Rewrite HintDb hands.
#[export] Hint Rewrite own_of_app refs_of_app held_of_app node_credit_own node_credit_refs
  node_credit_held : hands.

#[export] Instance owns_perm {B} n (s : shared (ledger B)) : Proper ((≡ₚ) ==> iff) (owns n s).
Proof. intros H H' HH. split; intros []; split; try done; [by rewrite <- HH|by rewrite HH]. Qed.

#[export] Instance lock_ok_perm l k : Proper ((≡ₚ) ==> iff) (lock_ok l k).
Proof. intros H H' HH. unfold lock_ok. by rewrite HH. Qed.

(** ** One action *)

Section OneAction.
Context {B : Type} (sys0 : forall A, syscall A -> B -> expected A * B).
#[local] Abbreviation sys := (tracked sys0).

(** Splits [act t a s = Ran r s'] by the action. *)
Ltac act_cases H :=
  unfold act, guarded, ran_table in H;
  repeat match type of H with
  | (if ?b then _ else Undefined) = Ran _ _ => let E := fresh "E" in destruct b eqn:E; [|discriminate H]
  end.

Lemma act_table {R} t (a : action R) s r s' F :
  table_ok (refs_of (needs t a ++ F)) (sh_table s) -> act sys t a s = Ran r s' ->
  table_ok (refs_of (gives t a r ++ F)) (sh_table s').
Proof.
  intros Hok Ha. rewrite refs_of_app in Hok. destruct a; act_cases Ha; cbn [needs gives] in *.
  - destruct (lock_acquire _ _ _); [|done]. by injection Ha as <- <-.
  - by injection Ha as <- <-.
  - destruct (tb_get_spec _ _ n Hok) as (p & tb' & Hg & Hok' & _). rewrite Hg in Ha.
    injection Ha as <- <-. by destruct p.
  - destruct (tb_insert_spec _ _ fd st_ino Hok) as (moved & tb' & Hg & Hok' & _). rewrite Hg in Ha.
    injection Ha as <- <-. autorewrite with hands. by destruct moved.
  - destruct (tb_forget_spec _ _ key n Hok) as (fd & tb' & Hg & Hok' & _). rewrite Hg in Ha.
    injection Ha as <- <-. by destruct fd.
  - destruct (tb_release_spec _ _ p Hok) as (last & tb' & Hg & Hok' & _). rewrite Hg in Ha.
    injection Ha as <- <-. by destruct last.
  - by injection Ha as <- <-.
  - destruct (sh_files s !! _); injection Ha as <- <-; done.
  - injection Ha as <- <-. by destruct (sh_files s !! _).
  - by injection Ha as <- <-.
  - by injection Ha as <- <-.
  - injection Ha as <- <-. by destruct (sh_dirs s !! _).
  - destruct (sys A c (sh_sys s)) as [x b]. injection Ha as <- <-. cbn [set_sys sh_table].
    rewrite refs_of_app. destruct c; try exact Hok; by destruct x.
Qed.

(** Descriptors move between hands and tables. *)
Lemma owns_move n (s s' : shared (ledger B)) H H' :
  owns n s H -> sh_sys s' = sh_sys s -> sh_dirs s' = sh_dirs s -> sh_dir_id s' = sh_dir_id s ->
  own_of H ++ table_owned s ≡ₚ own_of H' ++ table_owned s' -> owns (n + 1) s' H'.
Proof.
  intros [] Hs Hd Hi Hp. split; rewrite ?Hs, ?Hd, ?Hi; try done; [|lia]. by rewrite <- Hp.
Qed.

(** System calls, by what they do to the ledger. *)
Lemma owns_sys {A} n (s : shared (ledger B)) F (c : syscall A) r b :
  owns n s (consumed c ++ F) -> sys A c (sh_sys s) = (r, b) ->
  owns (n + 1) (set_sys s b) (produced c r ++ F).
Proof.
  intros [Hbad Hlive Hdirs Hid] Hc. unfold tracked in Hc.
  destruct (sys0 A c (lg_sys (sh_sys s))) as [r0 b0]. injection Hc as <- <-.
  set (lg := {| lg_sys := b0; lg_live := _; lg_bad := _; lg_dirs := _ |}).
  rewrite own_of_app in Hlive.
  assert (Hgoal : lg_bad (account c r0 lg) = false /\
    lg_live (account c r0 lg) ≡ₚ own_of (produced c r0) ++ own_of F ++ table_owned s).
  { destruct c; try (by split); cbn [consumed produced account] in *.
    - destruct r0; split; try done. by constructor.
    - destruct r0; split; try done. by constructor.
    - destruct (discard_ok lg (Fdesc fd) _ Hlive) as [-> ->]. by split.
    - destruct r0; [|by split]. destruct (discard_ok lg (Fdesc fd) _ Hlive) as [H1 H2].
      cbn [acquire count_dir lg_bad lg_live]. rewrite H2. split; [done|]. by rewrite H1.
    - destruct (discard_ok lg (Stream d) _ Hlive) as [-> ->]. by split. }
  destruct Hgoal as [H1 H2]. split; try done; [|cbn; lia].
  rewrite own_of_app, <- app_assoc. exact H2.
Qed.

Lemma act_owns {R} n t (a : action R) s r s' F :
  table_ok (refs_of (needs t a ++ F)) (sh_table s) -> owns n s (needs t a ++ F) -> n + 1 < 2 ^ 64 ->
  act sys t a s = Ran r s' -> owns (n + 1) s' (gives t a r ++ F).
Proof.
  intros Hok Ho Hn Ha. rewrite refs_of_app in Hok. destruct a; act_cases Ha; cbn [needs gives] in *.
  - destruct (lock_acquire _ _ _); [|done]. injection Ha as <- <-. by eapply owns_move.
  - injection Ha as <- <-. by eapply owns_move.
  - destruct (tb_get_spec _ _ n0 Hok) as (p & tb' & Hg & _ & _ & Hf & _). rewrite Hg in Ha.
    injection Ha as <- <-. eapply owns_move; try done. unfold table_owned.
    cbn [set_table sh_table sh_files sh_dirs]. rewrite Hf. by destruct p.
  - destruct (tb_insert_spec _ _ fd st_ino Hok) as (moved & tb' & Hg & _ & _ & Hf & _).
    rewrite Hg in Ha. injection Ha as <- <-. eapply owns_move; try done. unfold table_owned.
    cbn [set_table sh_table sh_files sh_dirs]. rewrite <- Hf. autorewrite with hands.
    destruct moved; cbn; solve_Permutation.
  - destruct (tb_forget_spec _ _ key n0 Hok) as (fd & tb' & Hg & _ & _ & Hf & _).
    rewrite Hg in Ha. injection Ha as <- <-. eapply owns_move; try done. unfold table_owned.
    cbn [set_table sh_table sh_files sh_dirs]. rewrite Hf. destruct fd; cbn; solve_Permutation.
  - destruct (tb_release_spec _ _ p Hok) as (last & tb' & Hg & _ & _ & Hf & _).
    rewrite Hg in Ha. injection Ha as <- <-. eapply owns_move; try done. unfold table_owned.
    cbn [set_table sh_table sh_files sh_dirs]. rewrite Hf. destruct last; cbn; solve_Permutation.
  - injection Ha as <- <-. by eapply owns_move.
  - destruct (sh_files s !! _) eqn:Ef; injection Ha as <- <-; eapply owns_move; try done.
    unfold table_owned. cbn -[map_to_list]. rewrite map_to_list_insert by done. cbn. solve_Permutation.
  - injection Ha as <- <-. eapply owns_move; try done. unfold table_owned. cbn -[map_to_list].
    destruct (sh_files s !! _) as [fd|] eqn:Ef; cbn [fd_back].
    + rewrite <- (map_to_list_delete (sh_files s) _ _ Ef). cbn. solve_Permutation.
    + by rewrite delete_id.
  - injection Ha as <- <-. by eapply owns_move.
  - injection Ha as <- <-. destruct Ho as [Hbad Hlive Hd Hi].
    rewrite wrapu_small by lia. split; cbn [set_dirs sh_sys sh_dirs sh_dir_id]; try done; [| |lia].
    + rewrite Hlive. unfold table_owned. cbn -[map_to_list]. rewrite map_to_list_insert; [cbn; solve_Permutation|].
      destruct (sh_dirs s !! _) as [d'|] eqn:E'; [|done]. apply Hd in E'. lia.
    + intros k0 d0 [[<- _]|[_ Hk0]]%lookup_insert_Some; [lia|]. apply Hd in Hk0. lia.
  - injection Ha as <- <-. destruct Ho as [Hbad Hlive Hd Hi].
    split; cbn [set_dirs sh_sys sh_dirs sh_dir_id]; try done; [| |lia].
    + rewrite Hlive. unfold table_owned. cbn -[map_to_list].
      destruct (sh_dirs s !! _) as [d|] eqn:Ed.
      * rewrite <- (map_to_list_delete (sh_dirs s) _ _ Ed). cbn. solve_Permutation.
      * by rewrite delete_id.
    + intros k0 d0 [_ Hk0]%lookup_delete_Some. by eapply Hd.
  - destruct (sys A c (sh_sys s)) as [x b] eqn:E. injection Ha as <- <-. by apply owns_sys.
Qed.

Definition is_lock_op {R} (a : action R) : bool :=
  match a with Acquire _ _ | Unlock _ _ => true | _ => false end.

Lemma act_no_lock {R} t (a : action R) s r s' :
  is_lock_op a = false -> act sys t a s = Ran r s' ->
  sh_lock s' = sh_lock s /\ forall l, held_of l (needs t a) = [] /\ held_of l (gives t a r) = [].
Proof.
  intros Hl Ha. destruct a; try discriminate Hl; act_cases Ha; cbn [needs gives].
  - destruct (tb_get _ _) as [[p tb]|]; [|done]. injection Ha as <- <-. by destruct p.
  - destruct (tb_insert _ _ _) as [[p tb]|]; [|done]. injection Ha as <- <-. split; [done|].
    intros l. autorewrite with hands. by destruct p.
  - destruct (tb_forget _ _ _) as [[p tb]|]; [|done]. injection Ha as <- <-. by destruct p.
  - destruct (tb_release _ _) as [[p' tb]|]; [|done]. injection Ha as <- <-. by destruct p'.
  - by injection Ha as <- <-.
  - destruct (sh_files s !! _); by injection Ha as <- <-.
  - injection Ha as <- <-. by destruct (sh_files s !! _).
  - by injection Ha as <- <-.
  - by injection Ha as <- <-.
  - injection Ha as <- <-. by destruct (sh_dirs s !! _).
  - destruct (sys A c _) as [x b]. injection Ha as <- <-. split; [done|]. intros l.
    destruct c; try done; by destruct x.
Qed.

Lemma held_cons_eq t l m H : held_of l (Held t l m :: H) = (t, m) :: held_of l H.
Proof. unfold held_of. cbn. by rewrite decide_True. Qed.

Lemma held_cons_ne t l l' m H : l <> l' -> held_of l' (Held t l m :: H) = held_of l' H.
Proof. intros Hne. unfold held_of. cbn. by rewrite decide_False. Qed.

Lemma lock_acquire_ok t l m k k' H :
  lock_ok l k H -> lock_acquire t m k = Some k' -> lock_ok l k' (Held t l m :: H).
Proof.
  intros [Hh Hx] Ha. unfold lock_ok. rewrite held_cons_eq, Hh.
  destruct k as [rs [w|]], m; cbn in *; try discriminate.
  - injection Ha as <-. split; [done|]. by intros [].
  - destruct rs; [|discriminate]. injection Ha as <-. by split.
Qed.

Lemma lock_release_ok t l m k H :
  lock_ok l k (Held t l m :: H) -> lock_ok l (lock_release t m k) H.
Proof.
  intros [Hh Hx]. unfold lock_ok. rewrite held_cons_eq in Hh. destruct k as [rs w], m; cbn in *.
  - assert (Hin : (t, Shared) ∈ map (fun t => (t, Shared)) rs
      ++ map (fun t => (t, Unique)) (option_list w)) by (rewrite <- Hh; left).
    apply elem_of_app in Hin as [Hin|Hin];
      apply list_elem_of_In, in_map_iff in Hin as (t' & [= ->] & Hin).
    apply list_elem_of_In, list_elem_of_split in Hin as (l1 & l2 & ->).
    destruct (take_out_perm t (l1 ++ t :: l2) (l1 ++ l2)) as (rs' & -> & Hp);
      [by rewrite <- Permutation_middle|]. cbn [default from_option id]. split.
    + apply (Permutation_cons_inv (a := (t, Shared))). rewrite Hh.
      change ((t, Shared) :: map (fun t => (t, Shared)) rs' ++ ?x)
        with (map (fun t => (t, Shared)) (t :: rs') ++ x).
      apply Permutation_app_tail, Permutation_map. rewrite Hp. symmetry. apply Permutation_middle.
    + intros Hw. specialize (Hx Hw). by destruct l1.
  - destruct w as [w|].
    + rewrite (Hx ltac:(eauto)) in *. cbn in *. apply Permutation_singleton_r in Hh.
      injection Hh as _ ->. by split.
    + exfalso. cbn in Hh. rewrite app_nil_r in Hh.
      assert (Hin : (t, Unique) ∈ map (fun t => (t, Shared)) rs) by (rewrite <- Hh; left).
      by apply list_elem_of_In, in_map_iff in Hin as (t' & [=] & _).
Qed.

Lemma act_locks {R} t (a : action R) s r s' F :
  (forall l, lock_ok l (sh_lock s l) (needs t a ++ F)) -> act sys t a s = Ran r s' ->
  forall l, lock_ok l (sh_lock s' l) (gives t a r ++ F).
Proof.
  intros Hk Ha l. destruct (is_lock_op a) eqn:Hop.
  2: { destruct (act_no_lock t a s r s' Hop Ha) as [-> Hh]. specialize (Hk l).
       unfold lock_ok in *. rewrite held_of_app in *. destruct (Hh l) as [H1 H2].
       rewrite H1 in Hk. by rewrite H2. }
  destruct a; try discriminate Hop; act_cases Ha; cbn [needs gives app] in *.
  - destruct (lock_acquire t m _) as [k|] eqn:Eq; [|done]. injection Ha as <- <-.
    cbn [set_lock sh_lock]. destruct (decide (l0 = l)) as [->|Hne].
    + rewrite fn_lookup_insert. by eapply lock_acquire_ok.
    + rewrite fn_lookup_insert_ne by done. unfold lock_ok. rewrite held_cons_ne by done. apply Hk.
  - injection Ha as <- <-. cbn [set_lock sh_lock]. specialize (Hk l).
    destruct (decide (l0 = l)) as [->|Hne].
    + rewrite fn_lookup_insert. by apply lock_release_ok.
    + rewrite fn_lookup_insert_ne by done. unfold lock_ok in Hk. by rewrite held_cons_ne in Hk.
Qed.

(** A lock token is a lock held. *)
Lemma lock_ok_holds t l m k H : lock_ok l k H -> Held t l m ∈ H -> holds t m k = true.
Proof.
  intros [Hh _] Hin%held_of_in. rewrite Hh in Hin. unfold holds. apply elem_of_app in Hin as [Hin|Hin];
    apply list_elem_of_In, in_map_iff in Hin as (t' & [= -> <-] & Hin);
    apply list_elem_of_In in Hin; apply bool_decide_eq_true; [done|].
  destruct (lk_writer k) as [w|]; [|by apply not_elem_of_nil in Hin].
  by apply list_elem_of_singleton in Hin as ->.
Qed.

(** What is allowed is defined. *)
Lemma act_defined {R} t cb (a : action R) s K h F :
  table_ok (refs_of (h ++ F)) (sh_table s) ->
  (forall l, lock_ok l (sh_lock s l) (h ++ F)) ->
  (exists h', h ≡ₚ needs t a ++ h') -> allowed t cb a K h ->
  act sys t a s <> Undefined.
Proof.
  intros Hok Hk [h' Hh] Hal.
  assert (Hold : forall l m, Held t l m ∈ h -> holds t m (sh_lock s l) = true).
  { intros l m Hin. eapply lock_ok_holds; [apply Hk|]. set_solver. }
  assert (Hread : forall l, (exists m, Held t l m ∈ h) -> may_read t (sh_lock s l) = true).
  { intros l [[] Hm%Hold]; unfold may_read; rewrite Hm; [done|apply orb_true_r]. }
  destruct a; unfold act, guarded, ran_table; cbn [allowed needs] in *.
  - by destruct (lock_acquire _ _ _).
  - by rewrite (Hold l m) by (rewrite Hh; left).
  - destruct Hal as [Hl _]. rewrite Hread by done.
    by destruct (tb_get_spec _ _ n Hok) as (p & tb' & -> & _).
  - unfold may_write. rewrite (Hold _ _ Hal).
    by destruct (tb_insert_spec _ _ fd st_ino Hok) as (p & tb' & -> & _).
  - destruct Hal as [Hl _]. unfold may_write. rewrite (Hold _ _ Hl).
    by destruct (tb_forget_spec _ _ key n Hok) as (p & tb' & -> & _).
  - destruct (tb_release_spec (refs_of (h' ++ F)) (sh_table s) p) as (b & tb' & -> & _); [|done].
    rewrite Hh in Hok. exact Hok.
  - destruct Hal as [Hl _]. by rewrite Hread.
  - unfold may_write. rewrite (Hold _ _ Hal). by destruct (sh_files s !! _).
  - destruct Hal as [Hl _]. unfold may_write. by rewrite (Hold _ _ Hl).
  - destruct Hal as [Hl _]. by rewrite Hread.
  - unfold may_write. by rewrite (Hold _ _ Hal).
  - destruct Hal as [Hl _]. unfold may_write. by rewrite (Hold _ _ Hl).
  - by destruct (sys A c _).
Qed.
End OneAction.

(** ** All executions *)

Lemma debits_nothing cb l :
  own_of (debits cb) = [] /\ refs_of (debits cb) = [] /\ held_of l (debits cb) = [].
Proof.
  assert (Hi : forall item, own_of (item_debit item) = [] /\ refs_of (item_debit item) = [] /\
    held_of l (item_debit item) = []) by (intros item; unfold item_debit; by case_if).
  destruct cb; try done; [apply Hi|]. cbn [debits].
  induction items as [|item items (IH1 & IH2 & IH3)]; [done|]. cbn [flat_map].
  autorewrite with hands. destruct (Hi item) as (-> & -> & ->). by rewrite IH1, IH2, IH3.
Qed.

Lemma credits_nothing ans l :
  own_of (credits ans) = [] /\ refs_of (credits ans) = [] /\ held_of l (credits ans) = [].
Proof.
  destruct ans as [| | |[e|e]| | | | | | |]; try done. cbn [credits].
  destruct (eo_negative e); [done|]. by autorewrite with hands.
Qed.

Section Executions.
Context {B : Type} (sys0 : forall A, syscall A -> B -> expected A * B).
#[local] Abbreviation sys := (tracked sys0).

(** What an event does to the hands. *)
Inductive advance (c : conf (ledger B)) (H : hands) : event -> hands -> Prop :=
| adv_arrive t cb :
    cf_tasks c !! t = None -> advance c H (Arrive t cb) (<[t := ([], debits cb)]> H)
| adv_step t cb R (a : action R) k r s' K h F :
    cf_tasks c !! t = Some {| tk_cb := cb; tk_prog := Act a k |} -> H !! t = Some (K, h) ->
    act sys t a (cf_shared c) = Ran r s' -> h ≡ₚ needs t a ++ F -> allowed t cb a K h ->
    advance c H (Step t) (<[t := (learns a r ++ K, gives t a r ++ F)]> H)
| adv_reply t cb ans K h :
    cf_tasks c !! t = Some {| tk_cb := cb; tk_prog := Ret ans |} -> H !! t = Some (K, h) ->
    h ≡ₚ credits ans -> advance c H (Reply t) (delete t H).

Lemma all_wt_insert T (H : hands) t cb p K h :
  all_wt T H -> wt t cb K h p settled ->
  all_wt (<[t := {| tk_cb := cb; tk_prog := p |}]> T) (<[t := (K, h)]> H).
Proof.
  intros Hwt Hp t'. destruct (decide (t = t')) as [<-|Hne].
  - by rewrite !lookup_insert_eq.
  - rewrite !lookup_insert_ne by done. apply Hwt.
Qed.

Lemma exec1_safe c H ev c' :
  safe c H -> exec1 sys c ev = Some c' -> exists H', advance c H ev H' /\ safe c' H'.
Proof.
  intros [Hwt Htab Hlock] He. destruct ev as [t cb|t|t]; cbn [exec1] in He; pose proof (Hwt t) as Ht.
  - destruct (cf_tasks c !! t) eqn:Et; [done|]. injection He as <-.
    destruct (H !! t) eqn:EH; [done|]. eexists. split; [by apply adv_arrive|].
    assert (Hall : all_hands (<[t := ([], debits cb)]> H) ≡ₚ debits cb ++ all_hands H)
      by by apply all_hands_insert_new.
    split; cbn [cf_shared].
    + apply all_wt_insert; [done|apply wt_code].
    + destruct (debits_nothing cb table_mu) as (_ & Ho & _). by rewrite Hall, refs_of_app, Ho.
    + intros l. destruct (debits_nothing cb l) as (_ & _ & Ho). unfold lock_ok.
      rewrite Hall, held_of_app, Ho. apply Hlock.
  - destruct (cf_tasks c !! t) as [[cb [ans|R a k]]|] eqn:Et; [done| |done].
    destruct (act sys t a (cf_shared c)) as [r s'| |] eqn:Ea; [|done..]. injection He as <-.
    destruct (H !! t) as [[K h]|] eqn:EH; [|done]. destruct Ht as (F & Hh & Hal & Hk).
    eexists. split; [by eapply adv_step|].
    destruct (all_hands_advance t H K h (needs t a) F EH Hh) as [Hall Hset].
    specialize (Hset (learns a r ++ K) (gives t a r)). rewrite Hall in Htab. split; cbn [cf_shared].
    + apply all_wt_insert; [done|apply Hk].
    + rewrite Hset. by eapply act_table.
    + intros l. rewrite Hset. eapply act_locks; [|exact Ea]. intros l'. rewrite <- Hall. apply Hlock.
  - destruct (cf_tasks c !! t) as [[cb [ans|R a k]]|] eqn:Et; [|done..]. injection He as <-.
    destruct (H !! t) as [[K h]|] eqn:EH; [|done]. cbn in Ht.
    eexists. split; [by eapply adv_reply|].
    destruct (all_hands_split H t K h EH) as [Hall _]. rewrite Ht in Hall. split; cbn [cf_shared cf_tasks].
    + intros t'. destruct (decide (t = t')) as [<-|Hne]; [by rewrite !lookup_delete_eq|].
      rewrite !lookup_delete_ne by done. apply Hwt.
    + destruct (credits_nothing ans table_mu) as (_ & Ho & _). by rewrite Hall, refs_of_app, Ho in Htab.
    + intros l. destruct (credits_nothing ans l) as (_ & _ & Ho). specialize (Hlock l).
      unfold lock_ok in *. by rewrite Hall, held_of_app, Ho in Hlock.
Qed.

Lemma exec1_owns n c H ev c' H' :
  safe c H -> owns n (cf_shared c) (all_hands H) -> n + 1 < 2 ^ 64 ->
  exec1 sys c ev = Some c' -> advance c H ev H' -> owns (n + 1) (cf_shared c') (all_hands H').
Proof.
  intros [Hwt Htab Hlock] Hown Hn He Hadv.
  destruct Hadv as [t cb Et|t cb R a k r s' K h F Et EH Ea Hh Hal|t cb ans K h Et EH Hh];
    cbn [exec1] in He; rewrite Et in He.
  - injection He as <-. cbn [cf_shared]. pose proof (Hwt t) as Ht. rewrite Et in Ht.
    destruct (H !! t) eqn:EH; [done|]. destruct (debits_nothing cb table_mu) as (Ho & _).
    rewrite all_hands_insert_new by done.
    apply (owns_move n (cf_shared c) _ (all_hands H)); try done. by rewrite own_of_app, Ho.
  - rewrite Ea in He. injection He as <-. cbn [cf_shared].
    destruct (all_hands_advance t H K h (needs t a) F EH Hh) as [Hall Hset]. rewrite Hset.
    rewrite Hall in Hown, Htab. by eapply act_owns.
  - injection He as <-. cbn [cf_shared]. destruct (all_hands_split H t K h EH) as [Hall _].
    destruct (credits_nothing ans table_mu) as (Ho & _). rewrite Hall, Hh in Hown.
    eapply (owns_move n (cf_shared c)); [exact Hown|done..|]. by rewrite own_of_app, Ho.
Qed.

Lemma safe_make (b : ledger B) backing : safe (conf_make backing b) ∅.
Proof.
  split; cbn [conf_make cf_tasks cf_shared shared_make sh_table].
  - intros t. by rewrite !lookup_empty.
  - apply tb_make_ok.
  - intros l. done.
Qed.

Lemma owns_make (b : B) backing : owns 0 (shared_make backing (ledger_start b backing)) [].
Proof. by split. Qed.

Lemma exec_safe b backing evs c :
  exec sys (conf_make backing (ledger_start b backing)) evs = Some c ->
  exists H, safe c H /\ (zlen evs < 2 ^ 64 -> owns (zlen evs) (cf_shared c) (all_hands H)).
Proof.
  revert c. induction evs as [|ev evs IH] using rev_ind; intros c He.
  { injection He as <-. exists ∅. split; [apply safe_make|]. intros _. apply owns_make. }
  rewrite exec_snoc in He. destruct (exec sys _ evs) as [c0|]; [|done].
  destruct (IH c0 eq_refl) as (H & Hs & Ho).
  destruct (exec1_safe _ _ _ _ Hs He) as (H' & Hadv & Hs'). exists H'. split; [done|].
  rewrite zlen_app, zlen_cons, zlen_nil, Z.add_0_r. intros Hn.
  eapply exec1_owns; [exact Hs|apply Ho; lia|done..].
Qed.

(** ** Progress *)

Lemma all_hands_in (H : hands) x : x ∈ all_hands H -> exists t K h, H !! t = Some (K, h) /\ x ∈ h.
Proof.
  unfold all_hands. rewrite list_elem_of_In, in_flat_map. intros ([t [K h]] & Hin & Hx).
  exists t, K, h. split; [|by apply list_elem_of_In].
  by apply elem_of_map_to_list, list_elem_of_In.
Qed.

(** Only an acquisition waits, and only for a lock somebody holds. *)
Lemma blocked_inv {R} t (a : action R) s H :
  (forall l, lock_ok l (sh_lock s l) H) -> act sys t a s = Blocked ->
  (forall cb K h, allowed t cb a K h -> no_locks h) /\ exists l t' m', Held t' l m' ∈ H.
Proof.
  intros Hk Ha.
  destruct a; unfold act, guarded, ran_table in Ha;
    try (destruct (sys _ _ _); discriminate Ha);
    repeat match type of Ha with
    | (if ?b then _ else _) = _ => destruct b; [|discriminate Ha]
    | match ?x with _ => _ end = _ => destruct x as [[]|]; discriminate Ha
    end; try discriminate Ha; try (destruct (sh_files s !! _); discriminate Ha).
  destruct (lock_acquire t m (sh_lock s l)) as [k|] eqn:E; [discriminate|].
  split; [done|]. assert (Hin : exists x, x ∈ held_of l H).
  { destruct (Hk l) as [Hh _]. setoid_rewrite Hh.
    destruct (sh_lock s l) as [[|t0 rs] [w|]], m; cbn in *; try discriminate; eexists; left. }
  destruct Hin as ([t' m'] & Hin). apply list_elem_of_omap in Hin as (k & Hin & Hm).
  destruct k as [| |t0 l0 m0| |]; try discriminate. case_decide; [|discriminate]. simplify_eq. eauto.
Qed.

Definition quiet (ev : event) : bool := match ev with Arrive _ _ => false | _ => true end.

Lemma thread_progress c H t tk :
  safe c H -> cf_tasks c !! t = Some tk ->
  (exists ev c', quiet ev = true /\ exec1 sys c ev = Some c') \/
  exists K h, H !! t = Some (K, h) /\ no_locks h /\ exists t' l' m', Held t' l' m' ∈ all_hands H.
Proof.
  intros Hi Et. destruct tk as [cb [ans|R a k]].
  { left. exists (Reply t). cbn [exec1]. rewrite Et. eauto. }
  pose proof (safe_wt _ _ Hi t) as Hwt. rewrite Et in Hwt.
  destruct (H !! t) as [[K h]|] eqn:EH; [|done]. cbn in Hwt. destruct Hwt as (F & Hh & Hal & _).
  destruct (all_hands_split H t K h EH) as [Hall _].
  destruct (act sys t a (cf_shared c)) as [r s'| |] eqn:Ea.
  - left. exists (Step t). cbn [exec1]. rewrite Et, Ea. eauto.
  - right. destruct (blocked_inv t a _ _ (safe_locks _ _ Hi) Ea) as (Hn & l & t' & m' & Hin).
    exists K, h. split; [done|]. split; [by eapply Hn|eauto].
  - exfalso. refine (act_defined sys0 t cb a _ K h (all_hands (delete t H)) _ _ _ Hal Ea).
    + rewrite <- Hall. apply (safe_table _ _ Hi).
    + intros l. rewrite <- Hall. apply (safe_locks _ _ Hi).
    + by exists F.
Qed.

Lemma no_deadlock c H :
  safe c H -> cf_tasks c <> ∅ -> exists ev c', quiet ev = true /\ exec1 sys c ev = Some c'.
Proof.
  intros Hi Hne. apply map_choose in Hne as (t & tk & Et).
  destruct (thread_progress c H t tk Hi Et) as [?|(K & h & _ & _ & t' & l' & m' & Hin)]; [done|].
  apply all_hands_in in Hin as (t1 & K1 & h1 & EH1 & Hin).
  pose proof (safe_wt _ _ Hi t1) as Hwt. rewrite EH1 in Hwt.
  destruct (cf_tasks c !! t1) as [tk1|] eqn:Et1; [|done].
  destruct (thread_progress c H t1 tk1 Hi Et1) as [?|(K2 & h2 & EH2 & Hno & _)]; [done|].
  exfalso. rewrite EH1 in EH2. injection EH2 as <- <-.
  unfold no_locks in Hno. rewrite Forall_forall in Hno.
  apply list_elem_of_In in Hin. by apply Hno in Hin.
Qed.

(** ** Termination *)

Definition follows {A} (p' p : prog A) : Prop :=
  match p with Ret _ => False | Act a k => exists r, p' = k r end.

(** A quiet event shortens one program or ends it. *)
Inductive shrinks : gmap nat task -> gmap nat task -> Prop :=
| shrinks_step T t cb p p' :
    T !! t = Some {| tk_cb := cb; tk_prog := p |} -> follows p' p ->
    shrinks (<[t := {| tk_cb := cb; tk_prog := p' |}]> T) T
| shrinks_reply T t tk : T !! t = Some tk -> shrinks (delete t T) T.

Lemma acc_insert t cb p : forall T, Acc shrinks T -> T !! t = None ->
  Acc shrinks (<[t := {| tk_cb := cb; tk_prog := p |}]> T).
Proof.
  induction p as [ans|R a k IHp]; induction 1 as [T HT IHT]; intros Hn; constructor; intros T' Hs;
    inversion Hs as [T0 t' cb' p p' Ht' Hf|T0 t' tk Ht']; subst;
    (destruct (decide (t = t')) as [<-|Hne];
     [rewrite lookup_insert_eq in Ht'|rewrite lookup_insert_ne in Ht' by done]).
  - by simplify_eq.
  - rewrite insert_insert_ne by done. apply IHT; [by econstructor|]. by rewrite lookup_insert_ne.
  - by rewrite delete_insert_eq, delete_id.
  - rewrite delete_insert_ne by done. apply IHT; [by econstructor|]. by rewrite lookup_delete_ne.
  - simplify_eq. destruct Hf as [r ->]. rewrite insert_insert_eq. apply IHp; [|done]. by constructor.
  - rewrite insert_insert_ne by done. apply IHT; [by econstructor|]. by rewrite lookup_insert_ne.
  - by rewrite delete_insert_eq, delete_id.
  - rewrite delete_insert_ne by done. apply IHT; [by econstructor|]. by rewrite lookup_delete_ne.
Qed.

Lemma shrinks_wf : well_founded shrinks.
Proof.
  intros T. induction T as [|t [cb p] T Hn IH] using map_ind; [|by apply acc_insert].
  constructor. intros T' Hs. inversion Hs; subst; by rewrite lookup_empty in *.
Qed.

(** The next configuration, no request arriving. *)
Definition quiet_step (c' c : conf (ledger B)) : Prop :=
  exists ev, quiet ev = true /\ exec1 sys c ev = Some c'.

Lemma quiet_step_shrinks c' c : quiet_step c' c -> shrinks (cf_tasks c') (cf_tasks c).
Proof.
  intros ([t cb|t|t] & Hq & He); [done|..]; cbn [exec1] in He;
    destruct (cf_tasks c !! t) as [[cb [ans|R a k]]|] eqn:Et; try discriminate He.
  - destruct (act sys t a _) as [r s'| |]; [|done..]. injection He as <-. econstructor; [done|]. by exists r.
  - injection He as <-. by econstructor.
Qed.

Lemma quiet_step_wf : well_founded quiet_step.
Proof.
  intros c. remember (cf_tasks c) as T eqn:HT. revert c HT.
  induction (shrinks_wf T) as [T _ IH]. intros c ->. constructor. intros c' Hc.
  eapply IH; [|reflexivity]. by apply quiet_step_shrinks.
Qed.

(** ** The order of the table's operations *)

Definition op_of {R} (a : action R) : list op :=
  match a with
  | MapInsert fd st_ino => [OpInsert fd st_ino]
  | MapForget key n => [OpForget key n]
  | _ => []
  end.

(** The operations on the inode table, in the order they took effect. *)
Definition event_ops (c : conf (ledger B)) (ev : event) : list op :=
  match ev with
  | Step t => match cf_tasks c !! t with
              | Some {| tk_prog := Act a _ |} => op_of a
              | _ => []
              end
  | _ => []
  end.

Fixpoint history (c : conf (ledger B)) (evs : list event) : list op :=
  match evs with
  | [] => []
  | ev :: evs' => event_ops c ev ++
      match exec1 sys c ev with Some c' => history c' evs' | None => [] end
  end.

Lemma history_snoc c evs ev c' :
  exec sys c evs = Some c' -> history c (evs ++ [ev]) = history c evs ++ event_ops c' ev.
Proof.
  revert c. induction evs as [|ev' evs IH]; intros c He; cbn [history exec app] in *.
  - injection He as <-. by destruct (exec1 sys c ev); rewrite ?app_nil_r.
  - destruct (exec1 sys c ev') as [c1|]; [|done]. by rewrite IH, app_assoc.
Qed.

(** One action: the table it stands for changes by the operation, if any. *)
Lemma act_linearizes {R} t cb (a : action R) s r s' R0 K h :
  table_ok R0 (sh_table s) -> (forall p, needs t a = [Ref p] -> exists R1, R0 ≡ₚ p :: R1) ->
  allowed t cb a K h -> act sys t a s = Ran r s' ->
  abs (sh_table s') = fst (apply_ops (abs (sh_table s)) (op_of a)).
Proof.
  intros Hok Href Hal Ha. destruct a; unfold act, guarded, ran_table in Ha;
    repeat match type of Ha with
    | (if ?b then _ else Undefined) = Ran _ _ => destruct b; [|discriminate Ha]
    end; cbn [op_of needs allowed] in *.
  - destruct (lock_acquire _ _ _); [|done]. by injection Ha as <- <-.
  - by injection Ha as <- <-.
  - destruct (tb_get_spec _ _ n Hok) as (p & tb' & Hg & _ & Habs & _). rewrite Hg in Ha.
    by injection Ha as <- <-.
  - destruct (tb_insert_spec _ _ fd st_ino Hok) as (moved & tb' & Hg & _ & Habs & _). rewrite Hg in Ha.
    injection Ha as <- <-. cbn. by rewrite Habs.
  - destruct (tb_forget_spec _ _ key n Hok) as (fd & tb' & Hg & _ & Habs & _). rewrite Hg in Ha.
    injection Ha as <- <-. destruct Hal as [_ Hk]. cbn. unfold forget.
    destruct (Z.eqb_spec key NodeId_root); [done|]. by destruct (forget_locked _ _ _).
  - destruct (Href p eq_refl) as (R1 & HR). rewrite HR in Hok.
    destruct (tb_release_spec _ _ p Hok) as (last & tb' & Hg & _ & Habs & _). rewrite Hg in Ha.
    by injection Ha as <- <-.
  - by injection Ha as <- <-.
  - destruct (sh_files s !! _); by injection Ha as <- <-.
  - by injection Ha as <- <-.
  - by injection Ha as <- <-.
  - by injection Ha as <- <-.
  - by injection Ha as <- <-.
  - destruct (sys A c _) as [x b]. by injection Ha as <- <-.
Qed.

Lemma apply_ops_app t ops ops' :
  fst (apply_ops t (ops ++ ops')) = fst (apply_ops (fst (apply_ops t ops)) ops').
Proof.
  induction ops' as [|o ops' IH] using rev_ind; [by rewrite app_nil_r|].
  rewrite app_assoc, !apply_ops_snoc.
  destruct (apply_ops t (ops ++ ops')) as [t1 c1], (apply_ops (fst (apply_ops t ops)) ops') as [t2 c2].
  cbn in IH. subst t2. by destruct (apply_op t1 o).
Qed.

Lemma exec1_linearizes c H ev c' :
  safe c H -> exec1 sys c ev = Some c' ->
  abs (sh_table (cf_shared c')) = fst (apply_ops (abs (sh_table (cf_shared c))) (event_ops c ev)).
Proof.
  intros Hi He. destruct ev as [t cb|t|t]; cbn [exec1 event_ops] in *.
  - destruct (cf_tasks c !! t); [done|]. by injection He as <-.
  - destruct (cf_tasks c !! t) as [[cb [ans|R a k]]|] eqn:Et; [done| |done].
    destruct (act sys t a (cf_shared c)) as [r s'| |] eqn:Ea; [|done..]. injection He as <-.
    pose proof (safe_wt _ _ Hi t) as Hwt. rewrite Et in Hwt.
    destruct (H !! t) as [[K h]|] eqn:EH; [|done]. destruct Hwt as (F & Hh & Hal & _).
    refine (act_linearizes t cb a _ r s' _ K h (safe_table _ _ Hi) _ Hal Ea).
    intros p Hp. destruct (all_hands_split H t K h EH) as [Hall _]. rewrite Hp in Hh.
    exists (refs_of (F ++ all_hands (delete t H))). by rewrite Hall, Hh.
  - destruct (cf_tasks c !! t) as [[cb [ans|R a k]]|]; [|done..]. by injection He as <-.
Qed.

Lemma exec_linearizes b backing evs c :
  let c0 := conf_make backing (ledger_start b backing) in
  exec sys c0 evs = Some c ->
  abs (sh_table (cf_shared c)) = fst (apply_ops (InodeTable_make backing) (history c0 evs)).
Proof.
  intros c0. revert c. induction evs as [|ev evs IH] using rev_ind; intros c He.
  { injection He as <-. apply abs_make. }
  rewrite exec_snoc in He. destruct (exec sys c0 evs) as [c1|] eqn:E1; [|done].
  destruct (exec_safe b backing evs c1 E1) as (H & Hi & _).
  rewrite (exec1_linearizes _ _ _ _ Hi He), (IH c1 eq_refl).
  by rewrite (history_snoc _ _ _ _ E1), apply_ops_app.
Qed.

(** A thread with the lock keeps the others out. *)
Lemma act_excluded {R} t t' m (a : action R) s r s' H :
  (forall l, lock_ok l (sh_lock s l) H) -> t <> t' -> act sys t' a s = Ran r s' ->
  (forall l, holds t m (sh_lock s l) = true -> may_write t' (sh_lock s l) = false).
Proof.
  intros Hk Hne Ha l Hh. destruct (Hk l) as [_ Hx]. unfold may_write, holds in *.
  apply bool_decide_eq_false. intros Hw. rewrite Hw in *. destruct m; apply bool_decide_eq_true in Hh.
  - rewrite Hx in Hh by done. by apply not_elem_of_nil in Hh.
  - congruence.
Qed.
End Executions.

(** ** Theorems *)

Section Theorems.
Context {B : Type} (sys0 : forall A, syscall A -> B -> expected A * B) (b : B) (backing : Z).
#[local] Abbreviation sys := (tracked sys0).

(** A new daemon, its descriptors in the ledger. *)
Definition start_conf : conf (ledger B) := conf_make backing (ledger_start b backing).

Definition next_action_defined (c : conf (ledger B)) : Prop :=
  forall t cb R (a : action R) k,
    cf_tasks c !! t = Some {| tk_cb := cb; tk_prog := Act a k |} ->
    act sys t a (cf_shared c) <> Undefined.

(** C14: no data race. However the callbacks of any requests are interleaved, no
    thread is ever about to touch the inode, file or directory table without
    the lock that guards it (exclusively, to change it), to give back a lock it
    does not hold, or to follow a pointer to an inode that was destroyed; and
    while a thread holds the table's lock, in either mode, no step of another
    thread changes what the table contains. *)
Theorem threads_race_free evs c :
  exec sys start_conf evs = Some c ->
  next_action_defined c /\
  (forall t t' m c', holds t m (sh_lock (cf_shared c) table_mu) = true -> t <> t' ->
     exec1 sys c (Step t') = Some c' ->
     abs (sh_table (cf_shared c')) = abs (sh_table (cf_shared c))).
Proof.
  intros He. destruct (exec_safe sys0 b backing evs c He) as (H & Hi & _). split.
  - intros t cb R a k Et Ea. pose proof (safe_wt _ _ Hi t) as Hwt. rewrite Et in Hwt.
    destruct (H !! t) as [[K h]|] eqn:EH; [|done]. destruct Hwt as (F & Hh & Hal & _).
    destruct (all_hands_split H t K h EH) as [Hall _].
    refine (act_defined sys0 t cb a _ K h (all_hands (delete t H)) _ _ _ Hal Ea).
    + rewrite <- Hall. apply (safe_table _ _ Hi).
    + intros l. rewrite <- Hall. apply (safe_locks _ _ Hi).
    + by exists F.
  - intros t t' m c' Hh Hne He'. rewrite (exec1_linearizes sys0 _ _ _ _ Hi He').
    cbn [exec1 event_ops] in *. destruct (cf_tasks c !! t') as [[cb [ans|R a k]]|]; [done| |done].
    destruct (act sys t' a (cf_shared c)) as [r s'| |] eqn:Ea; [|done..].
    pose proof (act_excluded sys0 t t' m a _ r s' _ (safe_locks _ _ Hi) Hne Ea table_mu Hh) as Hw.
    destruct a; try done; unfold act in Ea; by rewrite Hw in Ea.
Qed.

(** C15: no descriptor leaks or is closed twice, whatever the interleaving. In
    every state that any threads running any callbacks can reach, nothing was
    closed that was not open, and everything the tables own is open, each once;
    when no callback is running, what is open is exactly what the inode, file
    and directory tables own. *)
Theorem threads_own_descriptors evs c :
  exec sys start_conf evs = Some c -> zlen evs < 2 ^ 64 ->
  let s := cf_shared c in
  lg_bad (sh_sys s) = false /\ table_owned s ⊆+ lg_live (sh_sys s) /\
  (cf_tasks c = ∅ ->
   lg_live (sh_sys s) ≡ₚ map Fdesc (table_fds (abs (sh_table s))) ++
     map (fun x => Fdesc (snd x)) (map_to_list (sh_files s)) ++
     map (fun x => Stream (snd x)) (map_to_list (sh_dirs s))).
Proof.
  intros He Hn s. destruct (exec_safe sys0 b backing evs c He) as (H & Hi & Ho).
  destruct (Ho Hn) as [Hbad Hlive _ _]. split; [done|]. split.
  - fold s in Hlive. rewrite Hlive. by apply submseteq_inserts_l.
  - intros Ht. pose proof (idle_hands _ _ Hi Ht) as HH.
    pose proof (safe_table _ _ Hi) as Htab. rewrite HH in Hlive, Htab.
    unfold s. rewrite Hlive. unfold table_owned. by rewrite (idle_fds _ Htab).
Qed.

(** C16: every request is answered. In every state that can be reached, as long
    as a callback is in flight some thread can take a step: threads do not wait
    for each other's locks in a circle. If no further request arrives, an
    execution cannot go on for ever, however the threads are scheduled; and some
    schedule leads to a state in which every callback has ended. *)
Theorem requests_complete evs c :
  exec sys start_conf evs = Some c ->
  (cf_tasks c <> ∅ -> exists c', quiet_step sys0 c' c) /\ Acc (quiet_step sys0) c /\
  exists evs' c', forallb quiet evs' = true /\ exec sys c evs' = Some c' /\ cf_tasks c' = ∅.
Proof.
  intros He. destruct (exec_safe sys0 b backing evs c He) as (H & Hi & _). clear He evs. split.
  { intros Hne. destruct (no_deadlock sys0 c H Hi Hne) as (ev & c' & Hq & Hs). exists c'. by exists ev. }
  split; [apply quiet_step_wf|]. revert H Hi. induction (quiet_step_wf sys0 c) as [c _ IH]. intros H Hi.
  destruct (decide (cf_tasks c = ∅)) as [Ht|Hne]; [by exists [], c|].
  destruct (no_deadlock sys0 c H Hi Hne) as (ev & c1 & Hq & Hs).
  destruct (exec1_safe sys0 _ _ _ _ Hi Hs) as (H1 & _ & Hi1).
  destruct (IH c1 ltac:(by exists ev) H1 Hi1) as (evs & c' & Hqs & He & Ht).
  exists (ev :: evs), c'. cbn [forallb exec]. by rewrite Hq, Hs.
Qed.

(** C19: the shared table refines the sequential one. Whatever the interleaving,
    the table the pointers stand for is the one obtained by running the
    insertions and FORGETs of all threads one after the other, in the order in
    which their critical sections took effect. *)
Theorem table_linearizes evs c :
  exec sys start_conf evs = Some c ->
  abs (sh_table (cf_shared c)) =
    fst (apply_ops (InodeTable_make backing) (history sys0 start_conf evs)).
Proof. apply exec_linearizes. Qed.
End Theorems.

(** ** Witnesses *)

(** Two threads look up names in the root that lead to the same inode, their
    first five steps alternating; one is then preempted before it drops its
    pointer to the root. *)
Definition demo_lookup (name : byte) : callback := CbLookupx demo_ctx 1 [name].

Definition demo_overlap : list event :=
  [Arrive 0 (demo_lookup Byte.x61); Arrive 1 (demo_lookup Byte.x62)] ++
  concat (replicate 5 [Step 0; Step 1]) ++ replicate 3 (Step 0) ++ replicate 5 (Step 1).

(** Both reply, and the kernel forgets the inode. *)
Definition demo_complete : list event :=
  demo_overlap ++ [Step 0; Reply 0; Reply 1; Arrive 2 (CbForget 42 2)] ++ replicate 4 (Step 2) ++ [Reply 2].

#[local] Abbreviation demo_run := (exec (tracked demo_sys) (start_conf 4%nat 3)).

Lemma threads_race_free_witness :
  exists c, demo_run demo_overlap = Some c /\ next_action_defined demo_sys c.
Proof.
  destruct (demo_run demo_overlap) as [c|] eqn:E; [|vm_compute in E; discriminate].
  exists c. split; [done|]. by apply (threads_race_free demo_sys 4%nat 3 demo_overlap).
Defined.

Lemma threads_own_descriptors_witness :
  exists c, demo_run demo_complete = Some c /\
    lg_live (sh_sys (cf_shared c)) ≡ₚ map Fdesc (table_fds (abs (sh_table (cf_shared c)))) ++
      map (fun x => Fdesc (snd x)) (map_to_list (sh_files (cf_shared c))) ++
      map (fun x => Stream (snd x)) (map_to_list (sh_dirs (cf_shared c))).
Proof.
  assert (Hc : (fun c => size (cf_tasks c)) <$> demo_run demo_complete = Some 0%nat) by
    (vm_compute; reflexivity).
  destruct (demo_run demo_complete) as [c|] eqn:E; [|discriminate].
  exists c. split; [done|]. injection Hc as Hc.
  apply (threads_own_descriptors demo_sys 4%nat 3 demo_complete c E); [done|].
  by apply map_size_empty_inv.
Defined.

Lemma requests_complete_witness :
  exists c, demo_run demo_overlap = Some c /\ exists c', quiet_step demo_sys c' c.
Proof.
  assert (Hc : (fun c => size (cf_tasks c)) <$> demo_run demo_overlap = Some 2%nat) by
    (vm_compute; reflexivity).
  destruct (demo_run demo_overlap) as [c|] eqn:E; [|discriminate].
  exists c. split; [done|]. injection Hc as Hc.
  apply (requests_complete demo_sys 4%nat 3 demo_overlap c E). intros Ht. by rewrite Ht in Hc.
Defined.

Lemma table_linearizes_witness :
  exists c, demo_run demo_complete = Some c /\
    abs (sh_table (cf_shared c)) = fst (apply_ops (InodeTable_make 3) [OpInsert 4 42; OpInsert 5 42; OpForget 42 2]).
Proof.
  destruct (demo_run demo_complete) as [c|] eqn:E; [|vm_compute in E; discriminate].
  exists c. split; [done|]. exact (table_linearizes demo_sys 4%nat 3 demo_complete c E).
Defined.
