(* ===== verification/KernelProtocol.v ===== *)
(** * What the kernel's order of requests gives

    The kernel does not send just any request at any time: it names a node only
    while it has a reference to it, gives back no more references than it has
    and keeps one while a request on the node is in flight, and closes a handle
    only when nothing else is using it. Under that protocol, and for any
    interleaving, the table's counts are the kernel's, a node that a request
    names is found, and every system call works on open descriptors. The last
    is shown without the protocol for the callbacks that hold what they use; the
    others do depend on it. *)

From S2P Require Import Prelude Memory Pod Abi Types DirentWriter Filesystem Replier Handlers.
From S2P Require Import Callbacks InodeTable Passthrough PassthroughSafety.
From S2P Require Import SharedTable Threads ThreadedDaemon Ownership Interleaving.
From stdpp Require Import gmap functions.
#[local] Open Scope Z_scope.

(** ** The protocol *)

(** Some request in flight names node [n]. *)
Definition in_use (T : gmap nat task) (n : Z) : Prop :=
  exists t tk, T !! t = Some tk /\ n ∈ names (tk_cb tk).

(** Handles used and closed do not meet. *)
Definition handles_apart (cb cb' : callback) : Prop :=
  (forall fh, fh ∈ file_closes cb -> fh ∉ file_uses cb') /\
  (forall fh, fh ∈ dir_closes cb -> fh ∉ dir_uses cb').

(** The kernel may send [cb] in [c]. *)
Record may_send {B} (c : conf B) (cb : callback) : Prop := {
  send_names : forall n, n ∈ names cb -> n <> NodeId_root -> 0 < cf_kernel c n;
  send_counts : forall n k, Debit n k ∈ debits cb -> 0 <= k;
  send_forget : forall n, n <> NodeId_root -> debit_sum n (debits cb) <= cf_kernel c n;
  send_keeps : forall n, n <> NodeId_root -> in_use (cf_tasks c) n ->
    debit_sum n (debits cb) < cf_kernel c n;
  send_handles : forall t tk, cf_tasks c !! t = Some tk ->
    handles_apart cb (tk_cb tk) /\ handles_apart (tk_cb tk) cb;
}.

Section Protocol.
Context {B : Type} (sys : forall A, syscall A -> B -> expected A * B).

(** Every request of the execution was sent when it may be. *)
Fixpoint polite (c : conf B) (evs : list event) : Prop :=
  match evs with
  | [] => True
  | ev :: evs' =>
      match ev with Arrive _ cb => may_send c cb | _ => True end /\
      match exec1 sys c ev with Some c' => polite c' evs' | None => True end
  end.

Lemma polite_snoc c evs ev c' :
  polite c (evs ++ [ev]) -> exec sys c evs = Some c' ->
  polite c evs /\ match ev with Arrive _ cb => may_send c' cb | _ => True end.
Proof.
  revert c. induction evs as [|ev' evs IH]; intros c; cbn [polite exec app].
  - intros [Hev _] [= <-]. done.
  - intros [Hev Hrest]. destruct (exec1 sys c ev') as [c1|]; [|done]. intros He.
    destruct (IH c1 Hrest He) as [? ?]. done.
Qed.
End Protocol.

(** ** Counts in hands *)

Lemma credit_sum_app n h h' : credit_sum n (h ++ h') = credit_sum n h + credit_sum n h'.
Proof. induction h as [|[] h IH]; simpl; rewrite ?IH; lia. Qed.

Lemma debit_sum_app n h h' : debit_sum n (h ++ h') = debit_sum n h + debit_sum n h'.
Proof. induction h as [|[] h IH]; simpl; rewrite ?IH; lia. Qed.

#[export] Instance credit_sum_perm n : Proper ((≡ₚ) ==> eq) (credit_sum n).
Proof. intros h h' Hh. induction Hh as [|[] l l' _ IH|[] [] l|]; simpl; lia. Qed.

#[export] Instance debit_sum_perm n : Proper ((≡ₚ) ==> eq) (debit_sum n).
Proof. intros h h' Hh. induction Hh as [|[] l l' _ IH|[] [] l|]; simpl; lia. Qed.

Lemma credit_sum_nonneg n h : 0 <= credit_sum n h.
Proof. induction h as [|[] h IH]; simpl; try done. case_if; lia. Qed.

(** Debits of nonnegative counts. *)
Definition debits_ok (h : hand) : Prop := forall n k, Debit n k ∈ h -> 0 <= k.

Lemma debit_sum_nonneg n h : debits_ok h -> 0 <= debit_sum n h.
Proof.
  unfold debits_ok. induction h as [|x h IH]; intros Hd; [done|].
  assert (0 <= debit_sum n h) by (apply IH; intros m k Hin; apply (Hd m k); by right).
  destruct x as [| | | |m k]; try done. simpl. pose proof (Hd m k ltac:(left)). case_if; lia.
Qed.

#[export] Instance debits_ok_perm : Proper ((≡ₚ) ==> iff) debits_ok.
Proof. intros h h' Hh. unfold debits_ok. by setoid_rewrite Hh. Qed.

Lemma debits_ok_app h h' : debits_ok (h ++ h') <-> debits_ok h /\ debits_ok h'.
Proof.
  unfold debits_ok. setoid_rewrite elem_of_app. split.
  - intros H. split; intros n k Hin; apply (H n k); auto.
  - intros [H1 H2] n k [Hin|Hin]; eauto.
Qed.

(** ** The invariant *)

(** The references to [n] the table must count. *)
Definition total {B} (c : conf B) (H : hands) (n : Z) : Z :=
  cf_kernel c n + credit_sum n (all_hands H) + debit_sum n (all_hands H).

(** A sighting that is still true. *)
Definition valid {B} (s : shared B) (f : sighting) : Prop :=
  match f with
  | Seen n fd => exists i, abs (sh_table s) !! n = Some i /\ in_path_fd i = fd
  | Lent fh fd => sh_files s !! fh = Some fd
  | LentDir fh d => sh_dirs s !! fh = Some d
  end.

(** Of something the callback uses. *)
Definition concerns (cb : callback) (f : sighting) : Prop :=
  match f with
  | Seen n _ => n ∈ names cb
  | Lent fh _ => fh ∈ file_uses cb
  | LentDir fh _ => fh ∈ dir_uses cb
  end.

Record lawful {B} (backing n : Z) (c : conf B) (H : hands) : Prop := {
  law_counts : counts (abs (sh_table (cf_shared c))) (total c H);
  law_bound : forall m, m <> NodeId_root -> total c H m <= n;
  law_debits : debits_ok (all_hands H);
  law_kernel : forall m, m <> NodeId_root -> 0 <= cf_kernel c m;
  law_names : forall m, m <> NodeId_root -> in_use (cf_tasks c) m -> 0 < cf_kernel c m;
  law_root : root_pinned backing (abs (sh_table (cf_shared c)));
  law_seen : forall t tk K h f, cf_tasks c !! t = Some tk -> H !! t = Some (K, h) -> f ∈ K ->
    valid (cf_shared c) f /\ concerns (tk_cb tk) f;
  law_handles : forall t t' tk tk', cf_tasks c !! t = Some tk -> cf_tasks c !! t' = Some tk' ->
    handles_apart (tk_cb tk) (tk_cb tk');
}.

(** ** One action *)

Definition hand_sum (m : Z) (h : hand) : Z := credit_sum m h + debit_sum m h.

Lemma hand_sum_app m h h' : hand_sum m (h ++ h') = hand_sum m h + hand_sum m h'.
Proof. unfold hand_sum. rewrite credit_sum_app, debit_sum_app. lia. Qed.

Lemma node_credit_sum m n : m <> NodeId_root -> hand_sum m (node_credit n) = if n =? m then 1 else 0.
Proof.
  intros Hm. unfold node_credit, hand_sum. destruct (Z.eqb_spec n NodeId_root) as [->|Hn];
    cbn [credit_sum debit_sum foldr].
  - destruct (Z.eqb_spec NodeId_root m); [congruence|done].
  - case_if; lia.
Qed.

Lemma debits_sum m cb : credit_sum m (debits cb) = 0.
Proof.
  assert (Hi : forall item, credit_sum m (item_debit item) = 0).
  { intros item. unfold item_debit. by case_if. }
  destruct cb; try done; [apply Hi|]. cbn [debits]. induction items as [|item items IH]; [done|].
  cbn [flat_map]. by rewrite credit_sum_app, Hi, IH.
Qed.

Lemma credits_sum m ans : debit_sum m (credits ans) = 0.
Proof.
  destruct ans as [| | |[e|e]| | | | | | |]; try done. cbn [credits]. destruct (eo_negative e); [done|].
  unfold node_credit. by case_if.
Qed.

(** What an action does to the counts in hands is what it does to the kernel's. *)
Lemma act_sums {R} t (a : action R) r m :
  m <> NodeId_root ->
  hand_sum m (gives t a r) - hand_sum m (needs t a) = refs m (op_of a).
Proof.
  intros Hm. destruct a; cbn [gives needs op_of refs foldr refs_of_op]; try done.
  - by destruct r.
  - rewrite hand_sum_app, node_credit_sum by done. change (hand_sum m [Own (Fdesc fd)]) with 0.
    destruct r; [change (hand_sum m []) with 0|change (hand_sum m [Own (Fdesc fd)]) with 0]; lia.
  - assert (hand_sum m (fd_back r) = 0) as -> by by destruct r.
    unfold hand_sum. cbn [credit_sum debit_sum foldr]. lia.
  - by destruct r.
  - by destruct r as [? []].
  - by destruct r.
  - by destruct r.
  - destruct c; try done; by destruct r.
Qed.

Lemma op_of_short {R} (a : action R) : op_of a = [] \/ exists o, op_of a = [o] /\ op_of a <> [].
Proof. destruct a; cbn [op_of]; eauto. Qed.

Section OneAction.
Context {B : Type} (sys0 : forall A, syscall A -> B -> expected A * B).
#[local] Abbreviation sys := (tracked sys0).

(** A node that must stay keeps its entry and its descriptor. *)
Lemma forget_locked_keeps (tb : InodeTable) (key k m : Z) i :
  tb !! m = Some i -> (key = m -> k < in_nlookup i) ->
  exists i', fst (forget_locked tb key k) !! m = Some i' /\ in_path_fd i' = in_path_fd i.
Proof.
  intros Hm Hk. destruct (decide (key = m)) as [->|Hne].
  - unfold forget_locked. rewrite Hm. specialize (Hk eq_refl).
    destruct (Z.leb_spec (in_nlookup i) k); [lia|].
    destruct (Z.eqb_spec (in_nlookup i - k) 0); [lia|]. cbn [fst]. rewrite lookup_insert_eq. eauto.
  - rewrite forget_locked_other by done. eauto.
Qed.

Lemma insert_inode_keeps (tb : InodeTable) fd (ino m : Z) i :
  tb !! m = Some i ->
  exists i', fst (fst (insert_inode tb fd ino)) !! m = Some i' /\ in_path_fd i' = in_path_fd i.
Proof.
  intros Hm. unfold insert_inode. destruct (decide (ino = m)) as [->|Hne].
  - rewrite Hm. cbn [fst]. rewrite lookup_insert_eq. eauto.
  - destruct (tb !! ino); cbn [fst]; rewrite lookup_insert_ne by done; eauto.
Qed.

Lemma op_keeps {R} t (a : action R) cb K h (tb : InodeTable) m i :
  allowed t cb a K h -> tb !! m = Some i ->
  (forall k, needs t a = [Debit m k] -> k < in_nlookup i) ->
  exists i', fst (apply_ops tb (op_of a)) !! m = Some i' /\ in_path_fd i' = in_path_fd i.
Proof.
  intros Hal Hm Hk. destruct a; cbn [op_of]; eauto.
  - cbn. pose proof (insert_inode_keeps tb fd st_ino m i Hm) as Hi.
    by destruct (insert_inode tb fd st_ino) as [[tb' ?] ?].
  - destruct Hal as [_ Hr]. cbn. unfold forget. destruct (Z.eqb_spec key NodeId_root); [done|].
    edestruct (forget_locked_keeps tb key n m i Hm) as (i' & Hi' & Hf).
    { intros ->. by apply Hk. }
    exists i'. by destruct (forget_locked tb key n).
Qed.

(** An open file stays open unless its handle is closed. *)
Lemma files_keep {R} t cb (a : action R) s r s' K h fh fd :
  act sys t a s = Ran r s' -> allowed t cb a K h -> fh ∉ file_closes cb ->
  sh_files s !! fh = Some fd -> sh_files s' !! fh = Some fd.
Proof.
  intros Ha Hal Hc Hf. destruct a; unfold act, guarded, ran_table in Ha; cbn [allowed] in Hal;
    repeat match type of Ha with
    | (if ?b then _ else Undefined) = Ran _ _ => destruct b; [|discriminate Ha]
    | match ?x with Some _ => _ | None => Undefined end = Ran _ _ => destruct x as [[]|]; [|discriminate Ha]
    | match ?x with Some _ => _ | None => Blocked end = Ran _ _ => destruct x; [|discriminate Ha]
    end; try (by injection Ha as <- <-).
  - destruct (sh_files s !! _) as [fd'|] eqn:E; injection Ha as <- <-; [done|].
    cbn [set_files sh_files]. rewrite lookup_insert_ne; [done|]. congruence.
  - injection Ha as <- <-. cbn [set_files sh_files]. destruct Hal as [_ Hin].
    rewrite lookup_delete_ne; [done|]. by intros <-.
  - destruct (sys A c _) as [x b]. by injection Ha as <- <-.
Qed.

Lemma dirs_keep {R} t cb (a : action R) s r s' K h fh d n H :
  act sys t a s = Ran r s' -> allowed t cb a K h -> fh ∉ dir_closes cb -> owns n s H ->
  n + 1 < 2 ^ 64 -> sh_dirs s !! fh = Some d -> sh_dirs s' !! fh = Some d.
Proof.
  intros Ha Hal Hc [_ _ Hd Hid] Hn Hf. destruct a; unfold act, guarded, ran_table in Ha; cbn [allowed] in Hal;
    repeat match type of Ha with
    | (if ?b then _ else Undefined) = Ran _ _ => destruct b; [|discriminate Ha]
    | match ?x with Some _ => _ | None => Undefined end = Ran _ _ => destruct x as [[]|]; [|discriminate Ha]
    | match ?x with Some _ => _ | None => Blocked end = Ran _ _ => destruct x; [|discriminate Ha]
    end; try (by injection Ha as <- <-).
  - destruct (sh_files s !! _); by injection Ha as <- <-.
  - injection Ha as <- <-. cbn [set_dirs sh_dirs]. rewrite wrapu_small by lia.
    rewrite lookup_insert_ne; [done|]. intros <-. apply Hd in Hf. lia.
  - injection Ha as <- <-. cbn [set_dirs sh_dirs]. destruct Hal as [_ Hin].
    rewrite lookup_delete_ne; [done|]. by intros <-.
  - destruct (sys A c _) as [x b]. by injection Ha as <- <-.
Qed.

(** What an action shows is there. *)
Lemma learns_valid {R} t cb (a : action R) s r s' K h R0 f :
  table_ok R0 (sh_table s) -> act sys t a s = Ran r s' -> allowed t cb a K h -> f ∈ learns a r ->
  valid s' f /\ concerns cb f.
Proof.
  intros Hok Ha Hal Hf. destruct a; cbn [learns] in Hf; try (by apply not_elem_of_nil in Hf);
    unfold act, guarded, ran_table in Ha; cbn [allowed] in Hal.
  - destruct (may_read _ _); [|done]. destruct Hal as [_ Hn].
    destruct (tb_get_spec _ _ n Hok) as (p & tb' & Hg & _ & Habs & _ & _ & _ & Hfd). rewrite Hg in Ha.
    injection Ha as <- <-. destruct p as [p|]; [|by apply not_elem_of_nil in Hf].
    apply list_elem_of_singleton in Hf as ->. split; [|done]. cbn [valid set_table sh_table].
    rewrite Habs. unfold get in Hfd. destruct (abs _ !! _) as [i|]; [|done]. injection Hfd as Hfd. eauto.
  - destruct (may_read _ _); [|done]. injection Ha as <- <-. destruct Hal as [_ Hn].
    destruct (sh_files s !! _) as [fd|] eqn:E; [|by apply not_elem_of_nil in Hf].
    by apply list_elem_of_singleton in Hf as ->.
  - destruct (may_read _ _); [|done]. injection Ha as <- <-. destruct Hal as [_ Hn].
    destruct (sh_dirs s !! _) as [fd|] eqn:E; [|by apply not_elem_of_nil in Hf].
    by apply list_elem_of_singleton in Hf as ->.
Qed.

Lemma act_valid {R} t cb (a : action R) s r s' n H K h f :
  act sys t a s = Ran r s' -> allowed t cb a K h -> owns n s H -> n + 1 < 2 ^ 64 ->
  abs (sh_table s') = fst (apply_ops (abs (sh_table s)) (op_of a)) ->
  match f with
  | Seen m _ => forall i k, abs (sh_table s) !! m = Some i -> needs t a = [Debit m k] -> k < in_nlookup i
  | Lent fh _ => fh ∉ file_closes cb
  | LentDir fh _ => fh ∉ dir_closes cb
  end -> valid s f -> valid s' f.
Proof.
  intros Ha Hal Ho Hn Habs Hf. destruct f as [m fd|fh fd|fh d]; cbn [valid].
  - intros (i & Hi & <-). rewrite Habs. eapply op_keeps; [exact Hal|exact Hi|]. intros k. by apply Hf.
  - by eapply files_keep.
  - by eapply dirs_keep.
Qed.
End OneAction.

(** ** Executions *)

Definition is_debit (k : token) : bool := match k with Debit _ _ => true | _ => false end.

Lemma no_debits h : existsb is_debit h = false -> debits_ok h.
Proof.
  intros Hno n k Hin. exfalso. apply not_true_iff_false in Hno. apply Hno.
  apply existsb_exists. exists (Debit n k). split; [by apply list_elem_of_In|done].
Qed.

Lemma gives_debits {R} t (a : action R) r : debits_ok (gives t a r).
Proof.
  apply no_debits. destruct a; cbn [gives]; try done.
  - by destruct r.
  - unfold node_credit. destruct r; by case_if.
  - by destruct r.
  - by destruct r.
  - by destruct r as [? []].
  - by destruct r.
  - by destruct r.
  - destruct c; try done; by destruct r.
Qed.

Lemma op_refs_bound {R} t (a : action R) m :
  debits_ok (needs t a) -> refs m (op_of a) <= 1 /\ Forall op_ok (op_of a).
Proof.
  intros Hd. destruct a; cbn [op_of]; (split; [cbn|]); try done; try lia.
  - case_if; lia.
  - by repeat constructor.
  - pose proof (Hd key n ltac:(left)). case_if; lia.
  - repeat constructor. apply (Hd key n). left.
Qed.

Lemma counts_ops_short tb c ops :
  (length ops <= 1)%nat -> counts tb c -> Forall op_ok ops ->
  (forall n, n <> NodeId_root -> 0 <= c n + refs n ops < 2 ^ 64) ->
  counts (fst (apply_ops tb ops)) (fun m => c m + refs m ops).
Proof.
  destruct ops as [|o [|]]; cbn [length]; [| |lia]; intros _ Hc Hok Hb.
  - eapply counts_ext; [|exact Hc]. intros m. cbn. lia.
  - apply Forall_inv in Hok. cbn [refs foldr] in *. setoid_rewrite Z.add_0_r in Hb.
    pose proof (counts_op tb c o Hc Hok Hb) as Ho. cbn. destruct (apply_op tb o) as [tb' ?].
    eapply counts_ext; [|exact Ho]. intros m. cbn. lia.
Qed.

Lemma op_of_length {R} (a : action R) : (length (op_of a) <= 1)%nat.
Proof. destruct a; cbn; lia. Qed.

Lemma root_pinned_short backing tb ops :
  (length ops <= 1)%nat -> root_pinned backing tb -> root_pinned backing (fst (apply_ops tb ops)).
Proof.
  destruct ops as [|o [|]]; cbn [length]; [done| |lia]. intros _ Hr.
  apply (root_pinned_op _ _ o) in Hr. cbn. by destruct (apply_op tb o).
Qed.

(** The same requests in flight. *)
Definition same_requests (T T' : gmap nat task) : Prop :=
  forall t tk', T' !! t = Some tk' -> exists tk, T !! t = Some tk /\ tk_cb tk = tk_cb tk'.

Lemma same_requests_step T t cb p p' :
  T !! t = Some {| tk_cb := cb; tk_prog := p |} ->
  same_requests T (<[t := {| tk_cb := cb; tk_prog := p' |}]> T).
Proof.
  intros Ht t' tk'. destruct (decide (t = t')) as [<-|Hne].
  - rewrite lookup_insert_eq. intros [= <-]. eauto.
  - rewrite lookup_insert_ne by done. eauto.
Qed.

Lemma same_requests_delete T t : same_requests T (delete t T).
Proof. intros t' tk' [_ Ht]%lookup_delete_Some. eauto. Qed.

Lemma in_use_same T T' n : same_requests T T' -> in_use T' n -> in_use T n.
Proof. intros Hs (t & tk' & Ht & Hn). destruct (Hs t tk' Ht) as (tk & Ht0 & Hcb). exists t, tk. by rewrite Hcb. Qed.

Lemma handles_same T T' :
  same_requests T T' ->
  (forall t t' tk tk', T !! t = Some tk -> T !! t' = Some tk' -> handles_apart (tk_cb tk) (tk_cb tk')) ->
  forall t t' tk tk', T' !! t = Some tk -> T' !! t' = Some tk' -> handles_apart (tk_cb tk) (tk_cb tk').
Proof.
  intros Hs Hh t t' tk tk' Ht Ht'. destruct (Hs _ _ Ht) as (k & Hk & <-).
  destruct (Hs _ _ Ht') as (k' & Hk' & <-). by eapply Hh.
Qed.

Section Lawful.
Context {B : Type} (sys0 : forall A, syscall A -> B -> expected A * B) (backing : Z).
#[local] Abbreviation sys := (tracked sys0).

Lemma total_hand (c : conf (ledger B)) H m : total c H m = cf_kernel c m + hand_sum m (all_hands H).
Proof. unfold total, hand_sum. lia. Qed.

#[local] Instance hand_sum_perm m : Proper ((≡ₚ) ==> eq) (hand_sum m).
Proof. intros h h' Hh. unfold hand_sum. by rewrite Hh. Qed.

Lemma hand_sum_nonneg m h : debits_ok h -> 0 <= hand_sum m h.
Proof. intros Hd. pose proof (credit_sum_nonneg m h). pose proof (debit_sum_nonneg m h Hd). unfold hand_sum. lia. Qed.

(** A step keeps the books of references. *)
Lemma step_counts n c H t cb R (a : action R) k r s' K h F :
  safe c H -> lawful backing n c H -> n + 1 < 2 ^ 64 ->
  cf_tasks c !! t = Some {| tk_cb := cb; tk_prog := Act a k |} -> H !! t = Some (K, h) ->
  act sys t a (cf_shared c) = Ran r s' -> h ≡ₚ needs t a ++ F -> allowed t cb a K h ->
  let H' := <[t := (learns a r ++ K, gives t a r ++ F)]> H in
  let c' := {| cf_shared := s'; cf_tasks := <[t := {| tk_cb := cb; tk_prog := k r |}]> (cf_tasks c);
               cf_kernel := cf_kernel c |} in
  abs (sh_table s') = fst (apply_ops (abs (sh_table (cf_shared c))) (op_of a)) /\
  debits_ok (all_hands H') /\ debits_ok (needs t a) /\
  (forall m, m <> NodeId_root -> total c' H' m = total c H m + refs m (op_of a)) /\
  counts (abs (sh_table s')) (total c' H').
Proof.
  intros Hs Hl Hn Et EH Ea Hh Hal H' c'.
  destruct (all_hands_advance t H K h (needs t a) F EH Hh) as [Hall Hset].
  specialize (Hset (learns a r ++ K) (gives t a r)). fold H' in Hset.
  assert (Habs : abs (sh_table s') = fst (apply_ops (abs (sh_table (cf_shared c))) (op_of a))).
  { refine (act_linearizes sys0 t cb a _ r s' _ K h (safe_table _ _ Hs) _ Hal Ea).
    intros p Hp. rewrite Hp in Hall. exists (refs_of (F ++ all_hands (delete t H))). by rewrite Hall. }
  pose proof (law_debits _ _ _ _ Hl) as Hd. rewrite Hall, debits_ok_app in Hd. destruct Hd as [Hdn HdF].
  assert (Hd' : debits_ok (all_hands H')).
  { rewrite Hset, debits_ok_app. split; [apply gives_debits|done]. }
  assert (Htot : forall m, m <> NodeId_root -> total c' H' m = total c H m + refs m (op_of a)).
  { intros m Hm. rewrite !total_hand, Hall, Hset, !hand_sum_app. cbn [cf_kernel c'].
    rewrite <- (act_sums t a r m Hm). lia. }
  do 4 (split; [done|]). rewrite Habs. pose proof (law_counts _ _ _ _ Hl) as Hc.
  pose proof (counts_ops_short _ _ (op_of a) (op_of_length a) Hc (proj2 (op_refs_bound t a 0 Hdn))) as Hc'.
  intros m Hm. rewrite (Htot m Hm). apply Hc'; [|done]. intros j Hj. rewrite <- (Htot j Hj).
  pose proof (hand_sum_nonneg j _ Hd'). pose proof (law_kernel _ _ _ _ Hl j Hj).
  pose proof (law_bound _ _ _ _ Hl j Hj). pose proof (proj1 (op_refs_bound t a j Hdn)).
  rewrite (Htot j Hj) at 2. rewrite total_hand. cbn [cf_kernel c']. lia.
Qed.

Lemma step_seen n c H t cb R (a : action R) k r s' K h F t' tk' K' h' f :
  safe c H -> lawful backing n c H -> owns n (cf_shared c) (all_hands H) -> n + 1 < 2 ^ 64 ->
  cf_tasks c !! t = Some {| tk_cb := cb; tk_prog := Act a k |} -> H !! t = Some (K, h) ->
  act sys t a (cf_shared c) = Ran r s' -> h ≡ₚ needs t a ++ F -> allowed t cb a K h ->
  cf_tasks c !! t' = Some tk' -> H !! t' = Some (K', h') -> f ∈ K' -> valid s' f.
Proof.
  intros Hs Hl Ho Hn Et EH Ea Hh Hal Et' EH' Hf.
  destruct (step_counts n c H t cb R a k r s' K h F Hs Hl Hn Et EH Ea Hh Hal)
    as (Habs & Hd' & Hdn & Htot & _).
  destruct (law_seen _ _ _ _ Hl _ _ _ _ _ Et' EH' Hf) as [Hv Hc].
  destruct (law_handles _ _ _ _ Hl _ _ _ _ Et Et') as [Hfa Hda].
  refine (act_valid sys0 t cb a _ r s' n (all_hands H) K h f Ea Hal Ho Hn Habs _ Hv).
  destruct f as [m fd|fh fd|fh d]; cbn [concerns tk_cb] in *; [|by intros ?%Hfa|by intros ?%Hda].
  intros i j Hi Hneed. destruct (decide (m = NodeId_root)) as [->|Hm].
  { destruct a; cbn [needs] in Hneed; try done; [by destruct Hal; simplify_eq|by destruct c0]. }
  pose proof (law_names _ _ _ _ Hl m Hm) as Hk. pose proof (law_counts _ _ _ _ Hl m Hm) as Hcnt.
  rewrite Hi in Hcnt. specialize (Htot m Hm). pose proof (hand_sum_nonneg m _ Hd') as Hnn.
  rewrite total_hand in Htot. cbn [cf_kernel] in Htot.
  assert (refs m (op_of a) = - j).
  { destruct a; cbn [needs] in Hneed; try done; [|by destruct c0]. injection Hneed as -> ->. cbn.
    rewrite Z.eqb_refl. lia. }
  assert (0 < cf_kernel c m) by (apply Hk; by exists t', tk'). lia.
Qed.

Lemma lawful_step n c H t cb R (a : action R) k r s' K h F :
  safe c H -> lawful backing n c H -> owns n (cf_shared c) (all_hands H) -> n + 1 < 2 ^ 64 ->
  cf_tasks c !! t = Some {| tk_cb := cb; tk_prog := Act a k |} -> H !! t = Some (K, h) ->
  act sys t a (cf_shared c) = Ran r s' -> h ≡ₚ needs t a ++ F -> allowed t cb a K h ->
  lawful backing (n + 1)
    {| cf_shared := s'; cf_tasks := <[t := {| tk_cb := cb; tk_prog := k r |}]> (cf_tasks c);
       cf_kernel := cf_kernel c |}
    (<[t := (learns a r ++ K, gives t a r ++ F)]> H).
Proof.
  intros Hs Hl Ho Hn Et EH Ea Hh Hal.
  destruct (step_counts n c H t cb R a k r s' K h F Hs Hl Hn Et EH Ea Hh Hal)
    as (Habs & Hd' & Hdn & Htot & Hcnt).
  pose proof (same_requests_step _ t cb _ (k r) Et) as Hsame.
  split; cbn [cf_shared cf_tasks cf_kernel]; try done.
  - intros m Hm. rewrite Htot by done. pose proof (proj1 (op_refs_bound t a m Hdn)).
    pose proof (law_bound _ _ _ _ Hl m Hm). lia.
  - apply Hl.
  - intros m Hm Hu. apply (law_names _ _ _ _ Hl); [done|]. by eapply in_use_same.
  - rewrite Habs. apply root_pinned_short; [apply op_of_length|apply Hl].
  - intros t' tk' K' h' f Et' EH' Hf. destruct (decide (t = t')) as [<-|Hne].
    + rewrite lookup_insert_eq in Et'. rewrite lookup_insert_eq in EH'. injection Et' as <-. injection EH' as <- <-.
      apply elem_of_app in Hf as [Hf|Hf].
      * eapply learns_valid; [apply Hs|done..].
      * split; [by eapply step_seen|]. by apply (law_seen _ _ _ _ Hl _ _ _ _ _ Et EH Hf).
    + rewrite lookup_insert_ne in Et' by done. rewrite lookup_insert_ne in EH' by done.
      split; [by eapply (step_seen n c H t)|]. by apply (law_seen _ _ _ _ Hl _ _ _ _ _ Et' EH' Hf).
  - eapply handles_same; [exact Hsame|]. apply Hl.
Qed.

Lemma names_no_debits cb n : n ∈ names cb -> debits cb = [].
Proof. destruct cb; cbn [names debits]; try done; by intros ?%not_elem_of_nil. Qed.

Lemma handles_apart_self cb : handles_apart cb cb.
Proof.
  unfold handles_apart. destruct cb; cbn; split; intros ? Hin; try apply not_elem_of_nil;
    by apply not_elem_of_nil in Hin.
Qed.

Lemma lawful_arrive n (c : conf (ledger B)) H t cb :
  safe c H -> lawful backing n c H -> cf_tasks c !! t = None -> may_send c cb ->
  lawful backing (n + 1)
    {| cf_shared := cf_shared c;
       cf_tasks := <[t := {| tk_cb := cb; tk_prog := code cb |}]> (cf_tasks c);
       cf_kernel := fun n => cf_kernel c n - debit_sum n (debits cb) |}
    (<[t := ([], debits cb)]> H).
Proof.
  intros Hs Hl Et [Hname Hcnt Hforget Hkeep Hhand].
  assert (EH : H !! t = None).
  { pose proof (safe_wt _ _ Hs t) as Ht. rewrite Et in Ht. by destruct (H !! t). }
  assert (Htot : forall m, total {| cf_shared := cf_shared c;
     cf_tasks := <[t := {| tk_cb := cb; tk_prog := code cb |}]> (cf_tasks c);
     cf_kernel := fun n => cf_kernel c n - debit_sum n (debits cb) |} (<[t := ([], debits cb)]> H) m =
     total c H m).
  { intros m. rewrite !total_hand, all_hands_insert_new, hand_sum_app by done. cbn [cf_kernel].
    unfold hand_sum at 1. rewrite debits_sum. lia. }
  split; cbn [cf_shared cf_tasks cf_kernel].
  - eapply counts_ext; [intros m; symmetry; apply Htot|apply Hl].
  - intros m Hm. rewrite Htot. pose proof (law_bound _ _ _ _ Hl m Hm). lia.
  - rewrite all_hands_insert_new, debits_ok_app by done. split; [exact Hcnt|apply Hl].
  - intros m Hm. specialize (Hforget m Hm). lia.
  - intros m Hm (t' & tk' & Ht' & Hin). destruct (decide (t = t')) as [<-|Hne].
    + rewrite lookup_insert_eq in Ht'. injection Ht' as <-. rewrite (names_no_debits cb m Hin). cbn.
      specialize (Hname m Hin Hm). lia.
    + rewrite lookup_insert_ne in Ht' by done.
      assert (debit_sum m (debits cb) < cf_kernel c m) by (apply Hkeep; [done|by exists t', tk']). lia.
  - apply Hl.
  - intros t' tk' K' h' f Et' EH' Hf. destruct (decide (t = t')) as [<-|Hne].
    + rewrite lookup_insert_eq in EH'. injection EH' as <- <-. by apply not_elem_of_nil in Hf.
    + rewrite lookup_insert_ne in Et' by done. rewrite lookup_insert_ne in EH' by done. by apply (law_seen _ _ _ _ Hl _ _ _ _ _ Et' EH' Hf).
  - intros t1 t2 tk1 tk2 [[<- <-]|[_ H1]]%lookup_insert_Some [[<- <-]|[_ H2]]%lookup_insert_Some.
    + apply handles_apart_self.
    + by apply (Hhand t2).
    + by apply (Hhand t1).
    + by apply (law_handles _ _ _ _ Hl t1 t2).
Qed.

Lemma lawful_reply n (c : conf (ledger B)) H t cb ans K h :
  lawful backing n c H -> cf_tasks c !! t = Some {| tk_cb := cb; tk_prog := Ret ans |} ->
  H !! t = Some (K, h) -> h ≡ₚ credits ans ->
  lawful backing (n + 1)
    {| cf_shared := cf_shared c; cf_tasks := delete t (cf_tasks c);
       cf_kernel := fun n => cf_kernel c n + credit_sum n (credits ans) |} (delete t H).
Proof.
  intros Hl Et EH Hh. destruct (all_hands_split H t K h EH) as [Hall _]. rewrite Hh in Hall.
  pose proof (same_requests_delete (cf_tasks c) t) as Hsame.
  assert (Htot : forall m, total {| cf_shared := cf_shared c; cf_tasks := delete t (cf_tasks c);
       cf_kernel := fun n => cf_kernel c n + credit_sum n (credits ans) |} (delete t H) m =
     total c H m).
  { intros m. rewrite !total_hand, Hall, hand_sum_app. cbn [cf_kernel]. unfold hand_sum at 2.
    rewrite credits_sum. lia. }
  split; cbn [cf_shared cf_tasks cf_kernel].
  - eapply counts_ext; [intros m; symmetry; apply Htot|apply Hl].
  - intros m Hm. rewrite Htot. pose proof (law_bound _ _ _ _ Hl m Hm). lia.
  - pose proof (law_debits _ _ _ _ Hl) as Hd. rewrite Hall, debits_ok_app in Hd. apply Hd.
  - intros m Hm. pose proof (law_kernel _ _ _ _ Hl m Hm). pose proof (credit_sum_nonneg m (credits ans)). lia.
  - intros m Hm Hu. pose proof (credit_sum_nonneg m (credits ans)).
    assert (0 < cf_kernel c m); [|lia]. apply (law_names _ _ _ _ Hl); [done|]. by eapply in_use_same.
  - apply Hl.
  - intros t' tk' K' h' f [_ Et']%lookup_delete_Some [_ EH']%lookup_delete_Some Hf.
    by apply (law_seen _ _ _ _ Hl _ _ _ _ _ Et' EH' Hf).
  - eapply handles_same; [exact Hsame|]. apply Hl.
Qed.

Lemma exec1_lawful n c H ev c' H' :
  safe c H -> lawful backing n c H -> owns n (cf_shared c) (all_hands H) -> n + 1 < 2 ^ 64 ->
  match ev with Arrive _ cb => may_send c cb | _ => True end ->
  exec1 sys c ev = Some c' -> advance sys0 c H ev H' -> lawful backing (n + 1) c' H'.
Proof.
  intros Hs Hl Ho Hn Hev He Hadv.
  destruct Hadv as [t cb Et|t cb R a k r s' K h F Et EH Ea Hh Hal|t cb ans K h Et EH Hh];
    cbn [exec1] in He; rewrite Et in He.
  - injection He as <-. by apply lawful_arrive.
  - rewrite Ea in He. injection He as <-. by apply (lawful_step n c H t cb R a k r s' K h F).
  - injection He as <-. by apply (lawful_reply n c H t cb ans K h).
Qed.

Lemma lawful_make (b : B) : lawful backing 0 (conf_make backing (ledger_start b backing)) ∅.
Proof.
  split; cbn [conf_make cf_shared cf_tasks cf_kernel shared_make sh_table].
  - rewrite abs_make. intros m Hm. unfold InodeTable_make. by rewrite lookup_singleton_ne.
  - done.
  - intros m k Hin. by apply not_elem_of_nil in Hin.
  - done.
  - intros m Hm (t & tk & Ht & _). by rewrite lookup_empty in Ht.
  - rewrite abs_make. eexists. split; [apply lookup_singleton_eq|done].
  - intros t tk K h f Ht. by rewrite lookup_empty in Ht.
  - intros t t' tk tk' Ht. by rewrite lookup_empty in Ht.
Qed.

Lemma exec_lawful b evs c :
  let c0 := conf_make backing (ledger_start b backing) in
  polite sys c0 evs -> zlen evs < 2 ^ 64 -> exec sys c0 evs = Some c ->
  exists H, safe c H /\ owns (zlen evs) (cf_shared c) (all_hands H) /\ lawful backing (zlen evs) c H.
Proof.
  intros c0. revert c. induction evs as [|ev evs IH] using rev_ind; intros c Hp Hn He.
  { injection He as <-. exists ∅. split; [apply safe_make|]. split; [apply owns_make|apply lawful_make]. }
  rewrite exec_snoc in He. rewrite zlen_app, zlen_cons, zlen_nil, Z.add_0_r in Hn |- *.
  destruct (exec sys c0 evs) as [c1|] eqn:E1; [|done].
  destruct (polite_snoc _ _ _ _ _ Hp E1) as [Hp1 Hev].
  destruct (IH c1 Hp1 ltac:(lia) eq_refl) as (H & Hs & Ho & Hl).
  destruct (exec1_safe _ _ _ _ _ Hs He) as (H' & Hadv & Hs'). exists H'. split; [done|].
  split; [by eapply (exec1_owns _ _ c1 H)|by eapply (exec1_lawful _ c1 H)].
Qed.

(** ** What is open *)

Lemma heap_fds_in (tb : ptable) o ob :
  tb_heap tb !! o = Some ob -> in_path_fd (ob_inode ob) ∈ heap_fds tb.
Proof. intros Ho. unfold heap_fds. apply list_elem_of_fmap. exists (o, ob). split; [done|]. by apply elem_of_map_to_list. Qed.

Lemma held_inode_owned (s : shared (ledger B)) R p :
  table_ok R (sh_table s) -> p ∈ R -> Fdesc (ref_fd p) ∈ table_owned s.
Proof.
  intros Hok Hp. destruct (ok_held _ _ Hok p Hp) as (ob & Ho & <-). apply elem_of_app. left.
  apply list_elem_of_fmap_2. by eapply heap_fds_in.
Qed.

Lemma valid_owned (s : shared (ledger B)) f x : valid s f -> vouches f x -> x ∈ table_owned s.
Proof.
  unfold table_owned. destruct f as [n fd|fh fd|fh d]; cbn [valid vouches].
  - intros (i & Hi & <-) ->. rewrite abs_lookup in Hi. apply bind_Some in Hi as (o & _ & Hi).
    apply fmap_Some in Hi as (ob & Ho & ->). apply elem_of_app. left.
    apply list_elem_of_fmap_2. by eapply heap_fds_in.
  - intros Hf ->. rewrite !elem_of_app. right. left. apply list_elem_of_fmap. exists (fh, fd).
    split; [done|]. by apply elem_of_map_to_list.
  - intros Hf ->. rewrite !elem_of_app. right. right. apply list_elem_of_fmap. exists (fh, d).
    split; [done|]. by apply elem_of_map_to_list.
Qed.

(** What a thread may use is open, if what it borrowed is still there. *)
Lemma covered_live n (c : conf (ledger B)) H t tk K h x :
  safe c H -> owns n (cf_shared c) (all_hands H) ->
  cf_tasks c !! t = Some tk -> H !! t = Some (K, h) -> covered (tk_cb tk) K h x ->
  (borrows (tk_cb tk) = true -> forall f, f ∈ K -> valid (cf_shared c) f) ->
  x ∈ lg_live (sh_sys (cf_shared c)).
Proof.
  intros Hs Ho Et EH Hc Hv. rewrite (owns_live _ _ _ Ho), elem_of_app.
  destruct (all_hands_split H t K h EH) as [Hall _].
  destruct Hc as [Hx|[(p & Hp & ->)|(Hb & f & Hf & Hx)]].
  - left. apply own_of_in. rewrite Hall. set_solver.
  - right. eapply held_inode_owned; [apply Hs|]. apply refs_of_in. rewrite Hall. set_solver.
  - right. eapply valid_owned; [by apply Hv|done].
Qed.
End Lawful.

(** What a thread's next action is a system call on. *)
Definition next_used {B} (c : conf B) (t : nat) : list resource :=
  match cf_tasks c !! t with
  | Some {| tk_prog := Act (Sys call) _ |} => used call
  | _ => []
  end.

Lemma next_used_covered {B} (c : conf B) H t tk K h :
  safe c H -> cf_tasks c !! t = Some tk -> H !! t = Some (K, h) ->
  Forall (covered (tk_cb tk) K h) (next_used c t).
Proof.
  intros Hs Et EH. pose proof (safe_wt _ _ Hs t) as Hwt. rewrite Et, EH in Hwt.
  unfold next_used. rewrite Et. destruct tk as [cb [ans|R a k]]; [done|].
  destruct Hwt as (F & _ & Hal & _). by destruct a.
Qed.

Section Theorems.
Context {B : Type} (sys0 : forall A, syscall A -> B -> expected A * B) (b : B) (backing : Z).
#[local] Abbreviation sys := (tracked sys0).
#[local] Abbreviation c0 := (start_conf b backing).

(** C17: system calls use what is open. In every state that any threads can
    reach, the next system call of a callback that keeps hold of what it uses
    (every one but SETATTR, READDIR and the I/O on an open file) is on
    descriptors that are open. If the kernel keeps to its protocol, that goes
    for every callback: no descriptor closed by another thread, and possibly
    reused, is ever read, written or walked. *)
Theorem calls_use_open_descriptors evs c t tk :
  exec sys c0 evs = Some c -> zlen evs < 2 ^ 64 -> cf_tasks c !! t = Some tk ->
  borrows (tk_cb tk) = false \/ polite sys c0 evs ->
  Forall (fun x => x ∈ lg_live (sh_sys (cf_shared c))) (next_used c t).
Proof.
  intros He Hn Et Hor.
  assert (Hlaw : exists H, safe c H /\ owns (zlen evs) (cf_shared c) (all_hands H) /\
    (borrows (tk_cb tk) = true -> forall K h f, H !! t = Some (K, h) -> f ∈ K -> valid (cf_shared c) f)).
  { destruct Hor as [Hb|Hp].
    - destruct (exec_safe sys0 b backing evs c He) as (H & Hs & Ho). exists H.
      split; [done|]. split; [by apply Ho|]. by rewrite Hb.
    - destruct (exec_lawful sys0 backing b evs c Hp Hn He) as (H & Hs & Ho & Hl). exists H.
      split; [done|]. split; [done|]. intros _ K h f EH Hf. by apply (law_seen _ _ _ _ Hl t tk K h f). }
  destruct Hlaw as (H & Hs & Ho & Hv). pose proof (safe_wt _ _ Hs t) as Hwt. rewrite Et in Hwt.
  destruct (H !! t) as [[K h]|] eqn:EH; [|done].
  eapply Forall_impl; [|by apply (next_used_covered c H t tk K h)]. intros x Hx.
  eapply covered_live; [done..|]. intros Hb f Hf. by eapply Hv.
Qed.

(** C18: the table's counts are the kernel's. If the kernel keeps to its protocol,
    for any interleaving: an inode the kernel has references to is in the table
    and counts at least those; a node that a request in flight names is found,
    so that no request fails with ESTALE; the root is there with the daemon's
    own descriptor; and when no callback runs, the inodes in the table are
    exactly those the kernel has references to, with exactly that many. *)
Theorem counts_are_the_kernels evs c :
  polite sys c0 evs -> exec sys c0 evs = Some c -> zlen evs < 2 ^ 64 ->
  let tb := abs (sh_table (cf_shared c)) in
  (forall n : Z, n <> NodeId_root -> 0 < cf_kernel c n ->
     exists i, tb !! n = Some i /\ cf_kernel c n <= in_nlookup i) /\
  (forall n : Z, in_use (cf_tasks c) n -> is_Some (tb !! n)) /\
  root_pinned backing tb /\
  (cf_tasks c = ∅ -> counts tb (cf_kernel c)).
Proof.
  intros Hp He Hn tb. destruct (exec_lawful sys0 backing b evs c Hp Hn He) as (H & Hs & _ & Hl).
  assert (Hfound : forall n : Z, n <> NodeId_root -> 0 < cf_kernel c n ->
     exists i, tb !! n = Some i /\ cf_kernel c n <= in_nlookup i).
  { intros n Hroot Hk. pose proof (law_counts _ _ _ _ Hl n Hroot) as Hc. fold tb in Hc.
    rewrite total_hand in Hc. pose proof (hand_sum_nonneg n _ (law_debits _ _ _ _ Hl)).
    destruct (tb !! n) as [i|]; [exists i; split; [done|lia]|lia]. }
  split; [done|]. split; [|split; [apply Hl|]].
  - intros n Hu. destruct (decide (n = NodeId_root)) as [->|Hroot].
    + destruct (law_root _ _ _ _ Hl) as (i & Hi & _). eauto.
    + destruct (Hfound n Hroot (law_names _ _ _ _ Hl n Hroot Hu)) as (i & Hi & _). eauto.
  - intros Ht. pose proof (idle_hands _ _ Hs Ht) as HH.
    eapply counts_ext; [|apply Hl]. intros n. rewrite total_hand, HH. apply Z.add_0_r.
Qed.
End Theorems.

(** ** A monitor for the protocol *)

Definition handles_apartb (cb cb' : callback) : bool :=
  bool_decide (Forall (fun fh => fh ∉ file_uses cb') (file_closes cb)) &&
  bool_decide (Forall (fun fh => fh ∉ dir_uses cb') (dir_closes cb)).

Lemma handles_apartb_sound cb cb' : handles_apartb cb cb' = true -> handles_apart cb cb'.
Proof.
  unfold handles_apartb. intros [H1 H2]%andb_true_iff. apply bool_decide_eq_true in H1, H2.
  rewrite Forall_forall in H1, H2. split; intros fh Hin; [by apply H1, list_elem_of_In|by apply H2, list_elem_of_In].
Qed.

Section Monitor.
Context {B : Type} (sys : forall A, syscall A -> B -> expected A * B).

Definition may_sendb (c : conf B) (cb : callback) : bool :=
  let gone n := debit_sum n (debits cb) in
  forallb (fun n => (n =? NodeId_root) || (0 <? cf_kernel c n)) (names cb) &&
  forallb (fun k => match k with
                    | Debit n k => (0 <=? k) && (gone n <=? cf_kernel c n)
                    | _ => true
                    end) (debits cb) &&
  forallb (fun x => let cb' := tk_cb (snd x) in
             forallb (fun n => (n =? NodeId_root) || (gone n <? cf_kernel c n)) (names cb') &&
             handles_apartb cb cb' && handles_apartb cb' cb) (map_to_list (cf_tasks c)).

Fixpoint politeb (c : conf B) (evs : list event) : bool :=
  match evs with
  | [] => true
  | ev :: evs' =>
      match ev with Arrive _ cb => may_sendb c cb | _ => true end &&
      match exec1 sys c ev with Some c' => politeb c' evs' | None => true end
  end.

Lemma debit_sum_cases n h : debit_sum n h = 0 \/ exists k, Debit n k ∈ h.
Proof.
  induction h as [|x h [IH|[k Hk]]]; [by left| |right; exists k; by right].
  destruct x as [| | | |m k]; try (by left). cbn [debit_sum foldr]. fold (debit_sum n h). rewrite IH.
  destruct (Z.eqb_spec m n) as [->|Hne]; [|by left]. right. exists k. left.
Qed.

Lemma may_sendb_sound c cb :
  (forall n, n <> NodeId_root -> 0 <= cf_kernel c n) -> may_sendb c cb = true -> may_send c cb.
Proof.
  intros Hk Hb. unfold may_sendb in Hb. rewrite !andb_true_iff in Hb. destruct Hb as [[Hn Hd] Ht].
  rewrite forallb_forall in Hn, Hd, Ht.
  assert (Htask : forall t tk, cf_tasks c !! t = Some tk ->
    forallb (fun n => (n =? NodeId_root) || (debit_sum n (debits cb) <? cf_kernel c n)) (names (tk_cb tk)) = true /\
    handles_apart cb (tk_cb tk) /\ handles_apart (tk_cb tk) cb).
  { intros t tk Et. specialize (Ht (t, tk)). rewrite <- list_elem_of_In, elem_of_map_to_list in Ht.
    specialize (Ht Et). cbn in Ht. rewrite !andb_true_iff in Ht. destruct Ht as [[? ?] ?].
    split; [done|]. split; by apply handles_apartb_sound. }
  split.
  - intros n Hin Hr. specialize (Hn n ltac:(by apply list_elem_of_In)). lia.
  - intros n k Hin. specialize (Hd (Debit n k) ltac:(by apply list_elem_of_In)). cbn in Hd. lia.
  - intros n Hr. destruct (debit_sum_cases n (debits cb)) as [->|[k Hin]]; [by apply Hk|].
    specialize (Hd (Debit n k) ltac:(by apply list_elem_of_In)). cbn in Hd. lia.
  - intros n Hr (t & tk & Et & Hin). destruct (Htask t tk Et) as [Hall _].
    rewrite forallb_forall in Hall. specialize (Hall n ltac:(by apply list_elem_of_In)). lia.
  - intros t tk Et. by apply (Htask t tk Et).
Qed.

Lemma politeb_sound c evs :
  (forall n, n <> NodeId_root -> 0 <= cf_kernel c n) -> politeb c evs = true -> polite sys c evs.
Proof.
  revert c. induction evs as [|ev evs IH]; intros c Hk; cbn [politeb polite]; [done|].
  intros [Hev Hrest]%andb_true_iff.
  assert (Hsend : match ev with Arrive _ cb => may_send c cb | _ => True end).
  { destruct ev; [by apply may_sendb_sound|done..]. }
  split; [done|]. destruct (exec1 sys c ev) as [c'|] eqn:He; [|done]. apply IH; [|done].
  intros n Hr. specialize (Hk n Hr). destruct ev as [t cb|t|t]; cbn [exec1] in He.
  - destruct (cf_tasks c !! t); [done|]. injection He as <-. cbn.
    pose proof (send_forget _ _ Hsend n Hr). lia.
  - destruct (cf_tasks c !! t) as [[cb [ans|R a k]]|]; [done| |done].
    destruct (act sys t a (cf_shared c)); [|done..]. by injection He as <-.
  - destruct (cf_tasks c !! t) as [[cb [ans|R a k]]|]; [|done..]. injection He as <-. cbn.
    pose proof (credit_sum_nonneg n (credits ans)). lia.
Qed.
End Monitor.

(** ** Witnesses, and what happens without the protocol *)

(** A file is looked up, opened, and read through its handle; the reader is
    preempted before [pread], a GETATTR arrives. *)
Definition demo_opened : list event :=
  [Arrive 0 (demo_lookup Byte.x61)] ++ replicate 9 (Step 0) ++ [Reply 0; Arrive 0 (CbOpen demo_ctx 42 0)] ++
  replicate 8 (Step 0) ++ [Reply 0].

Definition demo_reading : list event :=
  demo_opened ++ [Arrive 1 (CbRead demo_ctx 42 1 0 (zero_bytes 4))] ++ replicate 3 (Step 1) ++
  [Arrive 2 (CbStatx demo_ctx 42)].

(** Then all end, the file is closed and the inode forgotten. *)
Definition demo_closed : list event :=
  demo_reading ++ [Step 1; Reply 1] ++ replicate 5 (Step 2) ++
  [Reply 2; Arrive 1 (CbRelease demo_ctx 42 1 0); Arrive 2 (CbForget 42 1)] ++
  concat (replicate 4 [Step 1; Step 2]) ++ [Reply 1; Reply 2].

#[local] Abbreviation demo_start := (start_conf 4%nat 3).
#[local] Abbreviation demo_run := (exec (tracked demo_sys) demo_start).

Lemma calls_use_open_descriptors_witness :
  exists c, demo_run demo_reading = Some c /\ next_used c 1 = [Fdesc 5] /\
    Forall (fun x => x ∈ lg_live (sh_sys (cf_shared c))) (next_used c 1).
Proof.
  assert (Hc : (fun c => (next_used c 1, bool_decide (is_Some (cf_tasks c !! 1%nat)))) <$> demo_run demo_reading =
    Some ([Fdesc 5], true)) by (vm_compute; reflexivity).
  destruct (demo_run demo_reading) as [c|] eqn:E; [|discriminate]. injection Hc as Hu [tk Ht]%bool_decide_eq_true.
  exists c. split; [done|]. split; [done|].
  apply (calls_use_open_descriptors demo_sys 4%nat 3 demo_reading c 1 tk E); [done|exact Ht|].
  right. apply politeb_sound; [done|]. vm_compute. reflexivity.
Defined.

Lemma counts_are_the_kernels_witness :
  exists c, demo_run demo_closed = Some c /\ cf_tasks c = ∅ /\ counts (abs (sh_table (cf_shared c))) (cf_kernel c).
Proof.
  assert (Hc : (fun c => size (cf_tasks c)) <$> demo_run demo_closed = Some 0%nat) by (vm_compute; reflexivity).
  destruct (demo_run demo_closed) as [c|] eqn:E; [|discriminate]. injection Hc as Hc%map_size_empty_inv.
  exists c. split; [done|]. split; [done|].
  apply (counts_are_the_kernels demo_sys 4%nat 3 demo_closed c); [|done|done|done].
  apply politeb_sound; [done|]. vm_compute. reflexivity.
Defined.

(** The next call of the thread is on something that is closed. *)
Definition dangling (c : conf (ledger nat)) (t : nat) : bool :=
  existsb (fun x => negb (bool_decide (x ∈ lg_live (sh_sys (cf_shared c))))) (next_used c t).

(** The handle released while the read is in flight: [file_fd] returns the bare
    number, and [pread] gets a descriptor that is closed. *)
Example release_during_read_dangles :
  (fun c => dangling c 1) <$> demo_run (demo_reading ++ [Arrive 3 (CbRelease demo_ctx 42 1 0)] ++ replicate 4 (Step 3))
  = Some true.
Proof. vm_compute. reflexivity. Qed.

(** The inode forgotten while a SETATTR is in flight: [setstatx] has dropped its
    pointer when it changes the mode through /proc/self/fd. *)
Definition demo_chmod : SetStatxIn := {|
  si_mask := statx_bits.mode; si_mode := 0; si_uid := 0; si_gid := 0; si_size := 0;
  si_atime := {| ts_sec := 0; ts_nsec := 0 |}; si_ctime := {| ts_sec := 0; ts_nsec := 0 |};
  si_mtime := {| ts_sec := 0; ts_nsec := 0 |} |}.

Example forget_during_setattr_dangles :
  (fun c => dangling c 1) <$> demo_run (demo_opened ++ [Arrive 1 (CbSetstatx demo_ctx 42 0 demo_chmod)] ++
    replicate 4 (Step 1) ++ [Arrive 3 (CbForget 42 1)] ++ replicate 4 (Step 3))
  = Some true.
Proof. vm_compute. reflexivity. Qed.
