(* ===== verification/OwnedFd.v ===== *)
(** * Owners of descriptors (include/fex/session.hpp: UniqueFd,
    examples/passthrough.cpp: Fd)

    The library and the example each have a class that owns a descriptor: it can
    be moved, reset and released, and its destructor closes what it owns. The
    two differ in the order of the steps of a move assignment. A program is a
    sequence of operations on variables of such a class, and the state has what
    each variable holds and what was closed. The theorem says that descriptors
    are accounted for in every program, and that the two classes do the same. *)

From S2P Require Import Prelude.
From stdpp Require Import gmap.
#[local] Open Scope Z_scope.

Inductive owner_class := class_UniqueFd | class_Fd.

(** Variables alive with their [fd_], and the descriptors that were given to a
    variable, closed by one, or released by one. *)
Record owners := {
  ow_vars : gmap nat Z;
  ow_adopted : list Z;
  ow_closed : list Z;
  ow_released : list Z;
}.

Definition owners_start : owners :=
  {| ow_vars := ∅; ow_adopted := []; ow_closed := []; ow_released := [] |}.

Definition set_var (x : nat) (fd : Z) (s : owners) : owners := {|
  ow_vars := <[x := fd]> (ow_vars s); ow_adopted := ow_adopted s; ow_closed := ow_closed s;
  ow_released := ow_released s |}.

Definition real (fd : Z) : list Z := if 0 <=? fd then [fd] else [].

Definition adopt (fd : Z) (s : owners) : owners := {|
  ow_vars := ow_vars s; ow_adopted := real fd ++ ow_adopted s; ow_closed := ow_closed s;
  ow_released := ow_released s |}.

Definition close_fd (fd : Z) (s : owners) : owners := {|
  ow_vars := ow_vars s; ow_adopted := ow_adopted s; ow_closed := fd :: ow_closed s;
  ow_released := ow_released s |}.

(** ** The methods *)

Definition valid (fd_ : Z) : bool := 0 <=? fd_.

Definition release (x : nat) (fd_ : Z) (s : owners) : owners :=
  let s := set_var x (-1) s in {|
  ow_vars := ow_vars s; ow_adopted := ow_adopted s; ow_closed := ow_closed s;
  ow_released := real fd_ ++ ow_released s |}.

Definition reset (x : nat) (fd_ fd : Z) (s : owners) : owners :=
  let s := if valid fd_ && negb (fd_ =? fd) then close_fd fd_ s else s in
  set_var x fd s.

(** [x = std::move(y)], [x] and [y] different. *)
Definition move_assign (k : owner_class) (x y : nat) (fx fy : Z) (s : owners) : owners :=
  match k with
  | class_UniqueFd => set_var y (-1) (reset x fx fy s)
  | class_Fd => set_var y (-1) (set_var x fy (reset x fx (-1) s))
  end.

Inductive owner_op :=
| Construct (x : nat)
| ConstructFrom (x : nat) (fd : Z)
| MoveConstruct (x y : nat)
| MoveAssign (x y : nat)
| Release (x : nat)
| Reset (x : nat) (fd : Z)
| Destroy (x : nat).

Definition drop_var (x : nat) (s : owners) : owners := {|
  ow_vars := delete x (ow_vars s); ow_adopted := ow_adopted s; ow_closed := ow_closed s;
  ow_released := ow_released s |}.

(** [None]: not a program, a variable is used outside its lifetime. *)
Definition owner_step (k : owner_class) (s : owners) (o : owner_op) : option owners :=
  match o with
  | Construct x => match ow_vars s !! x with None => Some (set_var x (-1) s) | _ => None end
  | ConstructFrom x fd =>
      match ow_vars s !! x with None => Some (adopt fd (set_var x fd s)) | _ => None end
  | MoveConstruct x y =>
      match ow_vars s !! x, ow_vars s !! y with
      | None, Some fd => Some (set_var y (-1) (set_var x fd s))
      | _, _ => None
      end
  | MoveAssign x y =>
      match ow_vars s !! x, ow_vars s !! y with
      | Some fx, Some fy => Some (if decide (x = y) then s else move_assign k x y fx fy s)
      | _, _ => None
      end
  | Release x => match ow_vars s !! x with Some fd => Some (release x fd s) | _ => None end
  | Reset x fd =>
      match ow_vars s !! x with
      | Some fd_ => Some (reset x fd_ fd (if fd_ =? fd then s else adopt fd s))
      | _ => None
      end
  | Destroy x =>
      match ow_vars s !! x with Some fd => Some (drop_var x (reset x fd (-1) s)) | _ => None end
  end.

Fixpoint owner_run (k : owner_class) (s : owners) (ops : list owner_op) : option owners :=
  match ops with
  | [] => Some s
  | o :: ops' => match owner_step k s o with Some s' => owner_run k s' ops' | None => None end
  end.

(** ** The theorem *)

(** The descriptors held. *)
Definition held_fds (s : owners) : list Z := flat_map (fun x => real (snd x)) (map_to_list (ow_vars s)).

(** What the system hands out is not what a variable already holds. *)
Definition fresh_op (s : owners) (o : owner_op) : Prop :=
  match o with
  | ConstructFrom _ fd => fd ∉ held_fds s
  | Reset x fd => ow_vars s !! x = Some fd \/ fd ∉ held_fds s
  | _ => True
  end.

Fixpoint fresh_run (k : owner_class) (s : owners) (ops : list owner_op) : Prop :=
  match ops with
  | [] => True
  | o :: ops' =>
      fresh_op s o /\ match owner_step k s o with Some s' => fresh_run k s' ops' | None => True end
  end.

Record accounted (s : owners) : Prop := {
  acc_balance : ow_adopted s ≡ₚ ow_closed s ++ ow_released s ++ held_fds s;
  acc_once : NoDup (held_fds s);
}.

Lemma held_insert m x fd s :
  ow_vars s = <[x := fd]> m -> held_fds s ≡ₚ real fd ++ flat_map (fun x => real (snd x)) (map_to_list (delete x m)).
Proof.
  intros Hs. unfold held_fds. rewrite Hs, <- insert_delete_eq.
  by rewrite map_to_list_insert by apply lookup_delete_eq.
Qed.

Lemma held_var s x fd :
  ow_vars s !! x = Some fd -> held_fds s ≡ₚ real fd ++ held_fds (drop_var x s).
Proof. intros Hx. apply (held_insert (ow_vars s)). by rewrite insert_id. Qed.

Lemma held_set x fd s : held_fds (set_var x fd s) ≡ₚ real fd ++ held_fds (drop_var x s).
Proof. by apply (held_insert (ow_vars s)). Qed.

Lemma drop_new x s : ow_vars s !! x = None -> drop_var x s = s.
Proof. intros Hx. destruct s. unfold drop_var. cbn in *. by rewrite delete_id. Qed.

Lemma drop_set_ne x y fd s : x <> y -> drop_var x (set_var y fd s) = set_var y fd (drop_var x s).
Proof. intros Hne. unfold drop_var, set_var. cbn. by rewrite delete_insert_ne. Qed.

Lemma drop_set_eq x fd s : held_fds (drop_var x (set_var x fd s)) = held_fds (drop_var x s).
Proof. unfold held_fds. cbn. by rewrite delete_insert_eq. Qed.

(** Two variables, and the others. *)
Lemma held_two s x y fx fy :
  x <> y -> ow_vars s !! x = Some fx -> ow_vars s !! y = Some fy ->
  held_fds s ≡ₚ real fx ++ real fy ++ held_fds (drop_var y (drop_var x s)).
Proof.
  intros Hne Hx Hy. rewrite (held_var s x fx Hx), (held_var (drop_var x s) y fy); [done|].
  cbn. by rewrite lookup_delete_ne.
Qed.

Lemma held_set_two s x y a b :
  x <> y -> held_fds (set_var y b (set_var x a s)) ≡ₚ real b ++ real a ++ held_fds (drop_var y (drop_var x s)).
Proof.
  intros Hne. rewrite held_set, drop_set_ne by done. rewrite held_set.
  assert (held_fds (drop_var x (drop_var y s)) = held_fds (drop_var y (drop_var x s))) as ->; [|done].
  unfold held_fds. cbn. by rewrite delete_delete.
Qed.

(** Moves descriptors between what is held and what is done with. *)
Lemma accounted_move s s' L :
  accounted s -> held_fds s ≡ₚ L ++ held_fds s' ->
  ow_adopted s' = ow_adopted s -> ow_closed s' ++ ow_released s' ≡ₚ L ++ ow_closed s ++ ow_released s ->
  accounted s'.
Proof.
  intros [Hb Hn] Hh Ha Hc. split.
  - rewrite Ha, Hb, Hh, !app_assoc. f_equiv. rewrite Hc. apply Permutation_app_comm.
  - rewrite Hh in Hn. by apply NoDup_app in Hn as (_ & _ & ?).
Qed.

Lemma real_nil : real (-1) = [].
Proof. done. Qed.

Lemma valid_real fd : (if valid fd then [fd] else []) = real fd.
Proof. done. Qed.

(** [reset] to a descriptor that is not the one held: what was held is closed. *)
Lemma reset_closes x fd_ fd s :
  fd_ <> fd \/ fd < 0 ->
  exists s', reset x fd_ fd s = set_var x fd s' /\ ow_vars s' = ow_vars s /\
    ow_adopted s' = ow_adopted s /\ ow_released s' = ow_released s /\
    ow_closed s' = real fd_ ++ ow_closed s.
Proof.
  intros Hne. unfold reset, valid, real. eexists. split; [reflexivity|].
  destruct (Z.leb_spec 0 fd_) as [H0|H0]; cbn [andb]; [|done].
  destruct (Z.eqb_spec fd_ fd) as [->|]; [lia|done].
Qed.

(** The two assignments do the same when the variables do not share. *)
Lemma move_assign_same k x y fx fy s :
  fx <> fy \/ fy < 0 -> move_assign k x y fx fy s = move_assign class_UniqueFd x y fx fy s.
Proof.
  intros Hne. destruct k; [done|]. unfold move_assign, reset, valid.
  assert (set_var x fy (set_var x (-1) (if (0 <=? fx) && negb (fx =? -1) then close_fd fx s else s)) =
    set_var x fy (if (0 <=? fx) && negb (fx =? fy) then close_fd fx s else s)) as ->; [|done].
  unfold set_var at 1 2. cbn. rewrite insert_insert_eq.
  assert ((0 <=? fx) && negb (fx =? -1) = (0 <=? fx) && negb (fx =? fy)) as -> by lia. done.
Qed.

Lemma adopt_ok s x fd :
  accounted s -> fd ∉ held_fds s -> ow_vars s !! x = None -> accounted (adopt fd (set_var x fd s)).
Proof.
  intros [Hb Hn] Hf Hx. assert (Hh : held_fds (adopt fd (set_var x fd s)) ≡ₚ real fd ++ held_fds s).
  { change (held_fds (adopt fd (set_var x fd s))) with (held_fds (set_var x fd s)).
    by rewrite held_set, drop_new. }
  split; cbn [adopt ow_adopted ow_closed ow_released set_var].
  - rewrite Hh, Hb, !app_assoc. f_equiv. rewrite <- app_assoc. apply Permutation_app_comm.
  - rewrite Hh. unfold real. case_if; [|done]. by apply NoDup_cons.
Qed.

(** [reset] to a new descriptor closes the old one and takes the new one. *)
Lemma reset_ok s x fd_ fd :
  accounted s -> ow_vars s !! x = Some fd_ -> fd_ <> fd -> fd ∉ held_fds s ->
  accounted (reset x fd_ fd (adopt fd s)).
Proof.
  intros Hs Hx Hne Hf.
  destruct (reset_closes x fd_ fd (adopt fd s)) as (s1 & -> & Hv & Ha & Hr & Hc); [by left|].
  set (s2 := {| ow_vars := delete x (ow_vars s); ow_adopted := ow_adopted s;
                ow_closed := real fd_ ++ ow_closed s; ow_released := ow_released s |}).
  pose proof (held_var s x fd_ Hx) as Hh.
  assert (Hs2 : accounted s2).
  { apply (accounted_move s _ (real fd_)); cbn; [done|exact Hh|done|by rewrite app_assoc]. }
  assert (Heq : set_var x fd s1 = adopt fd (set_var x fd s2)).
  { unfold adopt, set_var. cbn. by rewrite Hv, Ha, Hr, Hc, insert_delete_eq. }
  rewrite Heq. apply adopt_ok; [done| |apply lookup_delete_eq].
  change (held_fds s2) with (held_fds (drop_var x s)). intros Hin. apply Hf. rewrite Hh.
  apply elem_of_app. by right.
Qed.

Lemma owner_step_ok k s o s' :
  accounted s -> fresh_op s o -> owner_step k s o = Some s' ->
  accounted s' /\ owner_step class_UniqueFd s o = Some s'.
Proof.
  intros Hs Hf Ho. destruct o as [x|x fd|x y|x y|x|x fd|x]; cbn [owner_step fresh_op] in *.
  - destruct (ow_vars s !! x) eqn:Ex; [done|]. injection Ho as <-. split; [|done].
    apply (accounted_move s _ []); [done| |done..]. by rewrite held_set, drop_new.
  - destruct (ow_vars s !! x) eqn:Ex; [done|]. injection Ho as <-. split; [|done]. by apply adopt_ok.
  - destruct (ow_vars s !! x) eqn:Ex; [done|]. destruct (ow_vars s !! y) as [fd|] eqn:Ey; [|done].
    injection Ho as <-. split; [|done]. assert (Hne : x <> y) by (intros ->; congruence).
    apply (accounted_move s _ []); [done| |done..]. rewrite held_set_two by done. cbn [app].
    by rewrite (drop_new x), (held_var s y fd) by done.
  - destruct (ow_vars s !! x) as [fx|] eqn:Ex; [|done]. destruct (ow_vars s !! y) as [fy|] eqn:Ey; [|done].
    injection Ho as <-. destruct (decide (x = y)) as [->|Hne]; [by split|].
    pose proof (held_two s x y fx fy Hne Ex Ey) as Hh.
    assert (Hdiff : fx <> fy \/ fy < 0).
    { destruct (Z.leb_spec 0 fy); [left|by right]. intros ->. pose proof (acc_once _ Hs) as Hn.
      rewrite Hh in Hn. unfold real in Hn. case_if_in Hn; [|lia]. cbn in Hn.
      apply NoDup_cons in Hn as [Hn _]. apply Hn. left. }
    rewrite (move_assign_same k) by done. split; [|done]. cbn [move_assign].
    destruct (reset_closes x fx fy s Hdiff) as (s1 & -> & Hv & Ha & Hr & Hc).
    apply (accounted_move s _ (real fx)); cbn; [done| |done|by rewrite Hr, Hc, app_assoc].
    rewrite held_set_two by done. unfold held_fds in *. cbn in *. by rewrite Hv.
  - destruct (ow_vars s !! x) as [fd|] eqn:Ex; [|done]. injection Ho as <-. split; [|done].
    apply (accounted_move s _ (real fd)); [done| |done|cbn].
    + change (held_fds (release x fd s)) with (held_fds (set_var x (-1) s)).
      by rewrite held_set, (held_var s x fd).
    + rewrite !app_assoc. f_equiv. apply Permutation_app_comm.
  - destruct (ow_vars s !! x) as [fd_|] eqn:Ex; [|done]. injection Ho as <-. split; [|done].
    destruct (Z.eqb_spec fd_ fd) as [->|Hne].
    + apply (accounted_move s _ []); [done| |unfold reset; cbn; rewrite Z.eqb_refl, andb_false_r; done..].
      unfold reset. rewrite Z.eqb_refl, andb_false_r. by rewrite held_set, (held_var s x fd).
    + apply reset_ok; [done..|]. destruct Hf as [Hf|Hf]; [congruence|done].
  - destruct (ow_vars s !! x) as [fd|] eqn:Ex; [|done]. injection Ho as <-. split; [|done].
    destruct (reset_closes x fd (-1) s) as (s1 & -> & Hv & Ha & Hr & Hc); [lia|].
    apply (accounted_move s _ (real fd)); cbn; [done| |done|by rewrite Hr, Hc, app_assoc].
    rewrite drop_set_eq. unfold held_fds in *. cbn. rewrite Hv. by apply held_var.
Qed.

(** C29: descriptors have one owner and are closed once. In every program over
    variables of either class, started with none, every descriptor that was
    given to a variable is, at every point, in exactly one of three places:
    closed by the variable that owned it, released to the caller, or held by one
    variable; so when the last variable is gone everything that was not released
    is closed, as often as it was opened. And the two classes do the same:
    [UniqueFd] resets to the new descriptor, [Fd] resets and then takes it. *)
Theorem owners_close_once k ops s :
  fresh_run k owners_start ops -> owner_run k owners_start ops = Some s ->
  ow_adopted s ≡ₚ ow_closed s ++ ow_released s ++ held_fds s /\ NoDup (held_fds s) /\
  (ow_vars s = ∅ -> ow_adopted s ≡ₚ ow_closed s ++ ow_released s) /\
  owner_run class_UniqueFd owners_start ops = Some s.
Proof.
  assert (Hrun : forall s0, accounted s0 -> fresh_run k s0 ops -> owner_run k s0 ops = Some s ->
    accounted s /\ owner_run class_UniqueFd s0 ops = Some s).
  { induction ops as [|o ops IH]; intros s0 Hs0; cbn [fresh_run owner_run]; [by intros _ [= <-]|].
    intros [Hf Hr] Ho. destruct (owner_step k s0 o) as [s1|] eqn:E1; [|done].
    destruct (owner_step_ok k s0 o s1 Hs0 Hf E1) as [Hs1 ->]. by apply IH. }
  intros Hf Hr. destruct (Hrun owners_start) as [[Hb Hn] Hu]; [by split; [|constructor]|done..|].
  do 2 (split; [done|]). split; [|done]. intros Hv. rewrite Hb. unfold held_fds. rewrite Hv.
  by rewrite map_to_list_empty, app_nil_r.
Qed.

(** A descriptor is opened, moved to another variable, replaced by a second one
    with the number of the first after it was closed. *)
Definition demo_owner_ops : list owner_op :=
  [ConstructFrom 0 5; Construct 1; MoveAssign 1 0; Reset 1 6; ConstructFrom 2 5; MoveAssign 2 1;
   Destroy 0; Release 2; Destroy 1; Destroy 2].

Lemma owners_close_once_witness :
  exists s, owner_run class_Fd owners_start demo_owner_ops = Some s /\
    ow_closed s = [5; 5] /\ ow_released s = [6] /\ ow_adopted s ≡ₚ ow_closed s ++ ow_released s.
Proof.
  assert (Hc : (fun s => (ow_closed s, ow_released s, size (ow_vars s))) <$>
    owner_run class_Fd owners_start demo_owner_ops = Some ([5; 5], [6], 0%nat)) by (vm_compute; reflexivity).
  destruct (owner_run class_Fd owners_start demo_owner_ops) as [s|] eqn:E; [|discriminate Hc].
  injection Hc as H1 H2 H3%map_size_empty_inv. exists s. do 3 (split; [done|]).
  apply (owners_close_once class_Fd demo_owner_ops s); [|exact E|exact H3].
  vm_compute. split; [intros Hin; inversion Hin|]. do 2 (split; [done|]).
  split; [right; intros Hin; apply list_elem_of_singleton in Hin; discriminate Hin|].
  split; [intros Hin; apply list_elem_of_singleton in Hin; discriminate Hin|]. by repeat split.
Defined.
