(* ===== verification/Process.v ===== *)
(** * The process of the passthrough program (examples/passthrough.cpp: main)

    Program.v has what [main] returns; this file has what it does to the process
    on the way: the table of descriptors (opened at the lowest free number, as
    POSIX has it), what the destructors of [Session], [PassthroughFs] and
    [PipePair] and the watchdog close, the redirection of stdio in the daemon, the
    signal dispositions and the pointer [g_session] of the handler, and the
    lifetime of the session. [main_process] is one process of the program, the
    parent or the daemon, with the states it goes through. What happens inside
    [Session::run] comes from the environment, as any sequence of events: the
    session and the daemon come to hold descriptors and give them up (what they
    hold, and that they give up nothing else, is SessionFds.v and
    PassthroughSafety.v), and the session object changes. *)

From S2P Require Import Prelude Memory Pod Abi Types DirentWriter Filesystem Replier UringWorker Mount.
From S2P Require Import Session Program.
From stdpp Require Import gmap.
From Stdlib Require Import String.
#[local] Open Scope Z_scope.

(** ** The process *)

(** The objects that hold descriptors during a session: the inode table, the
    tables of open files and of directory streams, and the session. *)
Inductive holder := InTable | InFiles | InDirs | InSession.

Inductive file := Inherited (n : Z) | Backing | PipeRead | PipeWrite | DevNull | Held (o : holder).
Inductive signal := SIGINT | SIGTERM | SIGHUP | SIGPIPE.
Inductive disposition := SIG_DFL | SIG_IGN | On_term_signal.
Inductive lifetime := Unborn | Alive (s : sess) | Destroyed.

#[export] Instance holder_eq_dec : EqDecision holder.
Proof. solve_decision. Defined.
#[export] Instance file_eq_dec : EqDecision file.
Proof. solve_decision. Defined.
#[export] Instance signal_eq_dec : EqDecision signal.
Proof. solve_decision. Defined.

(** [pr_bad]: a descriptor that is not open was closed. [pr_held]: what the objects
    of the session hold. [pr_running]: inside [Session::run]. *)
Record process := {
  pr_fds : gmap Z file;
  pr_bad : bool;
  pr_held : list (holder * Z);
  pr_sig : signal -> disposition;
  pr_g_session : bool;
  pr_session : lifetime;
  pr_running : bool;
}.

Definition process_start (t : gmap Z file) : process := {|
  pr_fds := t; pr_bad := false; pr_held := []; pr_sig := fun _ => SIG_DFL; pr_g_session := false;
  pr_session := Unborn; pr_running := false |}.

Definition with_fds (p : process) (t : gmap Z file) (bad : bool) : process := {|
  pr_fds := t; pr_bad := bad; pr_held := pr_held p; pr_sig := pr_sig p; pr_g_session := pr_g_session p;
  pr_session := pr_session p; pr_running := pr_running p |}.

Definition with_held (p : process) (l : list (holder * Z)) : process := {|
  pr_fds := pr_fds p; pr_bad := pr_bad p; pr_held := l; pr_sig := pr_sig p; pr_g_session := pr_g_session p;
  pr_session := pr_session p; pr_running := pr_running p |}.

Definition with_handlers (p : process) (h : signal -> disposition) (g : bool) : process := {|
  pr_fds := pr_fds p; pr_bad := pr_bad p; pr_held := pr_held p; pr_sig := h; pr_g_session := g;
  pr_session := pr_session p; pr_running := pr_running p |}.

Definition with_session (p : process) (l : lifetime) (running : bool) : process := {|
  pr_fds := pr_fds p; pr_bad := pr_bad p; pr_held := pr_held p; pr_sig := pr_sig p;
  pr_g_session := pr_g_session p; pr_session := l; pr_running := running |}.

(** ** Descriptors *)

(** The lowest number that is free; among one more than the table has. *)
Definition lowest_free (t : gmap Z file) : Z :=
  default 0 (head (filter (fun n => t !! n = None) (map Z.of_nat (seq 0 (S (size t)))))).

(** Moments the process went through, the last first, and the present. *)
Definition M (A : Type) : Type := process * list process -> A * (process * list process).

Definition ret {A} (a : A) : M A := fun s => (a, s).
Definition mbind {A C} (m : M A) (k : A -> M C) : M C := fun s => let '(a, s) := m s in k a s.

Definition step {A} (f : process -> A * process) : M A := fun '(p, past) =>
  let '(a, p') := f p in (a, (p', p :: past)).

Declare Scope process_scope.
Notation "'do!' x ':=' m 'in' k" := (mbind m (fun x => k))
  (at level 10, x pattern, m at level 200, k at level 200) : process_scope.
#[local] Open Scope process_scope.

(** A call that opens [f], or fails. *)
Definition sys_open (f : file) (succeeds : bool) : M Z := step (fun p =>
  if succeeds
  then (lowest_free (pr_fds p), with_fds p (<[lowest_free (pr_fds p) := f]> (pr_fds p)) (pr_bad p))
  else (-1, p)).

Definition sys_close (fd : Z) : M unit := step (fun p =>
  (tt, with_fds p (delete fd (pr_fds p)) (pr_bad p || bool_decide (pr_fds p !! fd = None)))).

Definition sys_dup2 (oldfd newfd : Z) : M unit := step (fun p =>
  (tt, match pr_fds p !! oldfd with
       | Some f => with_fds p (<[newfd := f]> (pr_fds p)) (pr_bad p)
       | None => p
       end)).

Fixpoint close_each (l : list Z) : M unit :=
  match l with
  | [] => ret tt
  | fd :: l => do! _ := sys_close fd in close_each l
  end.

(** ** Signals *)

Definition sys_sigaction (sig : signal) (d : disposition) : M unit := step (fun p =>
  (tt, with_handlers p (fun s => if decide (s = sig) then d else pr_sig p s) (pr_g_session p))).

Definition set_g_session : M unit := step (fun p => (tt, with_handlers p (pr_sig p) true)).

Definition install_signal_handlers : M unit :=
  do! _ := set_g_session in
  do! _ := sys_sigaction SIGINT On_term_signal in
  do! _ := sys_sigaction SIGTERM On_term_signal in
  do! _ := sys_sigaction SIGHUP On_term_signal in
  sys_sigaction SIGPIPE SIG_IGN.

(** What a signal does to the process: kill it, nothing, run the handler, or run
    the handler on a session that is not there. *)
Inductive delivery := Killed | Ignored | Handled (p : process) | DanglingCall.

Section Signals.
Context (E : env).

(** [if (g_session) g_session->stop();] *)
Definition on_term_signal (p : process) : delivery :=
  if pr_g_session p
  then match pr_session p with
       | Alive s => Handled (with_session p (Alive (session_stop E s)) (pr_running p))
       | Unborn | Destroyed => DanglingCall
       end
  else Handled p.

Definition deliver (p : process) (sig : signal) : delivery :=
  match pr_sig p sig with
  | SIG_DFL => Killed
  | SIG_IGN => Ignored
  | On_term_signal => on_term_signal p
  end.
End Signals.

(** ** A session *)

(** What happens inside [Session::run]: a descriptor is opened and held by an
    object, the [i]th of those held is closed, the session object changes. *)
Inductive run_event := Acquires (o : holder) | GivesUp (i : nat) | Becomes (s : sess).

Definition get_held : M (list (holder * Z)) := step (fun p => (pr_held p, p)).
Definition set_held (l : list (holder * Z)) : M unit := step (fun p => (tt, with_held p l)).
Definition set_session (l : lifetime) (running : bool) : M unit := step (fun p => (tt, with_session p l running)).
Definition set_running (running : bool) : M unit := step (fun p => (tt, with_session p (pr_session p) running)).

Definition run_step (e : run_event) : M unit :=
  match e with
  | Acquires o =>
      do! fd := sys_open (Held o) true in
      do! held := get_held in
      set_held ((o, fd) :: held)
  | GivesUp i =>
      do! held := get_held in
      match held !! i with
      | Some (o, fd) => do! _ := set_held (delete i held) in sys_close fd
      | None => ret tt
      end
  | Becomes s => set_session (Alive s) true
  end.

Fixpoint run_steps (es : list run_event) : M unit :=
  match es with
  | [] => ret tt
  | e :: es => do! _ := run_step e in run_steps es
  end.

(** What the calls of [main] return; [ve_fork] is 0 in the daemon. [ve_events] is
    what happens inside [run], [ve_watch] the number of these events before the
    watchdog ends. *)
Record proc_env := {
  ve_open : bool;
  ve_realpath : option bytes;
  ve_stat : bool;
  ve_pipe2 : bool;
  ve_fork : Z;
  ve_devnull : bool;
  ve_reads : list pipe_read;
  ve_run : SessionOptions -> Z;
  ve_events : list run_event;
  ve_watch : nat;
}.

(** The watchdog's last act. *)
Definition watchdog_ends (w : Z) : M unit := if 0 <=? w then sys_close w else ret tt.

(** [session.run(fs)], with the watchdog that has [w]. It ends by itself or, told
    that [run] is done, before it is joined. *)
Definition run_session (env : proc_env) (opts : SessionOptions) (w : Z) : M Z :=
  do! _ := set_running true in
  do! _ := run_steps (take (ve_watch env) (ve_events env)) in
  do! _ := watchdog_ends w in
  do! _ := run_steps (drop (ve_watch env) (ve_events env)) in
  do! _ := set_running false in
  ret (ve_run env opts).

(** The destructor of an object closes what it holds. *)
Definition destroy_holder (o : holder) : M unit :=
  do! held := get_held in
  do! _ := set_held (filter (fun x => fst x <> o) held) in
  close_each (map snd (filter (fun x => fst x = o) held)).

(** [~Session]. *)
Definition Session_drop : M unit :=
  do! _ := set_session Destroyed false in
  destroy_holder InSession.

(** [~PassthroughFs], its members in reverse order: [dirs_], a map of pointers,
    closes nothing; [files_]; [table_] with the backing directory. *)
Definition PassthroughFs_drop (rfd : Z) : M unit :=
  do! _ := destroy_holder InFiles in
  do! _ := destroy_holder InTable in
  sys_close rfd.

(** ** main *)

(** [~PipePair]. *)
Definition PipePair_drop (r w : Z) : M unit :=
  do! _ := (if 0 <=? r then sys_close r else ret tt) in
  if 0 <=? w then sys_close w else ret tt.

Definition parent (env : proc_env) (r w : Z) : M (option Z) :=
  do! _ := sys_close w in
  match parent_status (ve_reads env) with
  | None => ret None
  | Some status => do! _ := PipePair_drop r (-1) in ret (Some status)
  end.

(** stdio goes to /dev/null. *)
Definition redirect_stdio (env : proc_env) : M unit :=
  do! devnull := sys_open DevNull (ve_devnull env) in
  if 0 <=? devnull then
    do! _ := sys_dup2 devnull 0 in
    do! _ := sys_dup2 devnull 1 in
    do! _ := sys_dup2 devnull 2 in
    if 2 <? devnull then sys_close devnull else ret tt
  else ret tt.

(** The daemon; the write end of the pipe is the watchdog's. *)
Definition child (env : proc_env) (opts : SessionOptions) (r w : Z) : M (option Z) :=
  do! _ := sys_close r in
  do! _ := redirect_stdio env in
  do! ec := run_session env opts w in
  do! _ := PipePair_drop (-1) (-1) in
  ret (Some (if ec =? 0 then 0 else 1)).

Definition daemonize (env : proc_env) (opts : SessionOptions) : M (option Z) :=
  if negb (ve_stat env) then ret (Some 1) else
  do! r := sys_open PipeRead (ve_pipe2 env) in
  if r <? 0 then ret (Some 1) else
  do! w := sys_open PipeWrite true in
  if ve_fork env <? 0 then do! _ := PipePair_drop r w in ret (Some 1) else
  if 0 <? ve_fork env then parent env r w else child env opts r w.

Definition main_process (env : proc_env) (args : list bytes) : M (option Z) :=
  match parse_args args with
  | ExitWith status => ret (Some status)
  | Serve foreground source_override backing mountpoint =>
      do! rfd := sys_open Backing (ve_open env) in
      if rfd <? 0 then ret (Some 1) else
      let opts := program_options source_override (ve_realpath env) backing mountpoint in
      do! _ := set_session (Alive (session_make opts)) false in
      do! _ := install_signal_handlers in
      do! status := (if foreground
                     then do! ec := run_session env opts (-1) in ret (Some (if ec =? 0 then 0 else 1))
                     else daemonize env opts) in
      match status with
      | None => ret None
      | Some status =>
          do! _ := Session_drop in
          do! _ := PassthroughFs_drop rfd in
          ret (Some status)
      end
  end.

(** The moments of an execution, the last first, and its status. *)
Definition execution (env : proc_env) (args : list bytes) (t : gmap Z file) :
    option Z * process * list process :=
  let '(status, (p, past)) := main_process env args (process_start t, []) in (status, p, p :: past).

(** ** Lemmas *)

Lemma head_free (t : gmap Z file) n k x :
  head (filter (fun n => t !! n = None) (map Z.of_nat (seq k n))) = Some x ->
  t !! x = None /\ Z.of_nat k <= x /\ forall i, Z.of_nat k <= i < x -> is_Some (t !! i).
Proof.
  revert k. induction n as [|n IH]; intros k; [done|]. cbn [seq map].
  destruct (decide (t !! Z.of_nat k = None)) as [Hk|Hk].
  - rewrite filter_cons_True by done. intros [= <-]. split; [done|]. split; [lia|]. intros i Hi. lia.
  - rewrite filter_cons_False by done. intros (Hx & Hle & Hall)%IH. split; [done|]. split; [lia|].
    intros i Hi. destruct (decide (i = Z.of_nat k)) as [->|]; [by apply not_eq_None_Some|].
    apply Hall. lia.
Qed.

Lemma some_free (t : gmap Z file) : filter (fun n => t !! n = None) (map Z.of_nat (seq 0 (S (size t)))) <> [].
Proof.
  intros Hnil. set (l := map Z.of_nat (seq 0 (S (size t)))) in *.
  assert (Hsub : (list_to_set l : gset Z) ⊆ dom t).
  { intros n Hn%elem_of_list_to_set. apply elem_of_dom, not_eq_None_Some. intros Hfree.
    assert (Hin : n ∈ filter (fun n => t !! n = None) l) by by apply list_elem_of_filter.
    rewrite Hnil in Hin. by apply not_elem_of_nil in Hin. }
  apply subseteq_size in Hsub. rewrite size_list_to_set, size_dom in Hsub.
  - unfold l in Hsub. rewrite length_map, length_seq in Hsub. lia.
  - apply (NoDup_fmap_2 Z.of_nat), NoDup_seq.
Qed.

Lemma lowest_free_spec t :
  t !! lowest_free t = None /\ 0 <= lowest_free t /\
  forall i, 0 <= i < lowest_free t -> is_Some (t !! i).
Proof.
  unfold lowest_free. pose proof (some_free t) as Hne.
  destruct (filter _ _) as [|x l] eqn:Hf; [done|]. cbn [head default].
  apply (head_free t (S (size t)) 0). by rewrite Hf.
Qed.

(** With stdio open, new descriptors are past it. *)
Definition stdio_open (t : gmap Z file) : Prop := forall i, 0 <= i <= 2 -> is_Some (t !! i).

Lemma lowest_past_stdio t : stdio_open t -> 2 < lowest_free t.
Proof.
  intros Ht. destruct (lowest_free_spec t) as (Hf & H0 & _).
  destruct (Z.ltb_spec 2 (lowest_free t)); [done|]. destruct (Ht (lowest_free t)) as [f Hx]; [lia|congruence].
Qed.

Lemma stdio_open_insert t n f : stdio_open t -> stdio_open (<[n := f]> t).
Proof. intros Ht i Hi. destruct (decide (n = i)) as [<-|]; [rewrite lookup_insert_eq; eauto|]. rewrite lookup_insert_ne by done. auto. Qed.

Lemma stdio_open_delete t n : 2 < n -> stdio_open t -> stdio_open (delete n t).
Proof. intros Hn Ht i Hi. rewrite lookup_delete_ne by lia. auto. Qed.

(** ** Rules *)

(** From a state with [Pre], [m] returns with [Post], and the moments on the way
    have [Inv]. *)
Definition triple {X} (Inv Pre : process -> Prop) (m : M X) (Post : X -> process -> Prop) : Prop :=
  forall p past, Pre p -> let '(x, (p', past')) := m (p, past) in
  Post x p' /\ exists ms, past' = ms ++ past /\ Forall Inv ms.

Lemma triple_ret {X} Inv (x : X) (Pre : process -> Prop) (Post : X -> process -> Prop) :
  (forall p, Pre p -> Post x p) -> triple Inv Pre (ret x) Post.
Proof. intros H p past Hp. split; [by apply H|]. exists []. split; [done|constructor]. Qed.

Lemma triple_step {X} (Inv Pre : process -> Prop) (f : process -> X * process) (Post : X -> process -> Prop) :
  (forall p, Pre p -> Inv p /\ Post (fst (f p)) (snd (f p))) -> triple Inv Pre (step f) Post.
Proof.
  intros Hf p past Hp. cbn. destruct (Hf p Hp) as [Hi Hx]. destruct (f p) as [x p']. split; [done|].
  exists [p]. split; [done|by repeat constructor].
Qed.

Lemma triple_bind {X Y} Inv Pre (m : M X) (k : X -> M Y) Mid Post :
  triple Inv Pre m Mid -> (forall x, triple Inv (Mid x) (k x) Post) -> triple Inv Pre (mbind m k) Post.
Proof.
  intros Hm Hk p past Hp. unfold mbind. specialize (Hm p past Hp).
  destruct (m (p, past)) as [x [p1 past1]]. destruct Hm as (Hp1 & ms1 & -> & H1).
  specialize (Hk x p1 (ms1 ++ past) Hp1). destruct (k x (p1, ms1 ++ past)) as [y [p2 past2]].
  destruct Hk as (Hp2 & ms2 & -> & H2). split; [done|]. exists (ms2 ++ ms1).
  split; [by rewrite app_assoc|by apply Forall_app].
Qed.

Lemma triple_pre {X} Inv (Pre Pre' : process -> Prop) (m : M X) Post :
  triple Inv Pre m Post -> (forall p, Pre' p -> Pre p) -> triple Inv Pre' m Post.
Proof. intros Hm H p past Hp. by apply Hm, H. Qed.

Lemma triple_post {X} Inv Pre (m : M X) (Post Post' : X -> process -> Prop) :
  triple Inv Pre m Post -> (forall x p, Post x p -> Post' x p) -> triple Inv Pre m Post'.
Proof.
  intros Hm H p past Hp. specialize (Hm p past Hp). destruct (m (p, past)) as [x [p' past']].
  destruct Hm as [Hx Hms]. by split; [apply H|].
Qed.

Lemma triple_ex {X A} Inv (Pre : A -> process -> Prop) (m : M X) Post :
  (forall a, triple Inv (Pre a) m Post) -> triple Inv (fun p => exists a, Pre a p) m Post.
Proof. intros Hm p past [a Hp]. by apply (Hm a). Qed.

Lemma triple_pure {X} Inv (Q : Prop) (Pre : process -> Prop) (m : M X) Post :
  (Q -> triple Inv Pre m Post) -> triple Inv (fun p => Q /\ Pre p) m Post.
Proof. intros Hm p past [HQ Hp]. by apply Hm. Qed.

Lemma triple_fact {X} Inv (Q : Prop) (Pre : process -> Prop) (m : M X) Post :
  (forall p, Pre p -> Q) -> (Q -> triple Inv Pre m Post) -> triple Inv Pre m Post.
Proof. intros HQ Hm p past Hp. by apply Hm; [eapply HQ|]. Qed.

(** ** The table and what is held *)

(** The table [t] is [base] and, past stdio and apart from it, the descriptors [l]. *)
Definition table_of (base : gmap Z file) (l : list (Z * file)) (t : gmap Z file) : Prop :=
  NoDup l.*1 /\ (forall x, x ∈ l -> 2 < fst x /\ base !! fst x = None) /\ t = list_to_map l ∪ base.

Lemma table_perm base l l' t : l ≡ₚ l' -> table_of base l t -> table_of base l' t.
Proof.
  intros Hp (Hnd & Hl & ->). split; [by rewrite <- Hp|]. split; [intros x Hx; apply Hl; by rewrite Hp|].
  f_equal. by apply list_to_map_proper.
Qed.

Lemma table_stdio base l t i : table_of base l t -> i <= 2 -> t !! i = base !! i.
Proof.
  intros (_ & Hl & ->) Hi. rewrite lookup_union_r; [done|]. apply not_elem_of_list_to_map_1.
  intros ([n f] & -> & Hx)%list_elem_of_fmap. apply Hl in Hx. cbn in *. lia.
Qed.

Lemma table_lookup base l t n f : table_of base l t -> (n, f) ∈ l -> t !! n = Some f.
Proof. intros (Hnd & _ & ->) Hx. apply lookup_union_Some_l. by apply elem_of_list_to_map_1. Qed.

Lemma table_open base l t f : stdio_open base -> table_of base l t ->
  let n := lowest_free t in table_of base ((n, f) :: l) (<[n := f]> t).
Proof.
  intros Hb Ht n. destruct (lowest_free_spec t) as [Hf _]. fold n in Hf.
  assert (Hn : 2 < n).
  { apply lowest_past_stdio. intros i Hi. rewrite (table_stdio base l t i) by (done || lia). by apply Hb. }
  destruct Ht as (Hnd & Hl & ->). apply lookup_union_None in Hf as [Hf1 Hf2]. split; [|split].
  - cbn. apply NoDup_cons. split; [|done]. by apply not_elem_of_list_to_map.
  - intros x [->|Hx]%elem_of_cons; [done|by apply Hl].
  - cbn. by rewrite insert_union_l.
Qed.

Lemma table_close base l l' t n f : table_of base l t -> l ≡ₚ (n, f) :: l' ->
  is_Some (t !! n) /\ table_of base l' (delete n t).
Proof.
  intros Ht Hp. apply (table_perm _ _ _ _ Hp) in Ht. split.
  { exists f. eapply table_lookup; [exact Ht|]. by left. }
  destruct Ht as (Hnd & Hl & ->). cbn in Hnd. apply NoDup_cons in Hnd as [Hn Hnd].
  destruct (Hl (n, f)) as [_ Hbn]; [by left|]. split; [done|].
  split; [intros x Hx; apply Hl; by right|].
  rewrite delete_union, (delete_id base) by done. cbn. rewrite delete_insert_id; [done|].
  by apply not_elem_of_list_to_map.
Qed.

Lemma table_dup base l t f i : table_of base l t -> i <= 2 -> table_of (<[i := f]> base) l (<[i := f]> t).
Proof.
  intros Ht Hi. pose proof Ht as (Hnd & Hl & ->). split; [done|]. split.
  - intros x Hx. destruct (Hl x Hx). by rewrite lookup_insert_ne by lia.
  - rewrite insert_union_r; [done|]. apply not_elem_of_list_to_map_1.
    intros ([m g] & -> & Hx)%list_elem_of_fmap. apply Hl in Hx. cbn in *. lia.
Qed.

(** The table with stdio on /dev/null. *)
Definition daemon_table (t : gmap Z file) : gmap Z file :=
  <[2 := DevNull]> (<[1 := DevNull]> (<[0 := DevNull]> t)).

(** While the session runs, the backing directory is open, past stdio, and stdio
    is what it is in the end. *)
Definition serves_well (final : gmap Z file) (q : process) : Prop :=
  pr_running q = true ->
  (exists n, 2 < n /\ pr_fds q !! n = Some Backing) /\
  forall i, 0 <= i <= 2 -> pr_fds q !! i = final !! i.

(** What the objects hold, as descriptors of the table. *)
Definition tag (h : list (holder * Z)) : list (Z * file) := map (fun x => (snd x, Held (fst x))) h.

#[local] Instance tag_proper : Proper (Permutation ==> Permutation) tag.
Proof. intros h h' Hh. by apply Permutation_map. Qed.

Section Accounts.
Context (final : gmap Z file).

(** The state of the process: [base] and the descriptors [l], nothing bad so far;
    [run] is entered only with the final [base] and the backing directory. *)
Record accounts (base : gmap Z file) (l : list (Z * file)) (h : list (holder * Z)) (running : bool)
    (p : process) : Prop := {
  bk_stdio : stdio_open base;
  bk_table : table_of base l (pr_fds p);
  bk_bad : pr_bad p = false;
  bk_held : pr_held p = h;
  bk_running : pr_running p = running;
  bk_serves : running = true -> base = final /\ exists n, (n, Backing) ∈ l;
}.

#[local] Abbreviation triple := (triple (serves_well final)).

Lemma accounts_serve base l h r p : accounts base l h r p -> serves_well final p.
Proof.
  intros [Hio Ht _ _ Hr Hs] Hp. rewrite Hr in Hp. destruct (Hs Hp) as (-> & n & Hn). split.
  - exists n. split; [apply (proj1 (proj2 Ht) _ Hn)|by eapply table_lookup].
  - intros i Hi. by apply (table_stdio final l); [|lia].
Qed.

Lemma accounts_perm base l l' h r p : l ≡ₚ l' -> accounts base l h r p -> accounts base l' h r p.
Proof.
  intros Hp [Hio Ht Hb Hh Hr Hs]. split; try done; [by eapply table_perm|].
  intros Hrun. destruct (Hs Hrun) as (-> & n & Hn). split; [done|]. exists n. by rewrite <- Hp.
Qed.

Lemma open_accounts base l h r f :
  triple (accounts base l h r) (sys_open f true) (fun n => accounts base ((n, f) :: l) h r).
Proof.
  apply triple_step. intros p Hp. split; [by eapply accounts_serve|]. destruct Hp as [Hio Ht Hb Hh Hr Hs].
  split; try done; [by apply table_open|]. intros Hrun. destruct (Hs Hrun) as (-> & n & Hn).
  split; [done|]. exists n. by right.
Qed.

Lemma refused_accounts base l h r f :
  triple (accounts base l h r) (sys_open f false) (fun n p => n = -1 /\ accounts base l h r p).
Proof. apply triple_step. intros p Hp. split; [by eapply accounts_serve|done]. Qed.

Lemma close_accounts base l l' h r n f :
  l ≡ₚ (n, f) :: l' -> (r = true -> f <> Backing) ->
  triple (accounts base l h r) (sys_close n) (fun _ => accounts base l' h r).
Proof.
  intros Hp Hf. apply triple_step. intros p Hb. split; [by eapply accounts_serve|].
  destruct Hb as [Hio Ht Hb Hh Hr Hs]. destruct (table_close _ _ _ _ _ _ Ht Hp) as [[g Hg] Ht'].
  split; try done.
  - cbn. by rewrite Hb, Hg.
  - intros Hrun. destruct (Hs Hrun) as (-> & m & Hm). split; [done|]. exists m.
    rewrite Hp in Hm. apply elem_of_cons in Hm as [[= -> <-]|]; [by destruct Hf|done].
Qed.

Lemma get_accounts base l h r :
  triple (accounts base l h r) get_held (fun x p => x = h /\ accounts base l h r p).
Proof.
  apply triple_step. intros p Hp. split; [by eapply accounts_serve|]. split; [|done]. apply Hp.
Qed.

Lemma set_accounts base l h h' r :
  triple (accounts base l h r) (set_held h') (fun _ => accounts base l h' r).
Proof. apply triple_step. intros p Hp. split; [by eapply accounts_serve|]. by destruct Hp. Qed.

Lemma session_accounts base l h r b x :
  (b = true -> base = final /\ exists n, (n, Backing) ∈ l) ->
  triple (accounts base l h r) (set_session x b) (fun _ => accounts base l h b).
Proof. intros Hs. apply triple_step. intros p Hp. split; [by eapply accounts_serve|]. by destruct Hp. Qed.

Lemma running_accounts base l h r b :
  (b = true -> base = final /\ exists n, (n, Backing) ∈ l) ->
  triple (accounts base l h r) (set_running b) (fun _ => accounts base l h b).
Proof. intros Hs. apply triple_step. intros p Hp. split; [by eapply accounts_serve|]. by destruct Hp. Qed.

(** An event of [run]. *)
Definition open_accounts_of (base : gmap Z file) (l : list (Z * file)) (r : bool) (p : process) : Prop :=
  exists h, accounts base (l ++ tag h) h r p.

Lemma step_accounts base l n e :
  base = final -> (n, Backing) ∈ l ->
  triple (open_accounts_of base l true) (run_step e) (fun _ => open_accounts_of base l true).
Proof.
  intros Hfin Hn. apply triple_ex. intros h. destruct e as [o|i|s]; cbn [run_step].
  - eapply triple_bind; [apply open_accounts|]. intros fd. eapply triple_bind; [apply get_accounts|]. intros x.
    apply triple_pure. intros ->. eapply triple_post; [apply set_accounts|].
    intros [] p Hp. exists ((o, fd) :: h). eapply accounts_perm; [|exact Hp]. cbn. apply Permutation_middle.
  - eapply triple_bind; [apply get_accounts|]. intros x. apply triple_pure. intros ->.
    destruct (h !! i) as [[o fd]|] eqn:Hi.
    + eapply triple_bind; [apply set_accounts|]. intros [].
      eapply triple_post; [apply (close_accounts _ _ (l ++ tag (delete i h)) _ _ fd (Held o))|].
      * rewrite (delete_Permutation h i (o, fd) Hi) at 1. cbn. symmetry. apply Permutation_middle.
      * done.
      * intros [] p Hp. by eexists.
    + apply triple_ret. intros p Hp. by exists h.
  - eapply triple_post; [apply session_accounts; intros _; split; [done|]; exists n; apply elem_of_app; by left|].
    intros [] p Hp. by exists h.
Qed.

Lemma steps_accounts base l n es :
  base = final -> (n, Backing) ∈ l ->
  triple (open_accounts_of base l true) (run_steps es) (fun _ => open_accounts_of base l true).
Proof.
  intros Hfin Hn. induction es as [|e es IH]; [by apply triple_ret|].
  eapply triple_bind; [by eapply step_accounts|]. intros []. exact IH.
Qed.

(** [Session::run] and the watchdog's end of the pipe, if there is one. *)
Lemma run_accounts base l env opts n w :
  base = final -> (n, Backing) ∈ l ->
  triple (accounts base ((if 0 <=? w then [(w, PipeWrite)] else []) ++ l) [] false)
    (run_session env opts w) (fun x p => x = ve_run env opts /\ open_accounts_of base l false p).
Proof.
  intros Hfin Hn. assert (Hn' : forall a : list (Z * file), (n, Backing) ∈ a ++ l) by (intros; set_solver).
  unfold run_session. eapply triple_bind; [apply (running_accounts _ _ _ _ true); eauto|]. intros [].
  eapply triple_bind; [eapply triple_pre; [eapply (steps_accounts base _ n); [done|apply Hn']|]|].
  { intros p Hp. exists []. cbn [tag map]. by rewrite app_nil_r. }
  intros []. eapply (triple_bind _ _ _ _ (fun _ => open_accounts_of base l true)).
  { unfold watchdog_ends. destruct (0 <=? w); [|by apply triple_ret]. apply triple_ex. intros h.
    eapply triple_post; [by eapply (close_accounts _ _ (l ++ tag h) _ _ w PipeWrite)|].
    intros [] p Hp. by exists h. }
  intros []. eapply triple_bind; [by eapply steps_accounts|]. intros [].
  eapply triple_bind with (Mid := fun _ => open_accounts_of base l false).
  { apply triple_ex. intros h. eapply triple_post; [by apply (running_accounts _ _ h true false)|].
    intros [] p Hp. by exists h. }
  intros []. by apply triple_ret.
Qed.

Lemma close_each_accounts base o ns : forall l h,
  triple (accounts base (map (fun n => (n, Held o)) ns ++ l) h false) (close_each ns) (fun _ => accounts base l h false).
Proof.
  induction ns as [|n ns IH]; intros l h; [by apply triple_ret|].
  eapply triple_bind; [by eapply (close_accounts _ _ (map (fun n => (n, Held o)) ns ++ l) _ _ n (Held o))|].
  intros []. apply IH.
Qed.

(** What an object holds, and the rest. *)
Lemma tag_split o h :
  tag h ≡ₚ map (fun n => (n, Held o)) (map snd (filter (fun x => fst x = o) h)) ++
           tag (filter (fun x => fst x <> o) h).
Proof.
  induction h as [|[o' n] h IH]; [done|]. rewrite !filter_cons. cbn [fst].
  destruct (decide (o' = o)) as [->|Hne].
  - rewrite decide_False by (intros Hx; by apply Hx). cbn. by rewrite IH.
  - rewrite decide_True by done. cbn. rewrite IH. apply Permutation_middle.
Qed.

Lemma destroy_accounts base l h o :
  let h' := filter (fun x => fst x <> o) h in
  triple (accounts base (l ++ tag h) h false) (destroy_holder o) (fun _ => accounts base (l ++ tag h') h' false).
Proof.
  intros h'. unfold destroy_holder. eapply triple_bind; [apply get_accounts|]. intros x. apply triple_pure.
  intros ->. eapply triple_bind; [apply set_accounts|]. intros []. eapply triple_pre; [apply close_each_accounts|].
  intros p Hp. eapply accounts_perm; [|exact Hp]. rewrite (tag_split o h). fold h'.
  by rewrite !app_assoc, (Permutation_app_comm l).
Qed.

(** The two destructors leave the streams, and only these. *)
Lemma drops_accounts base n h :
  let h' := filter (fun x => fst x = InDirs) h in
  triple (accounts base ((n, Backing) :: tag h) h false)
    (do! _ := Session_drop in PassthroughFs_drop n)
    (fun _ => accounts base (tag h') h' false).
Proof.
  intros h'. unfold Session_drop, PassthroughFs_drop.
  eapply triple_bind; [eapply triple_bind; [by apply session_accounts|intros []; apply (destroy_accounts _ [(n, Backing)])]|].
  intros []. eapply triple_bind; [apply (destroy_accounts _ [(n, Backing)])|]. intros [].
  eapply triple_bind; [apply (destroy_accounts _ [(n, Backing)])|]. intros [].
  eapply triple_post; [eapply (close_accounts _ _ (tag _) _ _ n Backing); [cbn [app]; reflexivity|discriminate]|]. intros [] p Hp.
  replace h' with (filter (fun x => fst x <> InTable) (filter (fun x => fst x <> InFiles)
    (filter (fun x => fst x <> InSession) h))); [exact Hp|].
  rewrite !list_filter_filter. apply list_filter_iff. intros [[] m]; cbn; intuition congruence.
Qed.


Lemma accounts_past base n f l h r p : accounts base ((n, f) :: l) h r p -> 2 < n.
Proof. intros Hp. apply (proj1 (proj2 (bk_table _ _ _ _ _ Hp)) (n, f)). by left. Qed.

Lemma dup_accounts base n f l h i : 0 <= i <= 2 ->
  triple (accounts base ((n, f) :: l) h false) (sys_dup2 n i) (fun _ => accounts (<[i := f]> base) ((n, f) :: l) h false).
Proof.
  intros Hi. apply triple_step. intros p Hp. split; [by eapply accounts_serve|]. destruct Hp as [Hio Ht Hb Hh Hr Hs].
  cbn [fst snd]. rewrite (table_lookup _ _ _ n f Ht) by by left.
  split; try done; [by apply stdio_open_insert|]. apply table_dup; [done|lia].
Qed.

(** A new descriptor is not an error. *)
Lemma opened_accounts {X} base n f l h r (m m' : M X) Post :
  triple (accounts base ((n, f) :: l) h r) m Post ->
  triple (accounts base ((n, f) :: l) h r) (if n <? 0 then m' else m) Post /\
  triple (accounts base ((n, f) :: l) h r) (if 0 <=? n then m else m') Post.
Proof.
  intros Hm. split; (eapply triple_fact; [apply accounts_past|]); intros Hn;
    [destruct (Z.ltb_spec n 0)|destruct (Z.leb_spec 0 n)]; (done || lia).
Qed.

Lemma redirect_accounts base l h env :
  triple (accounts base l h false) (redirect_stdio env)
    (fun _ => accounts (if ve_devnull env then daemon_table base else base) l h false).
Proof.
  unfold redirect_stdio. destruct (ve_devnull env).
  - eapply triple_bind; [apply open_accounts|]. intros n. apply opened_accounts.
    do 3 (eapply triple_bind; [by apply dup_accounts|]; intros []).
    eapply triple_fact; [apply accounts_past|]. intros Hn. destruct (Z.ltb_spec 2 n); [|lia].
    by eapply close_accounts.
  - eapply triple_bind; [apply refused_accounts|]. intros n. apply triple_pure. intros ->. by apply triple_ret.
Qed.

(** The base in the end. *)
Definition final_base (env : proc_env) (t : gmap Z file) : gmap Z file :=
  if ve_open env && ve_stat env && ve_pipe2 env && (ve_fork env =? 0) && ve_devnull env
  then daemon_table t else t.

(** [main] past the installation of the handlers. *)
Definition over (n : Z) (st : option Z) (p : process) : Prop :=
  is_Some st -> open_accounts_of final [(n, Backing)] false p.

Lemma accounts_over base n x p : base = final -> accounts base [(n, Backing)] [] false p -> over n x p.
Proof. intros -> Hp _. by exists []. Qed.

(** The ends of the pipe. *)
#[local] Abbreviation piped r w n := [(w, PipeWrite); (r, PipeRead); (n, Backing)].

Lemma piped_past base r w n h b p : accounts base (piped r w n) h b p -> 2 < w /\ 2 < r.
Proof.
  intros Hp. pose proof (proj1 (proj2 (bk_table _ _ _ _ _ Hp))) as Hl.
  split; [apply (Hl (w, PipeWrite)); left|apply (Hl (r, PipeRead)); right; left].
Qed.

Lemma close_read base r w n :
  triple (accounts base (piped r w n) [] false) (sys_close r)
    (fun _ => accounts base [(w, PipeWrite); (n, Backing)] [] false).
Proof. apply (close_accounts _ _ _ _ _ r PipeRead); [apply perm_swap|done]. Qed.

Lemma pair_accounts base r w n : 2 < w -> 2 < r ->
  triple (accounts base (piped r w n) [] false) (PipePair_drop r w) (fun _ => accounts base [(n, Backing)] [] false).
Proof.
  intros Hw Hr. unfold PipePair_drop. destruct (Z.leb_spec 0 r), (Z.leb_spec 0 w); try lia.
  eapply triple_bind; [apply close_read|]. intros []. by eapply close_accounts.
Qed.

Lemma parent_accounts env base r w n : base = final -> 2 < w -> 2 < r ->
  triple (accounts base (piped r w n) [] false) (parent env r w) (over n).
Proof.
  intros Hfin Hw Hr. unfold parent. eapply triple_bind; [by eapply close_accounts|]. intros [].
  destruct (parent_status _) as [st|]; [|apply triple_ret; by intros p _ [? ?]].
  unfold PipePair_drop. destruct (Z.leb_spec 0 r); [|lia]. change (0 <=? -1) with false.
  eapply triple_bind with (Mid := fun _ => accounts base [(n, Backing)] [] false).
  { eapply triple_bind; [by eapply close_accounts|]. intros []. by apply triple_ret. }
  intros []. apply triple_ret. intros p. by apply accounts_over.
Qed.

Lemma child_accounts env opts t r w n :
  final = (if ve_devnull env then daemon_table t else t) -> 2 < w ->
  triple (accounts t (piped r w n) [] false) (child env opts r w) (over n).
Proof.
  intros Hfin Hw. unfold child. eapply triple_bind; [apply close_read|]. intros [].
  eapply triple_bind; [apply redirect_accounts|]. intros []. rewrite <- Hfin.
  eapply triple_bind with (Mid := fun x p => x = ve_run env opts /\ open_accounts_of final [(n, Backing)] false p).
  { eapply triple_pre; [apply (run_accounts final [(n, Backing)] env opts n w); [done|by left]|].
    intros p Hp. destruct (Z.leb_spec 0 w); [exact Hp|lia]. }
  intros ec. apply triple_pure. intros ->. unfold PipePair_drop. change (0 <=? -1) with false.
  eapply triple_bind with (Mid := fun _ => open_accounts_of final [(n, Backing)] false).
  2: { intros []. apply triple_ret. by intros p Hp _. }
  eapply triple_bind with (Mid := fun _ => open_accounts_of final [(n, Backing)] false); [|intros []]; by apply triple_ret.
Qed.

Lemma daemonize_accounts env opts t n :
  ve_open env = true -> final = final_base env t ->
  triple (accounts t [(n, Backing)] [] false) (daemonize env opts) (over n).
Proof.
  unfold final_base, daemonize. intros -> Hfin. cbn [andb] in Hfin.
  destruct (ve_stat env); cbn [negb andb] in *; [|apply triple_ret; intros p; by apply accounts_over].
  destruct (ve_pipe2 env); cbn [andb] in *.
  2: { eapply triple_bind; [apply refused_accounts|]. intros r. apply triple_pure. intros ->.
       apply triple_ret. intros p. by apply accounts_over. }
  eapply triple_bind; [apply open_accounts|]. intros r. apply opened_accounts.
  eapply triple_bind; [apply open_accounts|]. intros w.
  eapply (triple_fact _ (2 < w /\ 2 < r)); [intros p Hp; by apply piped_past in Hp|]. intros [Hw Hr].
  destruct (Z.ltb_spec (ve_fork env) 0); [|destruct (Z.ltb_spec 0 (ve_fork env))].
  - destruct (Z.eqb_spec (ve_fork env) 0); [lia|]. eapply triple_bind; [by apply pair_accounts|]. intros [].
    apply triple_ret. intros p. by apply accounts_over.
  - destruct (Z.eqb_spec (ve_fork env) 0); [lia|]. by apply parent_accounts.
  - destruct (Z.eqb_spec (ve_fork env) 0); [|lia]. by apply child_accounts.
Qed.

(** [main] in the end: the streams are left. *)
Definition main_over (st : option Z) (p : process) : Prop :=
  is_Some st -> exists h, Forall (fun x => fst x = InDirs) h /\ accounts final (tag h) h false p.

Lemma g_accounts base l h r : triple (accounts base l h r) set_g_session (fun _ => accounts base l h r).
Proof. apply triple_step. intros p Hp. split; [by eapply accounts_serve|]. by destruct Hp. Qed.

Lemma sigaction_accounts base l h r sig d :
  triple (accounts base l h r) (sys_sigaction sig d) (fun _ => accounts base l h r).
Proof. apply triple_step. intros p Hp. split; [by eapply accounts_serve|]. by destruct Hp. Qed.

Lemma handlers_accounts base l h r :
  triple (accounts base l h r) install_signal_handlers (fun _ => accounts base l h r).
Proof.
  unfold install_signal_handlers. eapply triple_bind; [apply g_accounts|]. intros [].
  do 3 (eapply triple_bind; [apply sigaction_accounts|]; intros []). apply sigaction_accounts.
Qed.

Lemma over_accounts n st :
  triple (over n (Some st))
    (do! _ := Session_drop in do! _ := PassthroughFs_drop n in ret (Some st)) main_over.
Proof.
  intros p past Hp. destruct (Hp ltac:(eauto)) as [h Hb]. cbn [app] in Hb.
  pose proof (drops_accounts final n h p past Hb) as Hd. unfold mbind in *.
  destruct (Session_drop (p, past)) as [[] s1]. destruct (PassthroughFs_drop n s1) as [[] [p2 past2]].
  destruct Hd as [Hd Hms]. split; [|exact Hms]. intros _. eexists. split; [|exact Hd].
  apply Forall_forall. by intros x [? _]%list_elem_of_filter.
Qed.

Lemma main_accounts env args t fg src backing mp :
  parse_args args = Serve fg src backing mp -> final = (if fg then t else final_base env t) ->
  triple (accounts t [] [] false) (main_process env args) main_over.
Proof.
  intros Hp Hfin. unfold main_process. rewrite Hp. destruct (ve_open env) eqn:Ho.
  2: { eapply triple_bind; [apply refused_accounts|]. intros n. apply triple_pure. intros ->.
       apply triple_ret. intros p Hb _. exists []. split; [constructor|].
       assert (final = t) as -> by (unfold final_base in Hfin; rewrite Ho in Hfin; by destruct fg). exact Hb. }
  eapply triple_bind; [apply open_accounts|]. intros n. apply opened_accounts.
  eapply triple_bind; [by apply (session_accounts _ _ _ _ false)|]. intros [].
  eapply triple_bind; [apply handlers_accounts|]. intros [].
  eapply triple_bind with (Mid := over n).
  - destruct fg; [|by apply daemonize_accounts].
    eapply triple_bind with (Mid := fun x p => x = ve_run env (program_options src (ve_realpath env) backing mp) /\
      open_accounts_of final [(n, Backing)] false p).
    + rewrite <- Hfin. apply (run_accounts final [(n, Backing)] env _ n (-1)); [done|by left].
    + intros ec. apply triple_pure. intros ->. apply triple_ret. by intros p Hb _.
  - intros [st|]; [apply over_accounts|]. apply triple_ret. by intros p _ [? ?].
Qed.
End Accounts.

(** ** Signals *)

(** The handlers are installed. *)
Definition handling (p : process) : Prop :=
  (forall s, pr_sig p s = if decide (s = SIGPIPE) then SIG_IGN else On_term_signal) /\ pr_g_session p = true.

(** And the session is there; or it is gone and [run] is not entered any more. *)
Definition armed (p : process) : Prop := handling p /\ exists s, pr_session p = Alive s.
Definition gone (p : process) : Prop := handling p /\ pr_session p = Destroyed /\ pr_running p = false.

(** [A] at every moment of a computation that starts with [A]. *)
Definition always {X} (A : process -> Prop) (m : M X) : Prop := triple A A m (fun _ => A).

Lemma always_ret {X} A (x : X) : always A (ret x).
Proof. by apply triple_ret. Qed.

Lemma always_step {X} (A : process -> Prop) (f : process -> X * process) :
  (forall p, A p -> A (snd (f p))) -> always A (step f).
Proof. intros Hf. apply triple_step. intros p Hp. split; [done|by apply Hf]. Qed.

Lemma always_bind {X Y} A (m : M X) (k : X -> M Y) :
  always A m -> (forall x, always A (k x)) -> always A (mbind m k).
Proof. intros Hm Hk. eapply triple_bind; [exact Hm|exact Hk]. Qed.

Create HintDb moments.
#[local] Hint Resolve always_ret always_bind : moments.

(** The calls and what the objects do change neither the handlers nor the session. *)
Section Steps.
Context (A : process -> Prop).
Context (Afds : forall p t b, A p -> A (with_fds p t b)) (Aheld : forall p l, A p -> A (with_held p l)).

Lemma always_open f b : always A (sys_open f b).
Proof. apply always_step. intros p Hp. destruct b; [by apply Afds|done]. Qed.
Lemma always_close fd : always A (sys_close fd).
Proof. apply always_step. intros p Hp. by apply Afds. Qed.
Lemma always_dup2 a b : always A (sys_dup2 a b).
Proof. apply always_step. intros p Hp. cbn. destruct (pr_fds p !! a); [by apply Afds|done]. Qed.
Lemma always_get : always A get_held.
Proof. by apply always_step. Qed.
Lemma always_set l : always A (set_held l).
Proof. apply always_step. intros p Hp. by apply Aheld. Qed.
#[local] Hint Resolve always_open always_close always_dup2 always_get always_set : moments.

Lemma always_close_each l : always A (close_each l).
Proof. induction l; cbn [close_each]; auto with moments. Qed.
#[local] Hint Resolve always_close_each : moments.

Lemma always_destroy o : always A (destroy_holder o).
Proof. unfold destroy_holder. auto with moments. Qed.
#[local] Hint Resolve always_destroy : moments.

Lemma always_drop r w : always A (PipePair_drop r w).
Proof. unfold PipePair_drop. apply always_bind; [|intros _]; case_if; auto with moments. Qed.

Lemma always_fs_drop n : always A (PassthroughFs_drop n).
Proof. unfold PassthroughFs_drop. auto with moments. Qed.

Lemma always_redirect env : always A (redirect_stdio env).
Proof.
  unfold redirect_stdio. apply always_bind; [auto with moments|]. intros n. case_if; [|auto with moments].
  do 3 (apply always_bind; [auto with moments|]; intros _). case_if; auto with moments.
Qed.
End Steps.

Lemma armed_session s b : always armed (set_session (Alive s) b).
Proof. apply always_step. intros p [Hh _]. split; [done|by exists s]. Qed.
Lemma armed_running b : always armed (set_running b).
Proof. apply always_step. by intros p Hp. Qed.
#[local] Hint Resolve always_open always_close always_dup2 always_get always_set always_drop always_redirect
  armed_session armed_running : moments.

Lemma armed_step e : always armed (run_step e).
Proof.
  destruct e as [o|i|s]; cbn [run_step]; [|apply always_bind; [auto with moments|]; intros h|];
    [| |auto with moments].
  - do 2 (apply always_bind; [by auto with moments|]; intros ?). by apply always_set.
  - destruct (h !! i) as [[o fd]|]; [|auto with moments].
    apply always_bind; [by apply always_set|]. intros _. by apply always_close.
Qed.

Lemma armed_fds p t b : armed p -> armed (with_fds p t b).
Proof. done. Qed.
Lemma armed_held p l : armed p -> armed (with_held p l).
Proof. done. Qed.
Lemma gone_fds p t b : gone p -> gone (with_fds p t b).
Proof. done. Qed.
Lemma gone_held p l : gone p -> gone (with_held p l).
Proof. done. Qed.
#[local] Hint Resolve armed_fds armed_held gone_fds gone_held : moments.

Lemma armed_steps es : always armed (run_steps es).
Proof. induction es; cbn [run_steps]; auto using armed_step with moments. Qed.
#[local] Hint Resolve armed_steps : moments.

(** Everything between the two ends of the session. *)
Lemma armed_run env opts w : always armed (run_session env opts w).
Proof.
  unfold run_session. do 2 (apply always_bind; [auto with moments|]; intros _).
  apply always_bind; [unfold watchdog_ends; case_if; auto with moments|auto with moments].
Qed.
#[local] Hint Resolve armed_run : moments.

Lemma armed_daemonize env opts : always armed (daemonize env opts).
Proof.
  unfold daemonize, parent, child. case_if; [auto with moments|]. apply always_bind; [auto with moments|].
  intros r. case_if; [auto with moments|]. apply always_bind; [auto with moments|]. intros w.
  case_if; [auto with moments|]. case_if; [|auto 12 with moments].
  apply always_bind; [auto with moments|]. intros _. destruct (parent_status _); auto with moments.
Qed.

(** The end of [main]. *)
Lemma gone_drops n : always gone (do! _ := destroy_holder InSession in PassthroughFs_drop n).
Proof. apply always_bind; [|intros _]; [apply always_destroy|apply always_fs_drop]; auto with moments. Qed.

(** [stop] was called: the flag is set, the eventfd written if there is one, and
    nothing else of the process is changed. *)
Definition stopped (q q' : process) : Prop := exists s s' r,
  pr_session q = Alive s /\ q' = with_session q (Alive s') (pr_running q) /\
  ss_impl s' = set_stopping (ss_impl s) /\
  ss_trace s' = ss_trace s ++
    (if 0 <=? impl_stop_efd (ss_impl s) then [(EWriteStop (impl_stop_efd (ss_impl s)), r)] else []).

Section Delivery.
Context (E : env).

Lemma stop_stopped q s :
  pr_session q = Alive s -> stopped q (with_session q (Alive (session_stop E s)) (pr_running q)).
Proof.
  intros Hs. exists s, (session_stop E s). eexists. split; [done|]. split; [done|]. unfold session_stop.
  cbn [with_impl ss_impl set_stopping impl_stop_efd ss_trace]. case_if; cbn; by rewrite ?app_nil_r.
Qed.

Lemma armed_delivers q : armed q ->
  deliver E q SIGPIPE = Ignored /\
  forall s, s <> SIGPIPE -> exists q', deliver E q s = Handled q' /\ stopped q q'.
Proof.
  intros [[Hs Hg] [x Hx]]. unfold deliver, on_term_signal. split; [by rewrite Hs|].
  intros s Hne. rewrite Hs, Hg, Hx, decide_False by done. eexists. split; [done|by apply stop_stopped].
Qed.

Lemma gone_delivers q : gone q ->
  forall s, deliver E q s = if decide (s = SIGPIPE) then Ignored else DanglingCall.
Proof.
  intros [[Hs Hg] [Hx _]] s. unfold deliver, on_term_signal. rewrite Hs, Hg, Hx. by destruct (decide _).
Qed.
End Delivery.

(** ** Theorems *)

(** C27: the process keeps its descriptors in order. Started with stdio open, and
    whatever its calls return and its callbacks and session hold and give up while
    it serves, [main] never closes a descriptor that is not open. When it returns,
    what is open are the descriptors it was started with, in the daemon with stdio
    on /dev/null, and exactly the directory streams that were open when [run]
    returned, which nobody closes: the session and the tables of nodes and open
    files have closed all they held. And while the session runs, the backing
    directory is open at a number past stdio, untouched by the redirection. *)
Theorem process_keeps_descriptors env args t status p moments :
  stdio_open t -> execution env args t = (Some status, p, moments) ->
  pr_bad p = false /\
  exists base, (base = t \/ ve_fork env = 0 /\ ve_devnull env = true /\ base = daemon_table t) /\
    pr_fds p = list_to_map (tag (pr_held p)) ∪ base /\
    Forall (fun x => fst x = InDirs /\ 2 < snd x /\ base !! snd x = None) (pr_held p) /\
    NoDup (map snd (pr_held p)) /\
    Forall (serves_well base) moments.
Proof.
  intros Ht He. unfold execution in He. destruct (parse_args args) as [st|fg src backing mp] eqn:Hp.
  { unfold main_process in He. rewrite Hp in He. injection He as <- <- <-. split; [done|]. exists t.
    split; [by left|]. cbn. rewrite map_empty_union. by repeat constructor. }
  set (base := if fg then t else final_base env t).
  assert (Hs : accounts base t [] [] false (process_start t)).
  { split; try done. split; [constructor|]. split; [by intros x ?%not_elem_of_nil|]. by rewrite list_to_map_nil, map_empty_union. }
  pose proof (main_accounts base env args t fg src backing mp Hp eq_refl (process_start t) [] Hs) as Hm.
  destruct (main_process env args (process_start t, [])) as [st [q past]]. injection He as -> -> <-.
  destruct Hm as [Hm (ms & -> & Hms)]. rewrite app_nil_r.
  destruct (Hm ltac:(eauto)) as (h & Hh & Hb). pose proof (accounts_serve _ _ _ _ _ _ Hb) as Hq.
  destruct Hb as [_ (Hnd & Hl & Htab) Hbad Hheld _ _]. split; [done|]. exists base. rewrite Hheld. split.
  { unfold base, final_base. destruct fg; [by left|].
    destruct (ve_open env), (ve_stat env), (ve_pipe2 env), (Z.eqb_spec (ve_fork env) 0), (ve_devnull env); auto. }
  split; [done|]. split; [|split].
  - rewrite Forall_forall in Hh |- *. intros x Hx. split; [by apply Hh|].
    apply (Hl (snd x, Held (fst x))). by apply (list_elem_of_fmap_2 (fun x => (snd x, Held (fst x)))).
  - unfold tag in Hnd. by rewrite map_map in Hnd.
  - by apply Forall_cons.
Qed.

(** C28: termination signals and the session. An execution that gets past opening
    the backing directory has three parts. Until the last handler is in place
    [Session::run] is not entered, and a signal kills the program or has its
    handler already. From then on, with [run] inside, SIGPIPE does nothing, and
    SIGINT, SIGTERM and SIGHUP call [stop] on the session, which is there: the flag
    is set and the eventfd written, if [run] has made it, and nothing else of the
    process changes. But in the end the session is destroyed while the handlers and
    their pointer to it are still there: a signal that comes then calls [stop] on an
    object that is gone. *)
Theorem signals_stop_session E env args t status p moments :
  execution env args t = (Some status, p, moments) -> ve_open env = true ->
  (exists fg src backing mp, parse_args args = Serve fg src backing mp) ->
  exists after during before, moments = after ++ during ++ before /\ after <> [] /\ during <> [] /\
    Forall (fun q => pr_running q = false /\ pr_sig q SIGPIPE = SIG_DFL /\
      forall s, deliver E q s = Killed \/ exists q', deliver E q s = Handled q' /\ stopped q q') before /\
    Forall (fun q => deliver E q SIGPIPE = Ignored /\
      forall s, s <> SIGPIPE -> exists q', deliver E q s = Handled q' /\ stopped q q') during /\
    Forall (fun q => pr_running q = false /\
      forall s, deliver E q s = if decide (s = SIGPIPE) then Ignored else DanglingCall) after.
Proof.
  intros He Ho (fg & src & backing & mp & Hp). revert He.
  unfold execution, main_process. rewrite Hp, Ho. unfold mbind at 1, sys_open at 1, step at 1.
  destruct (lowest_free_spec t) as (_ & H0 & _). cbn [process_start pr_fds].
  set (n := lowest_free t) in *. clearbody n. destruct (Z.ltb_spec n 0); [lia|].
  set (opts := program_options src _ _ _). clearbody opts.
  set (body := if fg then _ else daemonize env opts).
  assert (Hb : always armed body).
  { destruct fg; [|apply armed_daemonize]. apply always_bind; [apply armed_run|intros ec; apply always_ret]. }
  clearbody body. unfold install_signal_handlers, set_g_session, sys_sigaction, set_session, mbind at 1, step.
  cbv beta iota zeta delta [mbind].
  match goal with |- context [body (?p, ?past)] =>
    pose proof (Hb p past) as Hbody; set (before := past) in *; destruct (body (p, before)) as [[st|] [p1 past1]]
  end; [|done].
  destruct Hbody as (Ha & ms & -> & Hms).
  { split; [|by eexists]. split; [|done]. intros []; reflexivity. }
  destruct Ha as [Hh Hal]. set (q0 := with_session p1 Destroyed false).
  pose proof (gone_drops n q0 (p1 :: ms ++ before) (conj Hh (conj eq_refl eq_refl))) as Hd.
  unfold Session_drop, set_session, mbind, step in *. fold q0.
  destruct (destroy_holder InSession (q0, p1 :: ms ++ before)) as [[] s1].
  destruct (PassthroughFs_drop n s1) as [[] [p2 past2]]. destruct Hd as (Hp2 & ms2 & -> & Hms2).
  intros [= <- <- <-]. exists (p2 :: ms2), (p1 :: ms), before. split; [done|]. split; [done|]. split; [done|].
  split; [|split].
  - unfold before. repeat (apply Forall_cons; split); [..|constructor]; (split; [done|]; split; [done|]);
      intros []; (by left) || (right; eexists; split; [reflexivity|by apply stop_stopped]).
  - apply Forall_cons. split; [by apply armed_delivers|]. eapply Forall_impl; [exact Hms|apply armed_delivers].
  - apply Forall_cons. split; [split; [apply Hp2|by apply gone_delivers]|].
    eapply Forall_impl; [exact Hms2|]. intros q Hq. split; [apply Hq|by apply gone_delivers].
Qed.

(** What a computation returns. *)
Lemma fst_mbind {X Y} (m : M X) (k : X -> M Y) s : fst (mbind m k s) = fst (k (fst (m s)) (snd (m s))).
Proof. unfold mbind. by destruct (m s). Qed.

Lemma fst_open f b s : exists n, 0 <= n /\ fst (sys_open f b s) = if b then n else -1.
Proof.
  destruct s as [p past]. exists (lowest_free (pr_fds p)). split; [apply lowest_free_spec|]. by destruct b.
Qed.

Lemma fst_run env opts w s : fst (run_session env opts w s) = ve_run env opts.
Proof. unfold run_session. by rewrite !fst_mbind. Qed.

Lemma fst_daemonize env opts s :
  fst (daemonize env opts s) =
    if negb (ve_stat env) then Some 1 else if negb (ve_pipe2 env) then Some 1 else
    if ve_fork env <? 0 then Some 1 else
    if 0 <? ve_fork env then parent_status (ve_reads env)
    else Some (if ve_run env opts =? 0 then 0 else 1).
Proof.
  unfold daemonize. destruct (ve_stat env); cbn [negb]; [|done]. rewrite fst_mbind.
  destruct (fst_open PipeRead (ve_pipe2 env) s) as (r & Hr & ->). destruct (ve_pipe2 env); cbn [negb]; [|done].
  destruct (Z.ltb_spec r 0); [lia|]. rewrite fst_mbind. case_if; [by rewrite fst_mbind|]. case_if.
  - unfold parent. rewrite fst_mbind. destruct (parent_status _); [by rewrite fst_mbind|done].
  - unfold child. by rewrite !fst_mbind, fst_run.
Qed.

(** The process refines the program. With descriptors, signals and
    destructors written out, [main] returns what Program.v says, for whatever
    table of descriptors it starts with. *)
Theorem process_refines_main env args t :
  fst (fst (execution env args t)) =
  main {| pe_open := fun _ => if ve_open env then 0 else -1;
    pe_realpath := fun _ => ve_realpath env; pe_stat := fun _ => if ve_stat env then 0 else -1;
    pe_pipe2 := if ve_pipe2 env then 0 else -1; pe_fork := ve_fork env; pe_reads := ve_reads env;
    pe_run := ve_run env |} args.
Proof.
  assert (Hx : fst (fst (execution env args t)) = fst (main_process env args (process_start t, []))).
  { unfold execution. by destruct (main_process _ _ _) as [? []]. }
  rewrite Hx. clear Hx. unfold main, main_process.
  destruct (parse_args args) as [st|fg src backing mp]; [done|]. cbn [pe_open pe_stat pe_pipe2 pe_fork pe_reads pe_run pe_realpath].
  rewrite fst_mbind. destruct (fst_open Backing (ve_open env) (process_start t, [])) as (n & Hn & ->).
  destruct (ve_open env); [|done]. destruct (Z.ltb_spec n 0); [lia|]. cbn [Z.ltb Z.compare].
  rewrite !fst_mbind. destruct fg.
  - rewrite !fst_mbind, fst_run. cbn [ret fst]. by rewrite !fst_mbind.
  - rewrite fst_daemonize. destruct (ve_stat env); cbn [negb Z.ltb Z.compare]; [|by rewrite !fst_mbind].
    destruct (ve_pipe2 env); cbn [negb Z.ltb Z.compare]; [|by rewrite !fst_mbind].
    case_if; [by rewrite !fst_mbind|]. case_if; [|by rewrite !fst_mbind].
    destruct (parent_status _); [by rewrite !fst_mbind|done].
Qed.

(** ** Witnesses, and stdio that is not open *)

Definition demo_fds : gmap Z file := <[0 := Inherited 0]> (<[1 := Inherited 1]> {[2 := Inherited 2]}).

(** The session takes a descriptor, a node is looked up and forgotten while a
    directory is opened, and the watchdog ends in between. *)
Definition demo_proc_env (fork : Z) : proc_env := {|
  ve_open := true; ve_realpath := None; ve_stat := true; ve_pipe2 := true; ve_fork := fork;
  ve_devnull := true; ve_reads := [ReadByte]; ve_run := fun _ => 0;
  ve_events := [Acquires InSession; Acquires InTable; Acquires InDirs; GivesUp 1]; ve_watch := 2 |}.

Definition demo_args : list bytes := [str "/src"; str "/mnt"].

Lemma demo_stdio : stdio_open demo_fds.
Proof.
  intros i Hi. assert (i = 0 \/ i = 1 \/ i = 2) as [-> | [-> | ->]] by lia; vm_compute; eauto.
Qed.

(** The directory was not closed before the end: its stream, and only that, is left. *)
Lemma process_keeps_descriptors_witness :
  exists p moments, execution (demo_proc_env 0) demo_args demo_fds = (Some 0, p, moments) /\
    pr_bad p = false /\ existsb pr_running moments = true /\ map fst (pr_held p) = [InDirs] /\
    exists base, pr_fds p = list_to_map (tag (pr_held p)) ∪ base /\ Forall (serves_well base) moments.
Proof.
  assert (Hx : let '(st, p, ms) := execution (demo_proc_env 0) demo_args demo_fds in
    st = Some 0 /\ existsb pr_running ms = true /\ map fst (pr_held p) = [InDirs]) by (vm_compute; done).
  destruct (execution (demo_proc_env 0) demo_args demo_fds) as [[st p] moments] eqn:E.
  destruct Hx as (-> & Hrun & Hh). exists p, moments. split; [reflexivity|].
  destruct (process_keeps_descriptors _ _ _ _ _ _ demo_stdio E) as (Hbad & base & _ & Hf & _ & _ & Hall).
  split; [exact Hbad|]. split; [exact Hrun|]. split; [exact Hh|]. exists base. split; [exact Hf|exact Hall].
Defined.

Definition demo_outside : env := {|
  en_result := fun _ _ => 8; en_stop := fun _ => false;
  en_start := fun _ => {| se_mmap := fun _ => 0; se_queue_init := 0; se_sq_entries := 4; se_submit := 3 |};
  en_init_served := fun _ => true; en_error := fun _ => 0; en_hardware_concurrency := 1 |}.

Lemma signals_stop_session_witness :
  exists p moments, execution (demo_proc_env 0) demo_args demo_fds = (Some 0, p, moments) /\
    exists after during before, moments = after ++ during ++ before /\ after <> [] /\ during <> [] /\
    Forall (fun q => deliver demo_outside q SIGPIPE = Ignored /\
      forall s, s <> SIGPIPE -> exists q', deliver demo_outside q s = Handled q' /\ stopped q q') during.
Proof.
  assert (Hx : let '(st, _, _) := execution (demo_proc_env 0) demo_args demo_fds in st = Some 0)
    by (vm_compute; reflexivity).
  destruct (execution (demo_proc_env 0) demo_args demo_fds) as [[st p] moments] eqn:E. subst st. exists p, moments. split; [reflexivity|].
  destruct (signals_stop_session demo_outside _ _ _ _ _ _ E eq_refl) as (a & d & b & H1 & H2 & H3 & _ & H4 & _).
  { exists false, None, (str "/src"), (str "/mnt"). reflexivity. }
  exists a, d, b. split; [exact H1|]. split; [exact H2|]. split; [exact H3|exact H4].
Defined.

(** A signal while the session has no eventfd yet sets the flag and writes nothing. *)
Example early_signal_sets_flag :
  let s := session_make (program_options None None (str "/src") (str "/mnt")) in
  let q := with_handlers (with_session (process_start demo_fds) (Alive s) true) (fun _ => On_term_signal) true in
  match deliver demo_outside q SIGTERM with
  | Handled q' => match pr_session q' with
                  | Alive s' => impl_stopping (ss_impl s') = true /\ ss_trace s' = []
                  | _ => False
                  end
  | _ => False
  end.
Proof. by vm_compute. Qed.

(** Started with stdin closed, the backing directory is opened as descriptor 0,
    and the daemon's redirection of stdin closes it: while the session runs the
    backing directory is not open. *)
Example closed_stdin_loses_backing :
  let '(status, p, moments) := execution (demo_proc_env 0) demo_args (delete 0 demo_fds) in
  status = Some 0 /\
  existsb (fun q => pr_running q && negb (existsb (fun x => bool_decide (snd x = Backing))
             (map_to_list (pr_fds q)))) moments = true.
Proof. vm_compute. done. Qed.
